(* ===== verification/_CoqProject ===== *)
-Q . S2P
Prelude.v
Bytes.v
NetAddr.v
NetText.v
Base64.v
Checksum.v
Wire.v
Replay.v
Stun.v
Invite.v
Schema.v
Storage.v
Addressing.v
StorageSpec.v
StorageCalls.v
StorageProps.v
GroupProps.v
GroupOwner.v
GroupJoin.v
StorageAtomic.v
Durable.v
Migrations.v
Auth.v
Limits.v
ApiTypes.v
ServerConfig.v
Hub.v
Api.v
ApiSafe.v
ApiAuth.v
Session.v
Netlog.v
Ipc.v
Peer.v
Mesh.v
Handle.v
Pump.v
PumpProps.v
MeshWf.v
MeshSafe.v
MeshFrame.v
MeshProps.v
PumpRun.v
Threads.v
Control.v
Core.v
CoreNetwork.v
CoreConnect.v
CoreInv.v
CoreSafe.v
CoreProps.v
CoreLinks.v
CoreDesk.v
CoreRest.v
CoreRaces.v
Config.v
IdentityFile.v
IdentityProps.v
Startup.v
RollingLog.v
Multicast.v
MulticastRun.v
Adapter.v
AdapterProps.v
Firewall.v
Service.v
ServiceProps.v
Commands.v
IpcServer.v
IpcPipe.v
IpcPipeProps.v
IpcPipeRun.v
IpcDesk.v
MeshRelay.v
MeshTraffic.v
MeshOutsider.v
MeshLink.v
Meeting.v
MeshPatience.v
MeshQuery.v
