(* ===== verification/Prelude.v ===== *)
(** 192168: virtual LANs for games, verified.

    The program has three parts.  A coordination server (src/server) keeps devices, groups,
    memberships and sessions in SQLite and tells the members of a group about each other.
    A daemon on every machine (src/daemon) registers with it, opens a session in one group
    at a time, and carries the packets of a virtual network adapter over encrypted
    peer-to-peer links.  What both speak is in src/protocol.  A Windows app drives the
    daemon over a pipe.  This development models the Go code of the server's and the
    daemon's logic and of the protocol between them, as executable definitions, and proves
    what makes it correct; where the code does something else than it says, that is proved
    too.

    ** The library

    Foundations.  [Prelude] (this file): outcomes of Go code ([go]: a value, an error, a
    panic), state passing ([st]), programs that can panic ([prog], with the weakest
    precondition [wp]), integers at their width ([u8], [u16], [u32], [u64]), records with
    settable fields.  [Bytes], [NetAddr], [NetText] and [Base64] are what the program uses
    of encoding/binary, net/netip, strconv and encoding/base64.  [Threads] is goroutines
    under a mutex that wait for each other and sit in selects: a resumption type, its
    interleavings, a rely-guarantee invariant rule, and a rule under which a run comes to
    where nobody is left but loops whose contexts go on.  [Durable] is code whose effects outlive it, in a process that may be
    gone at any call.

    The wire (src/protocol/transport, src/protocol/session, src/daemon/stun).  [Wire] is
    wire.go and payloads.go, [Replay] replay.go, [Session] session.go over a class for the
    Noise library, [Stun] stun.go.

    The links (src/daemon/mesh, src/daemon/netlog).  [Peer] is peer.go, [Mesh] mesh.go and
    the sending half of handle.go, [Handle] its receiving half.  [MeshWf] and [MeshSafe] are
    the well-formedness of the mesh and its preservation, [MeshFrame] what operations leave
    alone, [MeshProps], [MeshRelay], [MeshTraffic], [MeshOutsider] and [MeshPatience] the
    theorems of one daemon.  [MeshLink] is two of them and the datagrams between them: a
    handshake, and whatever is sent afterwards; [Meeting] is two whole daemons, from what the
    server tells each of the other to the open link.  [MeshQuery] is the query for this machine's
    public address, a goroutine that waits while the others go on, and its theorems.
    [Netlog] is the account of packets every one of them writes to.

    The packet loops (src/daemon/core/pump.go).  [Checksum] is the internet checksum and its
    change in place, [Pump] the loops, [PumpProps] and [PumpRun] their theorems.

    The server (src/server, src/protocol/auth, src/protocol/api, src/protocol/invite).
    [Schema] is the database the migrations leave behind, [Storage] every function of
    src/server/storage; [StorageSpec] is an abstract description of the database as atomic
    steps, which [StorageCalls] shows the storage to refine; [Addressing], [StorageProps],
    [GroupProps], [GroupOwner], [GroupJoin] and [StorageAtomic] are its
    theorems.  [Auth] is signed registration, [Limits] the rate limiter, [Hub] the realtime
    hub, [Invite] codes and links, [ApiTypes] the payloads.  [Api] is the handlers and the loops
    behind them (a realtime connection, the expiry of sessions), [ApiSafe]
    their refinement of the same description, [ApiAuth] what a caller can and cannot do, and
    what the page of an invite gives away.  [Migrations] is how the database is opened and
    brought up to date, [ServerConfig] what the server reads of its environment and the
    document it describes itself with, [Config] the daemon's half, that the two agree, and the
    server's process.

    The daemon's brain (src/daemon/core, src/daemon/control).  [Control] is the client of the
    server's API: it produces the requests [Api] takes and reads the responses [Api] writes.
    [Core] has the state and client.go, [CoreNetwork] network.go, [CoreConnect] connect.go and
    core.go.  Each operation is the thread of its goroutine, one atomic step per critical
    section.  It asks of the mesh what the class [Links] says, and of the machine what the
    class [Host] says; [CoreLinks] shows that the mesh of [Mesh] and [Handle] is such a
    [Links], laws included.  [CoreInv] is the invariant, [CoreSafe] its preservation by every
    operation, [CoreProps], [CoreRest] and [CoreRaces] the theorems.  [CoreDesk] puts
    everything together: a core on the real mesh, talking to the real handlers of [Api].
    [Ipc] is the vocabulary it shares with the app.

    What the daemon keeps, and how it comes up (src/daemon/identity, src/daemon/config,
    src/daemon/cmd).  [IdentityFile] is the identity and the settings in their files,
    [IdentityProps] its theorems, [Startup] the daemon's way up to its core, through the
    serving of the pipe and down again.

    The machine (src/daemon/tun, src/daemon/service).  [Adapter] is the virtual adapter, its
    reads, writes and closes as goroutines moved one step at a time ([step], [act_on]), and
    [AdapterProps] its theorems; [Multicast] is the contest for the machine's discovery
    route, [MulticastRun] what Windows is documented to do and its theorems;
    [Firewall] the firewall's rules.  [Service] is the Windows service and the commands that
    manage it, [ServiceProps] its lemmas, [Commands] the program's command line and its log.

    The pipe to the app (src/daemon/ipcserver, src/protocol/ipc).  [IpcServer] is what one
    request comes to, as a thread of the core, and its theorem.  [IpcPipe] is the
    connections and their goroutines, queues and broadcasts as a step relation that is
    executable ([move]: one goroutine, or the app, by one step); [IpcPipeProps] its
    invariants, [IpcPipeRun] the theorems of a run, [IpcDesk] concrete runs.  [RollingLog]
    is the log files (src/daemon/config/log.go), which the app can have cleared.

    ** What is shown

    Nothing brings it down: the mesh under any datagrams ([MeshProps]), the packet loops under
    any packets ([PumpRun]), the core under any interleaving of requests, goroutines and
    events ([CoreSafe]), the pipe under any order of its goroutines ([IpcPipeRun]), the
    handlers under any requests ([ApiSafe]), the hub under any interleaving ([Hub]), the
    adapter under any reads, writes and closes ([AdapterProps]), the decoders under any bytes
    ([Wire], [Stun]).

    State stays in order: the database's constraints, one address and one owner per place
    ([StorageProps]); the links' state ([Peer]); the core's screen and links ([CoreSafe]).  And
    it stays across a process that dies at any point: every migration runs once
    ([Migrations]), an identity is the old one or the new one ([IdentityProps]), and a daemon
    that is started again is the same device ([Startup]).

    Secrecy and authority: only authentic packets reach the adapter ([MeshTraffic]), a counter
    is used once by a session and accepted once by a replay window ([Peer], [Replay]), nothing changes without a token, a signature
    stands for one registration ([ApiAuth], [Auth]), the removed stay out ([GroupProps]).

    Operations do what they promise: joining, addresses, invites, and what is left when they fail
    ([GroupJoin], [Addressing], [StorageAtomic]); letting in no more than the limit
    ([Limits]); opening a link with somebody the server
    told of ([Meeting]) and carrying every packet over it ([MeshLink]); relaying ([MeshRelay]);
    connecting, which ends in one of two ways, and disconnecting, which ends a session if
    there is one ([CoreProps]), with nobody waiting forever ([CoreRest]); going down with everything closed
    ([Startup]); answering every request once, in order, and delivering every event
    ([IpcServer], [IpcPipeRun]); ending every connection ([IpcPipeRun]); keeping the end of a
    log ([RollingLog]); finding the own address with a STUN server ([MeshQuery]); taking the
    discovery route and giving it back ([MulticastRun]); closing the adapter ([AdapterProps]);
    the commands of the service ([Commands]); a server and a daemon that agree on an address
    ([Config]); broadcast and multicast for LAN discovery ([PumpRun]); packet accounts
    ([Netlog], [MeshTraffic]).

    Optimised code is its reference: the replay bitmap is the set of accepted counters
    ([Replay]), the in-place checksum is the checksum ([PumpProps]), the address search is the
    minimum ([Addressing]), the codecs are inverse to each other ([Wire], [Stun], [Invite]).

    Where the code falls short: a device id is all a takeover needs ([ApiAuth]), a group can
    lose its owner ([GroupOwner]), two Seals can share a nonce ([Session]), a restart between
    the halves of [accept] lets a copy in ([Peer]), an overtaken attempt crowds a window
    ([Limits]), an adapter can
    outlive its session, two callers can strand one and the app can be left with an old
    state ([CoreRaces]), an app that is cut loose is not told ([IpcPipeRun]), one failed roll
    silences a log ([RollingLog]), the page of an invite answers every guess
    ([ApiAuth]), a torn settings file stops the daemon ([IdentityProps]), a public address
    with its scheme in capitals has no realtime channel and a server that cannot listen exits
    as if all were well ([Config]), an uninstall that was
    refused says it is done ([Commands]), a side that waits never
    gives up ([MeshPatience]), an unauthenticated close is obeyed and the log can be filled
    ([MeshOutsider]), leaving can fail after it happened ([StorageAtomic]).

    ** Bounds and fuel

    The carry loop of a checksum is unrolled three times, which [Checksum.fold_carries_norm]
    shows enough for any 32-bit sum.  The search for an address takes one step more than
    there are taken addresses ([Storage.lowest_free]; [Addressing] shows the answer is right).
    Drawing an invite code is tried five times, as in the code.  Attributes of a STUN reply
    are read with the length of the reply as fuel; each takes at least four bytes.  The steps
    a connection of the app has left are counted by [left_to_do], which every step of its
    goroutines lowers.  The loops that run as long as a session ([keepAlive], [runLinks], [watchTraffic], [publish_turns],
    [Realtime]) take a number of turns, how often their timers fire or something comes in, for
    which the theorems are proved whatever it is; after those a loop does not end but sits in
    its select until its context is over ([Core.until_ended]), so that [CoreRest] tells a loop
    that is never ended from one that is; where a goroutine runs alone and waits for a heartbeat, that one is taken to end because its
    context has ([Core.heartbeats_end]), which [CoreProps.keepAlive_ends] shows it does.
    A section of code between a Lock and its Unlock is one step.  [Peer.accept] takes the lock
    twice: [Peer.decrypt] and [Peer.let_in] are its sections, apart in the life of a link, and
    in a row in the mesh, whose calls are taken one at a time.  [Limits.allow] is given the
    time its caller read before it took the lock.
    Waiting for the service asks at most 100 times ([Service.rounds]): its thirty seconds are
    over by then, which [ServiceProps.await_until_ends] shows.  The query of a STUN server
    runs over a script of what happens meanwhile, however long.

    ** What is a parameter

    Noise ([Session.Noise] with its laws), Ed25519 ([Auth.Ed25519]), the server's machine
    (clock, randomness, whether a statement fails), the daemon's ([Mesh.Env]: randomness, the
    socket, the order a map is walked in), the transport between daemon and server
    ([Control.Net]), [Core.Host]: files, adapters, STUN answers, the event channel, and
    [url.Parse], [IpcServer.Json]: the text of a request's parameters,
    [RollingLog.luck]: what the operating system makes of the calls on a log file,
    [IdentityFile.Vault]: the text of the daemon's files and Windows' data
    protection,
    [MeshQuery.Resolver]: name resolution, [Multicast.Windows], [Firewall.Netsh] and
    [Service.Manager]: the interface tables, netsh and the service manager, the answers of the
    driver ([Adapter.answer]), and what SQLite makes of the text of a migration
    ([Migrations.file]).  Hypotheses on them are the classes of their laws ([NoiseLaws],
    [VaultLaws], [WindowsLaws], [ManagerLaws], [NetshLaws] and the like).  [Plain], [Toy],
    [CoreDesk], [IpcDesk] and the modules before the witnesses have concrete instances, at
    which the theorems are evaluated.

    ** What is not modelled

    Operating system calls behind the parameters above, what Windows makes of the access
    control of the pipe and of the log directory.  Text
    formats of encoding/json and log lines.  The websocket and HTTP libraries (what
    they come to next is an argument of [Api.realtime_turn] and [CoreNetwork.Realtime]), and with
    them timeouts and back-off.  The text of the migrations (the schema they end in is [Schema]),
    the template of the invite page and the static site.  When a signal comes and what
    listening comes to are arguments of the two processes.  The builds for other systems than
    Windows, and the Windows app. *)
From stdpp Require Export base gmap list strings numbers sorting.
From Stdlib Require Export ZArith Lia.

#[export] Set Default Goal Selector "!".
#[global] Open Scope Z_scope.

(** ** Outcomes of Go code

    A Go function returns a value, returns an error, or panics.  [go E A] keeps
    the three apart, so that "does not panic" is a statement about the model. *)
Inductive go (E A : Type) : Type :=
  | Ret (a : A)
  | Throw (e : E)
  | Panic.
Arguments Ret {_ _} _.
Arguments Throw {_ _} _.
Arguments Panic {_ _}.

#[export] Instance go_ret {E} : MRet (go E) := λ A a, Ret a.
#[export] Instance go_bind {E} : MBind (go E) := λ A B f m,
  match m with
  | Ret a => f a
  | Throw e => Throw e
  | Panic => Panic
  end.

#[export] Instance go_eq_dec {E A} `{!EqDecision E} `{!EqDecision A} : EqDecision (go E A).
Proof. solve_decision. Defined.

(** The caller's wrapping of an error: [fmt.Errorf("...: %w", err)]. *)
Definition wrap_err {E F A} (f : E → F) (m : go E A) : go F A :=
  match m with
  | Ret a => Ret a
  | Throw e => Throw (f e)
  | Panic => Panic
  end.

(** ** State passing

    Code that mutates an object through a pointer becomes a state transformer
    over a record of that object. *)
Definition st (S A : Type) : Type := S → A * S.

#[export] Instance st_ret {S} : MRet (st S) := λ A a s, (a, s).
#[export] Instance st_bind {S} : MBind (st S) := λ A B f m s, let '(a, s') := m s in f a s'.

Definition st_get {S} : st S S := λ s, (s, s).
Definition st_gets {S A} (f : S → A) : st S A := λ s, (f s, s).
Definition st_modify {S} (f : S → S) : st S unit := λ s, (tt, f s).
Definition st_when {S} (b : bool) (m : st S unit) : st S unit := if b then m else mret tt.

(** [for _, x := range xs { f(x) }] *)
Fixpoint st_for {S A} (xs : list A) (f : A → st S unit) : st S unit :=
  match xs with
  | [] => mret tt
  | x :: xs => f x ≫= λ _, st_for xs f
  end.

(** [x, err := m; if err != nil { return err }] *)
Definition st_try {S E A B} (m : st S (E + A)) (f : A → st S (E + B)) : st S (E + B) :=
  m ≫= λ r, match r with inl e => mret (inl e) | inr a => f a end.
Notation "x ←~ m ; k" := (st_try m (λ x, k))
  (at level 100, m at level 90, k at level 200, right associativity).

(** ** Programs that can panic

    Code that reads and writes a store shared by several components, and that the
    Go runtime would stop on a nil pointer or an index out of range: [None] is a
    panic.  [wp m Q s] is total correctness: started in [s], [m] does not panic,
    and what it returns and leaves behind satisfies [Q]. *)
Definition prog (S A : Type) : Type := S → option (A * S).

#[export] Instance prog_ret {S} : MRet (prog S) := λ A a s, Some (a, s).
#[export] Instance prog_bind {S} : MBind (prog S) := λ A B f m s,
  match m s with
  | Some (a, s') => f a s'
  | None => None
  end.

Definition gets {S A} (f : S → A) : prog S A := λ s, Some (f s, s).
Definition modify {S} (f : S → S) : prog S unit := λ s, Some (tt, f s).
Definition panic {S A} : prog S A := λ _, None.
Definition when {S} (b : bool) (m : prog S unit) : prog S unit := if b then m else mret tt.
Fixpoint for_each {S A} (xs : list A) (f : A → prog S unit) : prog S unit :=
  match xs with
  | [] => mret tt
  | x :: xs => f x ≫= λ _, for_each xs f
  end.

Definition wp {S A} (m : prog S A) (Q : A → S → Prop) (s : S) : Prop :=
  match m s with
  | Some (a, s') => Q a s'
  | None => False
  end.

(** [x, err := m; if err != nil { return err }] *)
Definition try_bind {S E A B} (m : prog S (E + A)) (f : A → prog S (E + B)) : prog S (E + B) :=
  m ≫= λ r, match r with inl e => mret (inl e) | inr a => f a end.
Notation "x ←? m ; k" := (try_bind m (λ x, k))
  (at level 100, m at level 90, k at level 200, right associativity).

(** ** Record update

    [r <| f := v |>] is [r] with the field [f] set to [v]: the Go assignment
    [r.f = v] on a record.  A record is updatable once it has its [Settable]
    instance, its eta expansion written field by field. *)
Class Settable (R : Type) : Type := eta_expand : R → R.
Class Field {R A : Type} (proj : R → A) : Type := set_field : A → R → R.
Arguments set_field {_ _} proj {_} _ _ /.

Ltac solve_field :=
  lazymatch goal with
  | |- @Field ?R ?A ?proj =>
      let inst := constr:(_ : Settable R) in
      let e := eval cbv beta delta [eta_expand] in (@eta_expand R inst) in
      let e := eval hnf in e in
      let e := match e with (λ _, _) => e end in
      let f := match eval pattern proj in e with ?f _ => f end in
      let s := eval cbv beta in (λ (v : A) (r : R), f (λ _, v) r) in
      exact s
  end.
#[export] Hint Extern 1 (@Field _ _ _) => solve_field : typeclass_instances.

Notation "r <| proj := v |>" := (set_field proj v r)
  (at level 1, left associativity, proj at level 99, v at level 99).

(** A string literal, as the bytes (and, being ASCII, the runes) it is made of. *)
Definition str (s : string) : list Z := (λ a, Z.of_nat (Ascii.nat_of_ascii a)) <$> String.list_ascii_of_string s.

(** ** Machine words *)
Definition u8 (z : Z) : Z := z mod 2 ^ 8.
Definition u16 (z : Z) : Z := z mod 2 ^ 16.
Definition u32 (z : Z) : Z := z mod 2 ^ 32.
Definition u64 (z : Z) : Z := z mod 2 ^ 64.

Definition is_u8 (z : Z) : Prop := 0 ≤ z < 2 ^ 8.
Definition is_u16 (z : Z) : Prop := 0 ≤ z < 2 ^ 16.
Definition is_u32 (z : Z) : Prop := 0 ≤ z < 2 ^ 32.
Definition is_u64 (z : Z) : Prop := 0 ≤ z < 2 ^ 64.

(** ** Automation *)
Create HintDb vlan.
Create Rewrite HintDb vlan.

(** Take apart hypotheses about the [go] monad. *)
Ltac go_step :=
  match goal with
  | H : Ret _ = Ret _ |- _ => injection H as H; subst
  | H : Throw _ = Throw _ |- _ => injection H as H; subst
  | H : Ret _ = Throw _ |- _ => discriminate H
  | H : Ret _ = Panic |- _ => discriminate H
  | H : Throw _ = Ret _ |- _ => discriminate H
  | H : Throw _ = Panic |- _ => discriminate H
  | H : Panic = Ret _ |- _ => discriminate H
  | H : Panic = Throw _ |- _ => discriminate H
  | H : context [mbind _ (Ret _)] |- _ => progress cbn in H
  | H : context [if decide ?P then _ else _] |- _ => destruct (decide P)
  | H : context [if ?b then _ else _] |- _ => let E := fresh "Hb" in destruct b eqn:E
  | H : context [match ?m with Some _ => _ | None => _ end] |- _ =>
      let E := fresh "Ho" in destruct m eqn:E
  | H : context [match ?m with Ret _ => _ | Throw _ => _ | Panic => _ end] |- _ =>
      let E := fresh "Hg" in destruct m eqn:E
  end.
Ltac go_inv := repeat (go_step; try done).

(** Boolean comparisons in the context become propositions [lia] reads. *)
Ltac bool_lia :=
  repeat match goal with
  | H : (_ =? _)%Z = _ |- _ => first [apply Z.eqb_eq in H | apply Z.eqb_neq in H]
  | H : (_ <? _)%Z = _ |- _ => first [apply Z.ltb_lt in H | apply Z.ltb_ge in H]
  | H : (_ <=? _)%Z = _ |- _ => first [apply Z.leb_le in H | apply Z.leb_gt in H]
  | H : (_ <? _)%nat = _ |- _ => first [apply Nat.ltb_lt in H | apply Nat.ltb_ge in H]
  | H : (_ <=? _)%nat = _ |- _ => first [apply Nat.leb_le in H | apply Nat.leb_gt in H]
  | H : (_ =? _)%nat = _ |- _ => first [apply Nat.eqb_eq in H | apply Nat.eqb_neq in H]
  | H : bool_decide _ = true |- _ => apply bool_decide_eq_true in H
  | H : bool_decide _ = false |- _ => apply bool_decide_eq_false in H
  | H : (_ && _) = true |- _ => apply andb_true_iff in H; destruct H
  | H : (_ || _) = false |- _ => apply orb_false_iff in H; destruct H
  | H : (_ && _) = false |- _ => apply andb_false_iff in H
  | H : (_ || _) = true |- _ => apply orb_true_iff in H
  | H : negb _ = true |- _ => apply negb_true_iff in H
  | H : negb _ = false |- _ => apply negb_false_iff in H
  end.

(** ** Lemmas on outcomes *)
Section go_lemmas.
Context {E : Type}.

Lemma go_bind_Ret {A B} (m : go E A) (f : A → go E B) b :
  (m ≫= f) = Ret b ↔ ∃ a, m = Ret a ∧ f a = Ret b.
Proof. destruct m; cbn; split; [eauto|by intros (? & [= ->] & ?)|done|by intros (? & ? & _)|done|by intros (? & ? & _)]. Qed.

Lemma go_bind_Throw {A B} (m : go E A) (f : A → go E B) e :
  (m ≫= f) = Throw e ↔ m = Throw e ∨ ∃ a, m = Ret a ∧ f a = Throw e.
Proof.
  destruct m; cbn; split;
    [eauto|intros [?|(? & [= ->] & ?)]; done|intros [= ->]; by left|intros [[= ->]|(? & ? & _)]; done|done|].
  intros [?|(? & ? & _)]; done.
Qed.

Lemma go_bind_not_Panic {A B} (m : go E A) (f : A → go E B) :
  m ≠ Panic → (∀ a, m = Ret a → f a ≠ Panic) → (m ≫= f) ≠ Panic.
Proof. destruct m; cbn; naive_solver. Qed.
End go_lemmas.

(** ** Lemmas on state passing *)
Section st_lemmas.
Context {S : Type}.

(** An invariant of the body is an invariant of the loop. *)
Lemma st_for_inv {A} (P : S → Prop) (xs : list A) (f : A → st S unit) s :
  (∀ x s, x ∈ xs → P s → P (f x s).2) → P s → P (st_for xs f s).2.
Proof.
  revert s; induction xs as [|x xs IH]; intros s Hf Hs; cbn; [done|].
  unfold mbind, st_bind. destruct (f x s) as [[] s'] eqn:E.
  apply IH.
  - intros y s'' Hy. apply Hf. by right.
  - specialize (Hf x s). rewrite E in Hf. apply Hf; [by left|done].
Qed.

(** What a loop relates its start to, given the relation of its body. *)
Lemma st_for_rel {A} (R : S → S → Prop) (xs : list A) (f : A → st S unit) s :
  Reflexive R → Transitive R → (∀ x s, R s (f x s).2) → R s (st_for xs f s).2.
Proof.
  intros Hr Ht Hf. revert s; induction xs as [|x xs IH]; intros s; cbn; [done|].
  unfold mbind, st_bind. pose proof (Hf x s) as H1. destruct (f x s) as [[] s']. etransitivity; [exact H1|apply IH].
Qed.

Lemma st_bind_snd {A B} (m : st S A) (f : A → st S B) s :
  ((m ≫= f) s).2 = (f (m s).1 (m s).2).2.
Proof. unfold mbind, st_bind. by destruct (m s). Qed.
End st_lemmas.

(** ** Lemmas on programs *)
Section wp_lemmas.
Context {S : Type}.

Lemma wp_mono {A} (m : prog S A) (P Q : A → S → Prop) s :
  wp m P s → (∀ a s', P a s' → Q a s') → wp m Q s.
Proof. unfold wp. destruct (m s) as [[a s']|]; [|done]. intros HP HPQ. by apply HPQ. Qed.

Lemma wp_ret {A} (a : A) Q (s : S) : Q a s → wp (mret a) Q s.
Proof. done. Qed.

Lemma wp_bind {A B} (m : prog S A) (f : A → prog S B) Q s :
  wp m (λ a s', wp (f a) Q s') s → wp (m ≫= f) Q s.
Proof. unfold wp, mbind, prog_bind. by destruct (m s) as [[a s']|]. Qed.

Lemma wp_gets {A} (f : S → A) Q s : Q (f s) s → wp (gets f) Q s.
Proof. done. Qed.

Lemma wp_modify (f : S → S) Q s : Q tt (f s) → wp (modify f) Q s.
Proof. done. Qed.

Lemma wp_when (b : bool) m (Q : unit → S → Prop) s :
  (b = true → wp m Q s) → (b = false → Q tt s) → wp (when b m) Q s.
Proof. destruct b; cbn; intros H1 H2; [by apply H1|by apply H2]. Qed.

Lemma wp_and {A} (m : prog S A) (P Q : A → S → Prop) s :
  wp m P s → wp m Q s → wp m (λ a s', P a s' ∧ Q a s') s.
Proof. unfold wp. by destruct (m s) as [[a s']|]. Qed.

(** A loop invariant, given the elements still to visit. *)
Lemma wp_for_each {A} (I : S → Prop) (xs : list A) (f : A → prog S unit) s :
  (∀ x s, x ∈ xs → I s → wp (f x) (λ _, I) s) → I s → wp (for_each xs f) (λ _, I) s.
Proof.
  revert s; induction xs as [|x xs IH]; intros s Hf Hs; cbn; [done|].
  apply wp_bind. eapply wp_mono; [apply Hf; [by left|done]|].
  intros [] s' Hs'. apply IH; [|done]. intros y s'' Hy. apply Hf. by right.
Qed.

Lemma wp_run {A} (m : prog S A) Q s : wp m Q s ↔ ∃ a s', m s = Some (a, s') ∧ Q a s'.
Proof.
  unfold wp. destruct (m s) as [[a s']|]; split.
  - intros HQ. by exists a, s'.
  - by intros (a0 & s0 & [= -> ->] & HQ).
  - done.
  - by intros (? & ? & ? & _).
Qed.
End wp_lemmas.

(** ** Runs that lower a measure

    [moves] says what one step comes to, if it can be taken; under [I] it lowers [left]. *)
Section measured_runs.
Context {L S : Type} (moves : L → S → option S) (I : S → Prop) (left : S → nat).

Fixpoint goes (ls : list L) (s : S) : option S :=
  match ls with
  | [] => Some s
  | l :: ls => match moves l s with Some s => goes ls s | None => None end
  end.

Lemma goes_bounded : (∀ l s s', I s → moves l s = Some s' → I s' ∧ (left s' < left s)%nat) →
  ∀ ls s s', I s → goes ls s = Some s' → I s' ∧ (length ls + left s' ≤ left s)%nat.
Proof.
  intros Hstep ls. induction ls as [|l ls IH]; intros s s' Hs; cbn [goes length]; [by intros [= <-]|].
  destruct (moves l s) as [s1|] eqn:E; [|done]. destruct (Hstep l s s1 Hs E) as [Hs1 Hlt]. intros Hg.
  destruct (IH s1 s' Hs1 Hg). split; [done|lia].
Qed.
End measured_runs.

(** ** Words *)
Lemma u8_range z : is_u8 (u8 z).
Proof. unfold is_u8, u8. apply Z.mod_pos_bound. lia. Qed.
Lemma u16_range z : is_u16 (u16 z).
Proof. unfold is_u16, u16. apply Z.mod_pos_bound. lia. Qed.
Lemma u32_range z : is_u32 (u32 z).
Proof. unfold is_u32, u32. apply Z.mod_pos_bound. lia. Qed.
Lemma u64_range z : is_u64 (u64 z).
Proof. unfold is_u64, u64. apply Z.mod_pos_bound. lia. Qed.
Lemma u8_id z : is_u8 z → u8 z = z.
Proof. unfold is_u8, u8. intros. by apply Z.mod_small. Qed.
Lemma u16_id z : is_u16 z → u16 z = z.
Proof. unfold is_u16, u16. intros. by apply Z.mod_small. Qed.
Lemma u32_id z : is_u32 z → u32 z = z.
Proof. unfold is_u32, u32. intros. by apply Z.mod_small. Qed.
Lemma u64_id z : is_u64 z → u64 z = z.
Proof. unfold is_u64, u64. intros. by apply Z.mod_small. Qed.
#[export] Hint Resolve u8_range u16_range u32_range u64_range : vlan.
#[export] Hint Rewrite u8_id u16_id u32_id u64_id using done : vlan.

(** A number below [2^n] has no bit at or above [n]. *)
Lemma testbit_above n z i : 0 ≤ z < 2 ^ n → n ≤ i → Z.testbit z i = false.
Proof.
  intros Hz Hi. destruct (decide (0 ≤ n)).
  - rewrite <-(Z.mod_small z (2 ^ n)) by done. apply Z.mod_pow2_bits_high. lia.
  - rewrite Z.pow_neg_r in Hz by lia. lia.
Qed.
