(* ===== verification/Bytes.v ===== *)
(** Byte strings: Go slices of bytes and the big endian integers of
    encoding/binary.

    A byte is a [Z] between 0 and 255 and a byte string a [list Z].  Slicing and
    indexing go through the [go] monad, because in Go an index past the end
    panics; [slice] is stricter than Go, which lets a slice expression reach past
    the length up to the capacity, so a program that never panics here never
    panics there. *)
From S2P Require Import Prelude.

Definition is_bytes (l : list Z) : Prop := Forall is_u8 l.

(** A Go string is a sequence of bytes. *)
Abbreviation gostring := (list Z) (only parsing).

(** [a < b] on strings: bytewise, a prefix before what it is a prefix of. *)
Fixpoint bytes_lt (a b : list Z) : bool :=
  match a, b with
  | _, [] => false
  | [], _ :: _ => true
  | x :: a, y :: b => (x <? y) || ((x =? y) && bytes_lt a b)
  end.

(** [l[i:j]] *)
Definition slice {E A} (l : list A) (i j : nat) : go E (list A) :=
  if (i <=? j)%nat && (j <=? length l)%nat then Ret (take (j - i) (drop i l)) else Panic.

(** [l[i:]] *)
Definition slice_from {E A} (l : list A) (i : nat) : go E (list A) := slice l i (length l).

(** [l[i]] *)
Definition index {E A} (l : list A) (i : nat) : go E A :=
  match l !! i with Some x => Ret x | None => Panic end.

(** [binary.BigEndian.PutUint16], [PutUint32] and [PutUint64], by the number of
    bytes written. *)
Fixpoint be_encode (n : nat) (z : Z) : list Z :=
  match n with
  | O => []
  | S n => (z / 256 ^ Z.of_nat n) mod 256 :: be_encode n z
  end.

(** [binary.BigEndian.Uint16], [Uint32] and [Uint64]. *)
Definition be_decode (l : list Z) : Z := foldl (λ acc b, acc * 256 + b) 0 l.

#[export] Instance is_u8_dec z : Decision (is_u8 z).
Proof. unfold is_u8. apply _. Defined.
#[export] Instance is_bytes_dec l : Decision (is_bytes l).
Proof. unfold is_bytes. apply _. Defined.

(** ** Slices *)
Lemma slice_Ret {E A} (l : list A) i j :
  (i ≤ j ≤ length l)%nat → slice (E:=E) l i j = Ret (take (j - i) (drop i l)).
Proof.
  intros. unfold slice. replace (i <=? j)%nat with true by (symmetry; apply Nat.leb_le; lia).
  by replace (j <=? length l)%nat with true by (symmetry; apply Nat.leb_le; lia).
Qed.

Lemma slice_from_Ret {E A} (l : list A) i :
  (i ≤ length l)%nat → slice_from (E:=E) l i = Ret (drop i l).
Proof.
  intros. unfold slice_from. rewrite slice_Ret by lia.
  rewrite take_ge; [done|]. rewrite length_drop. lia.
Qed.

Lemma index_Ret {E A} (l : list A) i :
  (i < length l)%nat → ∃ x, index (E:=E) l i = Ret x ∧ l !! i = Some x.
Proof.
  intros H. apply lookup_lt_is_Some in H as [x Hx]. exists x. unfold index. by rewrite Hx.
Qed.

Lemma index_lookup {E A} (l : list A) i x : l !! i = Some x → index (E:=E) l i = Ret x.
Proof. unfold index. by intros ->. Qed.

Lemma index_not_Panic {E A} (l : list A) i : (i < length l)%nat → index (E:=E) l i ≠ Panic.
Proof. intros H. destruct (index_Ret (E:=E) l i H) as (x & -> & _). done. Qed.

Lemma slice_not_Panic {E A} (l : list A) i j :
  (i ≤ j ≤ length l)%nat → slice (E:=E) l i j ≠ Panic.
Proof. intros. by rewrite slice_Ret. Qed.

(** Reading a piece of a concatenation whose lengths are known. *)
Lemma slice_app_at {E A} (l k r : list A) i j :
  length l = i → (j = i + length k)%nat → slice (E:=E) (l ++ k ++ r) i j = Ret k.
Proof.
  intros <- ->. rewrite slice_Ret by (rewrite !length_app; lia).
  rewrite drop_app_length. f_equal. rewrite take_app_le by lia. apply take_ge. lia.
Qed.

Lemma slice_from_app_at {E A} (l r : list A) i :
  length l = i → slice_from (E:=E) (l ++ r) i = Ret r.
Proof. intros <-. rewrite slice_from_Ret by (rewrite length_app; lia). by rewrite drop_app_length. Qed.

(** ** Bytes *)
Lemma is_bytes_app l k : is_bytes (l ++ k) ↔ is_bytes l ∧ is_bytes k.
Proof. apply Forall_app. Qed.
Lemma is_bytes_cons b l : is_bytes (b :: l) ↔ is_u8 b ∧ is_bytes l.
Proof. apply Forall_cons. Qed.
Lemma is_bytes_take n l : is_bytes l → is_bytes (take n l).
Proof. apply Forall_take. Qed.
Lemma is_bytes_drop n l : is_bytes l → is_bytes (drop n l).
Proof. apply Forall_drop. Qed.
Lemma is_bytes_lookup l i b : is_bytes l → l !! i = Some b → is_u8 b.
Proof. intros H. by apply Forall_lookup_1. Qed.
#[export] Hint Resolve is_bytes_take is_bytes_drop : vlan.

(** ** Big endian integers *)
Lemma length_be_encode n z : length (be_encode n z) = n.
Proof. induction n; cbn; congruence. Qed.

Lemma is_bytes_be_encode n z : is_bytes (be_encode n z).
Proof.
  induction n as [|n IH]; cbn; [constructor|]. constructor; [|done].
  unfold is_u8. apply Z.mod_pos_bound. lia.
Qed.
#[export] Hint Resolve is_bytes_be_encode : vlan.

Lemma foldl_be acc l :
  foldl (λ acc b, acc * 256 + b) acc l = acc * 256 ^ Z.of_nat (length l) + be_decode l.
Proof.
  unfold be_decode. revert acc. induction l as [|b l IH]; intros acc; cbn [foldl length].
  - rewrite Nat2Z.inj_0, Z.pow_0_r. lia.
  - rewrite IH, (IH (0 * 256 + b)), Nat2Z.inj_succ, Z.pow_succ_r by lia. lia.
Qed.

Lemma be_decode_cons b l :
  be_decode (b :: l) = b * 256 ^ Z.of_nat (length l) + be_decode l.
Proof. unfold be_decode at 1. cbn [foldl]. rewrite foldl_be. lia. Qed.

Lemma be_decode_range l : is_bytes l → 0 ≤ be_decode l < 256 ^ Z.of_nat (length l).
Proof.
  induction 1 as [|b l Hb _ IH]; [cbn; lia|].
  rewrite be_decode_cons. cbn [length]. rewrite Nat2Z.inj_succ, Z.pow_succ_r by lia.
  unfold is_u8 in Hb. change (2 ^ 8) with 256 in Hb. nia.
Qed.

Lemma be_decode_encode n z : be_decode (be_encode n z) = z mod 256 ^ Z.of_nat n.
Proof.
  induction n as [|n IH]; cbn [be_encode]; [by rewrite Z.mod_1_r|].
  rewrite be_decode_cons, length_be_encode, IH, Nat2Z.inj_succ, Z.pow_succ_r by lia.
  rewrite (Z.mul_comm 256), Z.rem_mul_r by lia. lia.
Qed.

Lemma be_encode_mod n m z :
  (n ≤ m)%nat → be_encode n (z mod 256 ^ Z.of_nat m) = be_encode n z.
Proof.
  induction n as [|n IH]; intros Hm; cbn [be_encode]; [done|].
  rewrite IH by lia. f_equal.
  replace (256 ^ Z.of_nat m) with (256 ^ Z.of_nat n * (256 * 256 ^ Z.of_nat (m - S n)))
    by (rewrite <-Z.pow_succ_r, <-Z.pow_add_r by lia; f_equal; lia).
  rewrite Z.rem_mul_r, Z.add_comm, Z.mul_comm, Z.div_add_l by lia.
  rewrite (Z.div_small (z mod _)) by (apply Z.mod_pos_bound; lia).
  rewrite Z.add_0_r, Z.rem_mul_r by lia.
  rewrite Z.add_mod, Z.mul_comm, Z.mod_mul, Z.add_0_r, !Z.mod_mod by lia. done.
Qed.

Lemma be_encode_decode l : is_bytes l → be_encode (length l) (be_decode l) = l.
Proof.
  induction 1 as [|b l Hb Hl IH]; [done|]. cbn [length be_encode].
  pose proof (be_decode_range l Hl).
  rewrite be_decode_cons, Z.div_add_l, (Z.div_small (be_decode l)), Z.add_0_r by lia.
  f_equal.
  - apply Z.mod_small, Hb.
  - rewrite <-(be_encode_mod _ (length l)) by lia.
    rewrite Z.add_comm, Z.mod_add, Z.mod_small by lia. done.
Qed.

Lemma be_encode_decode' n l : is_bytes l → length l = n → be_encode n (be_decode l) = l.
Proof. intros ? <-. by apply be_encode_decode. Qed.

Lemma be_roundtrip n z : 0 ≤ z < 256 ^ Z.of_nat n → be_decode (be_encode n z) = z.
Proof. intros. rewrite be_decode_encode. by apply Z.mod_small. Qed.

Lemma be_roundtrip16 z : is_u16 z → be_decode (be_encode 2 z) = z.
Proof. intros. by apply be_roundtrip. Qed.
Lemma be_roundtrip32 z : is_u32 z → be_decode (be_encode 4 z) = z.
Proof. intros. by apply be_roundtrip. Qed.
Lemma be_roundtrip64 z : is_u64 z → be_decode (be_encode 8 z) = z.
Proof. intros. by apply be_roundtrip. Qed.
#[export] Hint Rewrite @length_be_encode : vlan.

(** ** The order on strings *)
Lemma bytes_lt_irrefl a : bytes_lt a a = false.
Proof. induction a as [|x a IH]; cbn; [done|]. by rewrite Z.ltb_irrefl, Z.eqb_refl, IH. Qed.

Lemma bytes_lt_trans a b c : bytes_lt a b = true → bytes_lt b c = true → bytes_lt a c = true.
Proof.
  revert b c; induction a as [|x a IH]; intros [|y b] [|z c]; cbn; try done.
  rewrite !orb_true_iff, !andb_true_iff, !Z.ltb_lt, !Z.eqb_eq.
  intros [?|[-> ?]] [?|[-> ?]]; [left; lia|left; lia|left; lia|right; eauto].
Qed.

Lemma bytes_lt_total a b : bytes_lt a b = false → bytes_lt b a = false → a = b.
Proof.
  revert b; induction a as [|x a IH]; intros [|y b]; cbn; try done.
  rewrite !orb_false_iff, !andb_false_iff, !Z.ltb_ge, !Z.eqb_neq.
  intros [? Ha] [? Hb]. assert (x = y) as -> by lia. f_equal. apply IH; naive_solver.
Qed.

Lemma bytes_lt_asym a b : bytes_lt a b = true → bytes_lt b a = false.
Proof.
  intros H. destruct (bytes_lt b a) eqn:E; [|done].
  by rewrite <-(bytes_lt_irrefl a), (bytes_lt_trans a b a).
Qed.
