(* ===== verification/NetAddr.v ===== *)
(** The values of Go's net/netip the program uses: addresses, address and port
    pairs, prefixes.

    An address is the zero [Addr], an IPv4 address as a 32-bit number, or an
    IPv6 address as a 128-bit number with its zone.  Text forms are in
    [NetText]. *)
From S2P Require Import Prelude Bytes.

Inductive Addr : Type :=
  | AddrZero
  | Addr4 (v : Z)
  | Addr6 (v : Z) (zone : string).

Record AddrPort : Type := AddrPortFrom { ap_addr : Addr; ap_port : Z }.

Record Prefix : Type := PrefixFrom { p_addr : Addr; p_bits : Z }.

#[export] Instance Addr_eq_dec : EqDecision Addr.
Proof. solve_decision. Defined.
#[export] Instance AddrPort_eq_dec : EqDecision AddrPort.
Proof. solve_decision. Defined.
#[export] Instance Prefix_eq_dec : EqDecision Prefix.
Proof. solve_decision. Defined.

#[export] Program Instance Addr_countable : Countable Addr :=
  inj_countable
    (λ a, match a with
          | AddrZero => inl ()
          | Addr4 v => inr (inl v)
          | Addr6 v z => inr (inr (v, z))
          end)
    (λ c, Some match c with
          | inl () => AddrZero
          | inr (inl v) => Addr4 v
          | inr (inr (v, z)) => Addr6 v z
          end) _.
Next Obligation. by intros []. Qed.

#[export] Program Instance AddrPort_countable : Countable AddrPort :=
  inj_countable (λ a, (ap_addr a, ap_port a)) (λ '(a, p), Some (AddrPortFrom a p)) _.
Next Obligation. by intros []. Qed.

(** The zero [netip.AddrPort{}]. *)
Definition AddrPortZero : AddrPort := AddrPortFrom AddrZero 0.

Definition addr_IsValid (a : Addr) : bool := match a with AddrZero => false | _ => true end.
Definition ap_IsValid (a : AddrPort) : bool := addr_IsValid (ap_addr a).

Definition Is4 (a : Addr) : bool := match a with Addr4 _ => true | _ => false end.

(** [AddrFrom4] takes the four bytes, [As4] gives them back. *)
Definition AddrFrom4 (raw : list Z) : Addr := Addr4 (be_decode raw).
Definition AddrFrom16 (raw : list Z) : Addr := Addr6 (be_decode raw) "".
Definition As4 (a : Addr) : list Z := match a with Addr4 v => be_encode 4 v | _ => [] end.

(** 224.0.0.0/4, and ff00::/8 for IPv6; an IPv4-mapped IPv6 address is unmapped
    first. *)
Definition IsMulticast (a : Addr) : bool :=
  match a with
  | AddrZero => false
  | Addr4 v => Z.shiftr v 28 =? 14
  | Addr6 v _ =>
      if Z.shiftr v 32 =? 0xffff then Z.shiftr (u32 v) 28 =? 14 else Z.shiftr v 120 =? 255
  end.

Definition BitLen (a : Addr) : Z :=
  match a with AddrZero => 0 | Addr4 _ => 32 | Addr6 _ _ => 128 end.

(** [Next] is the address after, and the zero [Addr] past the last one. *)
Definition addr_Next (a : Addr) : Addr :=
  match a with
  | AddrZero => AddrZero
  | Addr4 v => if v + 1 <? 2 ^ 32 then Addr4 (v + 1) else AddrZero
  | Addr6 v z => if v + 1 <? 2 ^ 128 then Addr6 (v + 1) z else AddrZero
  end.

Definition addr_val (a : Addr) : Z :=
  match a with AddrZero => 0 | Addr4 v => v | Addr6 v _ => v end.

Definition has_zone (a : Addr) : bool :=
  match a with Addr6 _ z => negb (bool_decide (z = ""%string)) | _ => false end.

Definition prefix_IsValid (p : Prefix) : bool :=
  addr_IsValid (p_addr p) && (0 <=? p_bits p) && (p_bits p <=? BitLen (p_addr p)).

(** [Masked] clears the host bits. *)
Definition Masked (p : Prefix) : Prefix :=
  let clear v w := Z.shiftl (Z.shiftr v (w - p_bits p)) (w - p_bits p) in
  if prefix_IsValid p then
    match p_addr p with
    | AddrZero => PrefixFrom AddrZero (-1)
    | Addr4 v => PrefixFrom (Addr4 (clear v 32)) (p_bits p)
    | Addr6 v _ => PrefixFrom (Addr6 (clear v 128) "") (p_bits p)
    end
  else PrefixFrom AddrZero (-1).

Definition Contains (p : Prefix) (a : Addr) : bool :=
  prefix_IsValid p && negb (has_zone a) && (BitLen (p_addr p) =? BitLen a) &&
  (Z.shiftr (addr_val (p_addr p)) (BitLen a - p_bits p) =? Z.shiftr (addr_val a) (BitLen a - p_bits p)).

(** An address whose number fits its width. *)
Definition addr_wf (a : Addr) : Prop :=
  match a with
  | AddrZero => True
  | Addr4 v => 0 ≤ v < 2 ^ 32
  | Addr6 v _ => 0 ≤ v < 2 ^ 128
  end.

Lemma As4_From4 raw : is_bytes raw → length raw = 4%nat → As4 (AddrFrom4 raw) = raw.
Proof. intros. unfold AddrFrom4. cbn [As4]. by apply be_encode_decode'. Qed.

Lemma From4_As4 a : addr_wf a → Is4 a = true → AddrFrom4 (As4 a) = a.
Proof.
  destruct a as [|v|]; try done. intros Hv _. cbn [As4]. unfold AddrFrom4.
  f_equal. by apply be_roundtrip32.
Qed.

Lemma addr_wf_From4 raw : is_bytes raw → length raw = 4%nat → addr_wf (AddrFrom4 raw).
Proof.
  intros Hb Hl. pose proof (be_decode_range raw Hb) as H. rewrite Hl in H. exact H.
Qed.

Lemma length_As4 a : Is4 a = true → length (As4 a) = 4%nat.
Proof. destruct a; [done| |done]. intros _. apply length_be_encode. Qed.

Lemma is_bytes_As4 a : is_bytes (As4 a).
Proof. destruct a; cbn [As4]; [constructor|apply is_bytes_be_encode|constructor]. Qed.
#[export] Hint Resolve is_bytes_As4 addr_wf_From4 : vlan.
