(* ===== verification/NetText.v ===== *)
(** The text forms of net/netip and strconv the program reads and writes: an
    address in decimal or hexadecimal, a prefix, a decimal integer.

    A Go string is its bytes.  What a parser's error says is never looked at by
    this program, so a parser here returns an option. *)
From S2P Require Import Prelude Bytes NetAddr.

Definition is_digit (c : Z) : bool := (48 <=? c) && (c <=? 57).

(** ** Writing *)

(** The decimal digits of a natural number of at most [fuel] digits. *)
Fixpoint decimal (fuel : nat) (x : Z) : gostring :=
  match fuel with
  | O => []
  | S fuel => if x <? 10 then [48 + x] else decimal fuel (x / 10) ++ [48 + x mod 10]
  end.

(** [strconv.FormatInt(x, 10)] and [strconv.Itoa]; twenty digits hold any 64-bit
    integer. *)
Definition FormatInt (x : Z) : gostring := if x <? 0 then 45 :: decimal 20 (- x) else decimal 20 x.

Definition hex_digit (x : Z) : Z := if x <? 10 then 48 + x else 87 + x.

(** A 16-bit group in hexadecimal, without leading zeros. *)
Definition hex16 (x : Z) : gostring :=
  let ds := (λ i, Z.land (Z.shiftr x i) 15) <$> [12; 8; 4; 0] in
  hex_digit <$>
    (if 4095 <? x then ds else if 255 <? x then drop 1 ds else if 15 <? x then drop 2 ds else drop 3 ds).

Definition dotted (v : Z) : gostring :=
  match be_encode 4 v with
  | [a; b; c; d] => decimal 3 a ++ 46 :: decimal 3 b ++ 46 :: decimal 3 c ++ 46 :: decimal 3 d
  | _ => []
  end.

(** The eight 16-bit groups of an IPv6 address. *)
Definition groups16 (v : Z) : list Z := (λ i, u16 (Z.shiftr v (112 - 16 * Z.of_nat i))) <$> seq 0 8.

Fixpoint zeros (l : list Z) : nat :=
  match l with
  | x :: l => if x =? 0 then S (zeros l) else 0
  | [] => 0
  end.

(** The first longest run of two zero groups or more. *)
Definition longest_zeros (l : list Z) : nat * nat :=
  foldl (λ best i,
    let n := zeros (drop i l) in
    if (2 <=? n)%nat && (best.2 <? n)%nat then (i, n) else best) (0%nat, 0%nat) (seq 0 8).

Definition colons (l : list Z) : gostring :=
  match l with
  | [] => []
  | x :: l => foldl (λ acc y, acc ++ 58 :: hex16 y) (hex16 x) l
  end.

Definition string6 (v : Z) : gostring :=
  let l := groups16 v in
  let '(at_, n) := longest_zeros l in
  if (n =? 0)%nat then colons l
  else colons (take at_ l) ++ [58; 58] ++ colons (drop (at_ + n) l).

Definition addr_String (a : Addr) : gostring :=
  match a with
  | AddrZero => str "invalid IP"
  | Addr4 v => dotted v
  | Addr6 v zone =>
      (if Z.shiftr v 32 =? 0xffff then str "::ffff:" ++ dotted (u32 v) else string6 v)
      ++ (if bool_decide (zone = ""%string) then [] else 37 :: str zone)
  end.

(** ** Reading *)

(** The four decimal fields of an IPv4 address: at most three digits each, none of
    them padded with a zero, none above 255. *)
Fixpoint fields4 (s : gostring) (val : Z) (digLen : nat) (fields : list Z) : option (list Z) :=
  match s with
  | [] => if (length fields =? 3)%nat then Some (fields ++ [val]) else None
  | c :: s =>
      if is_digit c then
        if (digLen =? 1)%nat && (val =? 0) then None
        else let val := val * 10 + (c - 48) in
             if 255 <? val then None else fields4 s val (S digLen) fields
      else if c =? 46 then
        if (digLen =? 0)%nat || bool_decide (s = []) then None
        else if (length fields =? 3)%nat then None
        else fields4 s 0 0 (fields ++ [val])
      else None
  end.

Definition hex_value (c : Z) : option Z :=
  if is_digit c then Some (c - 48)
  else if (97 <=? c) && (c <=? 102) then Some (c - 87)
  else if (65 <=? c) && (c <=? 70) then Some (c - 55)
  else None.

(** One group of an IPv6 address: its digits, its value and what follows; nothing
    past four digits. *)
Fixpoint hex_group (s : gostring) (off : nat) (acc : Z) : option (nat * Z * gostring) :=
  match s with
  | [] => Some (off, acc, s)
  | c :: s' =>
      match hex_value c with
      | None => Some (off, acc, s)
      | Some d => if (3 <? off)%nat then None else hex_group s' (S off) (acc * 16 + d)
      end
  end.

(** The groups up to the end of the text, as bytes, and where the ellipsis is.
    Eight turns fill the sixteen bytes. *)
Fixpoint groups6 (fuel : nat) (s : gostring) (ip : list Z) (ellipsis : option nat)
    : option (list Z * option nat * gostring) :=
  match fuel with
  | O => Some (ip, ellipsis, s)
  | S fuel =>
      if (16 <=? length ip)%nat then Some (ip, ellipsis, s) else
      match hex_group s 0 0 with
      | None => None
      | Some (off, acc, rest) =>
          if (off =? 0)%nat then None else
          match rest with
          | 46 :: _ =>
              if (match ellipsis with None => negb (length ip =? 12)%nat | Some _ => false end)
                 || (12 <? length ip)%nat then None
              else match fields4 s 0 0 [] with
                   | Some four => Some (ip ++ four, ellipsis, [])
                   | None => None
                   end
          | [] => Some (ip ++ be_encode 2 acc, ellipsis, [])
          | c :: rest =>
              if negb (c =? 58) || bool_decide (rest = []) then None else
              let ip := ip ++ be_encode 2 acc in
              match rest with
              | 58 :: rest =>
                  match ellipsis with
                  | Some _ => None
                  | None => if bool_decide (rest = []) then Some (ip, Some (length ip), [])
                            else groups6 fuel rest ip (Some (length ip))
                  end
              | _ => groups6 fuel rest ip ellipsis
              end
          end
      end
  end.

(** A text cut at the first byte [c]. *)
Fixpoint cut_at (c : Z) (s : gostring) : gostring * option gostring :=
  match s with
  | [] => ([], None)
  | x :: s => if x =? c then ([], Some s) else let '(a, b) := cut_at c s in (x :: a, b)
  end.

Definition to_string (s : gostring) : string :=
  String.string_of_list_ascii ((λ z, Ascii.ascii_of_nat (Z.to_nat z)) <$> s).

Definition parseIPv6 (input : gostring) : option Addr :=
  let '(s, zone) := cut_at 37 input in
  if bool_decide (zone = Some []) then None else
  let z := to_string (default [] zone) in
  match s with
  | [58; 58] => Some (Addr6 0 z)
  | _ =>
      let '(s, ellipsis) := match s with 58 :: 58 :: s => (s, Some 0%nat) | _ => (s, None) end in
      match groups6 9 s [] ellipsis with
      | Some (ip, ellipsis, []) =>
          if (length ip <? 16)%nat then
            match ellipsis with
            | None => None
            | Some e => Some (Addr6 (be_decode (take e ip ++ replicate (16 - length ip) 0 ++ drop e ip)) z)
            end
          else match ellipsis with
               | Some _ => None
               | None => Some (Addr6 (be_decode ip) z)
               end
      | _ => None
      end
  end.

(** The first of these bytes says which kind of address this is. *)
Definition ParseAddr (s : gostring) : option Addr :=
  match filter (λ c, c = 46 ∨ c = 58 ∨ c = 37) s with
  | 46 :: _ => AddrFrom4 <$> fields4 s 0 0 []
  | 58 :: _ => parseIPv6 s
  | _ => None
  end.

(** [strconv.Atoi] on text that starts with a digit or is a single byte. *)
Definition atoi_digits (s : gostring) : option Z :=
  if bool_decide (s = []) || negb (forallb is_digit s) then None
  else Some (foldl (λ acc c, acc * 10 + (c - 48)) 0 s).

(** The text before the last [c] and after it. *)
Definition cut_last (c : Z) (s : gostring) : option (gostring * gostring) :=
  match cut_at c (reverse s) with
  | (after, Some before) => Some (reverse before, reverse after)
  | (_, None) => None
  end.

Definition ParsePrefix (s : gostring) : option Prefix :=
  match cut_last 47 s with
  | None => None
  | Some (addr, bits) =>
      match ParseAddr addr with
      | None => None
      | Some ip =>
          if has_zone ip then None else
          if (1 <? length bits)%nat && bool_decide (head bits = Some 48) then None else
          match atoi_digits bits with
          | Some n => if n <=? BitLen ip then Some (PrefixFrom ip n) else None
          | None => None
          end
      end
  end.

(** ** An IPv4 address is what its text says *)
Example parse_some :
  ParseAddr (str "10.69.0.7") = Some (Addr4 0x0a450007)
  ∧ ParseAddr (str "1.2.3") = None ∧ ParseAddr (str "1.2.3.256") = None ∧ ParseAddr (str "01.2.3.4") = None
  ∧ ParseAddr (str "2001:db8::1") = Some (Addr6 0x20010db8000000000000000000000001 "")
  ∧ ParseAddr (str "::ffff:1.2.3.4%eth0") = Some (Addr6 0xffff01020304 "eth0")
  ∧ addr_String (Addr6 0x20010db8000000000000000000000001 "") = str "2001:db8::1"
  ∧ ParsePrefix (str "10.69.0.0/24") = Some (PrefixFrom (Addr4 0x0a450000) 24)
  ∧ ParsePrefix (str "10.69.0.0/024") = None.
Proof. vm_compute. repeat split. Qed.

(** Reading back the decimal digits of a byte. *)
Lemma fields4_decimal b s fields :
  is_u8 b → fields4 (decimal 3 b ++ s) 0 0 fields = fields4 s b (length (decimal 3 b)) fields.
Proof.
  intros Hb. unfold is_u8 in Hb.
  assert (Z.of_nat (Z.to_nat b) = b) as <- by lia.
  assert (Hn : (Z.to_nat b < 256)%nat) by lia. revert Hn. generalize (Z.to_nat b). clear b Hb. intros n Hn.
  do 256 (destruct n as [|n]; [reflexivity|]). lia.
Qed.

Lemma decimal_byte b : is_u8 b → length (decimal 3 b) ≠ 0%nat ∧ Forall (λ c, is_digit c = true) (decimal 3 b).
Proof.
  intros Hb. unfold is_u8 in Hb. cbn [decimal].
  repeat match goal with |- context [if ?a <? ?b then _ else _] => destruct (Z.ltb_spec a b) end;
    (split; [by rewrite ?length_app; cbn; lia|]); cbn [app]; repeat constructor;
    unfold is_digit; apply andb_true_iff; rewrite !Z.leb_le; Z.to_euclidean_division_equations; lia.
Qed.

Lemma fields4_next b s fields :
  is_u8 b → s ≠ [] → (length fields < 3)%nat →
  fields4 (decimal 3 b ++ 46 :: s) 0 0 fields = fields4 s 0 0 (fields ++ [b]).
Proof.
  intros Hb Hs Hf. rewrite fields4_decimal by done. destruct (decimal_byte b Hb) as [Hl _].
  cbn [fields4]. replace (is_digit 46) with false by done. cbn [Z.eqb].
  rewrite (proj2 (Nat.eqb_neq _ _) Hl), bool_decide_eq_false_2 by done. cbn [orb].
  by rewrite (proj2 (Nat.eqb_neq (length fields) 3)) by lia.
Qed.

Lemma first_separator pre s :
  Forall (λ c, is_digit c = true) pre →
  filter (λ c, c = 46 ∨ c = 58 ∨ c = 37) (pre ++ 46 :: s) = 46 :: filter (λ c, c = 46 ∨ c = 58 ∨ c = 37) s.
Proof.
  induction 1 as [|c pre Hc _ IH]; cbn [app].
  - by rewrite filter_cons_True by auto.
  - rewrite filter_cons_False; [exact IH|]. unfold is_digit in Hc. bool_lia. lia.
Qed.

(** Writing an IPv4 address and reading it again. *)
Lemma ParseAddr_String v : 0 ≤ v < 2 ^ 32 → ParseAddr (addr_String (Addr4 v)) = Some (Addr4 v).
Proof.
  intros Hv. cbn [addr_String]. unfold dotted, ParseAddr.
  pose proof (is_bytes_be_encode 4 v) as Hb. pose proof (length_be_encode 4 v) as Hl.
  destruct (be_encode 4 v) as [|a [|b [|c [|d [|]]]]] eqn:E; try done.
  apply Forall_cons in Hb as [Ha Hb]. apply Forall_cons in Hb as [Hb Hc].
  apply Forall_cons in Hc as [Hc Hd]. apply Forall_cons in Hd as [Hd _].
  rewrite first_separator by (by apply decimal_byte).
  assert (Hne : ∀ x l, decimal 3 x ++ 46 :: l ≠ []) by (intros x l Hx; by apply app_nil in Hx as [_ ?]).
  assert (Hd0 : decimal 3 d ≠ []) by (intros Hx; destruct (decimal_byte d Hd) as [Hx' _]; by rewrite Hx in Hx').
  rewrite fields4_next; [|done|apply Hne|cbn; lia].
  rewrite fields4_next; [|done|apply Hne|cbn; lia].
  rewrite fields4_next; [|done|exact Hd0|cbn; lia].
  rewrite <-(app_nil_r (decimal 3 d)), fields4_decimal by done. cbn [fields4 app length Nat.eqb fmap option_fmap option_map].
  f_equal. unfold AddrFrom4. rewrite <-E. f_equal. by apply be_roundtrip32.
Qed.

Lemma String_inj v w : 0 ≤ v < 2 ^ 32 → 0 ≤ w < 2 ^ 32 → addr_String (Addr4 v) = addr_String (Addr4 w) → v = w.
Proof.
  intros Hv Hw H. apply (f_equal ParseAddr) in H. rewrite !ParseAddr_String in H by done. congruence.
Qed.

Lemma String_not_empty v : 0 ≤ v < 2 ^ 32 → addr_String (Addr4 v) ≠ [].
Proof. intros Hv H. apply (f_equal ParseAddr) in H. by rewrite ParseAddr_String in H. Qed.
