(* ===== verification/Base64.v ===== *)
(** encoding/base64 as the program uses it: the raw encodings, which have no
    padding, in the standard and the URL alphabet. *)
From S2P Require Import Prelude Bytes.

Definition StdAlphabet : gostring := str "ABCDEFGHIJKLMNOPQRSTUVWXYZabcdefghijklmnopqrstuvwxyz0123456789+/".
Definition URLAlphabet : gostring := str "ABCDEFGHIJKLMNOPQRSTUVWXYZabcdefghijklmnopqrstuvwxyz0123456789-_".

(** Three bytes are four digits of six bits; what is left over is padded with zero
    bits. *)
Fixpoint digits64 (raw : list Z) : list Z :=
  match raw with
  | a :: b :: c :: raw => a / 4 :: (a mod 4) * 16 + b / 16 :: (b mod 16) * 4 + c / 64 :: c mod 64 :: digits64 raw
  | [a; b] => [a / 4; (a mod 4) * 16 + b / 16; (b mod 16) * 4]
  | [a] => [a / 4; (a mod 4) * 16]
  | [] => []
  end.

(** Going back, the bits a last digit carries beyond the byte are not looked at. *)
Fixpoint bytes64 (ds : list Z) : option (list Z) :=
  match ds with
  | w :: x :: y :: z :: ds =>
      app [w * 4 + x / 16; (x mod 16) * 16 + y / 4; (y mod 4) * 64 + z] <$> bytes64 ds
  | [w; x; y] => Some [w * 4 + x / 16; (x mod 16) * 16 + y / 4]
  | [w; x] => Some [w * 4 + x / 16]
  | [_] => None
  | [] => Some []
  end.

Definition letter (alphabet : gostring) (d : Z) : Z := default 0 (alphabet !! Z.to_nat d).
Definition digit_of (alphabet : gostring) (c : Z) : option Z :=
  Z.of_nat ∘ fst <$> list_find (λ x, x = c) alphabet.

Definition EncodeToString (alphabet : gostring) (raw : list Z) : gostring := letter alphabet <$> digits64 raw.

(** Line breaks in the text are skipped. *)
Definition DecodeString (alphabet : gostring) (s : gostring) : option (list Z) :=
  mapM (digit_of alphabet) (filter (λ c, c ≠ 10 ∧ c ≠ 13) s) ≫= bytes64.

(** ** Reading back what was written *)
Lemma triple_ind (P : list Z → Prop) :
  P [] → (∀ a, P [a]) → (∀ a b, P [a; b]) → (∀ a b c l, P l → P (a :: b :: c :: l)) → ∀ l, P l.
Proof.
  intros H0 H1 H2 H3. fix IH 1. intros [|a [|b [|c l]]]; [done|apply H1|apply H2|apply H3, IH].
Qed.

Lemma digits64_range raw : is_bytes raw → Forall (λ d, 0 ≤ d < 64) (digits64 raw).
Proof.
  induction raw as [|a|a b|a b c l IH] using triple_ind; intros H; cbn [digits64]; [constructor|..];
    repeat (apply Forall_cons in H as [? H]); unfold is_u8 in *;
    repeat (constructor; [Z.to_euclidean_division_equations; lia|]); [constructor..|by apply IH].
Qed.

Lemma bytes64_digits64 raw : is_bytes raw → bytes64 (digits64 raw) = Some raw.
Proof.
  induction raw as [|a|a b|a b c l IH] using triple_ind; intros H; cbn [digits64 bytes64]; [done|..];
    repeat (apply Forall_cons in H as [? H]); unfold is_u8 in *; [..|rewrite IH by done; cbn [fmap option_fmap option_map app]];
    repeat f_equal; Z.to_euclidean_division_equations; lia.
Qed.

(** An alphabet in which every letter has its digit and none is a line break. *)
Definition good_alphabet (alphabet : gostring) : Prop :=
  Forall (λ d, digit_of alphabet (letter alphabet (Z.of_nat d)) = Some (Z.of_nat d)
               ∧ letter alphabet (Z.of_nat d) ≠ 10 ∧ letter alphabet (Z.of_nat d) ≠ 13) (seq 0 64).

Lemma good_std : good_alphabet StdAlphabet.
Proof. apply (bool_decide_unpack _). vm_compute. exact I. Qed.
Lemma good_url : good_alphabet URLAlphabet.
Proof. apply (bool_decide_unpack _). vm_compute. exact I. Qed.

Lemma good_letter alphabet d : good_alphabet alphabet → 0 ≤ d < 64 →
  digit_of alphabet (letter alphabet d) = Some d ∧ letter alphabet d ≠ 10 ∧ letter alphabet d ≠ 13.
Proof.
  intros H Hd. unfold good_alphabet in H. rewrite Forall_forall in H. specialize (H (Z.to_nat d)). rewrite Z2Nat.id in H by lia.
  apply H. apply elem_of_seq. lia.
Qed.

Lemma DecodeString_Encode alphabet raw :
  good_alphabet alphabet → is_bytes raw → DecodeString alphabet (EncodeToString alphabet raw) = Some raw.
Proof.
  intros Ha Hb. unfold DecodeString, EncodeToString. pose proof (digits64_range raw Hb) as Hr.
  assert (∀ ds, Forall (λ d, 0 ≤ d < 64) ds →
    mapM (digit_of alphabet) (filter (λ c, c ≠ 10 ∧ c ≠ 13) (letter alphabet <$> ds)) = Some ds) as ->.
  - induction 1 as [|d ds Hd _ IH]; [done|]. destruct (good_letter alphabet d Ha Hd) as (Hg & H1 & H2).
    rewrite fmap_cons, filter_cons_True by done. cbn [mapM mbind option_bind]. by rewrite Hg, IH.
  - by apply bytes64_digits64.
  - exact Hr.
Qed.

Lemma EncodeToString_inj alphabet raw raw' :
  good_alphabet alphabet → is_bytes raw → is_bytes raw' →
  EncodeToString alphabet raw = EncodeToString alphabet raw' → raw = raw'.
Proof.
  intros Ha Hb Hb' H. apply (f_equal (DecodeString alphabet)) in H.
  rewrite !DecodeString_Encode in H by done. congruence.
Qed.
#[export] Hint Resolve good_std good_url : vlan.
