(* ===== verification/Checksum.v ===== *)
(** The internet checksum, and changing it in place: adjustChecksum of
    daemon/core/pump.go.

    The reference is RFC 1071: the complement of the sum of the 16-bit words with the
    carry brought round.  What the code does is RFC 1624: fold the change of an address
    into a checksum that is already there. *)
From S2P Require Import Prelude Bytes.

(** ** The reference *)

(** [^x] on a [uint16]. *)
Definition not16 (x : Z) : Z := u16 (Z.lnot x).

(** The 16-bit words of a text, an odd last byte padded with zero. *)
Fixpoint words (l : list Z) : list Z :=
  match l with
  | [] => []
  | [a] => [a * 256]
  | a :: b :: l => a * 256 + b :: words l
  end.

(** Addition with the carry brought round. *)
Definition ones_add (a b : Z) : Z := let s := a + b in if 0xffff <? s then s - 0xffff else s.
Definition ones_sum (l : list Z) : Z := foldl ones_add 0 (words l).

(** RFC 1071, over a text whose checksum field reads zero. *)
Definition checksum_of (l : list Z) : Z := not16 (ones_sum l).

(** ** The code *)

(** [for sum > 0xffff { sum = sum&0xffff + sum>>16 }].  A second fold of what fits
    32 bits leaves no carry, so the third test is the last. *)
Fixpoint fold_carries (fuel : nat) (sum : Z) : Z :=
  match fuel with
  | O => sum
  | S fuel => if 0xffff <? sum then fold_carries fuel (u32 (Z.land sum 0xffff + Z.shiftr sum 16)) else sum
  end.
Definition carried_round (sum : Z) : Z := fold_carries 3 sum.

Definition adjustChecksum (checksum : Z) (was now : list Z) : Z :=
  let sum := foldl (λ sum '(w, n), u32 (u32 (sum + not16 w) + n)) (not16 checksum) (zip (words was) (words now)) in
  not16 (u16 (carried_round sum)).

(** ** Arithmetic *)

(** What a sum is once its carries are brought round: itself modulo 65535, with
    65535 for every multiple of it but zero. *)
Definition norm (s : Z) : Z := if s =? 0 then 0 else (s - 1) mod 65535 + 1.

Lemma norm_range s : 0 ≤ s → is_u16 (norm s).
Proof.
  intros Hs. unfold norm, is_u16. pose proof (Z.mod_pos_bound (s - 1) 65535). destruct (s =? 0); lia.
Qed.

Lemma norm_small s : is_u16 s → norm s = s.
Proof.
  unfold is_u16, norm. intros Hs. destruct (Z.eqb_spec s 0); [done|]. rewrite Z.mod_small; lia.
Qed.

Lemma norm_zero s : 0 ≤ s → norm s = 0 ↔ s = 0.
Proof.
  intros Hs. unfold norm. pose proof (Z.mod_pos_bound (s - 1) 65535). destruct (Z.eqb_spec s 0); split; lia.
Qed.

Lemma norm_mod s : 0 ≤ s → norm s mod 65535 = s mod 65535.
Proof.
  intros Hs. unfold norm. destruct (Z.eqb_spec s 0) as [->|]; [done|].
  rewrite Z.add_mod_idemp_l by lia. f_equal. lia.
Qed.

(** Two sums are the same with their carries brought round when they agree modulo
    65535 and neither is zero. *)
Lemma norm_eq s t : 0 < s → 0 < t → s mod 65535 = t mod 65535 → norm s = norm t.
Proof.
  intros Hs Ht E. unfold norm. destruct (Z.eqb_spec s 0), (Z.eqb_spec t 0); try lia. f_equal.
  rewrite (Zminus_mod s), (Zminus_mod t), E. done.
Qed.

Lemma norm_step s : 0xffff < s → norm (s - 0xffff) = norm s.
Proof.
  intros Hs. apply norm_eq; [lia..|]. replace (s - 0xffff) with (s + (-1) * 65535) by lia. apply Z.mod_add. lia.
Qed.

Lemma norm_fold s : 0xffff < s → norm (Z.land s 0xffff + Z.shiftr s 16) = norm s.
Proof.
  intros Hs. change 0xffff with (Z.ones 16). rewrite Z.land_ones, Z.shiftr_div_pow2 by lia.
  pose proof (Z.div_mod s (2 ^ 16)). pose proof (Z.mod_pos_bound s (2 ^ 16)).
  assert (1 ≤ s / 2 ^ 16) by (apply Z.div_le_lower_bound; lia).
  apply norm_eq; [lia..|].
  replace s with ((s mod 2 ^ 16 + s / 2 ^ 16) + (s / 2 ^ 16) * 65535) at 3 by lia. rewrite Z.mod_add; [done|lia].
Qed.

(** The loop ends, and where it ends the carries are round. *)
Lemma fold_carries_norm s : is_u32 s → carried_round s = norm s.
Proof.
  assert (Hstep : ∀ s, 0xffff < s → is_u32 s →
    u32 (Z.land s 0xffff + Z.shiftr s 16) = Z.land s 0xffff + Z.shiftr s 16
    ∧ Z.land s 0xffff + Z.shiftr s 16 ≤ 0xffff + s / 2 ^ 16 ∧ 0 ≤ Z.land s 0xffff + Z.shiftr s 16
    ∧ (s ≤ 131070 → Z.land s 0xffff + Z.shiftr s 16 ≤ 0xffff)).
  { clear s. intros s Hs Hu. change 0xffff with (Z.ones 16) in *. rewrite Z.land_ones, Z.shiftr_div_pow2 by lia.
    pose proof (Z.mod_pos_bound s (2 ^ 16)). pose proof (Z.div_mod s (2 ^ 16)). unfold is_u32 in Hu.
    assert (s / 2 ^ 16 < 2 ^ 16) by (apply Z.div_lt_upper_bound; lia).
    assert (0 ≤ s / 2 ^ 16) by (apply Z.div_pos; lia). change (Z.ones 16) with 65535 in *.
    split; [apply u32_id; unfold is_u32; lia|]. lia. }
  intros Hu. unfold carried_round. cbn [fold_carries].
  destruct (Z.ltb_spec 0xffff s) as [H1|H1]; [|symmetry; apply norm_small; unfold is_u16, is_u32 in *; lia].
  destruct (Hstep s H1 Hu) as (-> & Hle & Hpos & _). rewrite <-(norm_fold s H1). set (t := Z.land s 0xffff + Z.shiftr s 16) in *.
  assert (s / 2 ^ 16 < 2 ^ 16) by (apply Z.div_lt_upper_bound; unfold is_u32 in Hu; lia).
  assert (is_u32 t) as Ht by (unfold is_u32; lia).
  destruct (Z.ltb_spec 0xffff t) as [H2|H2]; [|symmetry; apply norm_small; unfold is_u16; lia].
  destruct (Hstep t H2 Ht) as (-> & _ & Hpos' & Hlt). rewrite <-(norm_fold t H2).
  destruct (Z.ltb_spec 0xffff (Z.land t 0xffff + Z.shiftr t 16)) as [H3|H3]; [lia|].
  symmetry. apply norm_small. unfold is_u16. lia.
Qed.

(** ** Sums of words *)
Definition total (l : list Z) : Z := foldr Z.add 0 (words l).

Lemma words_u16 l : is_bytes l → Forall is_u16 (words l).
Proof.
  intros Hl. assert (∀ n l, (length l ≤ n)%nat → is_bytes l → Forall is_u16 (words l)) as H; [|by apply (H (length l))].
  clear l Hl. induction n as [|n IH]; intros [|a [|b l]] Hn Hb; cbn in *; try lia; try constructor.
  - unfold is_bytes in Hb. apply Forall_cons in Hb as [Ha _]. unfold is_u8, is_u16 in *. lia.
  - constructor.
  - unfold is_bytes in Hb. apply Forall_cons in Hb as [Ha [Hb _]%Forall_cons]. unfold is_u8, is_u16 in *. lia.
  - apply IH; [lia|]. by apply Forall_cons in Hb as [_ [_ Hb]%Forall_cons].
Qed.

Lemma words_app l k : Nat.even (length l) = true → words (l ++ k) = words l ++ words k.
Proof.
  assert (∀ n l, (length l ≤ n)%nat → Nat.even (length l) = true → words (l ++ k) = words l ++ words k) as H; [|by apply (H (length l))].
  clear l. induction n as [|n IH]; intros [|a [|b l]] Hn He; cbn in *; try done; try lia. by rewrite IH by (done || lia).
Qed.

Lemma total_app l k : Nat.even (length l) = true → total (l ++ k) = total l + total k.
Proof.
  intros He. unfold total. rewrite words_app by done. induction (words l) as [|w ws IH]; cbn; lia.
Qed.

Lemma total_nonneg l : is_bytes l → 0 ≤ total l.
Proof.
  intros Hl. unfold total. induction (words_u16 l Hl) as [|w ws Hw _ IH]; cbn; [lia|]. unfold is_u16 in Hw. lia.
Qed.

Lemma foldl_ones_add ws s : 0 ≤ s → Forall is_u16 ws → foldl ones_add (norm s) ws = norm (s + foldr Z.add 0 ws).
Proof.
  intros Hs Hws. revert s Hs. induction Hws as [|w ws Hw Hws IH]; intros s Hs; cbn; [by rewrite Z.add_0_r|].
  unfold is_u16 in Hw. rewrite Z.add_assoc, <-IH by lia. f_equal. unfold ones_add.
  pose proof (norm_range s Hs) as Hn. unfold is_u16 in Hn. pose proof (norm_mod s Hs) as Hm.
  assert (0 < norm s ↔ 0 < s) as Hz by (pose proof (norm_zero s Hs); lia).
  assert (norm (norm s + w) = norm (s + w)) as E.
  { destruct (Z.eq_dec (s + w) 0) as [E|E].
    - assert (s = 0 ∧ w = 0) as [-> ->] by lia. done.
    - apply norm_eq; [lia..|]. rewrite (Zplus_mod (norm s)), (Zplus_mod s), Hm. done. }
  rewrite <-E. destruct (Z.ltb_spec 0xffff (norm s + w)) as [Hl|Hl].
  - rewrite <-(norm_step (norm s + w)) by lia. symmetry. apply norm_small. unfold is_u16. lia.
  - symmetry. apply norm_small. unfold is_u16. lia.
Qed.

Lemma ones_sum_norm l : is_bytes l → ones_sum l = norm (total l).
Proof. intros Hl. unfold ones_sum, total. change 0 with (norm 0) at 1. rewrite foldl_ones_add; [done|lia|by apply words_u16]. Qed.

Lemma not16_sub x : is_u16 x → not16 x = 65535 - x.
Proof.
  unfold is_u16, not16, u16, Z.lnot. intros Hx. replace (Z.pred (- x)) with (65535 - x + (-1) * 2 ^ 16) by lia.
  rewrite Z.mod_add, Z.mod_small by lia. done.
Qed.
Lemma not16_range x : is_u16 (not16 x).
Proof. apply u16_range. Qed.
Lemma not16_involutive x : is_u16 x → not16 (not16 x) = x.
Proof. intros Hx. rewrite !not16_sub; [lia|done|]. rewrite not16_sub by done. unfold is_u16 in *. lia. Qed.

(** ** The correction *)

(** What the loop over the address adds up to. *)
Lemma adjust_sum a b c d a' b' c' d' s :
  is_bytes [a; b; c; d] → is_bytes [a'; b'; c'; d'] → is_u16 s →
  foldl (λ sum '(w, n), u32 (u32 (sum + not16 w) + n)) s (zip (words [a; b; c; d]) (words [a'; b'; c'; d']))
  = s + (65535 - (a * 256 + b)) + (a' * 256 + b') + (65535 - (c * 256 + d)) + (c' * 256 + d').
Proof.
  intros H H' Hs. apply words_u16 in H, H'. cbn [words] in *. unfold is_bytes in *.
  apply Forall_cons in H as [Hw1 [Hw2 _]%Forall_cons]. apply Forall_cons in H' as [Hn1 [Hn2 _]%Forall_cons].
  cbn [zip zip_with foldl]. rewrite (not16_sub _ Hw1), (not16_sub _ Hw2). unfold is_u16 in *.
  set (w1 := a * 256 + b) in *. set (w2 := c * 256 + d) in *. set (n1 := a' * 256 + b') in *. set (n2 := c' * 256 + d') in *.
  clearbody w1 w2 n1 n2. assert (Hu : ∀ z, 0 ≤ z ≤ 5 * 65535 → u32 z = z) by (intros z Hz; apply u32_id; unfold is_u32; lia).
  rewrite (Hu (s + (65535 - w1))), (Hu (s + (65535 - w1) + n1)) by lia.
  rewrite (Hu (s + (65535 - w1) + n1 + (65535 - w2))) by lia. by rewrite Hu by lia.
Qed.

Lemma total_four a b c d : total [a; b; c; d] = (a * 256 + b) + (c * 256 + d).
Proof. unfold total. cbn. lia. Qed.

(** Folding the change in gives the checksum of the changed text: [rest] is the sum
    of all words but the address, and neither text sums to zero. *)
Lemma adjust_recomputes rest was now :
  0 ≤ rest → is_bytes was → is_bytes now → length was = 4%nat → length now = 4%nat →
  total was ≠ 2 * 65535 → 0 < rest + total was → 0 < rest + total now →
  ∀ checksum, is_u16 checksum →
  (checksum = not16 (norm (rest + total was)) ∨ checksum = 65535 ∧ norm (rest + total was) = 65535) →
  adjustChecksum checksum was now = not16 (norm (rest + total now)).
Proof.
  intros Hrest Hw Hn Lw Ln Hall Hpw Hpn checksum Hu Hc.
  destruct was as [|a [|b [|c [|d [|]]]]]; try done. destruct now as [|a' [|b' [|c' [|d' [|]]]]]; try done.
  unfold adjustChecksum. rewrite adjust_sum by (done || apply not16_range). rewrite !total_four in *.
  pose proof (words_u16 _ Hw) as Uw. pose proof (words_u16 _ Hn) as Un. cbn [words] in *.
  apply Forall_cons in Uw as [Hw1 [Hw2 _]%Forall_cons]. apply Forall_cons in Un as [Hn1 [Hn2 _]%Forall_cons].
  unfold is_u16 in Hw1, Hw2, Hn1, Hn2.
  set (wa := a * 256 + b) in *. set (wc := c * 256 + d) in *. set (na := a' * 256 + b') in *. set (nc := c' * 256 + d') in *.
  pose proof (norm_range (rest + (wa + wc))) as Hr. pose proof (norm_mod (rest + (wa + wc))) as Hm.
  pose proof (norm_zero (rest + (wa + wc))) as Hz.
  assert (not16 checksum mod 65535 = (rest + (wa + wc)) mod 65535 ∧ 0 ≤ not16 checksum ≤ 65535) as [E Hs].
  { split; [|pose proof (not16_range checksum) as H; unfold is_u16 in H; lia]. rewrite <-Hm by lia. destruct Hc as [->|[-> Eq]].
    - by rewrite not16_involutive by (apply Hr; lia).
    - by rewrite Eq. }
  set (s := not16 checksum) in *. clearbody s.
  rewrite fold_carries_norm by (unfold is_u32; lia).
  rewrite u16_id by (apply norm_range; lia). f_equal. apply norm_eq; [lia..|].
  replace (s + (65535 - wa) + na + (65535 - wc) + nc) with (s + (na + nc - wa - wc) + 2 * 65535) by lia.
  rewrite Z.mod_add by lia. rewrite Zplus_mod, E, <-Zplus_mod. f_equal. lia.
Qed.
