(* ===== verification/Wire.v ===== *)
(** protocol/transport: the packet envelope and the payloads inside it.

    [Encode] and [Decode] are wire.go's; the payload codecs are payloads.go's.
    A decoder is given bytes off the network, so what the theorems say of it is
    that it is total, that it inverts its encoder, and that the encoder inverts
    it: a datagram has one reading and a header has one spelling. *)
From S2P Require Import Prelude Bytes NetAddr.

(** ** wire.go *)
Definition Magic : Z := 0xC192.
Definition TransportVersion : Z := 1.

(** MessageType is a uint8 and any byte can arrive in it. *)
Abbreviation MessageType := Z (only parsing).
Definition MsgProbe : MessageType := 1.
Definition MsgHandshakeInit : MessageType := 2.
Definition MsgHandshakeResponse : MessageType := 3.
Definition MsgKeepalive : MessageType := 4.
Definition MsgData : MessageType := 5.
Definition MsgClose : MessageType := 6.
Definition MsgForward : MessageType := 7.

Definition HeaderSize : nat := 20.

Record Header : Type := mkHeader {
  Version : Z;
  Type_ : MessageType;
  Sender : Z;
  Counter : Z;
}.

Inductive wire_error : Type :=
  | ErrShortPacket
  | ErrBadMagic
  | UnsupportedVersionError (v : Z)
  | ErrMalformedPayload
  | ErrTooLong
  | ErrNotIPv4.

#[export] Instance Header_eq_dec : EqDecision Header.
Proof. solve_decision. Defined.
#[export] Instance wire_error_eq_dec : EqDecision wire_error.
Proof. solve_decision. Defined.

(** The twenty bytes of [hdr], filled field by field. *)
Definition Encode (h : Header) (dst payload : list Z) : list Z :=
  dst ++ (be_encode 2 Magic ++ [u8 (Version h)] ++ [u8 (Type_ h)]
          ++ be_encode 8 (Sender h) ++ be_encode 8 (Counter h)) ++ payload.

(** On an unsupported version the header is returned beside the error. *)
Definition Decode (pkt : list Z) : go wire_error (Header * list Z) :=
  if (length pkt <? HeaderSize)%nat then Throw ErrShortPacket else
  magic ← slice pkt 0 2;
  if negb (be_decode magic =? Magic) then Throw ErrBadMagic else
  version ← index pkt 2;
  type ← index pkt 3;
  sender ← slice pkt 4 12;
  counter ← slice pkt 12 20;
  let h := mkHeader version type (be_decode sender) (be_decode counter) in
  if negb (Version h =? TransportVersion) then Throw (UnsupportedVersionError (Version h)) else
  payload ← slice_from pkt HeaderSize;
  Ret (h, payload).

(** Sizing for the data plane. *)
Definition AEADTagSize : nat := 16.
Definition Overhead : nat := HeaderSize + AEADTagSize.
Definition TunnelMTU : nat := 1400.
Definition MaxPacketSize : nat := TunnelMTU + Overhead.
Definition ForwardHeaderSize : nat := 9.
Definition ForwardOverhead : nat := HeaderSize + AEADTagSize + ForwardHeaderSize.
Definition MaxDatagramSize : nat := MaxPacketSize + ForwardOverhead.

(** ** payloads.go *)
Record Ping : Type := mkPing { Token : Z; Reply : bool }.
Definition PingSize : nat := 9.

Definition Ping_Encode (p : Ping) (dst : list Z) : list Z :=
  dst ++ be_encode 8 (Token p) ++ [if Reply p then 1 else 0].

Definition DecodePing (payload : list Z) : go wire_error Ping :=
  if (length payload <? PingSize)%nat then Throw ErrMalformedPayload else
  token ← slice payload 0 8;
  reply ← index payload 8;
  Ret (mkPing (be_decode token) (reply =? 1)).

(** A device id is a Go string, which is a string of bytes. *)
Record HandshakeInit : Type := mkHandshakeInit { DeviceID : list Z; KeyExchange : list Z }.

Definition HandshakeInit_Encode (h : HandshakeInit) (dst : list Z) : go wire_error (list Z) :=
  if (255 <? length (DeviceID h))%nat then Throw ErrTooLong else
  if (Z.to_nat 65535 <? length (KeyExchange h))%nat then Throw ErrTooLong else
  let dst := dst ++ [u8 (Z.of_nat (length (DeviceID h)))] in
  let dst := dst ++ DeviceID h in
  let dst := dst ++ be_encode 2 (u16 (Z.of_nat (length (KeyExchange h)))) in
  Ret (dst ++ KeyExchange h).

Definition DecodeHandshakeInit (payload : list Z) : go wire_error HandshakeInit :=
  if (length payload <? 1)%nat then Throw ErrMalformedPayload else
  b ← index payload 0;
  let idLen := Z.to_nat b in
  rest ← slice_from payload 1;
  if (length rest <? idLen + 2)%nat then Throw ErrMalformedPayload else
  id ← slice rest 0 idLen;
  rest ← slice_from rest idLen;
  n ← slice rest 0 2;
  let keyLen := Z.to_nat (be_decode n) in
  rest ← slice_from rest 2;
  if (length rest <? keyLen)%nat then Throw ErrMalformedPayload else
  key ← slice rest 0 keyLen;
  Ret (mkHandshakeInit id key).

Record HandshakeResponse : Type := mkHandshakeResponse { RespKeyExchange : list Z }.

Definition HandshakeResponse_Encode (h : HandshakeResponse) (dst : list Z) : go wire_error (list Z) :=
  if (Z.to_nat 65535 <? length (RespKeyExchange h))%nat then Throw ErrTooLong else
  let dst := dst ++ be_encode 2 (u16 (Z.of_nat (length (RespKeyExchange h)))) in
  Ret (dst ++ RespKeyExchange h).

Definition DecodeHandshakeResponse (payload : list Z) : go wire_error HandshakeResponse :=
  if (length payload <? 2)%nat then Throw ErrMalformedPayload else
  n ← slice payload 0 2;
  let keyLen := Z.to_nat (be_decode n) in
  rest ← slice_from payload 2;
  if (length rest <? keyLen)%nat then Throw ErrMalformedPayload else
  key ← slice rest 0 keyLen;
  Ret (mkHandshakeResponse key).

Record Forward : Type := mkForward {
  HopLimit : Z;
  Source : Addr;
  Destination : Addr;
  Packet : list Z;
}.

Definition Forward_Encode (f : Forward) (dst : list Z) : go wire_error (list Z) :=
  if negb (Is4 (Source f)) || negb (Is4 (Destination f)) then Throw ErrNotIPv4 else
  let dst := dst ++ [u8 (HopLimit f)] in
  let dst := dst ++ As4 (Source f) in
  let dst := dst ++ As4 (Destination f) in
  Ret (dst ++ Packet f).

Definition DecodeForward (payload : list Z) : go wire_error Forward :=
  if (length payload <? ForwardHeaderSize + HeaderSize)%nat then Throw ErrMalformedPayload else
  hops ← index payload 0;
  source ← slice payload 1 5;
  destination ← slice payload 5 9;
  packet ← slice_from payload ForwardHeaderSize;
  Ret (mkForward hops (AddrFrom4 source) (AddrFrom4 destination) packet).

(** A header as the struct's field types allow it. *)
Definition header_wf (h : Header) : Prop :=
  is_u8 (Version h) ∧ is_u8 (Type_ h) ∧ is_u64 (Sender h) ∧ is_u64 (Counter h).

Definition forward_wf (f : Forward) : Prop :=
  is_u8 (HopLimit f) ∧ addr_wf (Source f) ∧ addr_wf (Destination f).

(** ** Lengths *)
Lemma length_Encode h dst payload :
  length (Encode h dst payload) = (length dst + HeaderSize + length payload)%nat.
Proof.
  unfold Encode. rewrite !length_app, !length_be_encode. unfold HeaderSize. cbn [length]. lia.
Qed.

Lemma length_Ping_Encode p dst : length (Ping_Encode p dst) = (length dst + PingSize)%nat.
Proof. unfold Ping_Encode. rewrite !length_app, length_be_encode. unfold PingSize. cbn [length]. lia. Qed.

Lemma length_Forward_Encode f dst out :
  Forward_Encode f dst = Ret out →
  length out = (length dst + ForwardHeaderSize + length (Packet f))%nat.
Proof.
  unfold Forward_Encode. intros H. go_inv. bool_lia. destruct_and?.
  rewrite !length_app, !length_As4 by done.
  unfold ForwardHeaderSize. cbn [length]. lia.
Qed.

(** ** The decoders never panic

    Each reads only behind the length check in front of it. *)
Ltac parse_step :=
  match goal with
  | |- (_ ≫= _) ≠ Panic => apply go_bind_not_Panic
  | |- ∀ _, _ = Ret _ → _ => intros ? ?
  | H : slice ?l ?i ?j = Ret ?x |- _ =>
      rewrite slice_Ret in H by lia; injection H as H; subst x
  | H : slice_from ?l ?i = Ret ?x |- _ =>
      rewrite slice_from_Ret in H by lia; injection H as H; subst x
  | |- slice _ _ _ ≠ Panic => apply slice_not_Panic
  | |- slice_from _ _ ≠ Panic => rewrite slice_from_Ret; [done|]
  | |- index _ _ ≠ Panic => apply index_not_Panic
  | |- (if ?b then _ else _) ≠ Panic => let E := fresh "E" in destruct b eqn:E; bool_lia
  | |- Throw _ ≠ Panic => discriminate
  | |- Ret _ ≠ Panic => discriminate
  end.
Ltac parse_safe := repeat parse_step; rewrite ?length_take, ?length_drop in *; try lia.

Lemma Decode_not_Panic pkt : Decode pkt ≠ Panic.
Proof. unfold Decode, HeaderSize. parse_safe. Qed.

Lemma DecodePing_not_Panic p : DecodePing p ≠ Panic.
Proof. unfold DecodePing, PingSize. parse_safe. Qed.

Lemma DecodeHandshakeInit_not_Panic p : DecodeHandshakeInit p ≠ Panic.
Proof.
  unfold DecodeHandshakeInit. parse_safe.
Qed.

Lemma DecodeHandshakeResponse_not_Panic p : DecodeHandshakeResponse p ≠ Panic.
Proof. unfold DecodeHandshakeResponse. parse_safe. Qed.

Lemma DecodeForward_not_Panic p : DecodeForward p ≠ Panic.
Proof. unfold DecodeForward, ForwardHeaderSize, HeaderSize. parse_safe. Qed.
#[export] Hint Resolve Decode_not_Panic DecodePing_not_Panic DecodeHandshakeInit_not_Panic
  DecodeHandshakeResponse_not_Panic DecodeForward_not_Panic : vlan.

(** ** Round trips *)

(** Read the piece [k] out of a buffer written as [l ++ k ++ r]. *)
Lemma slice_piece {E A} (buf l k r : list A) i j :
  buf = l ++ k ++ r → length l = i → (j = i + length k)%nat → slice (E:=E) buf i j = Ret k.
Proof. intros ->. apply slice_app_at. Qed.

Lemma index_piece {E A} (buf l r : list A) x i :
  buf = l ++ x :: r → length l = i → index (E:=E) buf i = Ret x.
Proof. intros -> <-. apply index_lookup. by apply list_lookup_middle. Qed.

Lemma slice_from_piece {E A} (buf l r : list A) i :
  buf = l ++ r → length l = i → slice_from (E:=E) buf i = Ret r.
Proof. intros ->. apply slice_from_app_at. Qed.

Ltac piece_side :=
  match goal with
  | |- @eq (list _) _ _ => by rewrite <-?(assoc_L (++))
  | |- _ => repeat progress (cbn [app length]; rewrite ?length_app, ?length_be_encode); lia
  end.

Lemma Decode_Encode_gen h payload :
  Decode (Encode h [] payload) =
    if u8 (Version h) =? TransportVersion
    then Ret (mkHeader (u8 (Version h)) (u8 (Type_ h)) (u64 (Sender h)) (u64 (Counter h)), payload)
    else Throw (UnsupportedVersionError (u8 (Version h))).
Proof.
  unfold Decode. pose proof (length_Encode h [] payload) as Hl.
  destruct (Nat.ltb_spec (length (Encode h [] payload)) HeaderSize) as [H|_]; [cbn [length] in Hl; lia|].
  set (m := be_encode 2 Magic). set (s := be_encode 8 (Sender h)). set (c := be_encode 8 (Counter h)).
  set (v := u8 (Version h)). set (t := u8 (Type_ h)).
  assert (He : Encode h [] payload = m ++ [v] ++ [t] ++ s ++ c ++ payload)
    by (unfold Encode; by rewrite <-!(assoc_L (++))).
  assert (Hm : length m = 2%nat) by apply length_be_encode.
  assert (Hs : length s = 8%nat) by apply length_be_encode.
  assert (Hc : length c = 8%nat) by apply length_be_encode.
  assert (Dm : be_decode m = Magic) by (unfold m; rewrite be_decode_encode; done).
  assert (Ds : be_decode s = u64 (Sender h)) by apply be_decode_encode.
  assert (Dc : be_decode c = u64 (Counter h)) by apply be_decode_encode.
  rewrite He. clear Hl He. clearbody m s c.
  rewrite (slice_piece _ [] m ([v] ++ [t] ++ s ++ c ++ payload) 0 2) by piece_side.
  cbn [mbind go_bind]. rewrite Dm, Z.eqb_refl. cbn [negb].
  rewrite (index_piece _ m ([t] ++ s ++ c ++ payload) v 2) by piece_side. cbn [mbind go_bind].
  rewrite (index_piece _ (m ++ [v]) (s ++ c ++ payload) t 3) by piece_side. cbn [mbind go_bind].
  rewrite (slice_piece _ (m ++ [v] ++ [t]) s (c ++ payload) 4 12) by piece_side. cbn [mbind go_bind].
  rewrite (slice_piece _ (m ++ [v] ++ [t] ++ s) c payload 12 20) by piece_side. cbn [mbind go_bind].
  cbn [Version]. destruct (v =? TransportVersion); [|done]. cbn [negb].
  rewrite (slice_from_piece _ (m ++ [v] ++ [t] ++ s ++ c) payload HeaderSize) by (unfold HeaderSize; piece_side).
  cbn [mbind go_bind]. by rewrite Ds, Dc.
Qed.

Lemma Decode_Encode h payload :
  header_wf h → Version h = TransportVersion → Decode (Encode h [] payload) = Ret (h, payload).
Proof.
  intros (Hv & Ht & Hs & Hc) HV. rewrite Decode_Encode_gen.
  rewrite !u8_id, !u64_id by done. rewrite HV at 1. cbn. destruct h; cbn in *. done.
Qed.

(** Splitting a list at the offsets a decoder reads. *)
Lemma split_at {A} (l : list A) i j : (i ≤ j)%nat → drop i l = take (j - i) (drop i l) ++ drop j l.
Proof. intros. rewrite <-(take_drop (j - i) (drop i l)) at 1. rewrite drop_drop. do 2 f_equal. lia. Qed.

Lemma drop_index {A} (l : list A) i x : l !! i = Some x → drop i l = x :: drop (S i) l.
Proof. apply drop_S. Qed.

Lemma index_inv {E A} (l : list A) i x : index (E:=E) l i = Ret x → l !! i = Some x.
Proof. unfold index. destruct (l !! i); by intros [= ->]. Qed.

Lemma Encode_Decode pkt h payload :
  is_bytes pkt → Decode pkt = Ret (h, payload) → Encode h [] payload = pkt.
Proof.
  intros Hb. unfold Decode. destruct (Nat.ltb_spec (length pkt) HeaderSize) as [|Hl]; [done|].
  unfold HeaderSize in *. rewrite !slice_Ret, slice_from_Ret by lia. cbn [mbind go_bind].
  destruct (Z.eqb_spec (be_decode (take (2 - 0) (drop 0 pkt))) Magic) as [Hm|]; [|done]. cbn [negb].
  destruct (index pkt 2) as [v| |] eqn:Hv; try done. cbn [mbind go_bind].
  destruct (index pkt 3) as [t| |] eqn:Ht; try done. cbn [mbind go_bind].
  apply index_inv in Hv, Ht. cbn [Version].
  destruct (negb _) eqn:HV; [done|]. intros [= <- <-].
  unfold Encode. cbn [Version Type_ Sender Counter].
  rewrite !u8_id by (eapply is_bytes_lookup; eassumption).
  rewrite <-Hm, !be_encode_decode' by (auto with vlan || (rewrite length_take, length_drop; lia)).
  rewrite <-!(assoc_L (++)). cbn [app Nat.sub].
  transitivity (take 2 pkt ++ drop 2 pkt); [|apply take_drop]. f_equal.
  rewrite (drop_index pkt 2 v), (drop_index pkt 3 t) by done. do 2 f_equal.
  etransitivity; [|symmetry; apply (split_at pkt 4 12); lia]. f_equal.
  symmetry. apply (split_at pkt 12 20). lia.
Qed.

Lemma DecodePing_Encode p :
  is_u64 (Token p) → DecodePing (Ping_Encode p []) = Ret p.
Proof.
  intros Ht. unfold DecodePing. rewrite length_Ping_Encode.
  replace (_ <? _)%nat with false by done. unfold Ping_Encode.
  rewrite (slice_piece _ [] (be_encode 8 (Token p)) [if Reply p then 1 else 0] 0 8) by piece_side.
  rewrite (index_piece _ (be_encode 8 (Token p)) [] (if Reply p then 1 else 0) 8) by piece_side.
  cbn [mbind go_bind]. rewrite be_roundtrip64 by done. destruct p as [? []]; done.
Qed.

Lemma DecodeHandshakeInit_Encode h out :
  HandshakeInit_Encode h [] = Ret out → DecodeHandshakeInit out = Ret h.
Proof.
  unfold HandshakeInit_Encode. destruct (Nat.ltb_spec 255 (length (DeviceID h))) as [|Hid]; [done|].
  destruct (Nat.ltb_spec (Z.to_nat 65535) (length (KeyExchange h))) as [|Hk]; [done|].
  intros [= <-]. destruct h as [id key]. cbn [DeviceID KeyExchange] in *.
  rewrite u8_id by (unfold is_u8; lia). rewrite u16_id by (unfold is_u16; lia).
  unfold DecodeHandshakeInit. rewrite <-!(assoc_L (++)). cbn [app].
  replace (length _ <? 1)%nat with false by done.
  rewrite (index_piece _ [] (id ++ be_encode 2 (Z.of_nat (length key)) ++ key) (Z.of_nat (length id)) 0) by piece_side.
  cbn [mbind go_bind]. rewrite Nat2Z.id.
  rewrite (slice_from_piece _ [Z.of_nat (length id)] (id ++ be_encode 2 (Z.of_nat (length key)) ++ key) 1) by piece_side.
  cbn [mbind go_bind].
  destruct (Nat.ltb_spec (length (id ++ be_encode 2 (Z.of_nat (length key)) ++ key)) (length id + 2)) as [Hl|_];
    [rewrite !length_app, length_be_encode in Hl; lia|].
  rewrite (slice_piece _ [] id (be_encode 2 (Z.of_nat (length key)) ++ key) 0 (length id)) by piece_side.
  cbn [mbind go_bind].
  rewrite (slice_from_piece _ id (be_encode 2 (Z.of_nat (length key)) ++ key) (length id)) by piece_side.
  cbn [mbind go_bind].
  rewrite (slice_piece _ [] (be_encode 2 (Z.of_nat (length key))) key 0 2) by piece_side. cbn [mbind go_bind].
  rewrite be_roundtrip16, Nat2Z.id by (unfold is_u16; lia).
  rewrite (slice_from_piece _ (be_encode 2 (Z.of_nat (length key))) key 2) by piece_side.
  cbn [mbind go_bind]. rewrite Nat.ltb_irrefl.
  rewrite slice_Ret, Nat.sub_0_r, drop_0, take_ge by lia. done.
Qed.

Lemma DecodeHandshakeResponse_Encode h out :
  HandshakeResponse_Encode h [] = Ret out → DecodeHandshakeResponse out = Ret h.
Proof.
  unfold HandshakeResponse_Encode.
  destruct (Nat.ltb_spec (Z.to_nat 65535) (length (RespKeyExchange h))) as [|Hk]; [done|].
  intros [= <-]. destruct h as [key]. cbn [RespKeyExchange] in *.
  rewrite u16_id by (unfold is_u16; lia). unfold DecodeHandshakeResponse. cbn [app].
  replace (length _ <? 2)%nat with false by done.
  rewrite (slice_piece _ [] (be_encode 2 (Z.of_nat (length key))) key 0 2) by piece_side. cbn [mbind go_bind].
  rewrite be_roundtrip16, Nat2Z.id by (unfold is_u16; lia).
  rewrite (slice_from_piece _ (be_encode 2 (Z.of_nat (length key))) key 2) by piece_side.
  cbn [mbind go_bind]. rewrite Nat.ltb_irrefl.
  rewrite slice_Ret, Nat.sub_0_r, drop_0, take_ge by lia. done.
Qed.

Lemma DecodeForward_Encode f out :
  forward_wf f → (HeaderSize ≤ length (Packet f))%nat →
  Forward_Encode f [] = Ret out → DecodeForward out = Ret f.
Proof.
  intros (Hh & Hs & Hd) Hp Hout. pose proof (length_Forward_Encode _ _ _ Hout) as Hl.
  unfold Forward_Encode in Hout. destruct f as [hops src dst pkt]. cbn [HopLimit Source Destination Packet] in *.
  destruct (Is4 src) eqn:Es; [|done]. destruct (Is4 dst) eqn:Ed; [|done]. cbn [negb orb] in Hout.
  injection Hout as <-. unfold DecodeForward.
  destruct (Nat.ltb_spec (length ((([] ++ [u8 hops]) ++ As4 src) ++ As4 dst ++ pkt)) (ForwardHeaderSize + HeaderSize)) as [H|_].
  { unfold ForwardHeaderSize, HeaderSize in *. rewrite !length_app, !length_As4 in H by done. cbn [length] in *. lia. }
  rewrite <-!(assoc_L (++)) in *. rewrite (u8_id hops) in * by done. cbn [app] in *.
  destruct (Nat.ltb_spec (length (hops :: As4 src ++ As4 dst ++ pkt)) (ForwardHeaderSize + HeaderSize)) as [H|_].
  { unfold ForwardHeaderSize, HeaderSize in *. lia. }
  pose proof (length_As4 src Es). pose proof (length_As4 dst Ed).
  rewrite (index_piece _ [] (As4 src ++ As4 dst ++ pkt) hops 0) by piece_side. cbn [mbind go_bind].
  rewrite (slice_piece _ [hops] (As4 src) (As4 dst ++ pkt) 1 5) by piece_side. cbn [mbind go_bind].
  rewrite (slice_piece _ (hops :: As4 src) (As4 dst) pkt 5 9) by piece_side. cbn [mbind go_bind].
  rewrite (slice_from_piece _ (hops :: As4 src ++ As4 dst) pkt ForwardHeaderSize)
    by (unfold ForwardHeaderSize; cbn [app]; piece_side). cbn [mbind go_bind].
  by rewrite !From4_As4.
Qed.

Lemma Decode_wf pkt h payload :
  is_bytes pkt → Decode pkt = Ret (h, payload) → header_wf h ∧ Version h = TransportVersion.
Proof.
  intros Hb. unfold Decode. destruct (Nat.ltb_spec (length pkt) HeaderSize) as [|Hl]; [done|].
  unfold HeaderSize in *. rewrite !slice_Ret, slice_from_Ret by lia. cbn [mbind go_bind].
  destruct (negb _); [done|].
  destruct (index pkt 2) as [v| |] eqn:Hv; try done. cbn [mbind go_bind].
  destruct (index pkt 3) as [t| |] eqn:Ht; try done. cbn [mbind go_bind Version].
  apply index_inv in Hv, Ht. destruct (Z.eqb_spec v TransportVersion) as [HV|]; [|done].
  cbn [negb]. intros [= <- <-]. split; [|done].
  assert (Hr : ∀ i j, (j - i = 8)%nat → (j ≤ length pkt)%nat → is_u64 (be_decode (take (j - i) (drop i pkt)))).
  { intros i j Hij Hj. pose proof (be_decode_range (take (j - i) (drop i pkt))) as H.
    rewrite length_take, length_drop, Nat.min_l, Hij in H by lia. rewrite Hij. apply H. auto with vlan. }
  unfold header_wf; split_and!; cbn [Version Type_ Sender Counter];
    [by eapply is_bytes_lookup|by eapply is_bytes_lookup|apply (Hr 4%nat 12%nat)|apply (Hr 12%nat 20%nat)]; lia.
Qed.

Lemma Decode_length pkt h payload :
  Decode pkt = Ret (h, payload) → (HeaderSize ≤ length pkt)%nat ∧ payload = drop HeaderSize pkt.
Proof.
  unfold Decode. destruct (Nat.ltb_spec (length pkt) HeaderSize) as [|Hl]; [done|]. intros H. split; [done|].
  unfold HeaderSize in *. rewrite !slice_Ret, slice_from_Ret in H by lia. cbn [mbind go_bind] in H.
  destruct (negb _); [done|]. destruct (index pkt 2); try done. destruct (index pkt 3); try done.
  cbn [mbind go_bind] in H. destruct (negb _); [done|]. by injection H as _ <-.
Qed.

Lemma DecodeForward_bytes body f :
  is_bytes body → DecodeForward body = Ret f → is_bytes (Packet f) ∧ is_u8 (HopLimit f).
Proof.
  intros Hb. unfold DecodeForward, ForwardHeaderSize, HeaderSize.
  destruct (Nat.ltb_spec (length body) (9 + 20)) as [|Hl]; [done|].
  rewrite !slice_Ret, slice_from_Ret by lia. destruct (index body 0) as [x| |] eqn:Hx; try done. cbn.
  intros [= <-]. cbn. split; [by apply is_bytes_drop|]. apply index_inv in Hx. by eapply is_bytes_lookup.
Qed.

(** ** Properties *)

(** The envelope has one reading and one spelling.  A datagram decodes to a
    header and a payload exactly when the header fits its field widths, carries
    the transport version, and encoding the two gives the datagram back; so
    [Decode] inverts [Encode], nothing but an encoding is accepted, and two
    different headers never share a datagram. *)
Theorem Decode_iff_Encode pkt h payload :
  is_bytes pkt →
  Decode pkt = Ret (h, payload) ↔
    header_wf h ∧ Version h = TransportVersion ∧ pkt = Encode h [] payload.
Proof.
  intros Hb. split.
  - intros H. destruct (Decode_wf _ _ _ Hb H). by rewrite (Encode_Decode _ _ _ Hb H).
  - intros (? & ? & ->). by apply Decode_Encode.
Qed.

Lemma Decode_iff_Encode_witness :
  let pkt := [0xC1; 0x92; 1; 5] ++ [0;0;0;0;0;0;0;7] ++ [0;0;0;0;0;0;1;0] ++ [42; 43] in
  Decode pkt = Ret (mkHeader 1 MsgData 7 256, [42; 43]).
Proof.
  cbn zeta. apply Decode_iff_Encode.
  - apply (bool_decide_unpack _). vm_compute. exact I.
  - split; [|split]; [|reflexivity|vm_compute; reflexivity].
    unfold header_wf, is_u8, is_u64, MsgData; cbn; lia.
Defined.

(** No datagram crashes the parsers.  Every decoder that reads bytes off the
    network returns a value or an error on every input, of any length and any
    content: no slice expression in it runs past the end. *)
Theorem decoders_never_panic (p : list Z) :
  Decode p ≠ Panic ∧ DecodePing p ≠ Panic ∧ DecodeHandshakeInit p ≠ Panic ∧
  DecodeHandshakeResponse p ≠ Panic ∧ DecodeForward p ≠ Panic.
Proof. auto 10 with vlan. Qed.

(** Every payload survives the wire.  A ping, a handshake message, its reply
    and a forward decode to what was encoded, for every value the encoders
    accept; the length fields of one and two bytes hold every length they let
    through. *)
Theorem payloads_roundtrip :
  (∀ p, is_u64 (Token p) → DecodePing (Ping_Encode p []) = Ret p) ∧
  (∀ h out, HandshakeInit_Encode h [] = Ret out → DecodeHandshakeInit out = Ret h) ∧
  (∀ h out, HandshakeResponse_Encode h [] = Ret out → DecodeHandshakeResponse out = Ret h) ∧
  (∀ f out, forward_wf f → (HeaderSize ≤ length (Packet f))%nat →
     Forward_Encode f [] = Ret out → DecodeForward out = Ret f).
Proof.
  eauto 10 using DecodePing_Encode, DecodeHandshakeInit_Encode, DecodeHandshakeResponse_Encode,
    DecodeForward_Encode.
Qed.

Lemma payloads_roundtrip_witness :
  DecodeForward (u8 1 :: As4 (Addr4 0x0A450002) ++ As4 (Addr4 0x0A450003) ++ replicate 20 7)
  = Ret (mkForward 1 (Addr4 0x0A450002) (Addr4 0x0A450003) (replicate 20 7)).
Proof.
  refine (proj2 (proj2 (proj2 payloads_roundtrip)) _ _ _ _ _).
  - unfold forward_wf, is_u8, addr_wf; cbn; lia.
  - cbn. unfold HeaderSize. lia.
  - vm_compute. reflexivity.
Defined.

(** A receive buffer of [MaxDatagramSize] holds anything the mesh sends.  A
    sealed IP packet no longer than the tunnel's MTU fits [MaxPacketSize], and
    that packet inside a sealed forward, where sealing adds the 16-byte tag and
    forward addresses are IPv4, fits [MaxDatagramSize] exactly when the IP packet
    is as large as it may be. *)
Theorem datagram_sizes h h' f body sealed sealed' (ip : list Z) :
  (length ip ≤ TunnelMTU)%nat → length sealed = (length ip + AEADTagSize)%nat →
  Packet f = Encode h [] sealed → Forward_Encode f [] = Ret body →
  length sealed' = (length body + AEADTagSize)%nat →
  (length (Packet f) ≤ MaxPacketSize)%nat ∧
  (length (Encode h' [] sealed') ≤ MaxDatagramSize)%nat ∧
  (length (Encode h' [] sealed') = MaxDatagramSize ↔ length ip = TunnelMTU).
Proof.
  intros Hip Hs Hp Hf Hs'. apply length_Forward_Encode in Hf.
  rewrite Hp, length_Encode in *. rewrite length_Encode, Hs', Hf, Hs.
  unfold MaxDatagramSize, MaxPacketSize, Overhead, ForwardOverhead, TunnelMTU, HeaderSize,
    AEADTagSize, ForwardHeaderSize in *. cbn [length]. lia.
Qed.

Lemma datagram_sizes_witness :
  let h := mkHeader 1 MsgData 1 0 in
  let h' := mkHeader 1 MsgForward 2 0 in
  let inner := Encode h [] (replicate (1400 + 16) 0) in
  let body := 1 :: As4 (Addr4 1) ++ As4 (Addr4 2) ++ inner in
  (length inner ≤ MaxPacketSize)%nat ∧
  (length (Encode h' [] (body ++ replicate 16 0%Z)) ≤ MaxDatagramSize)%nat.
Proof.
  cbn zeta.
  set (h := mkHeader 1 MsgData 1 0). set (h' := mkHeader 1 MsgForward 2 0).
  set (inner := Encode h [] (replicate (1400 + 16) 0)).
  set (body := 1 :: As4 (Addr4 1) ++ As4 (Addr4 2) ++ inner).
  destruct (datagram_sizes h h' (mkForward 1 (Addr4 1) (Addr4 2) inner) body
    (replicate (1400 + 16) 0) (body ++ replicate 16 0) (replicate 1400 0)) as (H1 & H2 & _).
  - vm_compute. lia.
  - vm_compute. reflexivity.
  - reflexivity.
  - vm_compute. reflexivity.
  - vm_compute. reflexivity.
  - split; [exact H1|exact H2].
Defined.
