(* ===== verification/Replay.v ===== *)
(** protocol/session/replay.go: the window that tells a replayed packet from a
    reordered one.

    [Accept] works on a 64-bit bitmap; the specification below it works on the
    whole history of accepted counters.  The refinement theorem says no caller
    can tell them apart, whatever counters arrive in whatever order. *)
From S2P Require Import Prelude.

Definition WindowSize : Z := 64.

Record ReplayWindow : Type := mkWindow {
  highest : Z;
  seen : Z;
  started : bool;
}.

(** [session.ReplayWindow{}] *)
Definition ReplayWindow_zero : ReplayWindow := mkWindow 0 0 false.

Definition Accept (w : ReplayWindow) (counter : Z) : bool * ReplayWindow :=
  if negb (started w) then (true, mkWindow counter 1 true) else
  if highest w <? counter then
    let shift := u64 (counter - highest w) in
    let seen' := if WindowSize <=? shift then 0 else u64 (Z.shiftl (seen w) shift) in
    (true, mkWindow counter (Z.lor seen' 1) (started w))
  else
    let behind := u64 (highest w - counter) in
    if WindowSize <=? behind then (false, w) else
    if negb (Z.land (seen w) (u64 (Z.shiftl 1 behind)) =? 0) then (false, w) else
    (true, mkWindow (highest w) (Z.lor (seen w) (u64 (Z.shiftl 1 behind))) (started w)).

(** A link's packets in the order they were decrypted, and the verdicts. *)
Fixpoint accept_all (w : ReplayWindow) (counters : list Z) : list bool :=
  match counters with
  | [] => []
  | c :: cs => let '(ok, w) := Accept w c in ok :: accept_all w cs
  end.

(** ** Specification: remember everything *)
Fixpoint top (history : list Z) : Z :=
  match history with [] => 0 | c :: h => Z.max c (top h) end.

Definition fresh (history : list Z) (c : Z) : bool :=
  bool_decide (history = []) || (top history <? c) ||
  ((top history - c <? WindowSize) && bool_decide (c ∉ history)).

Fixpoint spec_all (history : list Z) (counters : list Z) : list bool :=
  match counters with
  | [] => []
  | c :: cs =>
      if fresh history c then true :: spec_all (c :: history) cs
      else false :: spec_all history cs
  end.

(** The counters let through, oldest first. *)
Definition accepted (counters : list Z) : list Z :=
  (filter (λ p, p.2 = true) (zip counters (accept_all ReplayWindow_zero counters))).*1.

(** ** The bitmap tells the history inside the window *)
Record window_of (w : ReplayWindow) (history : list Z) : Prop := {
  wo_u64 : Forall is_u64 history;
  wo_started : started w = bool_decide (history ≠ []);
  wo_highest : started w = true → highest w = top history;
  wo_seen : started w = true → is_u64 (seen w);
  wo_bit : started w = true → ∀ n, 0 ≤ n →
    Z.testbit (seen w) n = (n <? WindowSize) && bool_decide (highest w - n ∈ history);
}.

Lemma top_ge history c : c ∈ history → c ≤ top history.
Proof. induction 1; cbn [top]; lia. Qed.

Lemma top_in history : history ≠ [] → Forall is_u64 history → top history ∈ history.
Proof.
  induction history as [|c h IH]; intros Hne Hu; [done|]. cbn. inversion Hu as [|?? Hc Hh]; subst.
  destruct (decide (h = [])) as [->|Hn].
  - cbn. unfold is_u64 in Hc. rewrite Z.max_l by lia. by left.
  - destruct (Z.max_spec c (top h)) as [[_ ->]|[_ ->]]; [right; by apply IH|by left].
Qed.

Lemma top_u64 history : Forall is_u64 history → is_u64 (top history).
Proof. unfold is_u64. induction 1; cbn [top]; lia. Qed.

Lemma testbit_1 n : 0 ≤ n → Z.testbit 1 n = bool_decide (n = 0).
Proof.
  intros. case_bool_decide as Hn; [by subst|]. apply Z.bits_above_log2; cbn; lia.
Qed.

Lemma testbit_shifted_1 k n : 0 ≤ k < 64 → 0 ≤ n → Z.testbit (u64 (Z.shiftl 1 k)) n = bool_decide (n = k).
Proof.
  intros Hk Hn. rewrite u64_id.
  - rewrite Z.shiftl_spec by lia. destruct (decide (n < k)).
    + rewrite Z.testbit_neg_r by lia. by rewrite bool_decide_eq_false_2 by lia.
    + rewrite testbit_1 by lia. apply bool_decide_ext. lia.
  - unfold is_u64. rewrite Z.shiftl_1_l. split; [lia|]. apply Z.pow_lt_mono_r; lia.
Qed.

(** [seen&(1<<behind) != 0] reads one bit. *)
Lemma land_bit s k :
  is_u64 s → 0 ≤ k < 64 →
  negb (Z.land s (u64 (Z.shiftl 1 k)) =? 0) = Z.testbit s k.
Proof.
  intros Hs Hk. destruct (Z.testbit s k) eqn:E.
  - apply negb_true_iff, Z.eqb_neq. intros H. apply (f_equal (λ z, Z.testbit z k)) in H.
    rewrite Z.land_spec, testbit_shifted_1, bool_decide_eq_true_2, E, Z.testbit_0_l in H by lia. done.
  - apply negb_false_iff, Z.eqb_eq, Z.bits_inj'. intros n Hn.
    rewrite Z.land_spec, testbit_shifted_1, Z.testbit_0_l by lia.
    case_bool_decide; [subst; by rewrite E|apply andb_false_r].
Qed.

Lemma lor_u64 a b : is_u64 a → is_u64 b → is_u64 (Z.lor a b).
Proof.
  unfold is_u64. intros Ha Hb. split; [apply Z.lor_nonneg; lia|].
  destruct (decide (Z.lor a b = 0)) as [->|Hn]; [lia|].
  apply Z.log2_lt_pow2; [pose proof (proj2 (Z.lor_nonneg a b)); lia|].
  rewrite Z.log2_lor by lia.
  assert (∀ x, 0 ≤ x < 2 ^ 64 → Z.log2 x < 64) as Hl.
  { intros x Hx. destruct (decide (x = 0)) as [->|]; [cbn; lia|]. apply Z.log2_lt_pow2; lia. }
  apply Z.max_lub_lt; by apply Hl.
Qed.

Lemma window_of_zero : window_of ReplayWindow_zero [].
Proof. by constructor. Qed.

(** A counter past the top slides the window. *)
Lemma slide_bit w history c n :
  window_of w history → started w = true → highest w < c → is_u64 c → 0 ≤ n →
  Z.testbit (Z.lor (if WindowSize <=? u64 (c - highest w) then 0
                    else u64 (Z.shiftl (seen w) (u64 (c - highest w)))) 1) n
  = (n <? WindowSize) && bool_decide (c - n ∈ c :: history).
Proof.
  intros Hw Hst Hc Hu Hn. pose proof (wo_highest _ _ Hw Hst) as Hh.
  pose proof (top_u64 _ (wo_u64 _ _ Hw)) as Ht. unfold is_u64, WindowSize in *.
  rewrite (u64_id (c - highest w)) by (unfold is_u64; lia).
  rewrite Z.lor_spec, testbit_1 by lia.
  destruct (decide (n = 0)) as [->|Hn0].
  { rewrite bool_decide_eq_true_2, orb_true_r, Z.sub_0_r by done. symmetry.
    cbn. apply bool_decide_eq_true_2. by left. }
  rewrite bool_decide_eq_false_2, orb_false_r by done.
  assert (bool_decide (c - n ∈ c :: history) = bool_decide (c - n ∈ history)) as ->.
  { apply bool_decide_ext. rewrite elem_of_cons. split; [intros [|]; [lia|done]|by right]. }
  destruct (Z.leb_spec 64 (c - highest w)) as [Hs|Hs].
  - rewrite Z.testbit_0_l. symmetry. destruct (Z.ltb_spec n 64); [|done]. cbn.
    apply bool_decide_eq_false_2. intros Hin%top_ge. lia.
  - unfold u64. destruct (Z.ltb_spec n 64).
    + rewrite Z.mod_pow2_bits_low, Z.shiftl_spec by lia.
      destruct (decide (n < c - highest w)).
      * rewrite Z.testbit_neg_r by lia. symmetry. cbn. apply bool_decide_eq_false_2.
        intros Hin%top_ge. lia.
      * rewrite (wo_bit _ _ Hw Hst) by lia. unfold WindowSize.
        destruct (Z.ltb_spec (n - (c - highest w)) 64); [|lia]. cbn.
        apply bool_decide_ext. by replace (highest w - (n - (c - highest w))) with (c - n) by lia.
    + cbn. apply Z.mod_pow2_bits_high. lia.
Qed.

(** One step of the bitmap is one step of the history. *)
(** The first counter of a link. *)
Lemma window_of_first c : is_u64 c → window_of (mkWindow c 1 true) [c].
Proof.
  intros Hu. constructor; cbn; [by constructor|done| |unfold is_u64; lia|].
  - unfold is_u64 in Hu. lia.
  - intros _ n Hn. rewrite testbit_1 by done. unfold WindowSize. destruct (Z.ltb_spec n 64); cbn.
    + apply bool_decide_ext. rewrite list_elem_of_singleton. lia.
    + apply bool_decide_eq_false_2. lia.
Qed.

Lemma Accept_spec w history c :
  window_of w history → is_u64 c →
  (Accept w c).1 = fresh history c ∧
  window_of (Accept w c).2 (if fresh history c then c :: history else history).
Proof.
  intros Hw Hu. pose proof (wo_started _ _ Hw) as Hst. pose proof (wo_u64 _ _ Hw) as Hall.
  unfold Accept, fresh. destruct (started w) eqn:Es; cbn [negb].
  2:{ symmetry in Hst. apply bool_decide_eq_false in Hst. apply dec_stable in Hst. subst history.
      cbn. split; [done|]. by apply window_of_first. }
  symmetry in Hst. apply bool_decide_eq_true in Hst.
  pose proof (wo_highest _ _ Hw Es) as Hh. pose proof (top_u64 _ Hall) as Htu.
  rewrite bool_decide_eq_false_2 by done. cbn [orb]. rewrite <-Hh in *.
  destruct (Z.ltb_spec (highest w) c) as [Hlt|Hge]; cbn [orb].
  { split; [done|]. cbn [fst snd]. constructor; cbn [started highest seen].
    - by constructor.
    - symmetry. by apply bool_decide_eq_true_2.
    - intros _. cbn. rewrite <-Hh. lia.
    - intros _. apply lor_u64; [|unfold is_u64; lia]. case_match; [unfold is_u64; lia|apply u64_range].
    - intros _ n Hn. by apply slide_bit. }
  unfold is_u64 in *. rewrite (u64_id (highest w - c)) by (unfold is_u64; lia). unfold WindowSize.
  destruct (Z.leb_spec 64 (highest w - c)) as [Hold|Hin].
  { replace (highest w - c <? 64) with false by (symmetry; apply Z.ltb_ge; lia). done. }
  replace (highest w - c <? 64) with true by (symmetry; apply Z.ltb_lt; lia). cbn [andb].
  rewrite land_bit by (apply (wo_seen _ _ Hw Es) || lia).
  rewrite (wo_bit _ _ Hw Es) by lia. unfold WindowSize.
  replace (highest w - c <? 64) with true by (symmetry; apply Z.ltb_lt; lia). cbn [andb].
  replace (highest w - (highest w - c)) with c by lia.
  destruct (decide (c ∈ history)) as [Hc|Hc].
  { rewrite (bool_decide_eq_true_2 (c ∈ history)) by done. rewrite bool_decide_eq_false_2 by auto. done. }
  rewrite (bool_decide_eq_false_2 (c ∈ history)) by done. rewrite bool_decide_eq_true_2 by done.
  split; [done|]. cbn [fst snd]. constructor; cbn [started highest seen].
  - by constructor.
  - symmetry. by apply bool_decide_eq_true_2.
  - intros _. cbn. rewrite <-Hh. lia.
  - intros _. apply lor_u64; [apply (wo_seen _ _ Hw Es)|apply u64_range].
  - intros _ n Hn. rewrite Z.lor_spec, testbit_shifted_1 by lia.
    rewrite (wo_bit _ _ Hw Es) by lia. unfold WindowSize.
    rewrite (bool_decide_ext (highest w - n ∈ c :: history) (highest w - n = c ∨ highest w - n ∈ history))
      by apply elem_of_cons.
    rewrite bool_decide_or, (bool_decide_ext (highest w - n = c) (n = highest w - c)) by lia.
    destruct (Z.ltb_spec n 64); cbn [andb]; [apply orb_comm|]. apply bool_decide_eq_false_2. lia.
Qed.

Lemma accept_all_spec w history cs :
  window_of w history → Forall is_u64 cs → accept_all w cs = spec_all history cs.
Proof.
  intros Hw Hcs. revert w history Hw. induction Hcs as [|c cs Hc _ IH]; intros w history Hw; [done|].
  cbn [accept_all spec_all]. destruct (Accept_spec w history c Hw Hc) as [H1 H2].
  destruct (Accept w c) as [ok w']. cbn [fst snd] in *. subst ok.
  destruct (fresh history c); f_equal; by apply IH.
Qed.

(** A counter judged fresh is not in the history. *)
Lemma fresh_not_in history c : fresh history c = true → c ∉ history.
Proof.
  unfold fresh. intros H Hin. pose proof (top_ge _ _ Hin) as Ht.
  apply orb_true_iff in H as [[H|H]%orb_true_iff|[_ H]%andb_true_iff].
  - apply bool_decide_eq_true in H. subst. by apply not_elem_of_nil in Hin.
  - apply Z.ltb_lt in H. lia.
  - by apply bool_decide_eq_true in H.
Qed.

Lemma spec_all_NoDup history cs :
  NoDup history →
  NoDup (reverse history ++ (filter (λ p, p.2 = true) (zip cs (spec_all history cs))).*1).
Proof.
  revert history. induction cs as [|c cs IH]; intros history Hd; cbn [spec_all zip zip_with].
  - cbn. by rewrite app_nil_r, reverse_Permutation.
  - destruct (fresh history c) eqn:E; cbn [zip zip_with].
    + rewrite filter_cons_True by done. cbn [fmap list_fmap fst].
      specialize (IH (c :: history)). rewrite reverse_cons, <-(assoc_L (++)) in IH.
      apply IH, NoDup_cons. split; [by apply fresh_not_in|done].
    + rewrite filter_cons_False by done. by apply IH.
Qed.

(** ** Properties *)

(** C36: the replay window is exactly its specification.  Fed any sequence of
    64-bit counters, the bitmap gives the same verdict at every step as a
    receiver that remembers every counter it ever accepted and lets one through
    when it is the first, is past the highest so far, or is less than 64 behind
    it and has not been accepted before. *)
Theorem replay_window_refines counters :
  Forall is_u64 counters → accept_all ReplayWindow_zero counters = spec_all [] counters.
Proof. apply accept_all_spec, window_of_zero. Qed.

Lemma replay_window_refines_witness :
  accept_all ReplayWindow_zero [100; 99; 99; 37; 36; 164; 100; 101; 2 ^ 64 - 1; 164]
  = [true; true; false; true; false; true; false; true; true; false].
Proof.
  rewrite replay_window_refines; [vm_compute; reflexivity|].
  repeat (constructor; [unfold is_u64; lia|]). constructor.
Defined.

(** No packet counter is accepted twice on a link, whatever an attacker
    resends and however far the window has moved in between. *)
Theorem never_accepted_twice counters :
  Forall is_u64 counters → NoDup (accepted counters).
Proof.
  intros H. unfold accepted. rewrite (accept_all_spec _ [] _ window_of_zero H).
  apply (spec_all_NoDup [] counters). constructor.
Qed.

Lemma never_accepted_twice_witness : NoDup (accepted [5; 6; 7; 5; 6; 1000; 7; 1000]).
Proof.
  apply never_accepted_twice. repeat (constructor; [unfold is_u64; lia|]). constructor.
Defined.
