(* ===== verification/Stun.v ===== *)
(** daemon/stun: asking a STUN server what a socket looks like from outside.

    The reply comes off the same socket as peer packets, from anybody, so the
    parser's totality and its insistence on the transaction id are what is
    proved, along with the fact the shared socket rests on: no datagram is both
    a STUN message and a peer packet. *)
From S2P Require Import Prelude Bytes NetAddr Wire.

Definition bindingRequest : Z := 0x0001.
Definition bindingSuccess : Z := 0x0101.
Definition magicCookie : Z := 0x2112A442.
Definition headerSize : nat := 20.
Definition attrMappedAddress : Z := 0x0001.
Definition attrXorMappedAddress : Z := 0x0020.
Definition familyIPv4 : Z := 0x01.
Definition familyIPv6 : Z := 0x02.

Inductive stun_error : Type :=
  | ErrNotSTUN
  | ErrNotSuccess (kind : Z)
  | ErrOtherRequest
  | ErrShorterThanClaims
  | ErrAttrPastMessage
  | ErrAttrTooShort
  | ErrAddressTooShort
  | ErrUnknownFamily (family : Z)
  | ErrNoAddress.

#[export] Instance stun_error_eq_dec : EqDecision stun_error.
Proof. solve_decision. Defined.

Record Request : Type := mkRequest { ID : list Z; RequestPacket : list Z }.

(** [id] is the twelve bytes drawn from crypto/rand. *)
Definition NewRequest (id : list Z) : Request :=
  mkRequest id (be_encode 2 bindingRequest ++ be_encode 2 0 ++ be_encode 4 magicCookie ++ id).

(** A packet shorter than the header is refused before the bytes are read. *)
Definition Looks (packet : list Z) : bool :=
  if (length packet <? headerSize)%nat then false else
  match packet with
  | [] => false
  | b :: _ =>
      if negb (Z.land b 0xC0 =? 0) then false else
      be_decode (take 4 (drop 4 packet)) =? magicCookie
  end.

(** [out[i] ^= key[i]] *)
Definition xor_bytes (out key : list Z) : list Z := zip_with Z.lxor out key.

Definition parseAddress (value id : list Z) (xored : bool) : go stun_error AddrPort :=
  if (length value <? 4)%nat then Throw ErrAttrTooShort else
  family ← index value 1;
  p ← slice value 2 4;
  raw ← slice_from value 4;
  let key := be_encode 4 magicCookie ++ id in
  let port := if xored then Z.lxor (be_decode p) (u16 (Z.shiftr magicCookie 16)) else be_decode p in
  if family =? familyIPv4 then
    if (length raw <? 4)%nat then Throw ErrAddressTooShort else
    out ← slice raw 0 4;
    let out := if xored then xor_bytes out key else out in
    Ret (AddrPortFrom (AddrFrom4 out) port)
  else if family =? familyIPv6 then
    if (length raw <? 16)%nat then Throw ErrAddressTooShort else
    out ← slice raw 0 16;
    let out := if xored then xor_bytes out key else out in
    Ret (AddrPortFrom (AddrFrom16 out) port)
  else Throw (ErrUnknownFamily family).

(** What is left to answer with once the attributes have been read. *)
Definition answer (fallback : AddrPort) : go stun_error AddrPort :=
  if ap_IsValid fallback then Ret fallback else Throw ErrNoAddress.

(** The attribute loop of [ParseResponse].  Every turn drops at least four bytes,
    so as many turns as there are bytes are enough; running out is [Panic], which
    [ParseResponse] is proved never to return. *)
Fixpoint parse_attrs (fuel : nat) (id body : list Z) (fallback : AddrPort) : go stun_error AddrPort :=
  if (length body <? 4)%nat then answer fallback else
  match fuel with
  | O => Panic
  | S fuel =>
      k ← slice body 0 2;
      n ← slice body 2 4;
      let kind := be_decode k in
      let size := Z.to_nat (be_decode n) in
      if (length body <? 4 + size)%nat then Throw ErrAttrPastMessage else
      value ← slice body 4 (4 + size);
      if kind =? attrXorMappedAddress then parseAddress value id true else
      let fallback :=
        if kind =? attrMappedAddress then
          match parseAddress value id false with Ret addr => addr | _ => fallback end
        else fallback in
      let pad := (size mod 4)%nat in
      let advance := (4 + size + (if (pad =? 0)%nat then 0 else 4 - pad))%nat in
      if (length body <? advance)%nat then answer fallback else
      rest ← slice_from body advance;
      parse_attrs fuel id rest fallback
  end.

Definition ParseResponse (id packet : list Z) : go stun_error AddrPort :=
  if negb (Looks packet) then Throw ErrNotSTUN else
  k ← slice packet 0 2;
  if negb (be_decode k =? bindingSuccess) then Throw (ErrNotSuccess (be_decode k)) else
  i ← slice packet 8 20;
  if negb (bool_decide (i = id)) then Throw ErrOtherRequest else
  n ← slice packet 2 4;
  let len := Z.to_nat (be_decode n) in
  if (length packet <? headerSize + len)%nat then Throw ErrShorterThanClaims else
  body ← slice packet headerSize (headerSize + len);
  parse_attrs (length body) id body AddrPortZero.

(** ** What a server sends: the success response of RFC 5389 with one
    XOR-MAPPED-ADDRESS attribute, written from the RFC rather than the parser. *)
Definition xor_mapped (id : list Z) (ap : AddrPort) : list Z :=
  let key := be_encode 4 magicCookie ++ id in
  let port := be_encode 2 (Z.lxor (ap_port ap) 0x2112) in
  match ap_addr ap with
  | Addr4 v => [0; familyIPv4] ++ port ++ xor_bytes (be_encode 4 v) key
  | Addr6 v _ => [0; familyIPv6] ++ port ++ xor_bytes (be_encode 16 v) key
  | AddrZero => []
  end.

Definition server_response (id : list Z) (ap : AddrPort) : list Z :=
  let value := xor_mapped id ap in
  let n := Z.of_nat (length value) in
  be_encode 2 bindingSuccess ++ be_encode 2 (4 + n) ++ be_encode 4 magicCookie ++ id ++
  be_encode 2 attrXorMappedAddress ++ be_encode 2 n ++ value.

(** ** Lemmas *)
Lemma parseAddress_not_Panic value id x : parseAddress value id x ≠ Panic.
Proof. unfold parseAddress. parse_safe. Qed.

Lemma parse_attrs_not_Panic fuel id body fb :
  (length body ≤ fuel)%nat → parse_attrs fuel id body fb ≠ Panic.
Proof.
  revert body fb. induction fuel as [|fuel IH]; intros body fb Hf; cbn [parse_attrs].
  - destruct (Nat.ltb_spec (length body) 4); [|lia]. unfold answer. by destruct (ap_IsValid fb).
  - destruct (Nat.ltb_spec (length body) 4) as [|H4].
    { unfold answer. by destruct (ap_IsValid fb). }
    rewrite !(slice_Ret body) by lia. cbn [mbind go_bind].
    set (size := Z.to_nat _). destruct (Nat.ltb_spec (length body) (4 + size)); [done|].
    rewrite slice_Ret by lia. cbn [mbind go_bind].
    destruct (_ =? attrXorMappedAddress); [apply parseAddress_not_Panic|].
    set (fb' := if _ =? attrMappedAddress then _ else _).
    set (advance := (4 + size + _)%nat).
    destruct (Nat.ltb_spec (length body) advance); [unfold answer; by destruct (ap_IsValid fb')|].
    rewrite slice_from_Ret by lia. cbn [mbind go_bind]. apply IH. rewrite length_drop. lia.
Qed.

Lemma Looks_length packet : Looks packet = true → (20 ≤ length packet)%nat.
Proof. unfold Looks, headerSize. destruct (Nat.ltb_spec (length packet) 20); [done|]. intros _. done. Qed.

Lemma ParseResponse_not_Panic id packet : ParseResponse id packet ≠ Panic.
Proof.
  unfold ParseResponse. destruct (Looks packet) eqn:E; [|done]. cbn [negb].
  apply Looks_length in E. rewrite !(slice_Ret packet _ _) by lia. cbn [mbind go_bind].
  destruct (negb _); [done|]. destruct (negb _); [done|].
  set (len := Z.to_nat _). destruct (Nat.ltb_spec (length packet) (headerSize + len)); [done|].
  unfold headerSize in *. rewrite slice_Ret by lia. cbn [mbind go_bind].
  by apply parse_attrs_not_Panic.
Qed.

Lemma land_C0 b : is_u8 b → Z.land b 0xC0 = 0 → b < 64.
Proof.
  unfold is_u8. intros Hb H.
  assert (∀ n, n = 6 ∨ n = 7 → Z.testbit b n = false) as Hbit.
  { intros n Hn. apply (f_equal (λ z, Z.testbit z n)) in H. rewrite Z.land_spec, Z.testbit_0_l in H.
    destruct Hn as [-> | ->]; cbn in H; by rewrite andb_true_r in H. }
  destruct (decide (b < 64)); [done|exfalso].
  pose proof (Hbit 6 (or_introl eq_refl)) as H6. pose proof (Hbit 7 (or_intror eq_refl)) as H7.
  apply Z.testbit_false in H6; [|lia]. apply Z.testbit_false in H7; [|lia].
  change (2 ^ 6) with 64 in H6. change (2 ^ 7) with 128 in H7. change (2 ^ 8) with 256 in Hb.
  Z.div_mod_to_equations. lia.
Qed.

(** The first byte of [Magic] has its two high bits set, so a packet that decodes
    does not look like STUN. *)
Lemma Decode_not_Looks pkt r : is_bytes pkt → Decode pkt = Ret r → Looks pkt = false.
Proof.
  intros Hb. unfold Decode, Looks, HeaderSize, headerSize.
  destruct (Nat.ltb_spec (length pkt) 20) as [|H]; [done|].
  rewrite !slice_Ret by lia. cbn [mbind go_bind].
  destruct pkt as [|b0 [|b1 pkt]]; [done|cbn in H; lia|]. cbn [take drop Nat.sub]. rewrite take_0.
  destruct (Z.eqb_spec (be_decode [b0; b1]) Magic) as [Hm|]; [|done]. intros _.
  apply is_bytes_cons in Hb as [H0 [H1 _]%is_bytes_cons].
  destruct (Z.eqb_spec (Z.land b0 192) 0) as [Hz|]; [|done].
  apply land_C0 in Hz; [|done]. unfold be_decode, Magic, is_u8 in *. cbn in Hm. lia.
Qed.

Lemma length_xor_bytes out key :
  (length out ≤ length key)%nat → length (xor_bytes out key) = length out.
Proof. intros. unfold xor_bytes. rewrite length_zip_with. lia. Qed.

Lemma xor_bytes_twice out key :
  (length out ≤ length key)%nat → xor_bytes (xor_bytes out key) key = out.
Proof.
  revert key. induction out as [|b out IH]; intros [|k key] Hl; cbn in *; try done; [lia|].
  rewrite Z.lxor_assoc, Z.lxor_nilpotent, Z.lxor_0_r. f_equal. apply IH. lia.
Qed.

Lemma lxor_u16 a b : is_u16 a → is_u16 b → is_u16 (Z.lxor a b).
Proof.
  unfold is_u16. intros Ha Hb. split; [apply Z.lxor_nonneg; lia|].
  destruct (decide (Z.lxor a b = 0)) as [->|Hn]; [lia|].
  assert (0 ≤ Z.lxor a b) by (apply Z.lxor_nonneg; lia).
  apply Z.log2_lt_pow2; [lia|]. eapply Z.le_lt_trans; [apply Z.log2_lxor; lia|].
  assert (∀ x, 0 ≤ x < 2 ^ 16 → Z.log2 x < 16) as Hl.
  { intros x Hx. destruct (decide (x = 0)) as [->|]; [cbn; lia|]. apply Z.log2_lt_pow2; lia. }
  apply Z.max_lub_lt; by apply Hl.
Qed.

(** The parser undoes the XOR the server applied, for both families. *)
Lemma parseAddress_xor_mapped id ap :
  length id = 12%nat → ap_IsValid ap = true → addr_wf (ap_addr ap) → has_zone (ap_addr ap) = false →
  is_u16 (ap_port ap) → parseAddress (xor_mapped id ap) id true = Ret ap.
Proof.
  intros Hid Hv Hw Hz Hp. destruct ap as [a port]. cbn [ap_addr ap_port ap_IsValid] in *.
  assert (Hk : length (be_encode 4 magicCookie ++ id) = 16%nat)
    by (rewrite length_app, length_be_encode; lia).
  assert (Hport : is_u16 (Z.lxor port 0x2112)) by (apply lxor_u16; [done|unfold is_u16; lia]).
  assert (Hback : Z.lxor (Z.lxor port 0x2112) (u16 (Z.shiftr magicCookie 16)) = port).
  { change (u16 (Z.shiftr magicCookie 16)) with 0x2112.
    by rewrite Z.lxor_assoc, Z.lxor_nilpotent, Z.lxor_0_r. }
  unfold parseAddress. destruct a as [|v|v z]; [done| |]; cbn [xor_mapped ap_addr ap_port addr_wf] in *.
  - set (raw := xor_bytes (be_encode 4 v) _).
    assert (Hr : length raw = 4%nat) by (unfold raw; rewrite length_xor_bytes; rewrite length_be_encode; lia).
    assert (Hraw : xor_bytes raw (be_encode 4 magicCookie ++ id) = be_encode 4 v)
      by (apply xor_bytes_twice; rewrite length_be_encode; lia).
    clearbody raw. cbn [app]. replace (length _ <? 4)%nat with false by done.
    rewrite (index_piece _ [0] (be_encode 2 (Z.lxor port 8466) ++ raw) familyIPv4 1) by piece_side.
    rewrite (slice_piece _ [0; familyIPv4] (be_encode 2 (Z.lxor port 8466)) raw 2 4) by piece_side.
    rewrite (slice_from_piece _ ([0; familyIPv4] ++ be_encode 2 (Z.lxor port 8466)) raw 4) by piece_side.
    cbn [mbind go_bind]. rewrite Z.eqb_refl, Hr. cbn [Nat.ltb Nat.leb].
    rewrite (slice_piece raw [] raw [] 0 4) by (rewrite ?app_nil_r; done || (cbn [length]; lia)).
    cbn [mbind go_bind].
    rewrite be_roundtrip16, Hback, Hraw by done. unfold AddrFrom4.
    by rewrite be_roundtrip32.
  - set (raw := xor_bytes (be_encode 16 v) _).
    assert (Hr : length raw = 16%nat) by (unfold raw; rewrite length_xor_bytes; rewrite length_be_encode; lia).
    assert (Hraw : xor_bytes raw (be_encode 4 magicCookie ++ id) = be_encode 16 v)
      by (apply xor_bytes_twice; rewrite length_be_encode; lia).
    clearbody raw. cbn [app]. replace (length _ <? 4)%nat with false by done.
    rewrite (index_piece _ [0] (be_encode 2 (Z.lxor port 8466) ++ raw) familyIPv6 1) by piece_side.
    rewrite (slice_piece _ [0; familyIPv6] (be_encode 2 (Z.lxor port 8466)) raw 2 4) by piece_side.
    rewrite (slice_from_piece _ ([0; familyIPv6] ++ be_encode 2 (Z.lxor port 8466)) raw 4) by piece_side.
    cbn [mbind go_bind]. change (familyIPv6 =? familyIPv4) with false. rewrite Z.eqb_refl, Hr.
    cbn [Nat.ltb Nat.leb].
    rewrite (slice_piece raw [] raw [] 0 16) by (rewrite ?app_nil_r; done || (cbn [length]; lia)).
    cbn [mbind go_bind].
    rewrite be_roundtrip16, Hback, Hraw by done. unfold AddrFrom16.
    rewrite be_roundtrip by done. cbn in Hz. apply negb_false_iff, bool_decide_eq_true in Hz.
    by subst.
Qed.

Lemma length_xor_mapped id ap :
  length id = 12%nat → ap_IsValid ap = true →
  length (xor_mapped id ap) = 8%nat ∨ length (xor_mapped id ap) = 20%nat.
Proof.
  intros Hid Hv. destruct ap as [[|v|v z] port]; [done|left|right]; cbn [xor_mapped ap_addr ap_port];
    rewrite !length_app, length_xor_bytes; rewrite ?length_app, !length_be_encode; cbn [length]; lia.
Qed.

(** A message of one attribute is that attribute's address. *)
Lemma parse_attrs_one fuel id value fb :
  (length value < 2 ^ 16)%nat →
  parse_attrs (S fuel) id
    (be_encode 2 attrXorMappedAddress ++ be_encode 2 (Z.of_nat (length value)) ++ value) fb
  = parseAddress value id true.
Proof.
  intros Hl. assert (Hn : is_u16 (Z.of_nat (length value))).
  { unfold is_u16. split; [lia|]. change (2 ^ 16) with (Z.of_nat (2 ^ 16)). lia. }
  set (k := be_encode 2 attrXorMappedAddress). set (n := be_encode 2 (Z.of_nat (length value))).
  assert (Hk2 : length k = 2%nat) by apply length_be_encode.
  assert (Hn2 : length n = 2%nat) by apply length_be_encode.
  assert (Dk : be_decode k = attrXorMappedAddress) by (unfold k; apply be_roundtrip16; unfold is_u16, attrXorMappedAddress; lia).
  assert (Dn : be_decode n = Z.of_nat (length value)) by (unfold n; by apply be_roundtrip16).
  clearbody k n. cbn [parse_attrs].
  destruct (Nat.ltb_spec (length (k ++ n ++ value)) 4) as [H|_]; [rewrite !length_app in H; lia|].
  rewrite (slice_piece _ [] k (n ++ value) 0 2) by piece_side.
  rewrite (slice_piece _ k n value 2 4) by piece_side. cbn [mbind go_bind].
  rewrite Dk, Dn, Nat2Z.id.
  destruct (Nat.ltb_spec (length (k ++ n ++ value)) (4 + length value)) as [H|_]; [rewrite !length_app in H; lia|].
  rewrite (slice_piece _ (k ++ n) value [] 4 (4 + length value))
    by (rewrite ?app_nil_r; piece_side).
  cbn [mbind go_bind]. by rewrite Z.eqb_refl.
Qed.

Lemma ParseResponse_server_response id ap :
  length id = 12%nat → ap_IsValid ap = true → addr_wf (ap_addr ap) → has_zone (ap_addr ap) = false →
  is_u16 (ap_port ap) → ParseResponse id (server_response id ap) = Ret ap.
Proof.
  intros Hid Hv Hw Hz Hp. pose proof (length_xor_mapped id ap Hid Hv) as Hl.
  pose proof (parseAddress_xor_mapped id ap Hid Hv Hw Hz Hp) as Hpa.
  unfold server_response. set (value := xor_mapped id ap) in *. clearbody value.
  set (n := Z.of_nat (length value)) in *.
  assert (is_u16 n ∧ is_u16 (4 + n)) as [Hn Hn4] by (unfold is_u16; lia).
  set (t := be_encode 2 bindingSuccess). set (l := be_encode 2 (4 + n)). set (ck := be_encode 4 magicCookie).
  set (body := be_encode 2 attrXorMappedAddress ++ be_encode 2 n ++ value).
  assert (Ht2 : length t = 2%nat) by apply length_be_encode.
  assert (Hl2 : length l = 2%nat) by apply length_be_encode.
  assert (Hc4 : length ck = 4%nat) by apply length_be_encode.
  assert (Dt : be_decode t = bindingSuccess) by (unfold t; apply be_roundtrip16; unfold is_u16, bindingSuccess; lia).
  assert (Dl : be_decode l = 4 + n) by (unfold l; by apply be_roundtrip16).
  assert (Dc : be_decode ck = magicCookie) by (unfold ck; apply be_roundtrip32; unfold is_u32, magicCookie; lia).
  assert (Hb : length body = Z.to_nat (4 + n)) by (unfold body; rewrite !length_app, !length_be_encode; lia).
  assert (Htot : length (t ++ l ++ ck ++ id ++ body) = (20 + length body)%nat) by (rewrite !length_app; lia).
  assert (Hlooks : Looks (t ++ l ++ ck ++ id ++ body) = true).
  { unfold Looks, headerSize. destruct (Nat.ltb_spec (length (t ++ l ++ ck ++ id ++ body)) 20); [lia|].
    change (t ++ l ++ ck ++ id ++ body) with (1 :: 1 :: l ++ ck ++ id ++ body) at 1. cbn [Z.land Z.eqb negb].
    change (Z.land 1 192 =? 0) with true. cbn [negb]. rewrite (assoc_L (++) t l).
    rewrite drop_app_length' by (rewrite length_app; lia). rewrite take_app_length' by lia. rewrite Dc. done. }
  unfold ParseResponse. rewrite Hlooks. cbn [negb]. unfold headerSize.
  rewrite (slice_piece _ [] t (l ++ ck ++ id ++ body) 0 2) by piece_side.
  rewrite (slice_piece _ (t ++ l ++ ck) id body 8 20) by piece_side.
  rewrite (slice_piece _ t l (ck ++ id ++ body) 2 4) by piece_side.
  cbn [mbind go_bind]. rewrite Dt, Z.eqb_refl, Dl, Htot, <-Hb, Nat.ltb_irrefl. cbn [negb].
  rewrite bool_decide_eq_true_2 by done. cbn [negb].
  rewrite (slice_piece _ (t ++ l ++ ck ++ id) body [] 20 (20 + length body))
    by (rewrite ?app_nil_r; piece_side).
  cbn [mbind go_bind]. rewrite Hb. replace (Z.to_nat (4 + n)) with (S (Z.to_nat (3 + n))) by lia.
  unfold body, n. rewrite parse_attrs_one; [done|]. destruct Hl as [-> | ->]; apply Nat.ltb_lt; vm_compute; done.
Qed.

Lemma ParseResponse_other_id id id' packet :
  slice (E:=stun_error) packet 8 20 = Ret id' → id ≠ id' → ∃ e, ParseResponse id packet = Throw e.
Proof.
  intros Hs Hne. unfold ParseResponse. destruct (Looks packet) eqn:E; [|by eexists]. cbn [negb].
  apply Looks_length in E. rewrite Hs. rewrite (slice_Ret packet 0 2) by lia. cbn [mbind go_bind].
  destruct (negb _); [by eexists|]. rewrite bool_decide_eq_false_2 by congruence. by eexists.
Qed.

Lemma NewRequest_Looks id : length id = 12%nat → Looks (RequestPacket (NewRequest id)) = true.
Proof.
  intros Hid. unfold NewRequest, Looks, headerSize. cbn [RequestPacket].
  rewrite !length_app, !length_be_encode, Hid. done.
Qed.

(** ** Properties *)

(** The shared socket is never ambiguous.  No datagram both looks like STUN
    and decodes as a peer packet; in particular every packet this project sends
    fails [Looks], and every STUN request it sends passes [Looks] and is refused
    by [Decode]. *)
Theorem stun_and_peer_packets_disjoint :
  (∀ pkt r, is_bytes pkt → Decode pkt = Ret r → Looks pkt = false) ∧
  (∀ h payload, is_bytes payload → Looks (Encode h [] payload) = false) ∧
  (∀ id, length id = 12%nat → Looks (RequestPacket (NewRequest id)) = true) ∧
  (∀ id, length id = 12%nat → Decode (RequestPacket (NewRequest id)) = Throw ErrBadMagic).
Proof.
  split_and!; [apply Decode_not_Looks| |apply NewRequest_Looks|].
  - intros h payload _. unfold Looks. rewrite length_Encode. unfold headerSize, HeaderSize. done.
  - intros id Hid. unfold Decode, HeaderSize, NewRequest. cbn [RequestPacket].
    rewrite !length_app, !length_be_encode, Hid. done.
Qed.

Lemma stun_and_peer_packets_disjoint_witness :
  Looks ([0xC1; 0x92; 1; 5] ++ replicate 16 0) = false.
Proof.
  eapply (proj1 stun_and_peer_packets_disjoint _ (mkHeader 1 5 0 0, [])).
  - apply (bool_decide_unpack _). vm_compute. exact I.
  - vm_compute. reflexivity.
Defined.

(** A STUN reply says where the socket is.  For every reflexive address,
    IPv4 or IPv6, and every port, parsing the success response a server builds
    for this transaction gives that address and port back; a reply that carries
    any other transaction id is refused; and the parser stops on every input,
    with an address or an error and never a panic, however its attributes
    overlap or lie about their sizes. *)
Theorem stun_reply_parses id ap packet id' :
  length id = 12%nat → ap_IsValid ap = true → addr_wf (ap_addr ap) →
  has_zone (ap_addr ap) = false → is_u16 (ap_port ap) →
  ParseResponse id (server_response id ap) = Ret ap ∧
  (slice (E:=stun_error) packet 8 20 = Ret id' → id ≠ id' → ∃ e, ParseResponse id packet = Throw e) ∧
  ParseResponse id packet ≠ Panic.
Proof.
  intros. split_and!.
  - by apply ParseResponse_server_response.
  - apply ParseResponse_other_id.
  - apply ParseResponse_not_Panic.
Qed.

Lemma stun_reply_parses_witness :
  ParseResponse (replicate 12 9) (server_response (replicate 12 9) (AddrPortFrom (Addr4 0xCB007105) 51820))
  = Ret (AddrPortFrom (Addr4 0xCB007105) 51820).
Proof.
  refine (proj1 (stun_reply_parses _ _ [] [] _ _ _ _ _)); try reflexivity;
    unfold addr_wf, is_u16; cbn; lia.
Defined.
