(* ===== verification/Invite.v ===== *)
(** protocol/invite, and the codes server/storage mints: what somebody pastes,
    and the code that comes out of it.

    A Go string is a [text] here, the list of its runes: the code walks runes, and
    every separator it looks for is one ASCII rune, so splitting runes and
    splitting bytes are the same thing. *)
From S2P Require Import Prelude Bytes.

(** A string as the runes ranging over it gives. *)
Abbreviation text := (list Z) (only parsing).

(** [unicode.ToLower], exactly on every rune whose lower case is an ASCII letter:
    A to Z, the dotted capital I (U+0130) and the Kelvin sign (U+212A).  Every other
    rune's lower case is outside ASCII, like the rune itself, and [Normalize]
    drops both. *)
Definition toLower (r : Z) : Z :=
  if (65 <=? r) && (r <=? 90) then r + 32
  else if r =? 0x130 then 0x69
  else if r =? 0x212A then 0x6B
  else r.

Definition in_code (r : Z) : bool := ((97 <=? r) && (r <=? 122)) || ((48 <=? r) && (r <=? 57)).

Definition Length : nat := 8.

Definition Normalize (code : text) : text := filter (λ r, in_code r = true) (toLower <$> code).

(** [unicode.IsSpace] *)
Definition isSpace (r : Z) : bool :=
  ((9 <=? r) && (r <=? 13)) || (r =? 32) || (r =? 0x85) || (r =? 0xA0) || (r =? 0x1680) ||
  ((0x2000 <=? r) && (r <=? 0x200A)) || (r =? 0x2028) || (r =? 0x2029) || (r =? 0x202F) ||
  (r =? 0x205F) || (r =? 0x3000).

Fixpoint trim_left (p : Z → bool) (s : text) : text :=
  match s with
  | [] => []
  | r :: s' => if p r then trim_left p s' else s
  end.
Definition trim_right (p : Z → bool) (s : text) : text := reverse (trim_left p (reverse s)).

(** [strings.TrimSpace] *)
Definition TrimSpace (s : text) : text := trim_right isSpace (trim_left isSpace s).

Definition slash : Z := 47.
Definition is_slash (r : Z) : bool := r =? slash.
Definition is_separator (r : Z) : bool := (r =? slash) || (r =? 92).

(** What follows the last separator: [s[i+1:]] for [i = LastIndexAny(s, "/\\")],
    and [s] when there is none. *)
Fixpoint after_last (p : Z → bool) (s : text) : text :=
  match s with
  | [] => []
  | r :: s' => if existsb p s' then after_last p s' else if p r then s' else s
  end.

(** The first result of [strings.Cut]. *)
Fixpoint cut_before (sep : Z) (s : text) : text :=
  match s with
  | [] => []
  | r :: s' => if r =? sep then [] else r :: cut_before sep s'
  end.

Definition Parse (input : text) : text :=
  let trimmed := trim_right is_slash (TrimSpace input) in
  let trimmed := after_last is_separator trimmed in
  let trimmed := cut_before 63 trimmed in
  let trimmed := cut_before 35 trimmed in
  Normalize trimmed.

Definition Path : text := str "/join/".

Definition Link (base code : text) : text :=
  if bool_decide (base = []) || bool_decide (code = []) then []
  else trim_right is_slash base ++ [slash] ++ code.

Definition Scheme : text := str "net192168".

Definition DeepLink (code : text) : text :=
  if bool_decide (code = []) then [] else Scheme ++ str ":/" ++ Path ++ code.

(** ** The codes the server mints *)
Definition inviteCodeBytes : nat := 5.

(** [base32.NewEncoding(idAlphabet)] without padding. *)
Definition idAlphabet : text := str "abcdefghijkmnpqrstuvwxyz23456789".

(** One base32 quantum: five bytes are eight digits of five bits. *)
Definition base32_quantum (raw : list Z) : text :=
  (λ i, default 0 (idAlphabet !! Z.to_nat (Z.land (Z.shiftr (be_decode raw) (35 - 5 * Z.of_nat i)) 31)))
    <$> seq 0 8.

(** [raw] is what crypto/rand filled the five bytes with. *)
Definition NewInviteCode (raw : list Z) : text := base32_quantum raw.

(** A code as the server stores it: nothing [Normalize] would change. *)
Definition is_code (c : text) : Prop := Forall (λ r, in_code r = true) c.

#[export] Instance is_code_dec c : Decision (is_code c).
Proof. unfold is_code. apply _. Defined.

(** ** Lemmas on trimming and cutting *)
Lemma trim_left_id p s : (∀ r s', s = r :: s' → p r = false) → trim_left p s = s.
Proof. destruct s as [|r s]; [done|]. intros H. cbn. by rewrite (H r s). Qed.

Lemma trim_right_id p s : (∀ r s', s = s' ++ [r] → p r = false) → trim_right p s = s.
Proof.
  intros H. unfold trim_right. rewrite trim_left_id; [apply reverse_involutive|].
  intros r s' Hs. apply (H r (reverse s')). apply (f_equal reverse) in Hs.
  by rewrite reverse_involutive, reverse_cons in Hs.
Qed.

Lemma trim_right_Forall p (s : text) : Forall (λ r, p r = false) s → trim_right p s = s.
Proof. intros H. apply trim_right_id. intros r s' ->. apply Forall_app in H as [_ H]. by inversion H. Qed.

Lemma trim_right_snoc p s r : p r = true → trim_right p (s ++ [r]) = trim_right p s.
Proof. intros H. unfold trim_right. rewrite reverse_app. cbn. by rewrite H. Qed.

Lemma after_last_app p s r t :
  p r = true → Forall (λ x, p x = false) t → after_last p (s ++ r :: t) = t.
Proof.
  intros Hr Ht. assert (Hex : existsb p t = false).
  { induction Ht as [|x t Hx _ IH]; cbn; [done|]. by rewrite Hx, IH. }
  induction s as [|x s IH]; cbn [app after_last].
  - by rewrite Hex, Hr.
  - assert (existsb p (s ++ r :: t) = true) as ->; [|done].
    rewrite existsb_app. cbn. by rewrite Hr, orb_true_r.
Qed.

Lemma after_last_none p s : Forall (λ x, p x = false) s → after_last p s = s.
Proof.
  intros H. destruct s as [|r s]; [done|]. inversion H as [|?? Hr Hs]; subst. cbn.
  assert (existsb p s = false) as ->; [|by rewrite Hr]. clear H.
  induction Hs as [|x t Hx _ IH]; cbn; [done|]. by rewrite Hx, IH.
Qed.

Lemma cut_before_app sep s t : Forall (λ x, x ≠ sep) s → cut_before sep (s ++ sep :: t) = s.
Proof.
  induction 1 as [|r s Hr _ IH]; cbn; [by rewrite Z.eqb_refl|].
  destruct (Z.eqb_spec r sep); [done|]. by rewrite IH.
Qed.

Lemma cut_before_none sep s : Forall (λ x, x ≠ sep) s → cut_before sep s = s.
Proof.
  induction 1 as [|r s Hr _ IH]; cbn; [done|]. destruct (Z.eqb_spec r sep); [done|]. by rewrite IH.
Qed.

(** ** Codes *)
Lemma in_code_facts r :
  in_code r = true →
  toLower r = r ∧ isSpace r = false ∧ is_slash r = false ∧ is_separator r = false ∧ r ≠ 63 ∧ r ≠ 35.
Proof.
  unfold in_code, toLower, isSpace, is_slash, is_separator, slash. intros H.
  assert (97 ≤ r ≤ 122 ∨ 48 ≤ r ≤ 57) as Hr by lia.
  split_and!; try lia.
  destruct (Z.leb_spec 65 r), (Z.leb_spec r 90); cbn; try lia;
    destruct (Z.eqb_spec r 0x130); try lia; destruct (Z.eqb_spec r 0x212A); lia.
Qed.

Lemma Normalize_code c : is_code c → Normalize c = c.
Proof.
  unfold Normalize. induction 1 as [|r c Hr _ IH]; [done|]. cbn [fmap list_fmap].
  destruct (in_code_facts r Hr) as (-> & _). by rewrite filter_cons_True, IH.
Qed.

Lemma Normalize_is_code s : is_code (Normalize s).
Proof.
  unfold Normalize, is_code. apply Forall_forall. intros r. rewrite list_elem_of_filter. by intros [].
Qed.

Lemma Normalize_app s t : Normalize (s ++ t) = Normalize s ++ Normalize t.
Proof. unfold Normalize. by rewrite fmap_app, filter_app. Qed.

Lemma is_code_sep c : is_code c → Forall (λ x, is_separator x = false) c.
Proof. intros H. eapply Forall_impl; [exact H|]. intros r Hr. by destruct (in_code_facts r Hr) as (?&?&?&?&?). Qed.
Lemma is_code_ne c k : is_code c → (k = 63 ∨ k = 35) → Forall (λ x, x ≠ k) c.
Proof. intros H Hk. eapply Forall_impl; [exact H|]. intros r Hr. destruct (in_code_facts r Hr) as (?&?&?&?&?&?). by destruct Hk; subst. Qed.
Lemma is_code_63 c : is_code c → Forall (λ x, x ≠ 63) c.
Proof. intros. apply is_code_ne; auto. Qed.
Lemma is_code_35 c : is_code c → Forall (λ x, x ≠ 35) c.
Proof. intros. apply is_code_ne; auto. Qed.
#[export] Hint Resolve is_code_sep is_code_63 is_code_35 Normalize_is_code : vlan.

(** The part of [Parse] after trimming, on text that ends in a code. *)
Lemma cut_code c rest :
  is_code c → (rest = [] ∨ ∃ q, rest = 63 :: q ∨ rest = 35 :: q) →
  Normalize (cut_before 35 (cut_before 63 (c ++ rest))) = c.
Proof.
  intros Hc [->|(q & [-> | ->])].
  - rewrite app_nil_r, (cut_before_none 63), (cut_before_none 35) by auto with vlan. by apply Normalize_code.
  - rewrite (cut_before_app 63), (cut_before_none 35) by auto with vlan. by apply Normalize_code.
  - assert (cut_before 63 (c ++ 35 :: q) = c ++ 35 :: cut_before 63 q) as ->.
    { pose proof (is_code_ne c 63 Hc (or_introl eq_refl)) as H.
      induction H as [|r c' Hr _ IH]; cbn; [done|]. inversion Hc; subst.
      destruct (Z.eqb_spec r 63); [done|]. by rewrite IH. }
    rewrite cut_before_app by auto with vlan. by apply Normalize_code.
Qed.

Lemma is_code_last c : is_code c → c ≠ [] → ∃ c' r, c = c' ++ [r] ∧ in_code r = true.
Proof.
  intros Hc Hne. destruct (exists_last Hne) as (c' & r & ->). exists c', r. split; [done|].
  apply Forall_app in Hc as [_ Hr]. by inversion Hr.
Qed.

(** Text that starts with no space and ends in a code is not trimmed. *)
Lemma trim_link pre c :
  is_code c → c ≠ [] → (∀ r s', pre = r :: s' → isSpace r = false) →
  trim_right is_slash (TrimSpace (pre ++ c)) = pre ++ c.
Proof.
  intros Hc Hne Hpre. destruct (is_code_last c Hc Hne) as (c' & r & -> & Hr).
  destruct (in_code_facts r Hr) as (_ & Hsp & Hsl & _).
  assert (Hend : ∀ p, p r = false → trim_right p (pre ++ c' ++ [r]) = pre ++ c' ++ [r]).
  { intros p Hp. apply trim_right_id. intros r' s'. rewrite (assoc_L (++)). by intros [_ <-]%app_inj_tail. }
  unfold TrimSpace. rewrite trim_left_id.
  - rewrite !Hend by done. done.
  - intros x s' Hx. destruct pre as [|y pre]; [|injection Hx as <- _; by eapply Hpre].
    cbn in Hx. apply Forall_app in Hc as [Hc' _].
    destruct c' as [|y c'']; injection Hx as <- _; [done|]. inversion Hc' as [|?? Hy]; subst.
    by destruct (in_code_facts y Hy) as (?&?&_).
Qed.

Lemma Parse_suffix pre c :
  is_code c → c ≠ [] → (∀ r s', pre = r :: s' → isSpace r = false) →
  (pre = [] ∨ ∃ p, pre = p ++ [slash]) → Parse (pre ++ c) = c.
Proof.
  intros Hc Hne Hsp Hpre. unfold Parse. rewrite trim_link by done.
  assert (after_last is_separator (pre ++ c) = c) as ->.
  { destruct Hpre as [->|(p & ->)]; [apply after_last_none; auto with vlan|].
    rewrite <-(assoc_L (++)). apply after_last_app; [done|auto with vlan]. }
  rewrite <-(app_nil_r c) at 1. apply cut_code; auto.
Qed.

Lemma trim_right_head p s r s' : trim_right p s = r :: s' → ∃ t, s = r :: t.
Proof.
  intros H. assert (∀ s, ∃ t, s = trim_right p s ++ t) as Hpre.
  { clear. intros s. unfold trim_right.
    assert (∀ l, ∃ k, l = k ++ trim_left p l) as Hl.
    { induction l as [|x l [k IH]]; [by exists []|]. cbn. destruct (p x); [|by exists []].
      exists (x :: k). cbn. by rewrite <-IH. }
    destruct (Hl (reverse s)) as [k Hk]. exists (reverse k).
    rewrite <-reverse_app, <-Hk. by rewrite reverse_involutive. }
  destruct (Hpre s) as [t Ht]. rewrite H in Ht. eauto.
Qed.

Lemma length_base32 raw : length (base32_quantum raw) = 8%nat.
Proof. done. Qed.

(** Every digit is a letter of the alphabet, and every letter is in a code. *)
Lemma base32_is_code raw : is_code (base32_quantum raw).
Proof.
  unfold base32_quantum, is_code. apply Forall_fmap, Forall_forall. intros i _. unfold compose.
  set (k := Z.to_nat _).
  assert (Hk : (k < 32)%nat).
  { unfold k. change 31 with (Z.ones 5). rewrite Z.land_ones by lia.
    pose proof (Z.mod_pos_bound (Z.shiftr (be_decode raw) (35 - 5 * Z.of_nat i)) (2 ^ 5)). lia. }
  assert (Forall (λ r, in_code r = true) idAlphabet) as Ha by (apply (bool_decide_unpack _); vm_compute; exact I).
  destruct (lookup_lt_is_Some_2 idAlphabet k) as [r Hr]; [exact Hk|]. rewrite Hr. cbn [default from_option id].
  exact (Forall_lookup_1 _ _ _ _ Ha Hr).
Qed.

Lemma idAlphabet_inj i j r : idAlphabet !! i = Some r → idAlphabet !! j = Some r → i = j.
Proof.
  apply NoDup_lookup. apply (bool_decide_unpack _). vm_compute. exact I.
Qed.
#[export] Hint Resolve base32_is_code : vlan.

(** Eight digits of five bits are forty bits. *)
Lemma digits40_inj a b :
  0 ≤ a < 2 ^ 40 → 0 ≤ b < 2 ^ 40 →
  (∀ i, (i < 8)%nat → Z.land (Z.shiftr a (35 - 5 * Z.of_nat i)) 31 = Z.land (Z.shiftr b (35 - 5 * Z.of_nat i)) 31) →
  a = b.
Proof.
  intros Ha Hb H. apply Z.bits_inj'. intros n Hn.
  destruct (decide (n < 40)) as [Hlt|]; [|by rewrite !(testbit_above 40) by lia].
  specialize (H (Z.to_nat (7 - n / 5)%Z)).
  assert (0 ≤ n / 5 < 8) as Hq by (Z.div_mod_to_equations; lia).
  apply (f_equal (λ z, Z.testbit z (n mod 5))) in H; [|lia].
  change 31 with (Z.ones 5) in H.
  assert (0 ≤ n mod 5 < 5) as Hm by (apply Z.mod_pos_bound; lia).
  rewrite !Z.land_spec, !Z.shiftr_spec, Z.ones_spec_low, !andb_true_r in H by lia.
  replace (n mod 5 + (35 - 5 * Z.of_nat (Z.to_nat (7 - n / 5)))) with n in H; [done|].
  rewrite Z2Nat.id by lia. Z.div_mod_to_equations. lia.
Qed.

Lemma NewInviteCode_inj raw raw' :
  is_bytes raw → is_bytes raw' → length raw = inviteCodeBytes → length raw' = inviteCodeBytes →
  NewInviteCode raw = NewInviteCode raw' → raw = raw'.
Proof.
  intros Hb Hb' Hl Hl' H. unfold inviteCodeBytes in *.
  pose proof (be_decode_range raw Hb) as R. pose proof (be_decode_range raw' Hb') as R'.
  rewrite Hl in R. rewrite Hl' in R'.
  rewrite <-(be_encode_decode raw Hb), <-(be_encode_decode raw' Hb'), Hl, Hl'. f_equal.
  apply digits40_inj; [exact R|exact R'|]. intros i Hi.
  unfold NewInviteCode, base32_quantum in H.
  apply (f_equal (λ l, l !! i)) in H. rewrite !list_lookup_fmap, !lookup_seq_lt in H by done.
  cbn [fmap option_fmap option_map Nat.add] in H. injection H as H.
  set (x := Z.land _ _) in *. set (y := Z.land (Z.shiftr (be_decode raw') _) _) in *.
  assert (∀ z, 0 ≤ Z.land z 31 < 32) as Hr.
  { intros z. change 31 with (Z.ones 5). rewrite Z.land_ones by lia. apply Z.mod_pos_bound. lia. }
  assert (0 ≤ x < 32) as Hx by apply Hr. assert (0 ≤ y < 32) as Hy by apply Hr.
  destruct (lookup_lt_is_Some_2 idAlphabet (Z.to_nat x)) as [r Hrx]; [change (length idAlphabet) with 32%nat; lia|].
  destruct (lookup_lt_is_Some_2 idAlphabet (Z.to_nat y)) as [r' Hry]; [change (length idAlphabet) with 32%nat; lia|].
  rewrite Hrx, Hry in H. cbn [default from_option id] in H. subst r'.
  pose proof (idAlphabet_inj _ _ _ Hrx Hry). lia.
Qed.

Lemma Link_shape base c :
  base ≠ [] → c ≠ [] → Link base c = (trim_right is_slash base ++ [slash]) ++ c.
Proof.
  intros Hb Hc. unfold Link. rewrite !bool_decide_eq_false_2 by done. cbn [orb].
  by rewrite <-(assoc_L (++)).
Qed.

Lemma Link_head base :
  (∀ r s', base = r :: s' → isSpace r = false) →
  ∀ r s', trim_right is_slash base ++ [slash] = r :: s' → isSpace r = false.
Proof.
  intros Hsp r s' H. destruct (trim_right is_slash base) as [|x t] eqn:E.
  - injection H as <- _. done.
  - injection H as <- _. destruct (trim_right_head _ _ _ _ E) as [t' ->]. by eapply Hsp.
Qed.

(** A link with a query or a fragment that names no path. *)
Lemma Parse_query pre c k q :
  is_code c → c ≠ [] → (∀ r s', pre ++ [slash] = r :: s' → isSpace r = false) →
  k = 63 ∨ k = 35 → Forall (λ r, is_separator r = false ∧ isSpace r = false) q →
  Parse ((pre ++ [slash]) ++ c ++ k :: q) = c.
Proof.
  intros Hc Hne Hpre Hk Hq.
  assert (Hkp : is_separator k = false ∧ isSpace k = false) by (destruct Hk; subst; done).
  assert (Hkq : Forall (λ r, is_separator r = false ∧ isSpace r = false) (k :: q)) by by constructor.
  assert (Htr : ∀ p s, (∀ r, is_separator r = false ∧ isSpace r = false → p r = false) →
    trim_right p (s ++ k :: q) = s ++ k :: q).
  { intros p s Hp. apply trim_right_id. intros r s' Hs.
    destruct (exists_last (l := k :: q)) as (q' & r' & Hq'); [done|]. rewrite Hq' in *.
    rewrite (assoc_L (++)) in Hs. apply app_inj_tail in Hs as [_ <-]. apply Hp.
    apply Forall_app in Hkq as [_ Hr]. by inversion Hr. }
  unfold Parse, TrimSpace. rewrite !(assoc_L (++)).
  rewrite (trim_left_id isSpace).
  2:{ intros r s' H. destruct pre as [|x pre]; injection H as <- _; [done|]. by eapply Hpre. }
  rewrite !Htr.
  2,3: unfold is_separator, is_slash; intros r [H1 H2]; first [done|by destruct (r =? slash)].
  rewrite <-!(assoc_L (++)). cbn [app]. rewrite after_last_app; [|done|].
  - apply cut_code; [done|]. right. exists q. destruct Hk as [-> | ->]; auto.
  - apply Forall_app. split; [by apply is_code_sep|]. eapply Forall_impl; [exact Hkq|]. by intros r [].
Qed.

(** ** Properties *)

(** An invite gets somebody in however it was handed over.  For every code a
    group can have, the bare code, the https link the server's base gives, the
    same link with a query or a fragment (one that names no path), and the app's
    own link all parse to that code. *)
Theorem invite_links_roundtrip base code k q :
  is_code code → code ≠ [] → base ≠ [] →
  (∀ r s', base = r :: s' → isSpace r = false) →
  k = 63 ∨ k = 35 → Forall (λ r, is_separator r = false ∧ isSpace r = false) q →
  Parse code = code ∧ Parse (Link base code) = code ∧
  Parse (Link base code ++ k :: q) = code ∧ Parse (DeepLink code) = code.
Proof.
  intros Hc Hne Hb Hsp Hk Hq. pose proof (Link_head base Hsp) as Hh. split_and!.
  - apply (Parse_suffix []); auto. done.
  - rewrite Link_shape by done. apply Parse_suffix; eauto.
  - rewrite Link_shape, <-(assoc_L (++)) by done. by apply Parse_query.
  - unfold DeepLink. rewrite bool_decide_eq_false_2 by done. rewrite !(assoc_L (++)).
    apply Parse_suffix; [done|done| |].
    + intros r s' H. vm_compute in H. by injection H as <- _.
    + right. exists (str "net192168://join"). by vm_compute.
Qed.

Lemma invite_links_roundtrip_witness :
  Parse (str "https://192168.lol/join/abcd2345?ref=chat") = str "abcd2345".
Proof.
  pose proof (invite_links_roundtrip (str "https://192168.lol/join/") (str "abcd2345") 63 (str "ref=chat")) as H.
  refine (proj1 (proj2 (proj2 (H _ _ _ _ _ _)))); clear H.
  - apply (bool_decide_unpack _). vm_compute. exact I.
  - discriminate.
  - discriminate.
  - intros r s' H. vm_compute in H. injection H as <- _. reflexivity.
  - left. reflexivity.
  - apply (bool_decide_unpack _). vm_compute. exact I.
Defined.

(** A minted code is eight characters that normalising leaves alone, and two
    draws of five random bytes give the same code only when they are the same
    bytes, so a code carries the full 40 bits; and whatever is typed, parsing
    gives something that parses to itself. *)
Theorem minted_codes raw raw' input :
  is_bytes raw → is_bytes raw' → length raw = inviteCodeBytes → length raw' = inviteCodeBytes →
  length (NewInviteCode raw) = Length ∧ Normalize (NewInviteCode raw) = NewInviteCode raw ∧
  (NewInviteCode raw = NewInviteCode raw' → raw = raw') ∧
  Parse (Parse input) = Parse input.
Proof.
  intros. split_and!.
  - apply length_base32.
  - apply Normalize_code, base32_is_code.
  - by apply NewInviteCode_inj.
  - assert (Hc : is_code (Parse input)) by apply Normalize_is_code.
    destruct (decide (Parse input = [])) as [->|Hne]; [done|].
    apply (Parse_suffix []); auto. done.
Qed.

Lemma minted_codes_witness : length (NewInviteCode [1; 2; 3; 4; 255]) = Length.
Proof.
  refine (proj1 (minted_codes [1; 2; 3; 4; 255] [0; 0; 0; 0; 0] [] _ _ eq_refl eq_refl));
    apply (bool_decide_unpack _); vm_compute; exact I.
Defined.

(** A query that names a path is read as the code: [Parse] looks for the last
    slash before it drops the query. *)
Lemma Parse_query_with_path :
  Parse (str "https://192168.lol/join/abcd2345?next=/home") = str "home".
Proof. by vm_compute. Qed.
