(* ===== verification/Schema.v ===== *)
(** The coordination server's database: the tables the migrations leave behind,
    the constraints they declare, and what running a statement does.

    A table is a finite map from its primary key to the rest of the row.  A
    statement is a function on the tables; SQLite applies it whole or, when a
    constraint of the schema would be broken, not at all, and the driver may fail
    before it gets there.  A row set comes back in whatever order the engine finds
    it.  The statements themselves are in [Storage], next to the functions that
    run them. *)
From S2P Require Import Prelude Bytes.

Inductive Role : Type := RoleMember | RoleOwner.

Record device_row : Type := mkDevice {
  dv_public_key : gostring; dv_transport_key : gostring; dv_name : gostring; dv_nickname : gostring;
  dv_created_at : Z; dv_last_seen_at : Z }.
Record token_row : Type := mkToken { tk_device_id : gostring; tk_created_at : Z; tk_revoked_at : option Z }.
Record group_row : Type := mkGroup {
  gr_name : gostring; gr_icon : gostring; gr_color : gostring; gr_subnet : gostring;
  gr_invite_code : gostring; gr_created_by : gostring; gr_created_at : Z }.
Record membership_row : Type := mkMembership {
  mb_group_id : gostring; mb_device_id : gostring; mb_created_at : Z; mb_revoked_at : option Z;
  mb_virtual_ip : option gostring; mb_role : Role; mb_banned_at : option Z }.
Record session_row : Type := mkSession {
  ss_group_id : gostring; ss_membership_id : gostring; ss_endpoint_address : option gostring;
  ss_endpoint_port : option Z; ss_connected_at : Z; ss_last_seen_at : Z }.

Record Tables : Type := mkTables {
  devices : gmap gostring device_row;
  device_tokens : gmap gostring token_row;
  groups : gmap gostring group_row;
  memberships : gmap gostring membership_row;
  sessions : gmap gostring session_row;
  register_nonces : gmap gostring Z;
}.

#[export] Instance Role_eq_dec : EqDecision Role.
Proof. solve_decision. Defined.
#[export] Instance eta_device_row : Settable device_row := λ r,
  mkDevice (dv_public_key r) (dv_transport_key r) (dv_name r) (dv_nickname r) (dv_created_at r) (dv_last_seen_at r).
#[export] Instance eta_group_row : Settable group_row := λ r,
  mkGroup (gr_name r) (gr_icon r) (gr_color r) (gr_subnet r) (gr_invite_code r) (gr_created_by r) (gr_created_at r).
#[export] Instance eta_membership_row : Settable membership_row := λ r,
  mkMembership (mb_group_id r) (mb_device_id r) (mb_created_at r) (mb_revoked_at r) (mb_virtual_ip r) (mb_role r)
    (mb_banned_at r).
#[export] Instance eta_session_row : Settable session_row := λ r,
  mkSession (ss_group_id r) (ss_membership_id r) (ss_endpoint_address r) (ss_endpoint_port r) (ss_connected_at r)
    (ss_last_seen_at r).
#[export] Instance eta_Tables : Settable Tables := λ t,
  mkTables (devices t) (device_tokens t) (groups t) (memberships t) (sessions t) (register_nonces t).

(** ** Constraints *)

(** A UNIQUE index over the rows that have a key in it: NULL is in no index, and a
    partial index holds only the rows its WHERE picks. *)
Definition unique_on {A K : Type} `{EqDecision K} (key : A → option K) (m : gmap gostring A) : Prop :=
  map_Forall (λ i a, map_Forall (λ j b, is_Some (key a) → key a = key b → i = j) m) m.

(** A foreign key. *)
Definition references {A B : Type} (key : A → gostring) (m : gmap gostring A) (n : gmap gostring B) : Prop :=
  map_Forall (λ _ a, is_Some (n !! key a)) m.

Definition is_active (r : membership_row) : bool := bool_decide (mb_revoked_at r = None).

(** The index idx_memberships_address: the address a current member holds. *)
Definition held_address (r : membership_row) : option (gostring * gostring) :=
  if is_active r then pair (mb_group_id r) <$> mb_virtual_ip r else None.

Record unique_ok (t : Tables) : Prop := mkUnique {
  u_public_key : unique_on (λ r, Some (dv_public_key r)) (devices t);
  u_invite_code : unique_on (λ r, Some (gr_invite_code r)) (groups t);
  u_member : unique_on (λ r, Some (mb_group_id r, mb_device_id r)) (memberships t);
  u_address : unique_on held_address (memberships t);
  u_session : unique_on (λ r, Some (ss_membership_id r)) (sessions t);
}.

Record references_ok (t : Tables) : Prop := mkReferences {
  r_token_device : references tk_device_id (device_tokens t) (devices t);
  r_group_creator : references gr_created_by (groups t) (devices t);
  r_member_group : references mb_group_id (memberships t) (groups t);
  r_member_device : references mb_device_id (memberships t) (devices t);
  r_session_group : references ss_group_id (sessions t) (groups t);
  r_session_member : references ss_membership_id (sessions t) (memberships t);
}.

#[export] Instance unique_on_dec {A K : Type} `{EqDecision K} (key : A → option K) (m : gmap gostring A) : Decision (unique_on key m).
Proof. unfold unique_on. apply _. Defined.
#[export] Instance references_dec {A B : Type} (key : A → gostring) (m : gmap gostring A) (n : gmap gostring B) : Decision (references key m n).
Proof. unfold references. apply _. Defined.

#[export] Instance unique_ok_dec t : Decision (unique_ok t).
Proof.
  refine (cast_if
    (decide (unique_on (λ r, Some (dv_public_key r)) (devices t)
     ∧ unique_on (λ r, Some (gr_invite_code r)) (groups t)
     ∧ unique_on (λ r, Some (mb_group_id r, mb_device_id r)) (memberships t)
     ∧ unique_on held_address (memberships t)
     ∧ unique_on (λ r, Some (ss_membership_id r)) (sessions t))));
    [abstract (destruct_and!; by constructor)|abstract (intros []; tauto)].
Defined.

#[export] Instance references_ok_dec t : Decision (references_ok t).
Proof.
  refine (cast_if
    (decide (references tk_device_id (device_tokens t) (devices t)
     ∧ references gr_created_by (groups t) (devices t)
     ∧ references mb_group_id (memberships t) (groups t)
     ∧ references mb_device_id (memberships t) (devices t)
     ∧ references ss_group_id (sessions t) (groups t)
     ∧ references ss_membership_id (sessions t) (memberships t))));
    [abstract (destruct_and!; by constructor)|abstract (intros []; tauto)].
Defined.

(** ** Statements *)

(** Why a call into the driver failed. *)
Inductive db_error : Type := DriverFailed | CountFailed | UniqueFailed | ForeignKeyFailed | NullScanned.
#[export] Instance db_error_eq_dec : EqDecision db_error.
Proof. solve_decision. Defined.

Definition violation (t : Tables) : option db_error :=
  if bool_decide (unique_ok t) then
    if bool_decide (references_ok t) then None else Some ForeignKeyFailed
  else Some UniqueFailed.

(** [INSERT INTO m VALUES (k, r)]: nothing when the primary key is taken. *)
Definition insert_row {A} (k : gostring) (r : A) (m : gmap gostring A) : option (gmap gostring A) :=
  match m !! k with Some _ => None | None => Some (<[k := r]> m) end.

(** [UPDATE m SET f WHERE p], [DELETE FROM m WHERE p], and the number of rows
    either is about. *)
Definition update_where {A} (p : gostring → A → bool) (f : A → A) (m : gmap gostring A) : gmap gostring A :=
  map_imap (λ k r, Some (if p k r then f r else r)) m.
Definition delete_where {A} (p : gostring → A → bool) (m : gmap gostring A) : gmap gostring A :=
  filter (λ kr, p kr.1 kr.2 = false) m.
Definition select_where {A} (p : gostring → A → bool) (m : gmap gostring A) : list (gostring * A) :=
  filter (λ kr, p kr.1 kr.2 = true) (map_to_list m).
Definition count_where {A} (p : gostring → A → bool) (m : gmap gostring A) : Z :=
  Z.of_nat (length (select_where p m)).

(** The one row a statement with a key in its WHERE finds. *)
Definition find_where {A} (p : gostring → A → bool) (m : gmap gostring A) : option (gostring * A) :=
  head (select_where p m).

(** [DELETE FROM groups WHERE id = gid], with what the schema declares to cascade:
    the group's memberships, its sessions, and the sessions of those memberships. *)
Definition delete_group (gid : gostring) (t : Tables) : Tables :=
  let gone := λ _ r, bool_decide (mb_group_id r = gid) in
  t <| groups := delete gid (groups t) |>
    <| memberships := delete_where gone (memberships t) |>
    <| sessions := delete_where (λ _ s,
         bool_decide (ss_group_id s = gid)
         || match memberships t !! ss_membership_id s with Some r => gone [] r | None => false end) (sessions t) |>.

(** ** The machine the server runs on

    [tick] numbers the calls that leave the program: the clock in nanoseconds, the
    random source, whether the driver gets a statement through, whether it can tell how
    many rows one was about, and the order rows come back in.  [sha256] is crypto/sha256,
    and [site] the status the file server answers a path of the web site with. *)
Class Machine : Type := {
  clock : nat → Z;
  random : nat → nat → option (list Z);
  reaches : nat → bool;
  counts : nat → bool;
  scan : nat → ∀ A : Type, list A → list A;
  sha256 : list Z → list Z;
  site : gostring → Z;
}.

Class MachineLaws (M : Machine) : Prop := {
  random_bytes : ∀ t n raw, random t n = Some raw → is_bytes raw ∧ length raw = n;
  scan_perm : ∀ t A (l : list A), scan t A l ≡ₚ l;
}.

Record Store : Type := mkStore { tables : Tables; ticks : nat }.
#[export] Instance eta_Store : Settable Store := λ s, mkStore (tables s) (ticks s).

Definition empty_tables : Tables := mkTables ∅ ∅ ∅ ∅ ∅ ∅.

Section database.
Context {MC : Machine}.

Abbreviation M := (prog Store).

Definition next : M nat := λ s, Some (ticks s, s <| ticks := S (ticks s) |>).
(** [time.Now()], and [t.Unix()]. *)
Definition Now : M Z := n ← next; mret (clock n).
Definition Read (k : nat) : M (option (list Z)) := n ← next; mret (random n k).

(** One statement, given what it does to the tables: [None] is a primary key that
    is already there. *)
Definition exec (f : Tables → option (Z * Tables)) : M (db_error + Z) := λ s,
  let s' := s <| ticks := S (ticks s) |> in
  if negb (reaches (ticks s)) then Some (inl DriverFailed, s') else
  match f (tables s) with
  | None => Some (inl UniqueFailed, s')
  | Some (affected, t) =>
      match violation t with
      | Some e => Some (inl e, s')
      | None => Some (inr affected, s' <| tables := t |>)
      end
  end.

(** [res.RowsAffected()] *)
Definition RowsAffected (affected : Z) : M (db_error + Z) := n ← next; mret (if counts n then inr affected else inl CountFailed).

(** One query: what it reads, and for a row set the order the rows come in. *)
Definition query {A} (f : Tables → A) : M (db_error + A) := λ s,
  let s' := s <| ticks := S (ticks s) |> in
  if negb (reaches (ticks s)) then Some (inl DriverFailed, s') else Some (inr (f (tables s)), s').
Definition query_rows {A} (f : Tables → list A) : M (db_error + list A) := λ s,
  let s' := s <| ticks := S (ticks s) |> in
  if negb (reaches (ticks s)) then Some (inl DriverFailed, s')
  else Some (inr (scan (ticks s) A (f (tables s))), s').

End database.

Definition Unix (t : Z) : Z := t / 10 ^ 9.

(** [ORDER BY key]. *)
Definition no_later {A} (key : A → Z) : relation A := λ a b, key a ≤ key b.
#[export] Instance no_later_dec {A} (key : A → Z) : RelDecision (no_later key).
Proof. unfold no_later. intros a b. apply _. Defined.
Definition order_by {A} (key : A → Z) (l : list A) : list A := merge_sort (no_later key) l.
