(* ===== verification/Storage.v ===== *)
(** The coordination server's storage: src/server/storage, function by function.

    A query is the function on the tables its SQL denotes, and stands where the Go
    code runs it; transactions are in [transaction].  Errors keep the sentinel the
    callers test for, or what was being done and why it failed. *)
From S2P Require Import Prelude Bytes NetAddr NetText Base64 Invite Schema.

(** ** Results *)
Inductive failure : Type := Database (e : db_error) | NoRandomness | BadSubnet | CodesTaken.

Inductive storage_error : Type :=
  | ErrNotFound
  | ErrConflict
  | ErrBanned
  | ErrForbidden
  | ErrGroupFull
  | Failed (what : string) (why : failure).

Record Group : Type := Group_ {
  g_ID : gostring; g_Name : gostring; g_Icon : gostring; g_Color : gostring; g_Subnet : gostring;
  g_InviteCode : gostring; g_CreatedAt : Z }.
#[export] Instance eta_Group : Settable Group := λ g,
  Group_ (g_ID g) (g_Name g) (g_Icon g) (g_Color g) (g_Subnet g) (g_InviteCode g) (g_CreatedAt g).

Record Membership : Type := Membership_ {
  m_ID : gostring; m_GroupID : gostring; m_GroupName : gostring; m_GroupIcon : gostring; m_GroupColor : gostring;
  m_DeviceID : gostring; m_Subnet : gostring; m_VirtualIP : gostring; m_Role : Role; m_CreatedAt : Z;
  m_InviteCode : gostring; m_OnlineMembers : option Z; m_Members : option Z }.
#[export] Instance eta_Membership : Settable Membership := λ m,
  Membership_ (m_ID m) (m_GroupID m) (m_GroupName m) (m_GroupIcon m) (m_GroupColor m) (m_DeviceID m) (m_Subnet m)
    (m_VirtualIP m) (m_Role m) (m_CreatedAt m) (m_InviteCode m) (m_OnlineMembers m) (m_Members m).

Record Member : Type := Member_ {
  mem_DeviceID : gostring; mem_Nickname : gostring; mem_VirtualIP : gostring; mem_Role : Role; mem_Online : bool }.

Record Device : Type := Device_ {
  d_ID : gostring; d_PublicKey : gostring; d_TransportKey : gostring; d_Name : gostring; d_Nickname : gostring;
  d_CreatedAt : Z; d_LastSeenAt : Z }.

Record Session : Type := Session_ {
  s_ID : gostring; s_GroupID : gostring; s_MembershipID : gostring; s_DeviceID : gostring; s_VirtualIP : gostring;
  s_ConnectedAt : Z }.

Record Endpoint : Type := Endpoint_ { e_Address : gostring; e_Port : Z }.

Record SessionPeer : Type := SessionPeer_ {
  p_DeviceID : gostring; p_Nickname : gostring; p_VirtualIP : gostring; p_TransportKey : gostring;
  p_Endpoint : option Endpoint }.

(** [time.Unix(sec, 0)], in nanoseconds. *)
Definition at_second (sec : Z) : Z := sec * 10 ^ 9.

Definition isUniqueViolation (e : db_error) : bool := bool_decide (e = UniqueFailed).

(** ** Addresses *)

(** The loop of [freeAddress]; each turn but the last passes over a taken address,
    so one turn more than there are of them is enough. *)
Fixpoint lowest_free (fuel : nat) (prefix : Prefix) (taken : gset gostring) (candidate : Addr) : option gostring :=
  match fuel with
  | O => None
  | S fuel =>
      if Contains prefix candidate then
        let next := addr_Next candidate in
        if negb (Contains prefix next) then None else
        let ip := addr_String candidate in
        if bool_decide (ip ∉ taken) then Some ip else lowest_free fuel prefix taken next
      else None
  end.

Definition freeAddress (subnet : gostring) (taken : gset gostring) : storage_error + gostring :=
  match ParsePrefix subnet with
  | None => inl (Failed "storage: bad subnet" BadSubnet)
  | Some prefix =>
      match lowest_free (S (size taken)) prefix taken (addr_Next (p_addr (Masked prefix))) with
      | Some ip => inr ip
      | None => inl ErrGroupFull
      end
  end.

Section storage.
Context {MC : Machine}.

Abbreviation M := (prog Store).
Abbreviation result A := (storage_error + A)%type.

Definition fail {A} (e : storage_error) : M (result A) := mret (inl e).

(** [fmt.Errorf(what + ": %w", err)] *)
Definition wrap {A} (what : string) (m : M (db_error + A)) : M (result A) :=
  r ← m; mret (match r with inl e => inl (Failed what (Database e)) | inr a => inr a end).

(** [BeginTx], the work, and [Commit]; [defer tx.Rollback()] undoes the work when
    it fails, when the commit does, or when it returns without committing. *)
Definition transaction {A} (commits : A → bool) (work : M (result A)) : M (result A) := λ s,
  let undo (s' : Store) := s' <| tables := tables s |> in
  let s1 := s <| ticks := S (ticks s) |> in
  if negb (reaches (ticks s)) then Some (inl (Failed "storage: begin" (Database DriverFailed)), s1) else
  match work s1 with
  | None => None
  | Some (inl e, s2) => Some (inl e, undo s2)
  | Some (inr a, s2) =>
      if negb (commits a) then Some (inr a, undo s2) else
      let s3 := s2 <| ticks := S (ticks s2) |> in
      if reaches (ticks s2) then Some (inr a, s3)
      else Some (inl (Failed "storage: commit" (Database DriverFailed)), undo s3)
  end.

Definition write {A} (work : M (result A)) : M (result A) := transaction (λ _, true) work.

Definition checkAffected (affected : Z) : M (result unit) :=
  affected ←? wrap "storage: rows affected" (RowsAffected affected);
  if (affected : Z) =? 0 then fail ErrNotFound else mret (inr tt).

(** [affected, _ := result.RowsAffected()]: a count that cannot be told is taken for none. *)
Definition counted (affected : Z) : M Z := r ← RowsAffected affected; mret (match r with inl _ => 0 | inr n => n end).

(** ** Identifiers *)
Definition NewID (prefix : string) : M (result gostring) :=
  raw ← Read 10;
  match raw with
  | None => fail (Failed "storage: new id" NoRandomness)
  | Some raw => mret (inr (str prefix ++ str "_" ++ base32_quantum (take 5 raw) ++ base32_quantum (drop 5 raw)))
  end.

(** Five draws at most. *)
Fixpoint draw_code (attempts : nat) : M (result gostring) :=
  match attempts with
  | O => fail (Failed "storage: could not find a free invite code" CodesTaken)
  | S attempts =>
      raw ← Read inviteCodeBytes;
      match raw with
      | None => fail (Failed "storage: new invite code" NoRandomness)
      | Some raw =>
          let code := NewInviteCode raw in
          taken ←? wrap "storage: check invite code"
                     (query (λ t, negb (bool_decide (select_where (λ _ g, bool_decide (gr_invite_code g = code)) (groups t) = []))));
          if (taken : bool) then draw_code attempts else mret (inr code)
      end
  end.
Definition freeInviteCode : M (result gostring) := draw_code 5.

(** ** Memberships *)
Definition of_member (groupID deviceID : gostring) : gostring → membership_row → bool := λ _ r,
  bool_decide (mb_group_id r = groupID) && bool_decide (mb_device_id r = deviceID).
Definition current (groupID deviceID : gostring) : gostring → membership_row → bool := λ k r,
  of_member groupID deviceID k r && is_active r.

Definition takenAddresses (groupID : gostring) : M (result (gset gostring)) :=
  rows ←? wrap "storage: read assigned addresses"
    (query_rows (λ t, omap (λ kr, mb_virtual_ip kr.2)
       (select_where (λ _ r, bool_decide (mb_group_id r = groupID) && is_active r) (memberships t))));
  mret (inr (list_to_set rows)).

Definition assignAddress (g : Group) (deviceID previous : gostring) : M (result gostring) :=
  taken ←? takenAddresses (g_ID g);
  address ←? (if bool_decide (previous = []) || bool_decide (previous ∈ (taken : gset gostring))
              then mret (freeAddress (g_Subnet g) taken) else mret (inr previous));
  _ ←? wrap "storage: assign address" (exec (λ t,
         Some (count_where (of_member (g_ID g) deviceID) (memberships t),
               t <| memberships := update_where (of_member (g_ID g) deviceID)
                      (λ r, r <| mb_virtual_ip := Some address |>) (memberships t) |>)));
  mret (inr address).

(** The upsert of [insertMembership]. *)
Definition upsert_membership (id groupID deviceID : gostring) (now : Z) (t : Tables) : option (Z * Tables) :=
  match find_where (of_member groupID deviceID) (memberships t) with
  | Some (k, r) =>
      Some (1, t <| memberships := <[k := r <| mb_revoked_at := None |> <| mb_virtual_ip := None |>]> (memberships t) |>)
  | None =>
      ms ← insert_row id (mkMembership groupID deviceID now None None RoleMember None) (memberships t);
      Some (1, t <| memberships := ms |>)
  end.

Definition insertMembership (g : Group) (deviceID : gostring) (now : Z) : M (result Membership) :=
  id ←? NewID "mem";
  row ←? wrap "storage: read previous address"
           (query (λ t, mb_virtual_ip ∘ snd <$> find_where (of_member (g_ID g) deviceID) (memberships t)));
  let previous := default [] (default None row) in
  _ ←? wrap "storage: add membership" (exec (upsert_membership id (g_ID g) deviceID (Unix now)));
  address ←? assignAddress g deviceID previous;
  row ←? wrap "storage: read membership" (query (λ t, find_where (of_member (g_ID g) deviceID) (memberships t)));
  match row with
  | None => fail (Failed "storage: read membership" (Database DriverFailed))
  | Some (id, r) =>
      mret (inr (Membership_ id (g_ID g) (g_Name g) (g_Icon g) (g_Color g) deviceID (g_Subnet g) address
                   (mb_role r) (at_second (mb_created_at r)) (g_InviteCode g) None None))
  end.

Definition CreateGroup (g : Group) (deviceID : gostring) : M (result Membership) :=
  write (
    code ←? freeInviteCode;
    let g := g <| g_InviteCode := code |> in
    now ← Now;
    _ ←? wrap "storage: create group" (exec (λ t,
           gs ← insert_row (g_ID g)
                  (mkGroup (g_Name g) (g_Icon g) (g_Color g) (g_Subnet g) code deviceID (Unix now)) (groups t);
           Some (1, t <| groups := gs |>)));
    m ←? insertMembership g deviceID now;
    _ ←? wrap "storage: set owner" (exec (λ t,
           let p := λ k (_ : membership_row), bool_decide (k = m_ID m) in
           Some (count_where p (memberships t),
                 t <| memberships := update_where p (λ r, r <| mb_role := RoleOwner |>) (memberships t) |>)));
    mret (inr (m <| m_Role := RoleOwner |>))).

Definition to_Group (id : gostring) (r : group_row) : Group :=
  Group_ id (gr_name r) (gr_icon r) (gr_color r) (gr_subnet r) (gr_invite_code r) (at_second (gr_created_at r)).

(** [scanGroup], given the row its caller's query finds. *)
Definition scanGroup (find : Tables → option (gostring * group_row)) : M (result Group) :=
  row ←? wrap "storage: read group" (query find);
  match row with
  | None => fail ErrNotFound
  | Some (id, r) => mret (inr (to_Group id r))
  end.

Definition GroupByID (id : gostring) : M (result Group) := scanGroup (λ t, pair id <$> groups t !! id).

Definition AddMembership (g : Group) (deviceID : gostring) : M (result Membership) :=
  write (
    row ←? wrap "storage: check removal"
             (query (λ t, mb_banned_at ∘ snd <$> find_where (of_member (g_ID g) deviceID) (memberships t)));
    match row with
    | Some (Some _) => fail ErrBanned
    | _ => now ← Now; insertMembership g deviceID now
    end).

(** A NULL cannot be scanned into a string. *)
Definition scan_string {A} (what : string) (v : option gostring) (k : gostring → M (result A)) : M (result A) :=
  match v with
  | None => fail (Failed what (Database NullScanned))
  | Some v => k v
  end.

Definition scan_rows {A B} (what : string) (rows : list A) (ip : A → option gostring) (f : A → gostring → B)
    : M (result (list B)) :=
  match mapM (λ a, f a <$> ip a) rows with
  | None => fail (Failed what (Database NullScanned))
  | Some out => mret (inr out)
  end.

Definition sessions_in (groupID : gostring) (t : Tables) : Z :=
  count_where (λ _ s, bool_decide (ss_group_id s = groupID)) (sessions t).
Definition members_in (groupID : gostring) (t : Tables) : Z :=
  count_where (λ _ r, bool_decide (mb_group_id r = groupID) && is_active r) (memberships t).

(** One row of the list: the membership and its group, and the two counts. *)
Definition membership_rows (deviceID : gostring) (t : Tables) : list (gostring * membership_row * group_row * Z * Z) :=
  omap (λ kr, (λ g, (kr.1, kr.2, g, sessions_in (mb_group_id kr.2) t, members_in (mb_group_id kr.2) t))
                <$> groups t !! mb_group_id kr.2)
    (select_where (λ _ r, bool_decide (mb_device_id r = deviceID) && is_active r) (memberships t)).

Definition MembershipsByDevice (deviceID : gostring) : M (result (list Membership)) :=
  rows ←? wrap "storage: list memberships" (query_rows (membership_rows deviceID));
  scan_rows "storage: scan membership" (order_by (λ '(_, r, _, _, _), mb_created_at r) rows)
    (λ '(_, r, _, _, _), mb_virtual_ip r)
    (λ '(k, r, g, online, members) ip,
       Membership_ k (mb_group_id r) (gr_name g) (gr_icon g) (gr_color g) deviceID (gr_subnet g) ip (mb_role r)
         (at_second (mb_created_at r)) (gr_invite_code g) (Some online) (Some members)).

Definition member_rows (groupID : gostring) (t : Tables) : list (membership_row * device_row * bool) :=
  omap (λ kr, (λ d, (kr.2, d, negb (bool_decide
                       (select_where (λ _ s, bool_decide (ss_membership_id s = kr.1)) (sessions t) = []))))
                <$> devices t !! mb_device_id kr.2)
    (select_where (λ _ r, bool_decide (mb_group_id r = groupID) && is_active r) (memberships t)).

Definition Members (groupID : gostring) : M (result (list Member)) :=
  rows ←? wrap "storage: list members" (query_rows (member_rows groupID));
  scan_rows "storage: read member" (order_by (λ '(r, _, _), mb_created_at r) rows)
    (λ '(r, _, _), mb_virtual_ip r)
    (λ '(r, d, online) ip, Member_ (mb_device_id r) (dv_nickname d) ip (mb_role r) online).

Definition membership_row_of (groupID deviceID : gostring) (t : Tables) : option (gostring * membership_row * group_row) :=
  '(k, r) ← find_where (current groupID deviceID) (memberships t);
  g ← groups t !! mb_group_id r;
  Some (k, r, g).

Definition membership (groupID deviceID : gostring) : M (result Membership) :=
  row ←? wrap "storage: read membership" (query (membership_row_of groupID deviceID));
  match row with
  | None => fail ErrNotFound
  | Some (k, r, g) =>
      scan_string "storage: read membership" (mb_virtual_ip r) (λ ip,
        mret (inr (Membership_ k groupID (gr_name g) (gr_icon g) (gr_color g) deviceID (gr_subnet g) ip (mb_role r)
                     (at_second (mb_created_at r)) (gr_invite_code g) None None)))
  end.

(** Two statements, and no transaction around them. *)
Definition RevokeMembership (groupID deviceID : gostring) : M (result unit) :=
  now ← Now;
  affected ←? wrap "storage: revoke membership" (exec (λ t,
    Some (count_where (current groupID deviceID) (memberships t),
          t <| memberships := update_where (current groupID deviceID)
                 (λ r, r <| mb_revoked_at := Some (Unix now) |>) (memberships t) |>)));
  affected ←? wrap "storage: revoke membership" (RowsAffected affected);
  if (affected : Z) =? 0 then fail ErrNotFound else
  _ ←? wrap "storage: end sessions" (exec (λ t,
    let doomed := list_to_set (C:=gset gostring) (select_where (of_member groupID deviceID) (memberships t)).*1 in
    let p := λ (_ : gostring) s, bool_decide (ss_membership_id s ∈ doomed) in
    Some (count_where p (sessions t), t <| sessions := delete_where p (sessions t) |>)));
  mret (inr tt).

Definition ownerOnly (groupID deviceID : gostring) : M (result unit) :=
  row ←? wrap "storage: read role" (query (λ t, find_where (current groupID deviceID) (memberships t)));
  match row with
  | None => fail ErrNotFound
  | Some (_, r) => if bool_decide (mb_role r = RoleOwner) then mret (inr tt) else fail ErrForbidden
  end.

Definition RemoveMember (groupID ownerDeviceID targetDeviceID : gostring) : M (result unit) :=
  if bool_decide (ownerDeviceID = targetDeviceID) then fail ErrForbidden else
  write (
    _ ←? ownerOnly groupID ownerDeviceID;
    now ← Now;
    affected ←? wrap "storage: remove member" (exec (λ t,
      Some (count_where (current groupID targetDeviceID) (memberships t),
            t <| memberships := update_where (current groupID targetDeviceID)
                   (λ r, r <| mb_revoked_at := Some (Unix now) |> <| mb_banned_at := Some (Unix now) |>) (memberships t) |>)));
    affected ← counted affected;
    if (affected : Z) =? 0 then fail ErrNotFound else
    _ ←? wrap "storage: end removed member's session" (exec (λ t,
      let doomed := list_to_set (C:=gset gostring) (select_where (of_member groupID targetDeviceID) (memberships t)).*1 in
      let p := λ (_ : gostring) s, bool_decide (ss_group_id s = groupID) && bool_decide (ss_membership_id s ∈ doomed) in
      Some (count_where p (sessions t), t <| sessions := delete_where p (sessions t) |>)));
    mret (inr tt)).

(** [UPDATE groups SET ... WHERE id = groupID]. *)
Definition update_group (groupID : gostring) (f : group_row → group_row) (t : Tables) : option (Z * Tables) :=
  let p := λ k (_ : group_row), bool_decide (k = groupID) in
  Some (count_where p (groups t), t <| groups := update_where p f (groups t) |>).

Definition RenameGroup (groupID ownerDeviceID name : gostring) : M (result unit) :=
  write (
    _ ←? ownerOnly groupID ownerDeviceID;
    _ ←? wrap "storage: rename group" (exec (update_group groupID (λ g, g <| gr_name := name |>)));
    mret (inr tt)).

Definition SetGroupAppearance (groupID ownerDeviceID icon color : gostring) : M (result unit) :=
  write (
    _ ←? ownerOnly groupID ownerDeviceID;
    _ ←? wrap "storage: set group appearance"
           (exec (update_group groupID (λ g, g <| gr_icon := icon |> <| gr_color := color |>)));
    mret (inr tt)).

Definition TransferOwnership (groupID ownerDeviceID targetDeviceID : gostring) : M (result unit) :=
  write (
    _ ←? ownerOnly groupID ownerDeviceID;
    affected ←? wrap "storage: promote member" (exec (λ t,
      Some (count_where (current groupID targetDeviceID) (memberships t),
            t <| memberships := update_where (current groupID targetDeviceID)
                   (λ r, r <| mb_role := RoleOwner |>) (memberships t) |>)));
    affected ← counted affected;
    if (affected : Z) =? 0 then fail ErrNotFound else
    _ ←? wrap "storage: step down" (exec (λ t,
      Some (count_where (of_member groupID ownerDeviceID) (memberships t),
            t <| memberships := update_where (of_member groupID ownerDeviceID)
                   (λ r, r <| mb_role := RoleMember |>) (memberships t) |>)));
    mret (inr tt)).

Definition DeleteGroup (groupID ownerDeviceID : gostring) : M (result unit) :=
  write (
    _ ←? ownerOnly groupID ownerDeviceID;
    affected ←? wrap "storage: delete group" (exec (λ t,
      Some (count_where (λ k _, bool_decide (k = groupID)) (groups t), delete_group groupID t)));
    affected ← counted affected;
    if (affected : Z) =? 0 then fail ErrNotFound else mret (inr tt)).

(** ** Invites *)
Definition GroupByInviteCode (code : gostring) : M (result Group) :=
  let normalized := Normalize code in
  if bool_decide (normalized = []) then fail ErrNotFound else
  scanGroup (λ t, find_where (λ _ g, bool_decide (gr_invite_code g = normalized)) (groups t)).

Definition setInviteCode (groupID : gostring) : M (result gostring) :=
  code ←? freeInviteCode;
  affected ←? wrap "storage: set invite code" (exec (update_group groupID (λ g, g <| gr_invite_code := code |>)));
  affected ←? wrap "storage: set invite code" (RowsAffected affected);
  if (affected : Z) =? 0 then fail ErrNotFound else mret (inr code).

Definition ResetInviteCode (groupID ownerDeviceID : gostring) : M (result gostring) :=
  write (
    _ ←? ownerOnly groupID ownerDeviceID;
    setInviteCode groupID).

Definition MemberCount (groupID : gostring) : M (result Z) :=
  wrap "storage: count members" (query (members_in groupID)).

(** ** Devices *)
Definition hashToken (token : gostring) : gostring := EncodeToString StdAlphabet (sha256 token).

Definition newToken : M (result (gostring * gostring)) :=
  raw ← Read 32;
  match raw with
  | None => fail (Failed "storage: new token" NoRandomness)
  | Some raw => let token := EncodeToString URLAlphabet raw in mret (inr (token, hashToken token))
  end.

(** The upsert of [RegisterDevice]. *)
Definition upsert_device (d : Device) (now : Z) (t : Tables) : option (Z * Tables) :=
  let r := match devices t !! d_ID d with
           | Some r => mkDevice (d_PublicKey d) (d_TransportKey d) (d_Name d)
                         (if bool_decide (dv_nickname r = []) then d_Nickname d else dv_nickname r) (dv_created_at r) now
           | None => mkDevice (d_PublicKey d) (d_TransportKey d) (d_Name d) (d_Nickname d) now now
           end in
  Some (1, t <| devices := <[d_ID d := r]> (devices t) |>).

Definition RegisterDevice (d : Device) : M (result gostring) :=
  issued ←? newToken;
  let '(token, hash) := issued in
  write (
    now ← Now;
    r ← exec (upsert_device d (Unix now));
    match r with
    | inl e => if isUniqueViolation e then fail ErrConflict else fail (Failed "storage: register device" (Database e))
    | inr _ =>
        _ ←? wrap "storage: issue token" (exec (λ t,
               ts ← insert_row hash (mkToken (d_ID d) (Unix now) None) (device_tokens t);
               Some (1, t <| device_tokens := ts |>)));
        mret (inr token)
    end).

Definition token_row_of (hash : gostring) (t : Tables) : option (gostring * device_row) :=
  tk ← device_tokens t !! hash;
  if bool_decide (tk_revoked_at tk = None) then pair (tk_device_id tk) <$> devices t !! tk_device_id tk else None.

Definition DeviceByToken (token : gostring) : M (result Device) :=
  row ←? wrap "storage: device by token" (query (token_row_of (hashToken token)));
  match row with
  | None => fail ErrNotFound
  | Some (id, r) =>
      let d := Device_ id (dv_public_key r) (dv_transport_key r) (dv_name r) (dv_nickname r)
                 (at_second (dv_created_at r)) (at_second (dv_last_seen_at r)) in
      now ← Now;
      _ ←? wrap "storage: touch device" (exec (λ t,
             let p := λ k (_ : device_row), bool_decide (k = id) in
             Some (count_where p (devices t),
                   t <| devices := update_where p (λ r, r <| dv_last_seen_at := Unix now |>) (devices t) |>)));
      mret (inr d)
  end.

Definition SetDeviceNickname (deviceID nickname : gostring) : M (result unit) :=
  affected ←? wrap "storage: set nickname" (exec (λ t,
    let p := λ k (_ : device_row), bool_decide (k = deviceID) in
    Some (count_where p (devices t),
          t <| devices := update_where p (λ r, r <| dv_nickname := nickname |>) (devices t) |>)));
  affected ←? wrap "storage: set nickname" (RowsAffected affected);
  if (affected : Z) =? 0 then fail ErrNotFound else mret (inr tt).

Definition ConnectedGroupIDs (deviceID : gostring) : M (result (list gostring)) :=
  wrap "storage: list connected groups" (query_rows (λ t,
    remove_dups (omap (λ ks, r ← memberships t !! ss_membership_id ks.2;
                             if bool_decide (mb_device_id r = deviceID) then Some (ss_group_id ks.2) else None)
                   (map_to_list (sessions t))))).

Definition ClaimRegisterNonce (nonce : gostring) (keepFor : Z) : M (result bool) :=
  now ← Now;
  _ ←? wrap "storage: prune nonces" (exec (λ t,
         let p := λ (_ : gostring) seen, seen <=? Unix (now - keepFor) in
         Some (count_where p (register_nonces t), t <| register_nonces := delete_where p (register_nonces t) |>)));
  r ← exec (λ t, ns ← insert_row nonce (Unix now) (register_nonces t);
                 Some (1, t <| register_nonces := ns |>));
  match r with
  | inl e => if isUniqueViolation e then mret (inr false) else fail (Failed "storage: claim nonce" (Database e))
  | inr _ => mret (inr true)
  end.

(** ** Sessions *)
Definition CreateSession (m : Membership) : M (result Session) :=
  id ←? NewID "ses";
  write (
    _ ←? wrap "storage: replace session" (exec (λ t,
           let p := λ (_ : gostring) s, bool_decide (ss_membership_id s = m_ID m) in
           Some (count_where p (sessions t), t <| sessions := delete_where p (sessions t) |>)));
    now ← Now;
    _ ←? wrap "storage: create session" (exec (λ t,
           ss ← insert_row id (mkSession (m_GroupID m) (m_ID m) None None (Unix now) (Unix now)) (sessions t);
           Some (1, t <| sessions := ss |>)));
    mret (inr (Session_ id (m_GroupID m) (m_ID m) (m_DeviceID m) (m_VirtualIP m) now))).

Definition session_row_of (id : gostring) (t : Tables) : option (session_row * membership_row) :=
  s ← sessions t !! id;
  r ← memberships t !! ss_membership_id s;
  Some (s, r).

Definition SessionByID (id : gostring) : M (result Session) :=
  row ←? wrap "storage: read session" (query (session_row_of id));
  match row with
  | None => fail ErrNotFound
  | Some (s, r) =>
      scan_string "storage: read session" (mb_virtual_ip r) (λ ip,
        mret (inr (Session_ id (ss_group_id s) (ss_membership_id s) (mb_device_id r) ip (at_second (ss_connected_at s)))))
  end.

Definition peer_rows (groupID exceptDeviceID : gostring) (t : Tables) : list (session_row * membership_row * device_row) :=
  omap (λ ks, r ← memberships t !! ss_membership_id ks.2;
              d ← devices t !! mb_device_id r;
              if bool_decide (mb_device_id r ≠ exceptDeviceID) && is_active r then Some (ks.2, r, d) else None)
    (select_where (λ _ s, bool_decide (ss_group_id s = groupID)) (sessions t)).

Definition PeersInGroup (groupID exceptDeviceID : gostring) : M (result (list SessionPeer)) :=
  rows ←? wrap "storage: list peers" (query_rows (peer_rows groupID exceptDeviceID));
  scan_rows "storage: scan peer" (order_by (λ '(s, _, _), ss_connected_at s) rows)
    (λ '(_, r, _), mb_virtual_ip r)
    (λ '(s, r, d) ip,
       SessionPeer_ (mb_device_id r) (dv_nickname d) ip (dv_transport_key d)
         (address ← ss_endpoint_address s; port ← ss_endpoint_port s; Some (Endpoint_ address port))).

(** [UPDATE sessions SET ... WHERE id = sessionID]. *)
Definition update_session (sessionID : gostring) (f : session_row → session_row) (t : Tables) : option (Z * Tables) :=
  let p := λ k (_ : session_row), bool_decide (k = sessionID) in
  Some (count_where p (sessions t), t <| sessions := update_where p f (sessions t) |>).

Definition SetSessionEndpoint (sessionID address : gostring) (port : Z) : M (result unit) :=
  now ← Now;
  affected ←? wrap "storage: set endpoint" (exec (update_session sessionID
    (λ s, s <| ss_endpoint_address := Some address |> <| ss_endpoint_port := Some port |> <| ss_last_seen_at := Unix now |>)));
  checkAffected affected.

Definition TouchSession (sessionID : gostring) : M (result unit) :=
  now ← Now;
  affected ←? wrap "storage: touch session"
                (exec (update_session sessionID (λ s, s <| ss_last_seen_at := Unix now |>)));
  checkAffected affected.

Definition DeleteSession (sessionID : gostring) : M (result unit) :=
  affected ←? wrap "storage: delete session" (exec (λ t,
    let p := λ k (_ : session_row), bool_decide (k = sessionID) in
    Some (count_where p (sessions t), t <| sessions := delete_where p (sessions t) |>)));
  checkAffected affected.

(** Of a stale session only what is announced is read. *)
Definition stale_rows (cutoff : Z) (t : Tables) : list Session :=
  omap (λ ks, r ← memberships t !! ss_membership_id ks.2;
              Some (Session_ ks.1 (ss_group_id ks.2) [] (mb_device_id r) [] 0))
    (select_where (λ _ s, ss_last_seen_at s <=? cutoff) (sessions t)).

Definition ExpireSessions (olderThan : Z) : M (result (list Session)) :=
  now ← Now;
  let cutoff := Unix (now - olderThan) in
  transaction (λ stale, negb (bool_decide (stale = []))) (
    stale ←? wrap "storage: find stale sessions" (query_rows (stale_rows cutoff));
    if bool_decide (stale = []) then mret (inr []) else
    _ ←? wrap "storage: expire sessions" (exec (λ t,
           let p := λ (_ : gostring) s, ss_last_seen_at s <=? cutoff in
           Some (count_where p (sessions t), t <| sessions := delete_where p (sessions t) |>)));
    mret (inr stale)).

End storage.
