(* ===== verification/Addressing.v ===== *)
(** Which address a new member of a group gets: [freeAddress] gives the lowest host
    address of the subnet that nobody holds, and says the group is full exactly when
    there is none. *)
From S2P Require Import Prelude Bytes NetAddr NetText Schema Storage.

(** ** IPv4 subnets *)

(** The network address of [a/b]: the lowest address of the subnet. *)
Definition network (p : Prefix) : Z := addr_val (p_addr (Masked p)).
Definition subnet_size (p : Prefix) : Z := 2 ^ (32 - p_bits p).

(** An address of the subnet that is neither the network's nor the broadcast. *)
Definition host (p : Prefix) (v : Z) : Prop := network p < v < network p + subnet_size p - 1.

Definition ipv4_prefix (p : Prefix) : Prop :=
  ∃ a, p_addr p = Addr4 a ∧ 0 ≤ a < 2 ^ 32 ∧ 0 ≤ p_bits p ≤ 32.

Section subnet.
Context (p : Prefix) (Hp : ipv4_prefix p).

Lemma subnet_size_pos : 0 < subnet_size p.
Proof using Hp. destruct Hp as (a & _ & _ & Hb). unfold subnet_size. apply Z.pow_pos_nonneg; lia. Qed.

Lemma network_aligned : ∃ q, 0 ≤ q ∧ network p = q * subnet_size p ∧ network p + subnet_size p ≤ 2 ^ 32.
Proof using Hp.
  destruct Hp as (a & Ha & Hr & Hb). unfold network, Masked, prefix_IsValid, subnet_size. rewrite Ha. cbn [addr_IsValid BitLen].
  replace (0 <=? p_bits p) with true by (symmetry; apply Z.leb_le; lia).
  replace (p_bits p <=? 32) with true by (symmetry; apply Z.leb_le; lia). cbn [andb p_addr addr_val].
  rewrite Z.shiftl_mul_pow2, Z.shiftr_div_pow2 by lia.
  exists (a / 2 ^ (32 - p_bits p)). split; [apply Z.div_pos; [lia|apply Z.pow_pos_nonneg; lia]|]. split; [done|].
  assert (2 ^ 32 = 2 ^ p_bits p * 2 ^ (32 - p_bits p)) as E by (rewrite <-Z.pow_add_r by lia; f_equal; lia).
  assert (0 < 2 ^ (32 - p_bits p)) by (apply Z.pow_pos_nonneg; lia).
  assert (a / 2 ^ (32 - p_bits p) < 2 ^ p_bits p) by (apply Z.div_lt_upper_bound; lia). nia.
Qed.

Lemma network_range : 0 ≤ network p ∧ network p + subnet_size p ≤ 2 ^ 32.
Proof using Hp. destruct network_aligned as (q & Hq & -> & H). pose proof subnet_size_pos. split; [nia|done]. Qed.

Lemma Contains_range v : 0 ≤ v → Contains p (Addr4 v) = true ↔ network p ≤ v < network p + subnet_size p.
Proof using Hp.
  intros Hv. pose proof subnet_size_pos as Hs. destruct Hp as (a & Ha & Hr & Hb).
  unfold network, Masked, subnet_size, Contains, prefix_IsValid in *. rewrite Ha. cbn [addr_IsValid BitLen has_zone addr_val].
  replace (0 <=? p_bits p) with true by (symmetry; apply Z.leb_le; lia).
  replace (p_bits p <=? 32) with true by (symmetry; apply Z.leb_le; lia). cbn [andb negb Z.eqb Pos.eqb p_addr addr_val].
  rewrite Z.shiftl_mul_pow2, !Z.shiftr_div_pow2, Z.eqb_eq by lia.
  assert (0 < 2 ^ (32 - p_bits p)) by (apply Z.pow_pos_nonneg; lia).
  pose proof (Z.div_mod v (2 ^ (32 - p_bits p)) ltac:(lia)). pose proof (Z.mod_pos_bound v (2 ^ (32 - p_bits p)) ltac:(lia)).
  split; [nia|]. intros Hn. enough (v / 2 ^ (32 - p_bits p) = a / 2 ^ (32 - p_bits p)) by lia.
  symmetry. apply Z.div_unique with (v - a / 2 ^ (32 - p_bits p) * 2 ^ (32 - p_bits p)); lia.
Qed.

Lemma host_Contains v : host p v → 0 ≤ v < 2 ^ 32 ∧ Contains p (Addr4 v) = true.
Proof using Hp.
  unfold host. pose proof network_range. intros Hv. split; [lia|]. apply Contains_range; lia.
Qed.

(** What the loop asks of a candidate. *)
Lemma candidate_is_host v :
  network p < v < 2 ^ 32 → Contains p (Addr4 v) && Contains p (addr_Next (Addr4 v)) = bool_decide (host p v).
Proof using Hp.
  intros Hv. pose proof network_range as [H0 H1]. apply eq_bool_prop_intro. rewrite bool_decide_spec, Is_true_true, andb_true_iff.
  rewrite Contains_range by lia. unfold host. cbn [addr_Next]. destruct (Z.ltb_spec (v + 1) (2 ^ 32)).
  - rewrite Contains_range by lia. lia.
  - split; [|lia]. intros [_ Hz]. unfold Contains in Hz. destruct Hp as (a & Ha & _). rewrite Ha in Hz. cbn [BitLen] in Hz.
    by rewrite andb_false_r in Hz.
Qed.

(** ** The loop *)
Context (taken : gset gostring).

Definition all_taken_below (v : Z) : Prop := ∀ u, network p < u < v → addr_String (Addr4 u) ∈ taken.

(** As many addresses are taken as have been passed over. *)
Lemma passed_over v : network p < v ≤ 2 ^ 32 → all_taken_below v → v - network p - 1 ≤ Z.of_nat (size taken).
Proof using Hp.
  intros Hv Hb. pose proof network_range as [H0 _].
  set (l := (λ u, addr_String (Addr4 u)) <$> seqZ (network p + 1) (v - network p - 1)).
  assert (NoDup l) as Hl.
  { apply NoDup_fmap_2_strong; [|apply NoDup_seqZ]. intros x y Hx Hy. rewrite elem_of_seqZ in Hx, Hy. apply String_inj; lia. }
  assert (list_to_set (C:=gset gostring) l ⊆ taken) as Hsub.
  { intros x. rewrite elem_of_list_to_set. unfold l. rewrite list_elem_of_fmap. intros (u & -> & Hu).
    apply elem_of_seqZ in Hu. apply Hb. lia. }
  apply subseteq_size in Hsub. rewrite size_list_to_set in Hsub by done. unfold l in Hsub.
  rewrite length_fmap, length_seqZ in Hsub. lia.
Qed.

Lemma lowest_free_spec fuel v :
  network p < v ≤ 2 ^ 32 → all_taken_below v → (Z.of_nat (size taken) < v - network p - 1 + Z.of_nat fuel)%Z →
  match lowest_free fuel p taken (if v <? 2 ^ 32 then Addr4 v else AddrZero) with
  | Some ip => ∃ u, host p u ∧ ip = addr_String (Addr4 u) ∧ (ip ∉ taken) ∧ all_taken_below u
  | None => ∀ u, host p u → addr_String (Addr4 u) ∈ taken
  end.
Proof using Hp.
  revert v. induction fuel as [|fuel IH]; intros v Hv Hb Hf.
  { pose proof (passed_over v Hv Hb). lia. }
  assert (Hstop : ¬ host p v → ∀ u, host p u → addr_String (Addr4 u) ∈ taken).
  { unfold host. intros Hn u Hu. apply Hb. lia. }
  cbn [lowest_free]. destruct (Z.ltb_spec v (2 ^ 32)) as [Hlt|Hge].
  2: { assert (Contains p AddrZero = false) as ->.
       { unfold Contains. destruct Hp as (a & Ha & _). rewrite Ha. cbn [BitLen]. by rewrite andb_false_r. }
       apply Hstop. unfold host. pose proof network_range. lia. }
  pose proof (candidate_is_host v ltac:(lia)) as Hc.
  destruct (Contains p (Addr4 v)); cbn [andb] in Hc.
  2: { apply Hstop. symmetry in Hc. by apply bool_decide_eq_false in Hc. }
  rewrite Hc. destruct (bool_decide_reflect (host p v)) as [Hh|Hh]; cbn [negb]; [|by apply Hstop].
  case_bool_decide as Ht.
  - exists v. auto.
  - cbn [addr_Next]. pose proof network_range. unfold host in Hh. apply (IH (v + 1)); [lia| |lia].
    intros u Hu. destruct (decide (u = v)) as [->|]; [|apply Hb; lia]. by destruct (decide (addr_String (Addr4 v) ∈ taken)).
Qed.
End subnet.

(** ** The texts of subnets *)
Lemma fields4_bytes s val n fields out :
  is_u8 val → is_bytes fields → (length fields ≤ 3)%nat → fields4 s val n fields = Some out → is_bytes out ∧ length out = 4%nat.
Proof.
  revert val n fields. induction s as [|c s IH]; intros val n fields Hv Hf Hl; cbn [fields4].
  - destruct (Nat.eqb_spec (length fields) 3); [|done]. intros [= <-]. rewrite length_app. split; [|cbn; lia].
    apply Forall_app. auto.
  - destruct (is_digit c) eqn:Hd; [|destruct (c =? 46)]; [| |done].
    + destruct (_ && _); [done|]. destruct (Z.ltb_spec 255 (val * 10 + (c - 48))); [done|]. apply IH; [|done..].
      unfold is_digit in Hd. bool_lia. unfold is_u8 in *. lia.
    + destruct (_ || _); [done|]. destruct (Nat.eqb_spec (length fields) 3); [done|]. apply IH; [done| |rewrite length_app; cbn; lia].
      apply Forall_app. auto.
Qed.

Lemma ParsePrefix_ipv4 s p : ParsePrefix s = Some p → Is4 (p_addr p) = true → ipv4_prefix p.
Proof.
  unfold ParsePrefix. destruct (cut_last 47 s) as [[addr bits]|]; [|done]. destruct (ParseAddr addr) as [ip|] eqn:Ea; [|done].
  destruct (has_zone ip); [done|]. destruct (_ && _); [done|]. destruct (atoi_digits bits) as [n|] eqn:Eb; [|done].
  destruct (Z.leb_spec n (BitLen ip)) as [Hn|]; [|done]. intros [= <-]. cbn [p_addr]. intros H4.
  destruct ip as [|v|]; try done. exists v. split; [done|]. cbn [BitLen p_bits] in *. split.
  - unfold ParseAddr in Ea.
    destruct (filter _ addr) as [|[|[]|] ?]; try done; repeat case_match; try done; subst.
    + apply fmap_Some in Ea as (raw & Hraw & Hv). apply fields4_bytes in Hraw as [Hb Hl]; [|done|by constructor|cbn; lia].
      pose proof (addr_wf_From4 raw Hb Hl). by rewrite <-Hv in *.
    + unfold parseIPv6 in Ea. repeat case_match; done.
  - split; [|done]. unfold atoi_digits in Eb. destruct (_ || _) eqn:Ec; [done|]. injection Eb as <-.
    apply orb_false_iff in Ec as [_ Hd]. apply negb_false_iff in Hd. clear -Hd.
    assert (∀ acc, 0 ≤ acc → 0 ≤ foldl (λ a c, a * 10 + (c - 48)) acc bits) as H; [|by apply H].
    induction bits as [|c bits IH]; intros acc Hacc; cbn in *; [done|]. apply andb_true_iff in Hd as [Hc Hd].
    apply IH; [done|]. unfold is_digit in Hc. bool_lia. lia.
Qed.

(** What [freeAddress] gives. *)
Lemma freeAddress_spec subnet p taken :
  ParsePrefix subnet = Some p → Is4 (p_addr p) = true →
  match freeAddress subnet taken with
  | inr ip => ∃ u, host p u ∧ ip = addr_String (Addr4 u) ∧ (ip ∉ taken)
                ∧ ∀ w, host p w → w < u → addr_String (Addr4 w) ∈ taken
  | inl e => e = ErrGroupFull ∧ ∀ w, host p w → addr_String (Addr4 w) ∈ taken
  end.
Proof.
  intros Hs H4. pose proof (ParsePrefix_ipv4 _ _ Hs H4) as Hp. pose proof (network_range p Hp).
  pose proof (subnet_size_pos p Hp). unfold freeAddress. rewrite Hs.
  assert (addr_Next (p_addr (Masked p)) = if network p + 1 <? 2 ^ 32 then Addr4 (network p + 1) else AddrZero) as ->.
  { unfold network. destruct Hp as (a & Ha & _ & Hb). unfold Masked, prefix_IsValid. rewrite Ha. cbn [addr_IsValid BitLen].
    replace (0 <=? p_bits p) with true by (symmetry; apply Z.leb_le; lia).
    by replace (p_bits p <=? 32) with true by (symmetry; apply Z.leb_le; lia). }
  pose proof (lowest_free_spec p Hp taken (S (size taken)) (network p + 1) ltac:(lia)) as Hf.
  destruct (lowest_free _ _ _ _) as [ip|].
  - destruct Hf as (u & Hu & -> & Hn & Hb); [intros ? ?; lia|lia|]. exists u. split; [done|]. split; [done|]. split; [done|].
    intros w Hw ?. apply Hb. unfold host in Hw. lia.
  - split; [done|]. apply Hf; [intros ? ?; lia|lia].
Qed.

(** A new member gets the lowest free address.  In an IPv4 subnet, whatever
    addresses are taken, [freeAddress] gives the lowest host address of the subnet
    that is not among them, never the network's or the broadcast address; and it
    says the group is full exactly when every host address is taken. *)
Theorem lowest_free_address_is_given subnet p taken :
  ParsePrefix subnet = Some p → Is4 (p_addr p) = true →
  match freeAddress subnet taken with
  | inr ip => ∃ u, host p u ∧ ip = addr_String (Addr4 u) ∧ (ip ∉ taken)
                ∧ ∀ w, host p w → w < u → addr_String (Addr4 w) ∈ taken
  | inl e => e = ErrGroupFull ∧ ∀ w, host p w → addr_String (Addr4 w) ∈ taken
  end.
Proof. apply freeAddress_spec. Qed.

Lemma lowest_free_address_is_given_witness :
  let subnet := str "10.69.0.0/30" in
  freeAddress subnet {[str "10.69.0.1"]} = inr (str "10.69.0.2")
  ∧ freeAddress subnet {[str "10.69.0.1"; str "10.69.0.2"]} = inl ErrGroupFull
  ∧ ∀ w, host (PrefixFrom (Addr4 0x0a450000) 30) w →
         addr_String (Addr4 w) ∈ ({[str "10.69.0.1"; str "10.69.0.2"]} : gset gostring).
Proof.
  cbv zeta. split; [vm_compute; reflexivity|].
  assert (freeAddress (str "10.69.0.0/30") {[str "10.69.0.1"; str "10.69.0.2"]} = inl ErrGroupFull) as E
    by (vm_compute; reflexivity). split; [exact E|].
  pose proof (lowest_free_address_is_given (str "10.69.0.0/30") (PrefixFrom (Addr4 0x0a450000) 30)
    {[str "10.69.0.1"; str "10.69.0.2"]} ltac:(vm_compute; reflexivity) ltac:(reflexivity)) as H.
  rewrite E in H. exact (proj2 H).
Defined.
