(* ===== verification/StorageSpec.v ===== *)
(** What the storage operations do to the tables.

    [step] is the abstract description of the server's database: the changes it can
    go through, each as one atomic change of the tables.  [StoreCall] is every
    operation of the storage with its arguments, and [calls_step] shows that the
    definitions of [Storage] refine the description: whatever the machine does, a
    call takes the tables through steps and nothing else. *)
From S2P Require Import Prelude Bytes NetAddr NetText Base64 Invite Schema Storage.

(** ** Statements as changes *)
Section tables_lemmas.
Context {A : Type}.
Implicit Types m : gmap gostring A.

Lemma lookup_update_where p f m k : update_where p f m !! k = (λ r, if p k r then f r else r) <$> m !! k.
Proof. unfold update_where. rewrite map_lookup_imap. by destruct (m !! k). Qed.

Lemma lookup_delete_where p m k r : delete_where p m !! k = Some r ↔ m !! k = Some r ∧ p k r = false.
Proof. unfold delete_where. by rewrite map_lookup_filter_Some. Qed.

Lemma elem_of_select_where p m kr : kr ∈ select_where p m ↔ m !! kr.1 = Some kr.2 ∧ p kr.1 kr.2 = true.
Proof.
  unfold select_where. rewrite list_elem_of_filter. destruct kr as [k r].
  rewrite elem_of_map_to_list. tauto.
Qed.

Lemma find_where_Some p m k r : find_where p m = Some (k, r) → m !! k = Some r ∧ p k r = true.
Proof.
  unfold find_where. intros H. apply (elem_of_select_where p m (k, r)).
  destruct (select_where p m) as [|kr l]; [done|]. cbn in H. injection H as ->. by left.
Qed.

Lemma find_where_None p m : find_where p m = None → ∀ k r, m !! k = Some r → p k r = false.
Proof.
  unfold find_where. destruct (select_where p m) as [|kr l] eqn:E; [|done]. intros _ k r Hk.
  destruct (p k r) eqn:Hp; [|done]. exfalso.
  assert ((k, r) ∈ select_where p m) as Hin by (by apply elem_of_select_where). rewrite E in Hin. by inversion Hin.
Qed.

Lemma find_where_is p m k r :
  m !! k = Some r → p k r = true → (∀ k' r', m !! k' = Some r' → p k' r' = true → k' = k) →
  find_where p m = Some (k, r).
Proof.
  intros Hk Hp Hu. destruct (find_where p m) as [[k' r']|] eqn:E.
  - apply find_where_Some in E as [Hk' Hp']. assert (k' = k) as -> by eauto. congruence.
  - by rewrite (find_where_None _ _ E k r Hk) in Hp.
Qed.

Lemma count_where_0 p m : count_where p m = 0 ↔ ∀ k r, m !! k = Some r → p k r = false.
Proof.
  unfold count_where. split.
  - intros H k r Hk. destruct (p k r) eqn:Hp; [|done]. exfalso.
    assert ((k, r) ∈ select_where p m) as Hin by (by apply elem_of_select_where).
    destruct (select_where p m); [by inversion Hin|cbn in H; lia].
  - intros H. destruct (select_where p m) as [|[k r] l] eqn:E; [done|].
    assert ((k, r) ∈ select_where p m) as Hin by (rewrite E; by left).
    apply elem_of_select_where in Hin as [Hk Hp]. cbn in *. by rewrite (H k r Hk) in Hp.
Qed.

Lemma count_where_pos p m : count_where p m ≠ 0 → ∃ k r, m !! k = Some r ∧ p k r = true.
Proof.
  unfold count_where. intros H. destruct (select_where p m) as [|[k r] l] eqn:E; [done|].
  exists k, r. apply (elem_of_select_where p m (k, r)). rewrite E. by left.
Qed.

Lemma insert_row_Some k r m m' : insert_row k r m = Some m' ↔ m !! k = None ∧ m' = <[k := r]> m.
Proof. unfold insert_row. destruct (m !! k); split; [done|by intros []|by intros [= <-]|by intros [_ ->]]. Qed.
End tables_lemmas.

Lemma of_member_true g d k r : of_member g d k r = true ↔ mb_group_id r = g ∧ mb_device_id r = d.
Proof. unfold of_member. by rewrite andb_true_iff, !bool_decide_eq_true. Qed.
Lemma current_true g d k r : current g d k r = true ↔ mb_group_id r = g ∧ mb_device_id r = d ∧ mb_revoked_at r = None.
Proof. unfold current, is_active. rewrite andb_true_iff, of_member_true, bool_decide_eq_true. tauto. Qed.
#[export] Hint Rewrite of_member_true current_true : vlan.

(** The one row of a device in a group. *)
Lemma member_unique t k k' r r' :
  unique_ok t → memberships t !! k = Some r → memberships t !! k' = Some r' →
  mb_group_id r = mb_group_id r' → mb_device_id r = mb_device_id r' → k = k'.
Proof.
  intros [_ _ Hu _ _] Hk Hk' Hg Hd. refine (Hu k r Hk k' r' Hk' _ _); [done|congruence].
Qed.

Lemma find_member t g d k r :
  unique_ok t → memberships t !! k = Some r → mb_group_id r = g → mb_device_id r = d →
  find_where (of_member g d) (memberships t) = Some (k, r).
Proof.
  intros Hu Hk Hg Hd. apply find_where_is; [done|by apply of_member_true|].
  intros k' r' Hk' Hp. apply of_member_true in Hp as [? ?]. symmetry. eapply (member_unique t k k' r r'); congruence.
Qed.

Lemma violation_None t : violation t = None ↔ unique_ok t ∧ references_ok t.
Proof.
  unfold violation. repeat case_bool_decide; split; try done; by intros [].
Qed.

(** ** Rules for programs over the store *)
Section rules.
Context {MC : Machine}.

Abbreviation M := (prog Store).

Lemma wp_try {A B} (m : M (storage_error + A)) (f : A → M (storage_error + B)) Q s :
  wp m (λ r s', match r with inl e => Q (inl e) s' | inr a => wp (f a) Q s' end) s → wp (x ←? m; f x) Q s.
Proof.
  unfold try_bind, wp, mbind, prog_bind. destruct (m s) as [[[e|a] s']|]; done.
Qed.

Lemma wp_Now Q s : (∀ n k, Q n (mkStore (tables s) k)) → wp Now Q s.
Proof. intros H. apply H. Qed.

Lemma wp_Read k Q s : (∀ n i, Q (random i k) (mkStore (tables s) n)) → wp (Read k) Q s.
Proof. intros H. apply H. Qed.

Lemma wp_exec f (Q : db_error + Z → Store → Prop) s :
  (∀ e k, Q (inl e) (mkStore (tables s) k)) →
  (∀ n t k, f (tables s) = Some (n, t) → unique_ok t → references_ok t → Q (inr n) (mkStore t k)) →
  wp (exec f) Q s.
Proof.
  intros H1 H2. unfold wp, exec. destruct (reaches (ticks s)); cbn [negb]; [|apply H1].
  destruct (f (tables s)) as [[n t]|] eqn:Ef; [|apply H1].
  destruct (violation t) eqn:Ev; [apply H1|]. apply violation_None in Ev as [? ?]. by apply H2.
Qed.

Lemma wp_RowsAffected m (Q : db_error + Z → Store → Prop) s :
  (∀ k, Q (inl CountFailed) (mkStore (tables s) k)) → (∀ k, Q (inr m) (mkStore (tables s) k)) → wp (RowsAffected m) Q s.
Proof. intros H1 H2. unfold RowsAffected, wp, mbind, prog_bind, next. cbn. destruct (counts _); [apply H2|apply H1]. Qed.

Lemma wp_counted m (Q : Z → Store → Prop) s : (∀ n k, n = 0 ∨ n = m → Q n (mkStore (tables s) k)) → wp (counted m) Q s.
Proof. intros HQ. apply wp_bind, wp_RowsAffected; intros k; apply HQ; [by left|by right]. Qed.

Lemma wp_query {A} (f : Tables → A) (Q : db_error + A → Store → Prop) s :
  (∀ e k, Q (inl e) (mkStore (tables s) k)) → (∀ k, Q (inr (f (tables s))) (mkStore (tables s) k)) → wp (query f) Q s.
Proof. intros H1 H2. unfold wp, query. destruct (reaches (ticks s)); cbn [negb]; [apply H2|apply H1]. Qed.

Lemma wp_query_rows {ML : MachineLaws MC} {A} (f : Tables → list A) (Q : db_error + list A → Store → Prop) s :
  (∀ e k, Q (inl e) (mkStore (tables s) k)) →
  (∀ k rows, rows ≡ₚ f (tables s) → Q (inr rows) (mkStore (tables s) k)) → wp (query_rows f) Q s.
Proof.
  intros H1 H2. unfold wp, query_rows. destruct (reaches (ticks s)); cbn [negb]; [|apply H1].
  apply H2, scan_perm.
Qed.

Lemma wp_wrap {A} what (m : M (db_error + A)) (Q : storage_error + A → Store → Prop) s :
  wp m (λ r s', Q (match r with inl e => inl (Failed what (Database e)) | inr a => inr a end) s') s → wp (wrap what m) Q s.
Proof. intros H. apply wp_bind. eapply wp_mono; [exact H|]. by intros a s' Ha. Qed.

(** A failure of the machine, as opposed to a refusal. *)
Definition machine_error (e : storage_error) : Prop := ∃ what why, e = Failed what why.

Lemma machine_failed what why : machine_error (Failed what why).
Proof. by exists what, why. Qed.

(** A transaction ends with what the work did, all of it, or with nothing done. *)
Lemma wp_transaction {A} (commits : A → bool) work (Q : storage_error + A → Store → Prop) s :
  (∀ what k, Q (inl (Failed what (Database DriverFailed))) (mkStore (tables s) k)) →
  (∀ k, wp work (λ r s', match r with
                         | inl e => ∀ k', Q (inl e) (mkStore (tables s) k')
                         | inr a => ∀ k', Q (inr a) (mkStore (tables (if commits a then s' else s)) k')
                         end) (mkStore (tables s) k)) →
  wp (transaction commits work) Q s.
Proof.
  intros H1 H2. unfold wp, transaction. destruct (reaches (ticks s)); cbn [negb]; [|apply H1].
  specialize (H2 (S (ticks s))). unfold wp in H2.
  destruct s as [t n]. unfold set_field, eta_Store in *. cbn in *.
  destruct (work (mkStore t (S n))) as [[[e|a] s2]|]; [apply H2| |done].
  destruct (commits a); cbn [negb]; [|by apply H2].
  destruct (reaches (ticks s2)); [by apply H2|apply H1].
Qed.

Lemma wp_write {A} work (Q : storage_error + A → Store → Prop) s :
  (∀ what k, Q (inl (Failed what (Database DriverFailed))) (mkStore (tables s) k)) →
  (∀ k, wp work (λ r s', match r with
                         | inl e => ∀ k', Q (inl e) (mkStore (tables s) k')
                         | inr a => ∀ k', Q (inr a) (mkStore (tables s') k')
                         end) (mkStore (tables s) k)) →
  wp (write work) Q s.
Proof. intros H1 H2. by apply wp_transaction. Qed.
End rules.

(** ** The changes the tables go through *)

(** The addresses other current members of a group hold. *)
Definition held_by_others (t : Tables) (groupID deviceID : gostring) : gset gostring :=
  list_to_set (omap (λ kr, mb_virtual_ip kr.2)
    (select_where (λ _ r, bool_decide (mb_group_id r = groupID) && is_active r && bool_decide (mb_device_id r ≠ deviceID))
      (memberships t))).

(** A returning member gets the address it had, unless somebody holds it by now; a
    new one, and one whose address is gone, the lowest free one. *)
Definition address_for (subnet : gostring) (held : gset gostring) (previous : option gostring) : storage_error + gostring :=
  match previous with
  | Some ip => if bool_decide (ip = []) || bool_decide (ip ∈ held) then freeAddress subnet held else inr ip
  | None => freeAddress subnet held
  end.

(** [k], [r]: the membership a device comes to have in a group. *)
Inductive admitted (t : Tables) (groupID deviceID subnet : gostring) (now : Z) (k : gostring) : membership_row → Prop :=
  | admitted_new ip :
      (∀ k' r', memberships t !! k' = Some r' → of_member groupID deviceID k' r' = false) →
      memberships t !! k = None →
      address_for subnet (held_by_others t groupID deviceID) None = inr ip →
      admitted t groupID deviceID subnet now k (mkMembership groupID deviceID (Unix now) None (Some ip) RoleMember None)
  | admitted_again r ip :
      memberships t !! k = Some r → of_member groupID deviceID k r = true →
      address_for subnet (held_by_others t groupID deviceID) (mb_virtual_ip r) = inr ip →
      admitted t groupID deviceID subnet now k (r <| mb_revoked_at := None |> <| mb_virtual_ip := Some ip |>).

(** A device that runs a group. *)
Definition owns (t : Tables) (groupID deviceID : gostring) : Prop :=
  ∃ k r, memberships t !! k = Some r ∧ current groupID deviceID k r = true ∧ mb_role r = RoleOwner.

Definition ipv4_subnet (subnet : gostring) : Prop := ∀ p, ParsePrefix subnet = Some p → Is4 (p_addr p) = true.

(** [D] says which groups may be deleted. *)
Inductive change (D : gostring → Prop) (t : Tables) : Tables → Prop :=
  | change_devices ds : (∀ k, is_Some (devices t !! k) → is_Some (ds !! k)) → change D t (t <| devices := ds |>)
  | change_tokens ts : change D t (t <| device_tokens := ts |>)
  | change_nonces ns : change D t (t <| register_nonces := ns |>)
  | change_create groupID g deviceID now k r :
      groups t !! groupID = None → ipv4_subnet (gr_subnet g) →
      admitted (t <| groups := <[groupID := g]> (groups t) |>) groupID deviceID (gr_subnet g) now k r →
      change D t (t <| groups := <[groupID := g]> (groups t) |>
                  <| memberships := <[k := r <| mb_role := RoleOwner |>]> (memberships t) |>)
  | change_join groupID g deviceID now k r :
      groups t !! groupID = Some g → mb_banned_at r = None →
      admitted t groupID deviceID (gr_subnet g) now k r →
      change D t (t <| memberships := <[k := r]> (memberships t) |>)
  | change_revoke groupID deviceID now :
      change D t (t <| memberships := update_where (current groupID deviceID) (λ r, r <| mb_revoked_at := Some now |>) (memberships t) |>)
  | change_remove groupID deviceID now owner :
      owns t groupID owner → owner ≠ deviceID →
      change D t (t <| memberships := update_where (current groupID deviceID)
                       (λ r, r <| mb_revoked_at := Some now |> <| mb_banned_at := Some now |>) (memberships t) |>)
  | change_group groupID f owner :
      owns t groupID owner → (∀ g, gr_subnet (f g) = gr_subnet g) →
      change D t (t <| groups := update_where (λ k _, bool_decide (k = groupID)) f (groups t) |>)
  | change_owner groupID owner target :
      owns t groupID owner →
      change D t (t <| memberships := update_where (of_member groupID owner) (λ r, r <| mb_role := RoleMember |>)
                       (update_where (current groupID target) (λ r, r <| mb_role := RoleOwner |>) (memberships t)) |>)
  | change_delete groupID owner : D groupID → owns t groupID owner → change D t (delete_group groupID t)
  | change_end p : change D t (t <| sessions := delete_where p (sessions t) |>)
  | change_open k s :
      sessions t !! k = None →
      (∀ r, memberships t !! ss_membership_id s = Some r → mb_group_id r = ss_group_id s) →
      change D t (t <| sessions := <[k := s]> (sessions t) |>)
  | change_session k f :
      (∀ s, ss_group_id (f s) = ss_group_id s ∧ ss_membership_id (f s) = ss_membership_id s) →
      change D t (t <| sessions := update_where (λ k' _, bool_decide (k' = k)) f (sessions t) |>).

(** A change the schema's constraints allow. *)
Definition step (D : gostring → Prop) (t t' : Tables) : Prop := change D t t' ∧ unique_ok t' ∧ references_ok t'.

(** ** Admission *)
Section admission.
Context {MC : Machine} {ML : MachineLaws MC}.

Lemma upsert_shape id g d now t n t' :
  upsert_membership id g d now t = Some (n, t') →
  ∃ k r, t' = t <| memberships := <[k := r]> (memberships t) |> ∧ mb_virtual_ip r = None
    ∧ mb_revoked_at r = None ∧ of_member g d k r = true
    ∧ ((k = id ∧ memberships t !! k = None ∧ r = mkMembership g d now None None RoleMember None
        ∧ find_where (of_member g d) (memberships t) = None)
       ∨ ∃ r0, find_where (of_member g d) (memberships t) = Some (k, r0)
           ∧ r = r0 <| mb_revoked_at := None |> <| mb_virtual_ip := None |>).
Proof.
  unfold upsert_membership. destruct (find_where _ _) as [[k r]|] eqn:Ef.
  - intros [= _ <-]. apply find_where_Some in Ef as Hk. destruct Hk as [Hk Hp].
    eexists k, _. split; [reflexivity|]. split; [done|]. split; [done|]. split; [|right; by exists r].
    apply of_member_true in Hp. by apply of_member_true.
  - destruct (insert_row _ _ _) as [ms|] eqn:Ei; cbn; [|done]. intros [= _ <-]. apply insert_row_Some in Ei as [Hk ->].
    eexists id, _. split; [reflexivity|]. split; [done|]. split; [done|]. split; [|by left].
    by apply of_member_true.
Qed.

(** Updating a device's row in a group updates the one row there is. *)
Lemma update_member t g d k r f :
  unique_ok t → memberships t !! k = Some r → of_member g d k r = true →
  update_where (of_member g d) f (memberships t) = <[k := f r]> (memberships t).
Proof.
  intros Hu Hk Hp. apply of_member_true in Hp as [Hg Hd]. apply map_eq. intros k'. rewrite lookup_update_where.
  destruct (decide (k' = k)) as [->|Hne].
  - rewrite lookup_insert_eq, Hk. cbn. by rewrite (proj2 (of_member_true g d k r)).
  - rewrite lookup_insert_ne by done. destruct (memberships t !! k') as [r'|] eqn:Hk'; [|done]. cbn. f_equal.
    destruct (of_member g d k' r') eqn:Hp'; [|done]. apply of_member_true in Hp' as [? ?].
    destruct Hne. eapply (member_unique t k' k r' r); congruence.
Qed.

(** The addresses [takenAddresses] finds once the joining row's own is cleared. *)
Lemma taken_rows t g d k r rows :
  unique_ok (t <| memberships := <[k := r]> (memberships t) |>) →
  mb_virtual_ip r = None → of_member g d k r = true →
  (∀ r0, memberships t !! k = Some r0 → of_member g d k r0 = true) →
  rows ≡ₚ omap (λ kr, mb_virtual_ip kr.2)
            (select_where (λ _ r, bool_decide (mb_group_id r = g) && is_active r) (<[k := r]> (memberships t))) →
  list_to_set (C:=gset gostring) rows = held_by_others t g d.
Proof.
  intros Hu Hip Hp Hold Hrows. apply leibniz_equiv. intros ip. unfold held_by_others. rewrite !elem_of_list_to_set, Hrows.
  rewrite !list_elem_of_omap. apply of_member_true in Hp as Hp'. destruct Hp' as [Hg Hd]. split.
  - intros ([k' r'] & Hin & Hv). apply elem_of_select_where in Hin as [Hk' Hq]. cbn in *.
    destruct (decide (k' = k)) as [->|Hne]; [rewrite lookup_insert_eq in Hk'; congruence|].
    exists (k', r'). split; [|done]. apply elem_of_select_where. cbn. split; [by rewrite lookup_insert_ne in Hk' by done|].
    rewrite Hq. apply bool_decide_eq_true. intros Hd'. destruct Hne.
    apply andb_true_iff in Hq as [Hq _]. apply bool_decide_eq_true in Hq.
    apply (member_unique _ k' k r' r Hu Hk'); [by apply lookup_insert_eq|congruence..].
  - intros ([k' r'] & Hin & Hv). apply elem_of_select_where in Hin as [Hk' Hq]. cbn in *.
    apply andb_true_iff in Hq as [Hq Hd']. apply bool_decide_eq_true in Hd'.
    exists (k', r'). split; [|done]. apply elem_of_select_where. cbn. split; [|done].
    rewrite lookup_insert_ne; [done|]. intros ->. apply Hold in Hk'. apply of_member_true in Hk'. destruct Hk' as [? ?]. by destruct Hd'.
Qed.

Lemma address_for_error subnet held previous e :
  address_for subnet held previous = inl e → machine_error e ∨ e = ErrGroupFull.
Proof.
  assert (freeAddress subnet held = inl e → machine_error e ∨ e = ErrGroupFull) as H.
  { unfold freeAddress. destruct (ParsePrefix subnet) as [p|]; [destruct (lowest_free _ _ _ _)|]; intros [= <-];
      [by right|left; apply machine_failed]. }
  destruct previous as [ip|]; cbn [address_for]; [|done]. by destruct (_ || _).
Qed.

(** The joining row [r] gets its address. *)
Lemma wp_assignAddress g d t k r previous (Q : storage_error + gostring → Store → Prop) n :
  let t1 := t <| memberships := <[k := r]> (memberships t) |> in
  unique_ok t1 → mb_virtual_ip r = None → of_member (g_ID g) d k r = true →
  (∀ r0, memberships t !! k = Some r0 → of_member (g_ID g) d k r0 = true) →
  (∀ e s', machine_error e ∨ e = ErrGroupFull ∧ address_for (g_Subnet g) (held_by_others t (g_ID g) d) previous = inl e →
     Q (inl e) s') →
  (∀ ip n', address_for (g_Subnet g) (held_by_others t (g_ID g) d) previous = inr ip →
     let t' := t <| memberships := <[k := r <| mb_virtual_ip := Some ip |>]> (memberships t) |> in
     unique_ok t' → references_ok t' → Q (inr ip) (mkStore t' n')) →
  wp (assignAddress g d (default [] previous)) Q (mkStore t1 n).
Proof.
  intros t1 Hu Hip Hp Hold He Hok. unfold assignAddress, takenAddresses.
  apply wp_try, wp_try, wp_wrap, wp_query_rows; [intros; apply He; left; apply machine_failed|]. intros n3 rows Hrows.
  cbn [mret prog_ret wp]. rewrite (taken_rows t (g_ID g) d k r rows Hu Hip Hp Hold Hrows).
  apply wp_try. set (held := held_by_others t (g_ID g) d) in *.
  match goal with |- wp (if ?b then mret ?x else mret ?y) ?Q ?s => assert (wp (mret (if b then x else y)) Q s) as Hw; [|by destruct b] end.
  assert ((if bool_decide (default [] previous = []) || bool_decide (default [] previous ∈ held)
           then freeAddress (g_Subnet g) held else inr (default [] previous)) = address_for (g_Subnet g) held previous) as -> by (by destruct previous).
  cbn [mret prog_ret wp]. destruct (address_for _ _ _) as [e|ip] eqn:Ha; [apply He; destruct (address_for_error _ _ _ _ Ha); auto|]. specialize (Hok ip).
  apply wp_try, wp_wrap, wp_exec; [intros; apply He; left; apply machine_failed|]. intros m2 t2 n4 Hf.
  assert (t2 = t <| memberships := <[k := r <| mb_virtual_ip := Some ip |>]> (memberships t) |>) as ->.
  { injection Hf as _ <-. cbn [tables]. rewrite (update_member t1 (g_ID g) d k r _ Hu (lookup_insert_eq _ _ _) Hp).
    unfold t1, set_field, eta_Tables. cbn [memberships devices device_tokens groups sessions register_nonces]. by rewrite insert_insert_eq. }
  intros Hu2 Hr2. by apply Hok.
Qed.

(** No address is left for this device. *)
Definition group_full (t : Tables) (g : Group) (d : gostring) : Prop :=
  address_for (g_Subnet g) (held_by_others t (g_ID g) d)
    (default None (mb_virtual_ip ∘ snd <$> find_where (of_member (g_ID g) d) (memberships t))) = inl ErrGroupFull.

(** What [insertMembership] leaves and returns, when it does not fail. *)
Lemma wp_insertMembership g d now (Q : storage_error + Membership → Store → Prop) s :
  unique_ok (tables s) →
  (∀ e s', machine_error e ∨ e = ErrGroupFull ∧ group_full (tables s) g d → Q (inl e) s') →
  (∀ k r n ip, admitted (tables s) (g_ID g) d (g_Subnet g) now k r → mb_virtual_ip r = Some ip →
     let t' := (tables s) <| memberships := <[k := r]> (memberships (tables s)) |> in
     unique_ok t' → references_ok t' →
     Q (inr (Membership_ k (g_ID g) (g_Name g) (g_Icon g) (g_Color g) d (g_Subnet g) ip
               (mb_role r) (at_second (mb_created_at r)) (g_InviteCode g) None None)) (mkStore t' n)) →
  wp (insertMembership g d now) Q s.
Proof.
  intros Hu He Hok. unfold insertMembership.
  apply wp_try, wp_bind, wp_Read. intros n i. destruct (random i 10) as [raw|]; [|apply He; left; apply machine_failed].
  cbn [mret prog_ret wp]. set (id := str "mem" ++ _). clearbody id.
  apply wp_try, wp_wrap, wp_query; [intros; apply He; left; apply machine_failed|]. cbn [tables]. intros n1.
  apply wp_try, wp_wrap, wp_exec; [intros; apply He; left; apply machine_failed|]. cbn [tables]. intros m t1 n2 Hup Hu1 Hr1.
  apply upsert_shape in Hup as (k & r & -> & Hip & Hrev & Hp & Hcase).
  assert (Hold : ∀ r0, memberships (tables s) !! k = Some r0 → of_member (g_ID g) d k r0 = true).
  { destruct Hcase as [(-> & Hn & _)|(r0 & Hf & _)]; [by rewrite Hn|]. intros r1 Hr. apply find_where_Some in Hf as [Hf ?].
    congruence. }
  apply wp_try, wp_assignAddress; [done..| |].
  { intros e s' [?|[-> Hfull]]; apply He; [by left|right; split; [done|]]. unfold group_full. by destruct (find_where _ _). }
  intros ip n3 Ha t' Hu2 Hr2.
  apply wp_try, wp_wrap, wp_query; [intros; apply He; left; apply machine_failed|]. cbn [tables]. intros n5.
  apply of_member_true in Hp as Hgd. destruct Hgd as [Hg Hd].
  rewrite (find_member t' (g_ID g) d k (r <| mb_virtual_ip := Some ip |>) Hu2 (lookup_insert_eq _ _ _) Hg Hd).
  cbn [mret prog_ret wp]. apply (Hok k (r <| mb_virtual_ip := Some ip |>)); [|done|exact Hu2|exact Hr2].
  destruct Hcase as [(-> & Hn & -> & Hf)|(r0 & Hf & ->)]; rewrite Hf in Ha; cbn in Ha.
  - apply admitted_new; [by apply find_where_None|done|exact Ha].
  - apply find_where_Some in Hf as [Hk0 Hp0]. by apply admitted_again.
Qed.
End admission.
