(* ===== verification/StorageCalls.v ===== *)
(** Every operation of the storage refines the description of [StorageSpec]:
    whatever the machine does, a call takes the tables through steps. *)
From S2P Require Import Prelude Bytes NetAddr NetText Base64 Invite Schema Storage StorageSpec.

(** The operations that change the tables, with their arguments. *)
Inductive store_call : Type :=
  | CallCreateGroup (g : Group) (deviceID : gostring)
  | CallAddMembership (g : Group) (deviceID : gostring)
  | CallRevokeMembership (groupID deviceID : gostring)
  | CallRemoveMember (groupID owner target : gostring)
  | CallRenameGroup (groupID owner name : gostring)
  | CallSetGroupAppearance (groupID owner icon color : gostring)
  | CallTransferOwnership (groupID owner target : gostring)
  | CallDeleteGroup (groupID owner : gostring)
  | CallResetInviteCode (groupID owner : gostring)
  | CallRegisterDevice (d : Device)
  | CallDeviceByToken (token : gostring)
  | CallSetDeviceNickname (deviceID nickname : gostring)
  | CallClaimRegisterNonce (nonce : gostring) (keepFor : Z)
  | CallCreateSession (m : Membership)
  | CallSetSessionEndpoint (sessionID address : gostring) (port : Z)
  | CallTouchSession (sessionID : gostring)
  | CallDeleteSession (sessionID : gostring)
  | CallExpireSessions (olderThan : Z).

(** What a caller owes: a group it made up has an IPv4 subnet, and a group or a
    membership it hands over agrees with the tables where they still have it. *)
Definition call_ok (t : Tables) (c : store_call) : Prop :=
  match c with
  | CallCreateGroup g _ => ipv4_subnet (g_Subnet g)
  | CallAddMembership g _ => ∀ row, groups t !! g_ID g = Some row → gr_subnet row = g_Subnet g
  | CallCreateSession m => ∀ r, memberships t !! m_ID m = Some r → mb_group_id r = m_GroupID m
  | _ => True
  end.

(** The group a call may delete. *)
Definition deletes (c : store_call) (groupID : gostring) : Prop :=
  match c with CallDeleteGroup g _ => groupID = g | _ => False end.

Section calls.
Context {MC : Machine} {ML : MachineLaws MC} {D : gostring → Prop}.

Abbreviation M := (prog Store).

Definition error_of {A} (m : M (storage_error + A)) : M (option storage_error) :=
  r ← m; mret (match r with inl e => Some e | inr _ => None end).

Definition run_call (c : store_call) : M (option storage_error) :=
  match c with
  | CallCreateGroup g d => error_of (CreateGroup g d)
  | CallAddMembership g d => error_of (AddMembership g d)
  | CallRevokeMembership g d => error_of (RevokeMembership g d)
  | CallRemoveMember g o x => error_of (RemoveMember g o x)
  | CallRenameGroup g o n => error_of (RenameGroup g o n)
  | CallSetGroupAppearance g o i c => error_of (SetGroupAppearance g o i c)
  | CallTransferOwnership g o x => error_of (TransferOwnership g o x)
  | CallDeleteGroup g o => error_of (DeleteGroup g o)
  | CallResetInviteCode g o => error_of (ResetInviteCode g o)
  | CallRegisterDevice d => error_of (RegisterDevice d)
  | CallDeviceByToken tk => error_of (DeviceByToken tk)
  | CallSetDeviceNickname d n => error_of (SetDeviceNickname d n)
  | CallClaimRegisterNonce n k => error_of (ClaimRegisterNonce n k)
  | CallCreateSession m => error_of (CreateSession m)
  | CallSetSessionEndpoint i a p => error_of (SetSessionEndpoint i a p)
  | CallTouchSession i => error_of (TouchSession i)
  | CallDeleteSession i => error_of (DeleteSession i)
  | CallExpireSessions o => error_of (ExpireSessions o)
  end.

(** ** One operation at a time *)

(** [m] takes the tables through steps. *)
Definition refines {A} (m : M A) (t : Tables) : Prop := ∀ n, wp m (λ _ s', rtc (step D) t (tables s')) (mkStore t n).

Lemma refines_error_of {A} (m : M (storage_error + A)) t : refines m t → refines (error_of m) t.
Proof. intros H n. apply wp_bind. eapply wp_mono; [apply H|]. by intros. Qed.

Lemma step_once t t' : change D t t' → unique_ok t' → references_ok t' → rtc (step D) t t'.
Proof. intros. by apply rtc_once. Qed.

Lemma wp_ownerOnly g d (Q : storage_error + unit → Store → Prop) s :
  (∀ e n, Q (inl e) (mkStore (tables s) n)) → (owns (tables s) g d → ∀ n, Q (inr tt) (mkStore (tables s) n)) →
  wp (ownerOnly g d) Q s.
Proof.
  intros He Hok. apply wp_try, wp_wrap, wp_query; [intros; apply He|]. intros n.
  destruct (find_where _ _) as [[k r]|] eqn:Ef; [|apply He]. case_bool_decide as Hr; [|apply He].
  apply Hok. exists k, r. apply find_where_Some in Ef as [? ?]. auto.
Qed.

(** The proof steps the operations share: a statement that fails leaves a case that
    is closed by [intros], one that runs leaves the rest of the program. *)
Ltac stay := solve [intros; first [exact (rtc_refl _ _) | intros ?; exact (rtc_refl _ _)]].
Ltac err := solve [intros; eauto | stay].
Ltac run_exec := apply wp_try, wp_wrap, wp_exec; [err|]; cbn [tables].
Ltac run_query := apply wp_try, wp_wrap, wp_query; [err|]; cbn [tables].
Ltac run_count := apply wp_try, wp_wrap, wp_RowsAffected; [err|]; intros ?; cbn [tables].

Lemma update_at {A} (k : gostring) (r : A) (f : A → A) (m : gmap gostring A) :
  update_where (λ k' _, bool_decide (k' = k)) f (<[k := r]> m) = <[k := f r]> m.
Proof.
  apply map_eq. intros k'. rewrite lookup_update_where. destruct (decide (k' = k)) as [->|Hne].
  - rewrite !lookup_insert_eq. cbn. by rewrite bool_decide_eq_true_2.
  - rewrite !lookup_insert_ne by done. destruct (m !! k'); [|done]. cbn. by rewrite bool_decide_eq_false_2.
Qed.

Lemma wp_draw_code attempts (Q : storage_error + gostring → Store → Prop) s :
  (∀ e n, Q (inl e) (mkStore (tables s) n)) →
  (∀ raw n, is_bytes raw → length raw = inviteCodeBytes →
     (∀ k g, groups (tables s) !! k = Some g → gr_invite_code g ≠ NewInviteCode raw) →
     Q (inr (NewInviteCode raw)) (mkStore (tables s) n)) →
  wp (draw_code attempts) Q s.
Proof.
  revert s. induction attempts as [|attempts IH]; intros [t n0] He Hok; cbn [tables] in *; [apply (He _ n0)|].
  cbn [draw_code]. apply wp_bind, wp_Read. intros n i. destruct (random i inviteCodeBytes) as [raw|] eqn:Eraw; [|apply He].
  apply random_bytes in Eraw as [Hb Hl].
  apply wp_try, wp_wrap, wp_query; [intros; apply He|]. cbn [tables]. intros n1.
  case_bool_decide as Hs; cbn [negb]; [|apply IH; [done..]].
  apply Hok; [done..|]. intros k g Hk Hc.
  assert ((k, g) ∈ select_where (λ _ g, bool_decide (gr_invite_code g = NewInviteCode raw)) (groups t)) as Hin.
  { apply elem_of_select_where. split; [done|]. by apply bool_decide_eq_true. }
  rewrite Hs in Hin. by inversion Hin.
Qed.

(** What creating a group leaves, when it does not fail. *)
Lemma wp_CreateGroup g d t n (Q : storage_error + Membership → Store → Prop) :
  unique_ok t → ipv4_subnet (g_Subnet g) →
  (∀ e n', Q (inl e) (mkStore t n')) →
  (∀ m t' n', step D t t' → owns t' (g_ID g) d → Q (inr m) (mkStore t' n')) →
  wp (CreateGroup g d) Q (mkStore t n).
Proof.
  intros Hu Hs He Hok. apply wp_write; [err|]. cbn [tables]. intros n1.
  apply wp_try, wp_draw_code; [err|]. cbn [tables]. intros raw n2 _ _ _. set (code := NewInviteCode raw).
  apply wp_bind, wp_Now. intros i n3. cbn [tables].
  run_exec. intros m1 t1 n4 Hi Hu1 Hr1. destruct (insert_row _ _ _) as [gs|] eqn:Ei; [|done].
  apply insert_row_Some in Ei as [Hg ->]. injection Hi as _ <-.
  apply wp_try, wp_insertMembership; [done|err|].
  intros k r n5 ip Hadm Hip t' Hu2 Hr2.
  run_exec. intros m2 t2 n6 [= _ <-] Hu3 Hr3. intros n7.
  rewrite (update_at k) in Hu3, Hr3 |- *.
  apply Hok.
  - split; [|by split]. by eapply (change_create D t (g_ID g) _ d i k r).
  - exists k. eexists. split; [apply lookup_insert_eq|]. split; [|done]. apply current_true. by inversion Hadm as [|? ? ? Hp];
      [|apply of_member_true in Hp as [? ?]].
Qed.

(** A device that was removed from a group and not let back in. *)
Definition banned (t : Tables) (groupID deviceID : gostring) : Prop :=
  ∃ k r, memberships t !! k = Some r ∧ of_member groupID deviceID k r = true ∧ mb_banned_at r ≠ None.

(** What joining leaves and returns, or why it is refused. *)
Lemma wp_AddMembership g d t n (Q : storage_error + Membership → Store → Prop) :
  unique_ok t → (∀ row, groups t !! g_ID g = Some row → gr_subnet row = g_Subnet g) →
  (∀ e n', machine_error e ∨ e = ErrBanned ∧ banned t (g_ID g) d
           ∨ e = ErrGroupFull ∧ ¬ banned t (g_ID g) d ∧ group_full t g d → Q (inl e) (mkStore t n')) →
  (∀ k r ip now n', ¬ banned t (g_ID g) d → admitted t (g_ID g) d (g_Subnet g) now k r → mb_virtual_ip r = Some ip →
     let t' := t <| memberships := <[k := r]> (memberships t) |> in
     step D t t' →
     Q (inr (Membership_ k (g_ID g) (g_Name g) (g_Icon g) (g_Color g) d (g_Subnet g) ip
               (mb_role r) (at_second (mb_created_at r)) (g_InviteCode g) None None)) (mkStore t' n')) →
  wp (AddMembership g d) Q (mkStore t n).
Proof.
  intros Hu Hsub He Hok. apply wp_write; [intros; apply He; left; apply machine_failed|]. cbn [tables]. intros n1.
  apply wp_try, wp_wrap, wp_query; [intros; apply He; left; apply machine_failed|]. cbn [tables]. intros n2.
  assert (Hban : ∀ k r, memberships t !! k = Some r → of_member (g_ID g) d k r = true →
            find_where (of_member (g_ID g) d) (memberships t) = Some (k, r)).
  { intros k r Hk Hp. apply of_member_true in Hp as [? ?]. by apply find_member. }
  destruct (mb_banned_at ∘ snd <$> find_where _ _) as [[at_|]|] eqn:Ef.
  { intros n3. apply He. right. left. split; [done|]. apply fmap_Some in Ef as ([k r] & Ef & Hb).
    apply find_where_Some in Ef as [? ?]. exists k, r. split; [done|]. split; [done|]. cbn in Hb. by rewrite <-Hb. }
  all: assert (Hnb : ¬ banned t (g_ID g) d) by
    (intros (k & r & Hk & Hp & Hb); rewrite (Hban k r Hk Hp) in Ef; cbn in Ef; congruence).
  all: apply wp_bind, wp_Now; intros now n3; cbn [tables].
  all: apply wp_insertMembership; [done|intros e s' [?|[-> ?]] n4; apply He; [by left|right; right; done]|].
  all: intros k r n4 ip Hadm Hip t' Hu' Hr' n5; change (admitted t (g_ID g) d (g_Subnet g) now k r) in Hadm; apply Hok with now; [done..|].
  all: assert (Hrow : mb_banned_at r = None) by
    (inversion Hadm; [done|cbn; destruct (mb_banned_at r0) eqn:Eb; [|done]; destruct Hnb; exists k, r0;
       rewrite Eb; by repeat split]).
  all: destruct (r_member_group _ Hr' k r (lookup_insert_eq _ _ _)) as [row Hrow'].
  all: assert (mb_group_id r = g_ID g) as Hg by (inversion Hadm as [|? ? ? Hp]; [done|by apply of_member_true in Hp as [? ?]]).
  all: rewrite Hg in Hrow'; cbn in Hrow'; split; [|done].
  all: eapply change_join; [exact Hrow'|exact Hrow|]; by rewrite (Hsub _ Hrow').
Qed.

Lemma refines_RevokeMembership g d t : refines (RevokeMembership g d) t.
Proof.
  intros n. apply wp_bind, wp_Now. intros now n1. cbn [tables].
  run_exec. intros m t1 n2 [= _ <-] Hu1 Hr1.
  assert (rtc (step D) t (t <| memberships := update_where (current g d) (λ r, r <| mb_revoked_at := Some (Unix now) |>) (memberships t) |>)) as H1.
  { apply step_once; [apply change_revoke|done..]. }
  apply wp_try, wp_wrap, wp_RowsAffected; [intros ?; exact H1|]. intros n3. destruct (m =? 0); [exact H1|].
  apply wp_try, wp_wrap, wp_exec; [err|]. cbn [tables]. intros m2 t2 n4 [= _ <-] Hu2 Hr2. cbn.
  etransitivity; [exact H1|]. apply step_once; [exact (change_end D _ _)|done..].
Qed.

Lemma refines_RemoveMember g o x t : refines (RemoveMember g o x) t.
Proof.
  intros n. unfold RemoveMember. case_bool_decide as Hox; [stay|].
  apply wp_write; [err|]. cbn [tables]. intros n1. apply wp_try, wp_ownerOnly; [err|]. cbn [tables]. intros Hown n2.
  apply wp_bind, wp_Now. intros now n3. cbn [tables].
  run_exec. intros m t1 n4 [= _ <-] Hu1 Hr1. apply wp_bind, wp_counted. intros m' k _. destruct (m' =? 0); [stay|]. cbn [tables].
  run_exec. intros m2 t2 n5 [= _ <-] Hu2 Hr2. intros n6. cbn [tables].
  etransitivity.
  - apply step_once; [by apply (change_remove D t g x (Unix now) o)|done..].
  - apply step_once; [exact (change_end D _ _)|done..].
Qed.

(** The owner changes the group's row. *)
Lemma refines_group_update g o what f t :
  (∀ r, gr_subnet (f r) = gr_subnet r) →
  refines (write (_ ←? ownerOnly g o; _ ←? wrap what (exec (update_group g f)); mret (inr tt))) t.
Proof.
  intros Hf n. apply wp_write; [err|]. cbn [tables]. intros n1. apply wp_try, wp_ownerOnly; [err|]. cbn [tables]. intros Hown n2.
  run_exec. intros m t1 n3 [= _ <-] Hu1 Hr1 n4. cbn [tables]. apply step_once; [|done..]. refine (change_group D _ _ _ _ Hown _); done.
Qed.

Lemma refines_TransferOwnership g o x t : refines (TransferOwnership g o x) t.
Proof.
  intros n. apply wp_write; [err|]. cbn [tables]. intros n1. apply wp_try, wp_ownerOnly; [err|]. cbn [tables]. intros Hown n2.
  run_exec. intros m t1 n3 [= _ <-] Hu1 Hr1. apply wp_bind, wp_counted. intros m' k _. destruct (m' =? 0); [stay|]. cbn [tables].
  run_exec. intros m2 t2 n4 [= _ <-] Hu2 Hr2 n5. cbn [tables]. apply step_once; [|done..]. exact (change_owner D _ _ _ _ Hown).
Qed.

Lemma wp_checkAffected affected (Q : storage_error + unit → Store → Prop) s :
  (∀ e k, Q (inl e) (mkStore (tables s) k)) → (∀ k, Q (inr tt) (mkStore (tables s) k)) → wp (checkAffected affected) Q s.
Proof.
  intros He Hok. apply wp_try, wp_wrap, wp_RowsAffected; [intros; apply He|]. intros k.
  destruct (_ =? _); [apply He|apply Hok].
Qed.

Lemma refines_DeleteGroup g o t : D g → refines (DeleteGroup g o) t.
Proof.
  intros HD n. apply wp_write; [err|]. cbn [tables]. intros n1. apply wp_try, wp_ownerOnly; [err|]. cbn [tables]. intros Hown n2.
  run_exec. intros m t1 n3 [= _ <-] Hu1 Hr1. apply wp_bind, wp_counted. intros m' k _. destruct (m' =? 0); [stay|]. intros n4. cbn [tables].
  apply step_once; [|done..]. exact (change_delete D _ _ _ HD Hown).
Qed.

Lemma refines_ResetInviteCode g o t : refines (ResetInviteCode g o) t.
Proof.
  intros n. apply wp_write; [err|]. cbn [tables]. intros n1. apply wp_try, wp_ownerOnly; [err|]. cbn [tables]. intros Hown n2.
  apply wp_try, wp_draw_code; [err|]. cbn [tables]. intros raw n3 _ _ _.
  run_exec. intros m t1 n4 [= _ <-] Hu1 Hr1. run_count. destruct (m =? 0); [stay|]. intros n5. cbn [tables].
  apply step_once; [|done..]. refine (change_group D _ _ _ _ Hown _); done.
Qed.

Lemma refines_RegisterDevice d t : refines (RegisterDevice d) t.
Proof.
  intros n. apply wp_try, wp_bind, wp_Read. intros n1 i. destruct (random i 32) as [raw|]; [|stay].
  cbn [mret prog_ret wp]. apply wp_write; [err|]. cbn [tables]. intros n2. apply wp_bind, wp_Now. intros now n3. cbn [tables].
  apply wp_bind, wp_exec.
  - intros e n4. destruct (isUniqueViolation e); stay.
  - intros m t1 n4 [= _ <-] Hu1 Hr1. cbn [tables].
    run_exec. intros m2 t2 n5 Hi Hu2 Hr2 n6. destruct (insert_row _ _ _) as [ts|]; [|done]. injection Hi as _ <-. cbn [tables].
    etransitivity; [apply step_once; [|exact Hu1|exact Hr1]|apply step_once; [exact (change_tokens D _ _)|done..]].
    refine (change_devices D t _ _). intros k Hk. destruct (decide (k = d_ID d)) as [->|Hne];
      [rewrite lookup_insert_eq; by eexists|by rewrite lookup_insert_ne].
Qed.

(** An update of devices in place. *)
Lemma change_device_update p f t : change D t (t <| devices := update_where p f (devices t) |>).
Proof. apply change_devices. intros k [r Hk]. rewrite lookup_update_where, Hk. by eexists. Qed.

Lemma refines_DeviceByToken tk t : refines (DeviceByToken tk) t.
Proof.
  intros n. run_query. intros n1. destruct (token_row_of _ _) as [[i r]|]; [|stay].
  apply wp_bind, wp_Now. intros now n2. cbn [tables]. run_exec. intros m t1 n3 [= _ <-] Hu1 Hr1. cbn.
  apply step_once; [exact (change_device_update _ _ _)|done..].
Qed.

Lemma refines_SetDeviceNickname d nick t : refines (SetDeviceNickname d nick) t.
Proof.
  intros n. run_exec. intros m t1 n3 [= _ <-] Hu1 Hr1.
  assert (rtc (step D) t (t <| devices := update_where (λ k _, bool_decide (k = d)) (λ r, r <| dv_nickname := nick |>) (devices t) |>)) as H1
    by (apply step_once; [exact (change_device_update _ _ _)|done..]).
  apply wp_try, wp_wrap, wp_RowsAffected; [intros ?; exact H1|]. intros k. destruct (m =? 0); exact H1.
Qed.

Lemma refines_ClaimRegisterNonce nonce keep t : refines (ClaimRegisterNonce nonce keep) t.
Proof.
  intros n. apply wp_bind, wp_Now. intros now n1. cbn [tables]. run_exec. intros m t1 n2 Hf Hu1 Hr1.
  assert (rtc (step D) t t1) as H1 by (injection Hf as _ <-; apply step_once; [exact (change_nonces D _ _)|done..]).
  apply wp_bind, wp_exec.
  - intros e n3. by destruct (isUniqueViolation e).
  - intros m2 t2 n3 Hi Hu2 Hr2. destruct (insert_row _ _ _) as [ns|]; [|done]. injection Hi as _ <-. cbn.
    etransitivity; [exact H1|]. apply step_once; [exact (change_nonces D _ _)|done..].
Qed.

Lemma refines_CreateSession m t :
  (∀ r, memberships t !! m_ID m = Some r → mb_group_id r = m_GroupID m) → refines (CreateSession m) t.
Proof.
  intros Hm n. apply wp_try, wp_bind, wp_Read. intros n1 i. destruct (random i 10) as [raw|]; [|stay].
  cbn [mret prog_ret wp]. apply wp_write; [err|]. cbn [tables]. intros n2.
  run_exec. intros m1 t1 n3 Hf Hu1 Hr1.
  assert (change D t t1 ∧ memberships t1 = memberships t) as [H1 Hms] by (injection Hf as _ <-; split; [exact (change_end D _ _)|done]).
  clear Hf. apply wp_bind, wp_Now. intros now n4. cbn [tables].
  run_exec. intros m2 t2 n5 Hi Hu2 Hr2 n6. destruct (insert_row _ _ _) as [ss|] eqn:Ei; [|done]. injection Hi as _ <-. cbn [tables].
  apply insert_row_Some in Ei as [Hk ->].
  etransitivity; [by apply step_once|]. apply step_once; [|done..].
  refine (change_open D t1 _ _ Hk _). by rewrite Hms.
Qed.

Lemma refines_session_update i what f t :
  (∀ s, ss_group_id (f s) = ss_group_id s ∧ ss_membership_id (f s) = ss_membership_id s) →
  refines (affected ←? wrap what (exec (update_session i f)); checkAffected affected) t.
Proof.
  intros Hf n. run_exec. intros m t1 n3 [= _ <-] Hu1 Hr1.
  apply wp_checkAffected; intros; (apply step_once; [refine (change_session D _ _ _ _); done|done..]).
Qed.

Lemma refines_Now {A} (f : Z → M A) t : (∀ now, refines (f now) t) → refines (now ← Now; f now) t.
Proof. intros H n. apply wp_bind, wp_Now. intros now n1. apply H. Qed.

Lemma refines_DeleteSession i t : refines (DeleteSession i) t.
Proof.
  intros n. run_exec. intros m t1 n3 [= _ <-] Hu1 Hr1.
  apply wp_checkAffected; intros; (apply step_once; [exact (change_end D _ _)|done..]).
Qed.

Lemma refines_ExpireSessions o t : refines (ExpireSessions o) t.
Proof.
  apply refines_Now. intros now n. apply wp_transaction; [err|]. cbn [tables]. intros n1.
  apply wp_try, wp_wrap, wp_query_rows; [err|]. cbn [tables]. intros n2 rows Hrows.
  case_bool_decide as He; [stay|].
  run_exec. intros m t1 n3 [= _ <-] Hu1 Hr1 n4. rewrite bool_decide_eq_false_2 by done. cbn [negb tables].
  apply step_once; [exact (change_end D _ _)|done..].
Qed.

(** ** All of them *)
Lemma run_call_refines c t : unique_ok t → call_ok t c → (∀ g, deletes c g → D g) → refines (run_call c) t.
Proof.
  intros Hu Hok HD. destruct c; cbn [run_call]; apply refines_error_of; cbn [call_ok deletes] in *.
  - intros n. apply wp_CreateGroup; [done..|intros; by apply rtc_once].
  - intros n. apply wp_AddMembership; [done..|intros; by apply rtc_once].
  - apply refines_RevokeMembership.
  - apply refines_RemoveMember.
  - by apply refines_group_update.
  - by apply refines_group_update.
  - apply refines_TransferOwnership.
  - by apply refines_DeleteGroup, HD.
  - apply refines_ResetInviteCode.
  - apply refines_RegisterDevice.
  - apply refines_DeviceByToken.
  - apply refines_SetDeviceNickname.
  - apply refines_ClaimRegisterNonce.
  - by apply refines_CreateSession.
  - apply refines_Now. intros now. by apply refines_session_update.
  - apply refines_Now. intros now. by apply refines_session_update.
  - apply refines_DeleteSession.
  - apply refines_ExpireSessions.
Qed.
End calls.
