(* ===== verification/StorageProps.v ===== *)
(** What holds of the server's database at every moment, and what follows for the
    people in its groups. *)
From S2P Require Import Prelude Bytes NetAddr NetText Base64 Invite Schema Storage Addressing StorageSpec StorageCalls.

(** ** The invariant *)

(** The group a membership of the owner runs. *)
Definition owned_group (r : membership_row) : option gostring :=
  if bool_decide (mb_role r = RoleOwner) then Some (mb_group_id r) else None.

Record store_wf (t : Tables) : Prop := mkStoreWf {
  wf_unique : unique_ok t;
  wf_references : references_ok t;
  wf_subnet : ∀ k g, groups t !! k = Some g → ipv4_subnet (gr_subnet g);
  (** Everybody who is or was in a group has a host address of its subnet. *)
  wf_address : ∀ k r g, memberships t !! k = Some r → groups t !! mb_group_id r = Some g →
    ∃ p u, ParsePrefix (gr_subnet g) = Some p ∧ host p u ∧ mb_virtual_ip r = Some (addr_String (Addr4 u));
  (** Somebody removed is not a member. *)
  wf_banned : ∀ k r, memberships t !! k = Some r → mb_banned_at r ≠ None → mb_revoked_at r ≠ None;
  (** A group has one owner at most, counting those who left. *)
  wf_owner : unique_on owned_group (memberships t);
  (** A session is in the group its membership is of. *)
  wf_session : ∀ k s r, sessions t !! k = Some s → memberships t !! ss_membership_id s = Some r →
    mb_group_id r = ss_group_id s;
}.

Lemma owned_group_Some r g : owned_group r = Some g ↔ mb_role r = RoleOwner ∧ mb_group_id r = g.
Proof.
  unfold owned_group. case_bool_decide; split; [by intros [= <-]|by intros [_ <-]|done|by intros []].
Qed.

(** The one owner of a group. *)
Lemma owner_unique t k k' r r' :
  store_wf t → memberships t !! k = Some r → memberships t !! k' = Some r' →
  mb_role r = RoleOwner → mb_role r' = RoleOwner → mb_group_id r = mb_group_id r' → k = k'.
Proof.
  intros Hwf Hk Hk' Ho Ho' Hg. refine (wf_owner t Hwf k r Hk k' r' Hk' _ _).
  - exists (mb_group_id r). by apply owned_group_Some.
  - rewrite (proj2 (owned_group_Some r (mb_group_id r))) by done. symmetry. by apply owned_group_Some.
Qed.

(** No membership is of a group that is not there. *)
Lemma no_group_no_member t k r g : references_ok t → groups t !! g = None → memberships t !! k = Some r → mb_group_id r ≠ g.
Proof. intros Hr Hg Hk <-. destruct (r_member_group t Hr k r Hk) as [? ?]. congruence. Qed.

Lemma admitted_member t g d subnet now k r : admitted t g d subnet now k r → of_member g d k r = true ∧ mb_revoked_at r = None.
Proof.
  intros [ip|r0 ip Hk Hp]; [by rewrite of_member_true|]. split; [|done].
  apply of_member_true in Hp. by apply of_member_true.
Qed.

(** The address somebody comes in with is a host of the subnet. *)
Lemma admitted_address t gid g d now k r :
  store_wf t → groups t !! gid = Some g → admitted t gid d (gr_subnet g) now k r →
  ∃ p u, ParsePrefix (gr_subnet g) = Some p ∧ host p u ∧ mb_virtual_ip r = Some (addr_String (Addr4 u)).
Proof.
  intros Hwf Hg Hadm.
  assert (Hfree : ∀ held ip, freeAddress (gr_subnet g) held = inr ip →
    ∃ p u, ParsePrefix (gr_subnet g) = Some p ∧ host p u ∧ ip = addr_String (Addr4 u)).
  { intros held ip Hf. destruct (ParsePrefix (gr_subnet g)) as [p|] eqn:Ep; [|unfold freeAddress in Hf; by rewrite Ep in Hf].
    pose proof (freeAddress_spec _ _ held Ep (wf_subnet t Hwf gid g Hg p Ep)) as Hs. rewrite Hf in Hs.
    destruct Hs as (u & Hu & -> & _). eauto. }
  inversion Hadm as [ip Hno Hk Ha|r0 ip Hk Hp Ha]; cbn [mb_virtual_ip set_field eta_membership_row].
  - cbn in Ha. apply Hfree in Ha as (p & u & ? & ? & ->). eauto.
  - apply of_member_true in Hp as [Hgid _]. subst gid.
    destruct (wf_address t Hwf k r0 g Hk Hg) as (p & u & Ep & Hu & Hip). rewrite Hip in Ha. cbn [address_for] in Ha.
    destruct (_ || _); [apply Hfree in Ha as (p' & u' & ? & ? & ->)|injection Ha as <-]; eauto 6.
Qed.

Lemma unique_on_mono {A K : Type} `{EqDecision K} (key : A → option K) (m m' : gmap gostring A) :
  (∀ k r', m' !! k = Some r' → is_Some (key r') → ∃ r, m !! k = Some r ∧ key r = key r') →
  unique_on key m → unique_on key m'.
Proof.
  intros H Hu k a Hk k' b Hk' Hs Hkey. apply H in Hk as (r & Hr & Er); [|done].
  apply H in Hk' as (r' & Hr' & Er'); [|congruence]. apply (Hu k r Hr k' r' Hr'); congruence.
Qed.

(** Changes in which every group, membership and session that is there was there. *)
Lemma wf_shrinks t t' :
  store_wf t → unique_ok t' → references_ok t' →
  (∀ k g', groups t' !! k = Some g' → ∃ g, groups t !! k = Some g ∧ gr_subnet g' = gr_subnet g) →
  (∀ k r', memberships t' !! k = Some r' →
     ∃ r, memberships t !! k = Some r ∧ mb_group_id r' = mb_group_id r ∧ mb_virtual_ip r' = mb_virtual_ip r
          ∧ (mb_banned_at r' ≠ None → mb_revoked_at r' = None → mb_banned_at r ≠ None ∧ mb_revoked_at r = None)) →
  unique_on owned_group (memberships t') →
  (∀ k s', sessions t' !! k = Some s' →
     ∃ s, sessions t !! k = Some s ∧ ss_group_id s' = ss_group_id s ∧ ss_membership_id s' = ss_membership_id s) →
  store_wf t'.
Proof.
  intros Hwf Hu Hr Hg Hm Ho Hs. constructor; [done|done|..|done|].
  - intros k g' Hk. destruct (Hg k g' Hk) as (g & Hk' & ->). by apply (wf_subnet t Hwf k).
  - intros k r' g' Hk Hk'. destruct (Hm k r' Hk) as (r & Hkr & Eg & -> & _). destruct (Hg _ _ Hk') as (g & Hkg & ->).
    rewrite Eg in Hkg. by apply (wf_address t Hwf k).
  - intros k r' Hk Hb Hv. destruct (Hm k r' Hk) as (r & Hkr & _ & _ & H). destruct (H Hb Hv) as [Hb' Hv'].
    by apply (wf_banned t Hwf k r).
  - intros k s' r' Hk Hkr. destruct (Hs k s' Hk) as (s & Hks & -> & E). rewrite E in Hkr.
    destruct (Hm _ _ Hkr) as (r & Hkr' & -> & _). by apply (wf_session t Hwf k).
Qed.

(** Most changes leave two of the three tables as they are, and every row its place. *)
Lemma groups_same (t : Tables) k g' : groups t !! k = Some g' → ∃ g, groups t !! k = Some g ∧ gr_subnet g' = gr_subnet g.
Proof. eauto. Qed.
Lemma members_same (t : Tables) k r' : memberships t !! k = Some r' →
  ∃ r, memberships t !! k = Some r ∧ mb_group_id r' = mb_group_id r ∧ mb_virtual_ip r' = mb_virtual_ip r
       ∧ (mb_banned_at r' ≠ None → mb_revoked_at r' = None → mb_banned_at r ≠ None ∧ mb_revoked_at r = None).
Proof. intros. exists r'. auto. Qed.
Lemma sessions_same (t : Tables) k s' : sessions t !! k = Some s' →
  ∃ s, sessions t !! k = Some s ∧ ss_group_id s' = ss_group_id s ∧ ss_membership_id s' = ss_membership_id s.
Proof. eauto. Qed.
Lemma sessions_fewer (t : Tables) p k s' : delete_where p (sessions t) !! k = Some s' →
  ∃ s, sessions t !! k = Some s ∧ ss_group_id s' = ss_group_id s ∧ ss_membership_id s' = ss_membership_id s.
Proof. intros [? _]%lookup_delete_where. eauto. Qed.

Lemma update_where_Some {A} (p : gostring → A → bool) (f : A → A) (m : gmap gostring A) k r' :
  update_where p f m !! k = Some r' → ∃ r, m !! k = Some r ∧ r' = if p k r then f r else r.
Proof. rewrite lookup_update_where. intros (r & ? & ->)%fmap_Some. eauto. Qed.

(** Handing a group over leaves it with one owner at most. *)
Lemma transfer_owner t g o x :
  store_wf t → owns t g o →
  unique_on owned_group (update_where (of_member g o) (λ r, r <| mb_role := RoleMember |>)
    (update_where (current g x) (λ r, r <| mb_role := RoleOwner |>) (memberships t))).
Proof.
  intros Hwf (ko & ro & Hko & Hpo & Hro). apply current_true in Hpo as (Hgo & Hdo & _).
  (** An owner's row in the group is the target's, and elsewhere it was there. *)
  assert (H : ∀ k r', update_where (of_member g o) (λ r, r <| mb_role := RoleMember |>)
      (update_where (current g x) (λ r, r <| mb_role := RoleOwner |>) (memberships t)) !! k = Some r' →
      mb_role r' = RoleOwner → ∃ r, memberships t !! k = Some r ∧ mb_group_id r' = mb_group_id r ∧
        ((mb_group_id r = g ∧ mb_device_id r = x) ∨ (mb_group_id r ≠ g ∧ mb_role r = RoleOwner))).
  { intros k r' Hk Hr'. apply update_where_Some in Hk as (r1 & Hk1 & ->).
    apply update_where_Some in Hk1 as (r & Hk & ->). exists r. split; [done|].
    destruct (current g x k r) eqn:Hx.
    - apply current_true in Hx as (? & ? & _). destruct (of_member g o k _); [done|]. auto.
    - destruct (of_member g o k r) eqn:Hof; [done|]. split; [done|]. right. split; [|done]. intros Hg.
      assert (k = ko) as -> by (apply (owner_unique t k ko r ro); congruence).
      assert (r = ro) as -> by congruence. assert (of_member g o ko ro = true) by (by apply of_member_true). congruence. }
  intros k r Hk k' r' Hk' [g' Hg'] Heq. rewrite Heq in Hg'. apply owned_group_Some in Hg' as [Hr' Hg'].
  rewrite (proj2 (owned_group_Some r' g')) in Heq by done. apply owned_group_Some in Heq as [Hr Hg].
  destruct (H k r Hk Hr) as (r1 & Hk1 & E1 & C1). destruct (H k' r' Hk' Hr') as (r2 & Hk2 & E2 & C2).
  destruct C1 as [[? ?]|[? ?]], C2 as [[? ?]|[? ?]]; try congruence.
  - apply (member_unique t k k' r1 r2); [apply Hwf|congruence..].
  - apply (owner_unique t k k' r1 r2); congruence.
Qed.

(** Somebody comes in. *)
Lemma wf_admits t gid g d now k r role :
  store_wf t → groups t !! gid = Some g → mb_banned_at r = None →
  admitted t gid d (gr_subnet g) now k r →
  (∀ k' r', memberships t !! k' = Some r' → k' ≠ k → mb_group_id r' = gid → role = RoleOwner → mb_role r' ≠ RoleOwner) →
  (role = mb_role r ∨ memberships t !! k = None) →
  let t' := t <| memberships := <[k := r <| mb_role := role |>]> (memberships t) |> in
  unique_ok t' → references_ok t' → store_wf t'.
Proof.
  intros Hwf Hg Hb Hadm Hrole Hkeep t' Hu Hr.
  destruct (admitted_member _ _ _ _ _ _ _ Hadm) as [Hp Hrev]. apply of_member_true in Hp as [Hgid Hd].
  constructor; [done|done|apply Hwf|..].
  - intros k' r' g' Hk' Hg'. cbn in Hk', Hg'. destruct (decide (k' = k)) as [->|Hne].
    + rewrite lookup_insert_eq in Hk'. injection Hk' as <-. cbn in Hg'. rewrite Hgid, Hg in Hg'. injection Hg' as <-.
      by apply (admitted_address t gid g d now k r).
    + rewrite lookup_insert_ne in Hk' by done. by apply (wf_address t Hwf k').
  - intros k' r' Hk'. cbn in Hk'. destruct (decide (k' = k)) as [->|Hne].
    + rewrite lookup_insert_eq in Hk'. injection Hk' as <-. cbn. by rewrite Hb.
    + rewrite lookup_insert_ne in Hk' by done. by apply (wf_banned t Hwf k').
  - intros k1 r1 Hk1 k2 r2 Hk2 [g' Hs] Heq. cbn in Hk1, Hk2. rewrite Hs in Heq. symmetry in Heq.
    apply owned_group_Some in Hs as [Ho1 Hg1]. apply owned_group_Some in Heq as [Ho2 Hg2].
    assert (Hold : ∀ r0, memberships t !! k = Some r0 → role = RoleOwner → mb_group_id r0 = gid ∧ mb_role r0 = RoleOwner).
    { intros r0 Hk0 Hro. destruct Hkeep as [->|Hn]; [|congruence].
      inversion Hadm as [ip ? Hn|r0' ip Hk0' Hp' ?]; [congruence|]. subst r. cbn in Hro.
      apply of_member_true in Hp' as [? _]. assert (r0 = r0') as -> by congruence. done. }
    destruct (decide (k1 = k)) as [->|], (decide (k2 = k)) as [->|]; [done|..].
    + rewrite lookup_insert_eq in Hk1. rewrite lookup_insert_ne in Hk2 by done. injection Hk1 as <-. cbn in *.
      destruct (Hrole k2 r2 Hk2); congruence.
    + rewrite lookup_insert_eq in Hk2. rewrite lookup_insert_ne in Hk1 by done. injection Hk2 as <-. cbn in *.
      destruct (Hrole k1 r1 Hk1); congruence.
    + rewrite lookup_insert_ne in Hk1, Hk2 by done. apply (owner_unique t k1 k2 r1 r2); congruence.
  - intros k' s r' Hk' Hkr. cbn in Hk', Hkr. destruct (decide (ss_membership_id s = k)) as [E|Hne].
    + rewrite E, lookup_insert_eq in Hkr. injection Hkr as <-. cbn. rewrite Hgid.
      destruct (r_session_member t (wf_references t Hwf) k' s Hk') as [r0 Hr0]. rewrite E in Hr0.
      rewrite <-(wf_session t Hwf k' s r0 Hk') by congruence.
      inversion Hadm as [ip ? Hn|r0' ip Hk0' Hp' ?]; [congruence|]. apply of_member_true in Hp' as [<- _]. congruence.
    + rewrite lookup_insert_ne in Hkr by done. by apply (wf_session t Hwf k').
Qed.

(** A group nobody is in yet. *)
Lemma wf_new_group t gid g ms :
  store_wf t → groups t !! gid = None → ipv4_subnet (gr_subnet g) →
  let t1 := t <| groups := <[gid := g]> (groups t) |> in
  unique_ok (t1 <| memberships := ms |>) → references_ok (t1 <| memberships := ms |>) → store_wf t1.
Proof.
  intros Hwf Hg Hs t1 [? Hc ? ? ?] [? Hcr ? ? ? ?].
  assert (Hin : ∀ k, is_Some (groups t !! k) → is_Some (groups t1 !! k)).
  { intros k Hk. cbn. destruct (decide (k = gid)) as [->|]; [rewrite lookup_insert_eq; by eexists|by rewrite lookup_insert_ne]. }
  constructor; [|..|apply Hwf|apply Hwf|apply Hwf].
  - destruct (wf_unique t Hwf). by constructor.
  - destruct (wf_references t Hwf) as [? ? Hm ? Hss ?]. constructor; [done|done| |done| |done].
    + intros k r Hk. apply Hin. by apply (Hm k).
    + intros k s Hk. apply Hin. by apply (Hss k).
  - intros k g' Hk. cbn in Hk. destruct (decide (k = gid)) as [->|]; [rewrite lookup_insert_eq in Hk; by injection Hk as <-|].
    rewrite lookup_insert_ne in Hk by done. by apply (wf_subnet t Hwf k).
  - intros k r g' Hk Hg'. cbn in Hk, Hg'. rewrite lookup_insert_ne in Hg'; [by apply (wf_address t Hwf k)|].
    intros E. by apply (no_group_no_member t k r gid); [apply Hwf|..].
Qed.

(** A group with the member that made it. *)
Lemma wf_created t gid g d now k r :
  let t1 := t <| groups := <[gid := g]> (groups t) |> in
  let t' := t1 <| memberships := <[k := r <| mb_role := RoleOwner |>]> (memberships t) |> in
  store_wf t → groups t !! gid = None → ipv4_subnet (gr_subnet g) → admitted t1 gid d (gr_subnet g) now k r →
  unique_ok t' → references_ok t' → store_wf t'.
Proof.
  intros t1 t' Hwf Hg Hs Hadm Hu Hr.
  assert (Hnone : ∀ k' r', memberships t !! k' = Some r' → mb_group_id r' ≠ gid) by
    (intros k' r'; apply no_group_no_member; [apply Hwf|done]).
  assert (Hnew : memberships t !! k = None ∧ mb_banned_at r = None).
  { inversion Hadm as [ip ? Hn|r0 ip Hk0 Hp ?]; [done|]. apply of_member_true in Hp as [? _]. by destruct (Hnone k r0 Hk0). }
  destruct Hnew as [Hk Hb].
  apply (wf_admits t1 gid g d now k r RoleOwner); [|by apply lookup_insert_eq|done|done| |by right|done|done].
  - by eapply wf_new_group.
  - intros k' r' Hk' _ Hg'. by destruct (Hnone k' r' Hk').
Qed.

(** Members who go. *)
Lemma wf_members_go t p f :
  (∀ r, mb_group_id (f r) = mb_group_id r ∧ mb_virtual_ip (f r) = mb_virtual_ip r ∧ mb_role (f r) = mb_role r ∧ mb_revoked_at (f r) ≠ None) →
  let t' := t <| memberships := update_where p f (memberships t) |> in
  store_wf t → unique_ok t' → references_ok t' → store_wf t'.
Proof.
  intros Hf t' Hwf Hu Hr. apply (wf_shrinks t); [done..|exact (groups_same t)| | |exact (sessions_same t)].
  - intros k r' (r & Hk & ->)%update_where_Some. exists r. split; [done|]. destruct (Hf r) as (? & ? & _ & ?). by destruct (p k r).
  - eapply unique_on_mono; [|apply (wf_owner t Hwf)]. intros k r' (r & Hk & ->)%update_where_Some _. exists r. split; [done|].
    destruct (Hf r) as (Hg & _ & Ho & _). destruct (p k r); [|done]. unfold owned_group. by rewrite Hg, Ho.
Qed.

Lemma change_wf D t t' : store_wf t → change D t t' → unique_ok t' → references_ok t' → store_wf t'.
Proof.
  intros Hwf Hc Hu Hr. pose proof (groups_same t) as HG. pose proof (members_same t) as HM. pose proof (sessions_same t) as HS.
  pose proof (wf_owner t Hwf) as HO.
  destruct Hc as [ds Hds|ts|ns|gid g d now k r Hg Hs Hadm|gid g d now k r Hg Hb Hadm|gid d now|gid d now o Hown Hne
    |gid f o Hown Hf|gid o x Hown|gid o HD Hown|p|k s Hk Hs|k f Hf].
  - by apply (wf_shrinks t).
  - by apply (wf_shrinks t).
  - by apply (wf_shrinks t).
  - by eapply wf_created.
  - replace r with (r <| mb_role := mb_role r |>) in Hu, Hr |- * by (by destruct r).
    eapply (wf_admits t gid g d now k r); [done..| |by left|done|done]. intros k' r' Hk' Hne Hg' Ho Ho'.
    inversion Hadm as [ip ? Hn|r0 ip Hk0 Hp ?]; [by subst r|]. subst r. cbn in Ho. apply of_member_true in Hp as [? _].
    apply Hne. apply (owner_unique t k' k r' r0); congruence.
  - by apply wf_members_go.
  - by apply wf_members_go.
  - apply (wf_shrinks t); [done..| |done|done|done].
    intros k g' (g & Hk & ->)%update_where_Some. exists g. split; [done|]. case_bool_decide; [apply Hf|done].
  - apply (wf_shrinks t); [done..| |by apply transfer_owner|done].
    intros k r' (r1 & (r & Hk & ->)%update_where_Some & ->)%update_where_Some. exists r. split; [done|].
    repeat case_match; cbn; auto.
  - apply (wf_shrinks t); [done..| | | |].
    + intros k g' Hk. cbn in Hk. apply lookup_delete_Some in Hk as [_ Hk]. eauto.
    + intros k r' Hk. cbn in Hk. apply lookup_delete_where in Hk as [Hk _]. by apply HM.
    + eapply unique_on_mono; [|exact HO]. intros k r' Hk _. cbn in Hk. apply lookup_delete_where in Hk as [Hk _]. eauto.
    + intros k s' Hk. cbn in Hk. apply lookup_delete_where in Hk as [Hk _]. by apply HS.
  - apply (wf_shrinks t); [done..|]. intros k s'. apply sessions_fewer.
  - constructor; [done|done|apply Hwf..|]. intros k' s' r Hk' Hkr. cbn in *.
    destruct (decide (k' = k)) as [->|]; [rewrite lookup_insert_eq in Hk'; injection Hk' as <-; by apply Hs|].
    rewrite lookup_insert_ne in Hk' by done. by apply (wf_session t Hwf k').
  - apply (wf_shrinks t); [done..|].
    intros k' s' Hk'. cbn in Hk'. apply update_where_Some in Hk' as (s & Hks & ->). exists s. split; [done|].
    by case_bool_decide.
Qed.

Lemma steps_wf D t t' : store_wf t → rtc (step D) t t' → store_wf t'.
Proof. intros Hwf Hs. induction Hs as [|t t1 t' (Hc & Hu & Hr) _ IH]; [done|]. apply IH. by eapply change_wf. Qed.

Lemma empty_wf : store_wf empty_tables.
Proof.
  by constructor.
Qed.

(** ** Runs of the server *)
Section runs.
Context {MC : Machine} {ML : MachineLaws MC}.

(** One call in the life of the store, of a kind [p] allows. *)
Inductive calls (p : store_call → Prop) (s s' : Store) : Prop :=
  | calls_one c r : p c → call_ok (tables s) c → run_call c s = Some (r, s') → calls p s s'.

Definition any (c : store_call) : Prop := True.

(** A store some sequence of calls leads to, starting from a new database. *)
Definition reachable (s : Store) : Prop := ∃ n, rtc (calls any) (mkStore empty_tables n) s.

Lemma calls_steps p D s s' :
  (∀ c g, p c → deletes c g → D g) → store_wf (tables s) → calls p s s' → rtc (step D) (tables s) (tables s').
Proof.
  intros HD Hwf [c r Hp Hok Hrun]. destruct s as [t n].
  pose proof (run_call_refines (D:=D) c t (wf_unique t Hwf) Hok (λ g, HD c g Hp) n) as H.
  unfold wp in H. by rewrite Hrun in H.
Qed.

Lemma runs_wf p s s' : store_wf (tables s) → rtc (calls p) s s' → store_wf (tables s').
Proof. intros Hwf Hr. induction Hr as [|s s1 s' Hc _ IH]; [done|]. apply IH.
  eapply steps_wf, (calls_steps p (λ _, True)); [done..|]. exact Hc.
Qed.

Lemma reachable_wf s : reachable s → store_wf (tables s).
Proof. intros [n Hr]. eapply runs_wf, Hr. apply empty_wf. Qed.

(** What every step of a run preserves holds at its end. *)
Lemma runs_preserve (P : Tables → Prop) p D s s' :
  (∀ c g, p c → deletes c g → D g) → (∀ t t', store_wf t → P t → step D t t' → P t') →
  store_wf (tables s) → P (tables s) → rtc (calls p) s s' → P (tables s').
Proof.
  intros HD HP Hwf Hs Hr. induction Hr as [|s s1 s' Hc _ IH]; [done|].
  pose proof (calls_steps p D _ _ HD Hwf Hc) as Hst. apply IH; [by eapply steps_wf|]. clear IH Hc. revert Hwf Hs.
  induction Hst as [|t t1 t' Ht _ IH]; [done|]. intros Hwf Hs. apply IH; [|by eapply HP].
  destruct Ht as (? & ? & ?). by eapply change_wf.
Qed.

(** C2: the database tells the truth.  However the server's calls follow each other,
    and whatever the machine under it does (statements that fail, a random source
    that fails or repeats itself, rows in any order, a clock that jumps), no call
    crashes, and between calls: every uniqueness and reference the schema declares
    holds; everybody who is or was in a group has a host address of its subnet, and no
    two current members the same one; nobody who was removed is a member; a group has
    one owner at most; and a session is in the group of its membership. *)
Theorem the_database_tells_the_truth s :
  reachable s → store_wf (tables s) ∧ ∀ c, call_ok (tables s) c → ∃ e s', run_call c s = Some (e, s').
Proof.
  intros Hr. pose proof (reachable_wf s Hr) as Hwf. split; [done|]. intros c Hok. destruct s as [t n].
  pose proof (run_call_refines (D:=λ _, True) c t (wf_unique t Hwf) Hok (λ _ _, I) n) as H. apply wp_run in H as (e & s' & H & _). eauto.
Qed.
End runs.

(** ** A machine to run examples on *)
#[export] Instance call_ok_dec t c : Decision (call_ok t c).
Proof.
  refine (match c return Decision (call_ok t c) with
  | CallCreateGroup g _ =>
      match ParsePrefix (g_Subnet g) as o return ParsePrefix (g_Subnet g) = o → _ with
      | Some p => λ E, cast_if (decide (Is4 (p_addr p) = true))
      | None => λ E, left _
      end eq_refl
  | CallAddMembership g _ =>
      match groups t !! g_ID g as o return groups t !! g_ID g = o → _ with
      | Some row => λ E, cast_if (decide (gr_subnet row = g_Subnet g))
      | None => λ E, left _
      end eq_refl
  | CallCreateSession m =>
      match memberships t !! m_ID m as o return memberships t !! m_ID m = o → _ with
      | Some r => λ E, cast_if (decide (mb_group_id r = m_GroupID m))
      | None => λ E, left _
      end eq_refl
  | _ => left I
  end); abstract (unfold call_ok, ipv4_subnet in *; intros; try congruence; naive_solver).
Defined.

Module Plain.

(** A machine of which the clock ticks once a second, the random source counts, and
    the digest is the text's number; statements fail when [down] says so. *)
Definition machine_with (down : nat → bool) : Machine := {|
  clock n := (1700000000 + Z.of_nat n) * 10 ^ 9;
  random n k := Some (be_encode k (Z.of_nat n + 1));
  reaches n := negb (down n);
  scan _ _ l := l;
  counts _ := true;
  sha256 l := be_encode 32 (be_decode l);
  site _ := 200;
|}.
Definition machine : Machine := machine_with (λ _, false).

Lemma laws_with down : MachineLaws (machine_with down).
Proof. split; [|done]. intros t n raw [= <-]. split; [apply is_bytes_be_encode|apply length_be_encode]. Qed.
Lemma machine_laws : MachineLaws machine.
Proof. apply laws_with. Qed.

(** The calls one after the other, as long as they are [call_ok] and succeed. *)
Fixpoint run `{MC : Machine} (cs : list store_call) (s : Store) : option Store :=
  match cs with
  | [] => Some s
  | c :: cs =>
      if decide (call_ok (tables s) c) then
        match run_call c s with Some (None, s') => run cs s' | _ => None end
      else None
  end.

Lemma run_calls `{MC : Machine} cs s s' : run cs s = Some s' → rtc (calls any) s s'.
Proof.
  revert s. induction cs as [|c cs IH]; intros s; cbn [run]; [by intros [= ->]|].
  destruct (decide _) as [Hok|]; [|done]. destruct (run_call c s) as [[[e|] s1]|] eqn:Er; try done.
  intros H. eapply rtc_l; [|by apply IH]. by econstructor.
Qed.

(** A store that examples start from: what [b] checks holds after [cs]. *)
Lemma reaches_check_on (MC : Machine) cs (b : Store → bool) :
  match run cs (mkStore empty_tables 0) with Some s => b s | None => false end = true →
  ∃ s, reachable s ∧ b s = true.
Proof. destruct (run _ _) as [s|] eqn:E; [|done]. intros H. exists s. split; [|done]. exists 0%nat. by eapply run_calls. Qed.

Definition reaches_check := reaches_check_on machine.

Definition person (name : string) : Device :=
  Device_ (str name) (str ("key of " ++ name)) (str ("transport of " ++ name)) (str name) (str name) 0 0.
Definition lan : Group := Group_ (str "grp") (str "LAN") [] [] (str "10.69.0.0/24") [] 0.

(** Two people in a group, the first of them its owner. *)
Definition two_members : list store_call :=
  [CallRegisterDevice (person "ann"); CallRegisterDevice (person "bob"); CallCreateGroup lan (str "ann");
   CallAddMembership lan (str "bob")].
End Plain.

Lemma the_database_tells_the_truth_witness :
  ∃ s, @reachable Plain.machine s ∧ size (memberships (tables s)) = 2%nat ∧ store_wf (tables s).
Proof.
  destruct (Plain.reaches_check Plain.two_members (λ s, (size (memberships (tables s)) =? 2)%nat)) as (s & Hr & Hs).
  { vm_compute. reflexivity. }
  exists s. split; [exact Hr|]. split; [by apply Nat.eqb_eq|].
  exact (proj1 (@the_database_tells_the_truth Plain.machine Plain.machine_laws s Hr)).
Defined.
