(* ===== verification/GroupProps.v ===== *)
(** What the storage promises the people in a group: who gets in and with which
    address, that being removed lasts, what a code opens, and that a call that fails
    has changed nothing. *)
From S2P Require Import Prelude Bytes NetAddr NetText Base64 Invite Schema Storage Addressing StorageSpec StorageCalls StorageProps.

Section groups.
Context {MC : Machine} {ML : MachineLaws MC}.

(** A row joined over another keeps what is not its address and its end. *)
Lemma admitted_old t g d subnet now k r r0 :
  admitted t g d subnet now k r → memberships t !! k = Some r0 →
  mb_banned_at r = mb_banned_at r0 ∧ mb_role r = mb_role r0 ∧ mb_group_id r = mb_group_id r0 ∧ mb_device_id r = mb_device_id r0.
Proof. intros [ip ? Hn|r1 ip Hk ? ?] Hk0; [congruence|]. replace r1 with r0 by congruence. done. Qed.

(** ** Removal *)
Lemma banned_step D g d t t' :
  ¬ D g → store_wf t → banned t g d → step D t t' → banned t' g d.
Proof.
  intros HD Hwf (k & r & Hk & Hp & Hb) (Hc & _ & _).
  assert (Hupd : ∀ (p : gostring → membership_row → bool) (f : membership_row → membership_row),
    (∀ r, mb_group_id (f r) = mb_group_id r ∧ mb_device_id (f r) = mb_device_id r ∧ (mb_banned_at r ≠ None → mb_banned_at (f r) ≠ None)) →
    banned (t <| memberships := update_where p f (memberships t) |>) g d).
  { intros p f Hf. exists k. eexists. split; [cbn; rewrite lookup_update_where, Hk; reflexivity|].
    apply of_member_true in Hp as [Hg Hd]. destruct (Hf r) as (? & ? & ?).
    destruct (p k r); split; [apply of_member_true; split; congruence|auto|by apply of_member_true|done]. }
  apply of_member_true in Hp as Hgd. destruct Hgd as [Hg Hd].
  destruct Hc as [ds Hds|ts|ns|gid g1 d1 now k1 r1 Hg1 Hs Hadm|gid g1 d1 now k1 r1 Hg1 Hb1 Hadm|gid d1 now|gid d1 now o Hown Hne
    |gid f o Hown Hf|gid o x Hown|gid o HD' Hown|p|k1 s Hk1 Hs|k1 f Hf];
    [by exists k, r|by exists k, r|by exists k, r| | |by apply Hupd|by apply Hupd|by exists k, r| | |by exists k, r|by exists k, r|by exists k, r].
  - exists k, r. split; [|done]. cbn. rewrite lookup_insert_ne; [done|]. intros ->.
    destruct (admitted_old _ _ _ _ _ _ _ r Hadm Hk) as (_ & _ & E & _). apply admitted_member in Hadm as [Hp1 _].
    apply of_member_true in Hp1 as [Hp1 _].
    apply (no_group_no_member t k r gid); [apply Hwf|done|done|congruence].
  - exists k, r. split; [|done]. cbn. rewrite lookup_insert_ne; [done|]. intros ->.
    destruct (admitted_old _ _ _ _ _ _ _ r Hadm Hk) as (E & _). congruence.
  - destruct (Hupd (current gid x) (λ r, r <| mb_role := RoleOwner |>)) as (k2 & r2 & Hk2 & Hp2 & Hb2); [done|].
    exists k2. eexists. split; [cbn; rewrite lookup_update_where; cbn in Hk2; rewrite Hk2; reflexivity|].
    apply of_member_true in Hp2. destruct (of_member gid o k2 r2); split; by try apply of_member_true.
  - exists k, r. split; [|done]. cbn. apply lookup_delete_where. split; [done|]. apply bool_decide_eq_false. congruence.
Qed.

(** What a removal that succeeds has done. *)
Lemma wp_RemoveMember g o x t n :
  store_wf t →
  wp (RemoveMember g o x) (λ r s', r = inr tt → banned (tables s') g x
    ∧ ∀ k s r', sessions (tables s') !! k = Some s → memberships (tables s') !! ss_membership_id s = Some r' →
        of_member g x (ss_membership_id s) r' = false) (mkStore t n).
Proof.
  intros Hwf. unfold RemoveMember. case_bool_decide; [by intros|].
  apply wp_write; [by intros|]. cbn [tables]. intros n1. apply wp_try, wp_ownerOnly; [by intros|]. intros Hown n2.
  apply wp_bind, wp_Now. intros now n3. cbn [tables].
  apply wp_try, wp_wrap, wp_exec; [by intros|]. cbn [tables]. intros m t1 n4 Hf Hu1 Hr1.
  apply wp_bind, wp_counted. intros m' k' Hm'. destruct (Z.eqb_spec m' 0) as [|Hm]; [by intros ?|].
  destruct Hm' as [| ->]; [done|]. cbn [tables].
  apply wp_try, wp_wrap, wp_exec; [by intros|]. cbn [tables]. intros m2 t2 n5 Hf2 Hu2 Hr2 n6 _. cbn [tables].
  assert (Hms : memberships t2 = memberships t1) by (by injection Hf2 as _ <-). rewrite Hms. split.
  - injection Hf as <- <-. apply count_where_pos in Hm as (k & r & Hk & Hp). exists k. eexists.
    split; [rewrite Hms; cbn; rewrite lookup_update_where, Hk; reflexivity|]. rewrite Hp. apply current_true in Hp as (? & ? & _).
    split; [by apply of_member_true|done].
  - intros k s r' Hs Hr'. injection Hf2 as _ <-. cbn in Hs. apply lookup_delete_where in Hs as [Hs Hp].
    destruct (of_member g x (ss_membership_id s) r') eqn:Hof; [|done]. exfalso.
    apply andb_false_iff in Hp. rewrite !bool_decide_eq_false in Hp.
    assert (Hst : store_wf t1).
    { injection Hf as _ <-. eapply (change_wf (λ _, False) t); [done| |done..].
      exact (change_remove _ t g x (Unix now) o Hown H). }
    destruct Hp as [Hp|Hp]; apply Hp.
    + apply of_member_true in Hof as [<- _]. symmetry. by apply (wf_session t1 Hst k).
    + apply elem_of_list_to_set, list_elem_of_fmap. exists (ss_membership_id s, r'). split; [done|].
      by apply elem_of_select_where.
Qed.

(** C19: removed is removed.  Once an owner has removed somebody, no session of
    theirs is left, and however the server's calls go on, as long as the group is not
    deleted: they are not a member, the group does not open for them with any code,
    and joining it is refused, at every attempt. *)
Theorem the_removed_stay_out s g o x s1 s2 :
  reachable s → RemoveMember g o x s = Some (inr tt, s1) → rtc (calls (λ c, ¬ deletes c g)) s1 s2 →
  (∀ k se r, sessions (tables s1) !! k = Some se → memberships (tables s1) !! ss_membership_id se = Some r →
     of_member g x (ss_membership_id se) r = false)
  ∧ (∀ k r, memberships (tables s2) !! k = Some r → current g x k r = false)
  ∧ ∀ grp r s3, g_ID grp = g → call_ok (tables s2) (CallAddMembership grp x) → AddMembership grp x s2 = Some (r, s3) →
      tables s3 = tables s2 ∧ (r = inl ErrBanned ∨ ∃ e, r = inl e ∧ machine_error e).
Proof.
  intros Hr Hrm Hruns. apply reachable_wf in Hr as Hwf. destruct s as [t n].
  pose proof (wp_RemoveMember g o x t n Hwf) as Hw. unfold wp in Hw. rewrite Hrm in Hw.
  destruct (Hw eq_refl) as [Hb Hs]. split; [exact Hs|].
  assert (Hwf1 : store_wf (tables s1)).
  { pose proof (refines_RemoveMember (D:=λ _, True) g o x t n) as H. unfold wp in H. rewrite Hrm in H. by eapply steps_wf. }
  assert (Hb2 : banned (tables s2) g x).
  { eapply (runs_preserve (λ t, banned t g x) (λ c, ¬ deletes c g) (λ g', g' ≠ g)); [| |exact Hwf1|exact Hb|exact Hruns].
    - intros c g' Hc Hd ->. done.
    - intros t1 t2 Hwft Hbt Hst. eapply banned_step; [|done..]. by intros H. }
  pose proof (runs_wf _ _ _ Hwf1 Hruns) as Hwf2. destruct Hb2 as (k0 & r0 & Hk0 & Hp0 & Hb0). split.
  - intros k r Hk. destruct (current g x k r) eqn:Hc; [|done]. exfalso. apply current_true in Hc as (Hg & Hd & Hv).
    apply of_member_true in Hp0 as [? ?].
    assert (k = k0) as -> by (apply (member_unique (tables s2) k k0 r r0); [apply Hwf2|congruence..]).
    apply (wf_banned _ Hwf2 k0 r0 Hk0 Hb0). congruence.
  - intros grp r s3 Hid Hok Hadd. destruct s2 as [t2 n2]. cbn [tables] in *.
    assert (wp (AddMembership grp x) (λ r s', tables s' = t2 ∧ (r = inl ErrBanned ∨ ∃ e, r = inl e ∧ machine_error e)) (mkStore t2 n2)) as H.
    { assert (Hban : banned t2 (g_ID grp) x) by (rewrite Hid; by exists k0, r0).
      apply (wp_AddMembership (D:=λ _, True)); [apply Hwf2|exact Hok| |].
      - intros e n' [?|[[-> _]|(-> & Hn & _)]]; (split; [done|]); [right; eauto|by left|done].
      - by intros. }
    unfold wp in H. by rewrite Hadd in H.
Qed.
End groups.

Lemma the_removed_stay_out_witness :
  ∃ s s1, @reachable Plain.machine s ∧ @RemoveMember Plain.machine (str "grp") (str "ann") (str "bob") s = Some (inr tt, s1)
    ∧ ∀ k r, memberships (tables s1) !! k = Some r → current (str "grp") (str "bob") k r = false.
Proof.
  destruct (Plain.reaches_check Plain.two_members
    (λ s, match @RemoveMember Plain.machine (str "grp") (str "ann") (str "bob") s with Some (inr tt, _) => true | _ => false end))
    as (s & Hr & Hs).
  { vm_compute. reflexivity. }
  destruct (@RemoveMember Plain.machine (str "grp") (str "ann") (str "bob") s) as [[[e|[]] s1]|] eqn:E; try done.
  exists s, s1. split; [exact Hr|]. split; [exact E|].
  destruct (@the_removed_stay_out Plain.machine Plain.machine_laws s (str "grp") (str "ann") (str "bob") s1 s1 Hr E) as (_ & H & _);
    [apply rtc_refl|exact H].
Defined.
