(* ===== verification/GroupOwner.v ===== *)
(** Who may manage a group, and how a group can be left with nobody who may. *)
From S2P Require Import Prelude Bytes NetAddr NetText Base64 Invite Schema Storage Addressing StorageSpec StorageCalls StorageProps GroupProps.

(** The calls that manage a group, by the group and the device that makes them. *)
Definition manages (c : store_call) : option (gostring * gostring) :=
  match c with
  | CallRemoveMember g o _ | CallRenameGroup g o _ | CallSetGroupAppearance g o _ _ | CallTransferOwnership g o _
  | CallDeleteGroup g o | CallResetInviteCode g o => Some (g, o)
  | _ => None
  end.

(** A group that is there and that nobody owns. *)
Definition ownerless (t : Tables) (g : gostring) : Prop :=
  is_Some (groups t !! g) ∧ ∀ k r, memberships t !! k = Some r → mb_group_id r = g → mb_role r ≠ RoleOwner.

Section owner.
Context {MC : Machine} {ML : MachineLaws MC}.

Lemma ownerless_owns t g o : ownerless t g → ¬ owns t g o.
Proof. intros [_ H] (k & r & Hk & Hc & Hr). apply current_true in Hc as (Hg & _). by apply (H k r). Qed.

(** A transaction for the owner alone, asked for by somebody else. *)
Lemma wp_not_owner {A} g o (work : prog Store (storage_error + A)) t n :
  ¬ owns t g o →
  wp (write (_ ←? ownerOnly g o; work)) (λ r s', (∃ e, r = inl e) ∧ tables s' = t) (mkStore t n).
Proof.
  intros Hno. apply wp_write; [by eauto|]. cbn [tables]. intros n1. apply wp_try, wp_ownerOnly; [by eauto|]. by intros.
Qed.

Lemma wp_error_of {A} (m : prog Store (storage_error + A)) (P : option storage_error → Store → Prop) s :
  wp m (λ r s', P (match r with inl e => Some e | inr _ => None end) s') s → wp (error_of m) P s.
Proof. intros H. apply wp_bind. eapply wp_mono; [exact H|]. by intros a s' Ha. Qed.

Lemma wp_manage_refused c g o t n :
  manages c = Some (g, o) → ¬ owns t g o → wp (run_call c) (λ e s', is_Some e ∧ tables s' = t) (mkStore t n).
Proof.
  intros Hm Hno.
  assert (H : ∀ A (work : prog Store (storage_error + A)),
    wp (error_of (write (_ ←? ownerOnly g o; work))) (λ e s', is_Some e ∧ tables s' = t) (mkStore t n)).
  { intros A work. apply wp_error_of. eapply wp_mono; [by apply wp_not_owner|]. intros r s' [[e ->] ->]. by split; [eexists|]. }
  destruct c; try done; injection Hm as -> ->; cbn [run_call]; try apply H.
  unfold RemoveMember. case_bool_decide; [|apply H]. split; [by eexists|done].
Qed.

Lemma ownerless_step D g t t' : store_wf t → ownerless t g → step D t t' → ownerless t' g.
Proof.
  intros Hwf Hol (Hc & _ & _). pose proof (λ o, ownerless_owns t g o Hol) as Hno. destruct Hol as [[row Hg] Hol].
  assert (Hupd : ∀ (p : gostring → membership_row → bool) (f : membership_row → membership_row),
    (∀ r, mb_group_id (f r) = mb_group_id r ∧ mb_role (f r) = mb_role r) →
    ownerless (t <| memberships := update_where p f (memberships t) |>) g).
  { intros p f Hf. split; [by exists row|]. intros k r (r0 & Hk & ->)%update_where_Some. destruct (Hf r0) as [E1 E2].
    destruct (p k r0); rewrite ?E1, ?E2; by apply (Hol k). }
  destruct Hc as [ds Hds|ts|ns|gid g1 d1 now k1 r1 Hg1 Hs Hadm|gid g1 d1 now k1 r1 Hg1 Hb1 Hadm|gid d1 now|gid d1 now o Hown Hne
    |gid f o Hown Hf|gid o x Hown|gid o HD' Hown|p|k1 s Hk1 Hs|k1 f Hf];
    [by split|by split|by split| | |by apply Hupd|by apply Hupd| | | |by split|by split|by split].
  - assert (g ≠ gid) by congruence. split; [cbn; rewrite lookup_insert_ne by done; by exists row|].
    intros k r Hk. cbn in Hk. destruct (decide (k = k1)) as [->|].
    + rewrite lookup_insert_eq in Hk. injection Hk as <-. cbn. apply admitted_member in Hadm as [Hp _].
      apply of_member_true in Hp as [-> _]. by intros ->.
    + rewrite lookup_insert_ne in Hk by done. by apply (Hol k).
  - split; [by exists row|]. intros k r Hk. cbn in Hk. destruct (decide (k = k1)) as [->|].
    + rewrite lookup_insert_eq in Hk. injection Hk as <-. destruct Hadm as [ip ? Hn|r0 ip Hk0 ? ?]; [done|]. exact (Hol k1 r0 Hk0).
    + rewrite lookup_insert_ne in Hk by done. by apply (Hol k).
  - split; [cbn; rewrite lookup_update_where, Hg; by eexists|]. exact Hol.
  - split; [by exists row|]. assert (gid ≠ g) as Hne by (intros ->; by apply (Hno o)).
    intros k r (r1 & (r0 & Hk & ->)%update_where_Some & ->)%update_where_Some.
    destruct (current gid x k r0) eqn:Hx; [apply current_true in Hx as (Hgx & _)|];
      destruct (of_member gid o k _) eqn:Ho; cbn; intros E; try congruence; by apply (Hol k).
  - assert (gid ≠ g) as Hne by (intros ->; by apply (Hno o)).
    split; [cbn; rewrite lookup_delete_ne by done; by exists row|].
    intros k r Hk. cbn in Hk. apply lookup_delete_where in Hk as [Hk _]. by apply (Hol k).
Qed.

(** What a transfer that succeeds has done. *)
Lemma wp_TransferOwnership g o x t n :
  wp (TransferOwnership g o x) (λ r s', r = inr tt → owns t g o ∧ groups (tables s') = groups t
    ∧ memberships (tables s') = update_where (of_member g o) (λ r, r <| mb_role := RoleMember |>)
        (update_where (current g x) (λ r, r <| mb_role := RoleOwner |>) (memberships t))
    ∧ rtc (step (λ _, True)) t (tables s')) (mkStore t n).
Proof.
  apply wp_write; [by intros|]. cbn [tables]. intros n1. apply wp_try, wp_ownerOnly; [by intros|]. intros Hown n2.
  apply wp_try, wp_wrap, wp_exec; [by intros|]. cbn [tables]. intros m t1 n4 Hf Hu1 Hr1.
  apply wp_bind, wp_counted. intros m' k' Hm'. destruct (Z.eqb_spec m' 0) as [|Hm]; [by intros ?|].
  destruct Hm' as [| ->]; [done|]. cbn [tables].
  apply wp_try, wp_wrap, wp_exec; [by intros|]. cbn [tables]. intros m2 t2 n5 Hf2 Hu2 Hr2 n6 _. cbn [tables].
  injection Hf as _ <-. injection Hf2 as _ <-. split; [done|]. split; [done|]. split; [done|].
  apply rtc_once. split; [|done]. exact (change_owner _ t g o x Hown).
Qed.

Lemma self_transfer_ownerless g o t t' :
  store_wf t → owns t g o → groups t' = groups t →
  memberships t' = update_where (of_member g o) (λ r, r <| mb_role := RoleMember |>)
    (update_where (current g o) (λ r, r <| mb_role := RoleOwner |>) (memberships t)) → ownerless t' g.
Proof.
  intros Hwf (k0 & r0 & Hk0 & Hc0 & Hr0) Hg Hm. apply current_true in Hc0 as (Hg0 & Hd0 & _). split.
  - rewrite Hg. destruct (r_member_group t (wf_references t Hwf) k0 r0 Hk0) as [row Hrow]. exists row. congruence.
  - intros k r Hk Hgr. rewrite Hm in Hk. apply update_where_Some in Hk as (r1 & Hk1 & ->).
    apply update_where_Some in Hk1 as (r2 & Hk2 & ->). destruct (of_member g o k _) eqn:Ho; [done|].
    destruct (current g o k r2) eqn:Hc.
    + apply current_true in Hc as (? & ? & _). assert (of_member g o k (r2 <| mb_role := RoleOwner |>) = true); [by apply of_member_true|congruence].
    + intros Hr. assert (k = k0) as -> by (apply (owner_unique t k k0 r2 r0); congruence).
      assert (r2 = r0) as -> by congruence. assert (of_member g o k0 r0 = true) by (by apply of_member_true). congruence.
Qed.

(** C38: an owner who hands a group over to themselves loses it for everybody.
    [TransferOwnership] with the owner as target succeeds and leaves the group with no
    owner.  From then on, whatever calls follow, the group is still there, nobody owns
    it, and every call to manage it, removing a member, renaming it, changing its look
    or its code, handing it over, deleting it, is refused to every device and changes
    nothing. *)
Theorem a_group_given_to_its_own_owner_is_lost s g o s1 s2 :
  reachable s → TransferOwnership g o o s = Some (inr tt, s1) → rtc (calls any) s1 s2 →
  is_Some (groups (tables s2) !! g)
  ∧ ∀ c d, manages c = Some (g, d) → ∃ e s3, run_call c s2 = Some (Some e, s3) ∧ tables s3 = tables s2.
Proof.
  intros Hr Htr Hruns. apply reachable_wf in Hr as Hwf. destruct s as [t n].
  pose proof (wp_TransferOwnership g o o t n) as Hw. unfold wp in Hw. rewrite Htr in Hw.
  destruct (Hw eq_refl) as (Hown & Hg & Hm & Hst). assert (Hwf1 : store_wf (tables s1)) by (by eapply steps_wf).
  assert (Hol : ownerless (tables s2) g).
  { eapply (runs_preserve (λ t, ownerless t g) any (λ _, True)); [done| |exact Hwf1| |exact Hruns].
    - intros t1 t2 Hwft Ht Hs. by eapply ownerless_step.
    - by apply (self_transfer_ownerless g o t). }
  split; [apply Hol|]. intros c d Hc. destruct s2 as [t2 n2].
  pose proof (wp_manage_refused c g d t2 n2 Hc (ownerless_owns t2 g d Hol)) as H.
  apply wp_run in H as (e & s3 & H & [e' ->] & Ht). eauto.
Qed.
End owner.

Lemma a_group_given_to_its_own_owner_is_lost_witness :
  ∃ s s1, @reachable Plain.machine s ∧ @TransferOwnership Plain.machine (str "grp") (str "ann") (str "ann") s = Some (inr tt, s1)
    ∧ ∃ e s3, @run_call Plain.machine (CallRenameGroup (str "grp") (str "ann") (str "new name")) s1 = Some (Some e, s3).
Proof.
  destruct (Plain.reaches_check Plain.two_members
    (λ s, match @TransferOwnership Plain.machine (str "grp") (str "ann") (str "ann") s with Some (inr tt, _) => true | _ => false end))
    as (s & Hr & Hs).
  { vm_compute. reflexivity. }
  destruct (@TransferOwnership Plain.machine (str "grp") (str "ann") (str "ann") s) as [[[e|[]] s1]|] eqn:E; try done.
  exists s, s1. split; [exact Hr|]. split; [exact E|].
  destruct (@a_group_given_to_its_own_owner_is_lost Plain.machine Plain.machine_laws s (str "grp") (str "ann") s1 s1 Hr E
    (rtc_refl _ _)) as [_ H].
  destruct (H (CallRenameGroup (str "grp") (str "ann") (str "new name")) (str "ann") eq_refl) as (e & s3 & H1 & _). eauto.
Defined.
