(* ===== verification/GroupJoin.v ===== *)
(** Getting in: the address a device is given, what an invite code opens, and that a
    call which fails has done nothing. *)
From S2P Require Import Prelude Bytes NetAddr NetText Base64 Invite Schema Storage Addressing StorageSpec StorageCalls StorageProps.

Section join.
Context {MC : Machine} {ML : MachineLaws MC}.

(** ** Addresses *)

(** Where a device stands in a group before it joins. *)
Definition previous_address (t : Tables) (groupID deviceID : gostring) : option gostring :=
  default None (mb_virtual_ip ∘ snd <$> find_where (of_member groupID deviceID) (memberships t)).

Lemma admitted_previous t g d subnet now k r ip :
  unique_ok t → admitted t g d subnet now k r → mb_virtual_ip r = Some ip →
  address_for subnet (held_by_others t g d) (previous_address t g d) = inr ip.
Proof.
  intros Hu Hadm Hip. unfold previous_address. destruct Hadm as [ip' Hno Hk Ha|r0 ip' Hk Hp Ha]; cbn in Hip; injection Hip as <-.
  - destruct (find_where _ _) as [[k' r']|] eqn:Ef; [|exact Ha]. apply find_where_Some in Ef as [Hk' Hp'].
    by rewrite (Hno k' r' Hk') in Hp'.
  - apply of_member_true in Hp as [Hg Hd]. by rewrite (find_member t g d k r0 Hu Hk Hg Hd).
Qed.

(** C22: joining gives everybody an address of their own.  Joining a group that is
    there ends in one of four ways.  It succeeds: the device is a current member, with
    an address no other current member holds, which is the one it had in the group
    before unless somebody holds that one now, and otherwise the lowest free host
    address of the subnet; nothing else in the database has changed.  Or it is refused
    because the device was removed; or because every host address is held by somebody
    else; or the machine failed: and then nothing has changed. *)
Theorem joining_gives_everybody_an_address s g d row p :
  reachable s → groups (tables s) !! g_ID g = Some row → gr_subnet row = g_Subnet g →
  ParsePrefix (g_Subnet g) = Some p →
  let held := held_by_others (tables s) (g_ID g) d in
  ∃ r s', AddMembership g d s = Some (r, s') ∧
    match r with
    | inr m =>
        ∃ k r', tables s' = (tables s) <| memberships := <[k := r']> (memberships (tables s)) |>
          ∧ current (g_ID g) d k r' = true ∧ m_ID m = k ∧ mb_virtual_ip r' = Some (m_VirtualIP m)
          ∧ (m_VirtualIP m ∉ held)
          ∧ (∀ ip, previous_address (tables s) (g_ID g) d = Some ip → ip ∉ held → m_VirtualIP m = ip)
          ∧ ((∀ ip, previous_address (tables s) (g_ID g) d = Some ip → ip ∈ held) →
               ∃ u, host p u ∧ m_VirtualIP m = addr_String (Addr4 u) ∧ ∀ w, host p w → w < u → addr_String (Addr4 w) ∈ held)
    | inl e =>
        tables s' = tables s ∧
        (machine_error e ∨ e = ErrBanned ∧ banned (tables s) (g_ID g) d
         ∨ e = ErrGroupFull ∧ ∀ w, host p w → addr_String (Addr4 w) ∈ held)
    end.
Proof.
  intros Hr Hg Hsub Hp held. apply reachable_wf in Hr as Hwf. destruct s as [t n]. cbn [tables] in *.
  assert (H4 : Is4 (p_addr p) = true) by (apply (wf_subnet t Hwf _ _ Hg); congruence).
  pose proof (freeAddress_spec _ p held Hp H4) as Hfree.
  assert (Hprev : ∀ ip, previous_address t (g_ID g) d = Some ip → ip ≠ []).
  { intros ip Hip. unfold previous_address in Hip. destruct (find_where _ _) as [[k r]|] eqn:Ef; [|done].
    apply find_where_Some in Ef as [Hk Hm]. apply of_member_true in Hm as [Hm _]. cbn in Hip.
    destruct (wf_address t Hwf k r row Hk) as (p' & u & Hp' & Hu & E); [congruence|].
    assert (p' = p) as -> by congruence. rewrite E in Hip. injection Hip as <-.
    apply String_not_empty, (host_Contains p (ParsePrefix_ipv4 _ _ Hp H4) u Hu). }
  assert (wp (AddMembership g d) (λ r s', match r with
    | inr m => ∃ k r', tables s' = t <| memberships := <[k := r']> (memberships t) |>
        ∧ current (g_ID g) d k r' = true ∧ m_ID m = k ∧ mb_virtual_ip r' = Some (m_VirtualIP m)
        ∧ address_for (g_Subnet g) held (previous_address t (g_ID g) d) = inr (m_VirtualIP m)
    | inl e => tables s' = t ∧ (machine_error e ∨ e = ErrBanned ∧ banned t (g_ID g) d ∨ e = ErrGroupFull ∧ group_full t g d)
    end) (mkStore t n)) as H.
  { apply (wp_AddMembership (D:=λ _, True)); [apply Hwf|congruence| |].
    - intros e n' [?|[?|(? & _ & ?)]]; (split; [done|]); auto.
    - intros k r ip now n' _ Hadm Hip t' _. exists k, r. split; [done|].
      pose proof (admitted_member _ _ _ _ _ _ _ Hadm) as [Hm Hrev]. apply of_member_true in Hm as [? ?].
      split; [by apply current_true|]. split; [done|]. split; [done|]. by eapply admitted_previous; [apply Hwf|..]. }
  apply wp_run in H as (r & s' & Hrun & H). exists r, s'. split; [done|]. destruct r as [e|m].
  - destruct H as [Ht He]. split; [done|]. destruct He as [?|[?|[-> Hfull]]]; [by left|by right; left|right; right; split; [done|]].
    assert (freeAddress (g_Subnet g) held = inl ErrGroupFull) as Hf.
    { unfold group_full, address_for in Hfull. destruct (default _ _) as [ip|]; [destruct (_ || _)|]; [done|done|done]. }
    rewrite Hf in Hfree. apply Hfree.
  - destruct H as (k & r' & Ht & Hc & Hk & Hip & Ha). exists k, r'. split_and!; try done.
    + unfold address_for in Ha. destruct (previous_address t (g_ID g) d) as [ip|]; [destruct (_ || _) eqn:Eb|].
      * rewrite Ha in Hfree. by destruct Hfree as (u & _ & -> & Hn & _).
      * injection Ha as <-. apply orb_false_iff in Eb as [_ Eb]. by apply bool_decide_eq_false in Eb.
      * rewrite Ha in Hfree. by destruct Hfree as (u & _ & -> & Hn & _).
    + intros ip Hpr Hn. rewrite Hpr in Ha. cbn in Ha.
      rewrite !bool_decide_eq_false_2 in Ha by (done || by apply Hprev). by injection Ha as ->.
    + intros Hheld. assert (freeAddress (g_Subnet g) held = inr (m_VirtualIP m)) as Hf.
      { unfold address_for in Ha. destruct (previous_address t (g_ID g) d) as [ip|]; [|done].
        by rewrite (bool_decide_eq_true_2 _ (Hheld ip eq_refl)), orb_true_r in Ha. }
      rewrite Hf in Hfree. destruct Hfree as (u & Hu & -> & _ & Hlow). eauto.
Qed.
End join.

Lemma joining_gives_everybody_an_address_witness :
  ∃ s row, @reachable Plain.machine s ∧ groups (tables s) !! str "grp" = Some row ∧ gr_subnet row = str "10.69.0.0/24"
    ∧ ∃ r s', @AddMembership Plain.machine Plain.lan (str "bob") s = Some (r, s').
Proof.
  destruct (Plain.reaches_check (take 3 Plain.two_members)
    (λ s, match groups (tables s) !! str "grp" with Some row => bool_decide (gr_subnet row = str "10.69.0.0/24") | None => false end))
    as (s & Hr & Hs).
  { vm_compute. reflexivity. }
  destruct (groups (tables s) !! str "grp") as [row|] eqn:Eg; [|done]. apply bool_decide_eq_true in Hs.
  exists s, row. split; [exact Hr|]. split; [exact Eg|]. split; [exact Hs|].
  destruct (@joining_gives_everybody_an_address Plain.machine Plain.machine_laws s Plain.lan (str "bob") row
    (PrefixFrom (Addr4 0x0a450000) 24) Hr Eg Hs ltac:(vm_compute; reflexivity)) as (r & s' & H & _).
  exists r, s'. exact H.
Defined.

(** ** Invites, before and after they are replaced *)
Section invite.
Context {MC : Machine} {ML : MachineLaws MC}.

Definition has_code (code : gostring) : gostring → group_row → bool := λ _ g, bool_decide (gr_invite_code g = code).

(** What a code opens is the group that holds it. *)
Lemma wp_GroupByInviteCode text t n :
  wp (GroupByInviteCode text) (λ r s', tables s' = t ∧
    match r with
    | inl e => machine_error e ∨ e = ErrNotFound
                 ∧ (Normalize text = [] ∨ ∀ k g, groups t !! k = Some g → gr_invite_code g ≠ Normalize text)
    | inr grp => ∃ g, groups t !! g_ID grp = Some g ∧ gr_invite_code g = Normalize text ∧ grp = to_Group (g_ID grp) g
    end) (mkStore t n).
Proof.
  unfold GroupByInviteCode. case_bool_decide as Hn; [by split; [done|]; auto|].
  apply wp_try, wp_wrap, wp_query; [split; [done|]; left; apply machine_failed|]. cbn [tables]. intros n1.
  destruct (find_where _ _) as [[k g]|] eqn:Ef; (split; [done|]).
  - apply find_where_Some in Ef as [Hk Hp]. apply bool_decide_eq_true in Hp. by exists g.
  - right. split; [done|]. right. intros k g Hk. pose proof (find_where_None _ _ Ef k g Hk) as Hp. cbn in Hp.
    by apply bool_decide_eq_false in Hp.
Qed.

(** What replacing a code does. *)
Lemma wp_ResetInviteCode g o t n :
  wp (ResetInviteCode g o) (λ r s', ∀ code, r = inr code →
    owns t g o ∧ is_code code ∧ length code = Length
    ∧ (∀ k row, groups t !! k = Some row → gr_invite_code row ≠ code)
    ∧ tables s' = t <| groups := update_where (λ k _, bool_decide (k = g)) (λ r, r <| gr_invite_code := code |>) (groups t) |>
    ∧ unique_ok (tables s')) (mkStore t n).
Proof.
  apply wp_write; [by intros|]. cbn [tables]. intros n1. apply wp_try, wp_ownerOnly; [by intros|]. intros Hown n2.
  apply wp_try, wp_draw_code; [by intros|]. cbn [tables]. intros raw n3 Hb Hl Hfree.
  apply wp_try, wp_wrap, wp_exec; [by intros|]. cbn [tables]. intros m t1 n4 [= _ <-] Hu1 Hr1.
  apply wp_try, wp_wrap, wp_RowsAffected; [by intros ? ?|]. intros n5. destruct (m =? 0); [by intros ? ?|]. intros n6 code [= <-]. cbn [tables].
  split; [done|]. split; [apply base32_is_code|]. split; [apply length_base32|]. split; [exact Hfree|]. by split.
Qed.

(** A replaced code opens nothing.  Only an owner can replace a group's code.  The
    new code is eight characters that no group had; from then on everything that
    reads as the old code is refused, everything that reads as the new one opens this
    group and no other, and every other group's code opens what it did. *)
Theorem a_replaced_code_opens_nothing s g o row code s1 :
  reachable s → groups (tables s) !! g = Some row → ResetInviteCode g o s = Some (inr code, s1) →
  owns (tables s) g o ∧ length code = Length ∧ Normalize code = code
  ∧ ∀ text r s2, GroupByInviteCode text s1 = Some (r, s2) →
      (Normalize text = gr_invite_code row → ∃ e, r = inl e ∧ (e = ErrNotFound ∨ machine_error e))
      ∧ (Normalize text = code → (∃ grp, r = inr grp ∧ g_ID grp = g) ∨ ∃ e, r = inl e ∧ machine_error e)
      ∧ ∀ k other, k ≠ g → groups (tables s) !! k = Some other → Normalize text = gr_invite_code other →
          (Normalize text = [] ∨ ∃ grp, r = inr grp ∧ g_ID grp = k) ∨ ∃ e, r = inl e ∧ machine_error e.
Proof.
  intros Hr Hg Hreset. apply reachable_wf in Hr as Hwf. destruct s as [t n]. cbn [tables] in *.
  pose proof (wp_ResetInviteCode g o t n) as H. unfold wp in H. rewrite Hreset in H.
  destruct (H code eq_refl) as (Hown & Hcode & Hl & Hfree & Ht & Hu). clear H. split; [done|]. split; [done|].
  split; [by apply Normalize_code|].
  assert (Hlook : ∀ k r, groups (tables s1) !! k = Some r ↔
    ∃ r0, groups t !! k = Some r0 ∧ r = if bool_decide (k = g) then r0 <| gr_invite_code := code |> else r0).
  { intros k r. rewrite Ht. cbn. rewrite lookup_update_where, fmap_Some. done. }
  (** No two groups of [t] have one code. *)
  assert (Hone : ∀ k1 k2 r1 r2, groups (tables s1) !! k1 = Some r1 → groups (tables s1) !! k2 = Some r2 →
    gr_invite_code r1 = gr_invite_code r2 → k1 = k2).
  { intros k1 k2 r1 r2 H1 H2 E. refine (u_invite_code _ Hu k1 r1 H1 k2 r2 H2 _ _); [done|congruence]. }
  assert (Hold : ∀ k1 k2 r1 r2, groups t !! k1 = Some r1 → groups t !! k2 = Some r2 →
    gr_invite_code r1 = gr_invite_code r2 → k1 = k2).
  { intros k1 k2 r1 r2 H1 H2 E. refine (u_invite_code _ (wf_unique t Hwf) k1 r1 H1 k2 r2 H2 _ _); [done|congruence]. }
  intros text r s2 Hfind. destruct s1 as [t1 n1]. cbn [tables] in *.
  pose proof (wp_GroupByInviteCode text t1 n1) as H. unfold wp in H. rewrite Hfind in H. destruct H as [_ H].
  split; [|split].
  - intros E. destruct r as [e|grp]; [exists e; split; [done|]; destruct H as [?|[? _]]; auto|]. exfalso.
    destruct H as (r & Hk & Ec & _). apply Hlook in Hk as (r0 & Hk & ->). case_bool_decide as Hid; cbn in Ec.
    + apply (Hfree g row Hg). congruence.
    + apply Hid, (Hold _ _ r0 row Hk Hg). congruence.
  - intros E. destruct r as [e|grp].
    + right. exists e. split; [done|]. destruct H as [?|[_ [Hn|Hn]]]; [done|rewrite E in Hn; by subst code|].
      destruct (Hn g (row <| gr_invite_code := code |>)); [|done]. apply Hlook. exists row. by rewrite bool_decide_eq_true_2.
    + left. exists grp. split; [done|]. destruct H as (r & Hk & Ec & _). apply Hlook in Hk as (r0 & Hk & ->).
      case_bool_decide as Hid; [done|]. cbn in Ec. destruct (Hfree _ r0 Hk). congruence.
  - intros k other Hne Hk E. destruct r as [e|grp].
    + destruct H as [?|[_ [Hn|Hn]]]; [eauto|by left; left|]. destruct (Hn k other); [|done]. apply Hlook. exists other.
      by rewrite bool_decide_eq_false_2.
    + left. right. exists grp. split; [done|]. destruct H as (r & Hk' & Ec & _).
      apply (Hone _ _ r other Hk'); [|congruence]. apply Hlook. exists other. by rewrite bool_decide_eq_false_2.
Qed.
End invite.

Lemma a_replaced_code_opens_nothing_witness :
  ∃ s row code s1, @reachable Plain.machine s ∧ groups (tables s) !! str "grp" = Some row
    ∧ @ResetInviteCode Plain.machine (str "grp") (str "ann") s = Some (inr code, s1)
    ∧ length code = Length ∧ owns (tables s) (str "grp") (str "ann").
Proof.
  destruct (Plain.reaches_check Plain.two_members
    (λ s, match groups (tables s) !! str "grp", @ResetInviteCode Plain.machine (str "grp") (str "ann") s with
          | Some row, Some (inr _, _) => true | _, _ => false end)) as (s & Hr & Hs).
  { vm_compute. reflexivity. }
  destruct (groups (tables s) !! str "grp") as [row|] eqn:Eg; [|done].
  destruct (@ResetInviteCode Plain.machine (str "grp") (str "ann") s) as [[[e|code] s1]|] eqn:E; try done.
  exists s, row, code, s1. split; [exact Hr|]. split; [exact Eg|]. split; [exact E|].
  destruct (@a_replaced_code_opens_nothing Plain.machine Plain.machine_laws s (str "grp") (str "ann") row code s1 Hr Eg E)
    as (Ho & Hl & _ & _).
  split; [exact Hl|exact Ho].
Defined.
