(* ===== verification/StorageAtomic.v ===== *)
(** A call of the storage that fails has changed nothing, except for the two that are
    more than one statement and not a transaction. *)
From S2P Require Import Prelude Bytes NetAddr NetText Base64 Invite Schema Storage Addressing StorageSpec StorageCalls StorageProps.

(** The calls that are one statement that changes something, or a transaction. *)
Definition atomic (c : store_call) : Prop :=
  match c with CallRevokeMembership _ _ | CallClaimRegisterNonce _ _ => False | _ => True end.

Section atomic.
Context {MC : Machine} {ML : MachineLaws MC}.

Abbreviation M := (prog Store).

(** When [m] fails, the tables are as they were. *)
Definition all_or_nothing {A} (m : M (storage_error + A)) : Prop :=
  ∀ s e s', m s = Some (inl e, s') → tables s' = tables s.
(** [m] leaves the tables alone. *)
Definition reads {A} (m : M A) : Prop := ∀ s a s', m s = Some (a, s') → tables s' = tables s.

Lemma aon_transaction {A} (commits : A → bool) work : all_or_nothing (transaction commits work).
Proof.
  intros s e s'. unfold transaction. destruct (reaches (ticks s)); cbn [negb]; [|by intros [= _ <-]].
  destruct (work _) as [[[e'|a] s2]|]; [by intros [= _ <-]| |done].
  destruct (commits a); cbn [negb]; [|done]. destruct (reaches (ticks s2)); [done|by intros [= _ <-]].
Qed.

Lemma aon_write {A} (work : M (storage_error + A)) : all_or_nothing (write work).
Proof. apply aon_transaction. Qed.

(** Reading first, and then all or nothing. *)
Lemma aon_after {A B} (m : M A) (f : A → M (storage_error + B)) : reads m → (∀ a, all_or_nothing (f a)) → all_or_nothing (m ≫= f).
Proof.
  intros Hm Hf s e s' H. unfold mbind, prog_bind in H. destruct (m s) as [[a s1]|] eqn:E; [|done].
  rewrite (Hf a s1 e s' H). by eapply Hm.
Qed.

Lemma aon_after_try {A B} (m : M (storage_error + A)) (f : A → M (storage_error + B)) :
  reads m → (∀ a, all_or_nothing (f a)) → all_or_nothing (x ←? m; f x).
Proof. intros Hm Hf. apply aon_after; [done|]. intros [e|a]; [|apply Hf]. by intros s e' s' [= _ <-]. Qed.

Lemma aon_fail {A} e : all_or_nothing (@fail A e).
Proof. by intros s e' s' [= _ <-]. Qed.

Lemma reads_ret {A} (a : A) : reads (mret a).
Proof. intros s b s' H. unfold mret, prog_ret in H. congruence. Qed.
Lemma reads_Now : reads Now.
Proof. by intros s a s' [= _ <-]. Qed.
Lemma reads_Read k : reads (Read k).
Proof. by intros s a s' [= _ <-]. Qed.
Lemma reads_bind {A B} (m : M A) (f : A → M B) : reads m → (∀ a, reads (f a)) → reads (m ≫= f).
Proof.
  intros Hm Hf s b s' H. unfold mbind, prog_bind in H. destruct (m s) as [[a s1]|] eqn:E; [|done].
  rewrite (Hf a s1 b s' H). by eapply Hm.
Qed.
Lemma reads_query {A} (f : Tables → A) : reads (query f).
Proof. intros s a s'. unfold query. destruct (reaches _); by intros [= _ <-]. Qed.
Lemma reads_wrap {A} what (m : M (db_error + A)) : reads m → reads (wrap what m).
Proof. intros H. apply reads_bind; [done|]. intros a. apply reads_ret. Qed.
Lemma reads_NewID prefix : reads (NewID prefix).
Proof. apply reads_bind; [apply reads_Read|]. intros [raw|]; apply reads_ret. Qed.
Lemma reads_newToken : reads newToken.
Proof. apply reads_bind; [apply reads_Read|]. intros [raw|]; apply reads_ret. Qed.

(** Statements that find nothing change nothing. *)
Lemma update_none {A} (p : gostring → A → bool) (f : A → A) (m : gmap gostring A) : count_where p m = 0 → update_where p f m = m.
Proof.
  intros H0. pose proof (proj1 (count_where_0 p m) H0) as H. apply map_eq. intros k. rewrite lookup_update_where. destruct (m !! k) as [r|] eqn:E; [|done].
  cbn. by rewrite (H k r E).
Qed.
Lemma delete_none {A : Type} (p : gostring → A → bool) (m : gmap gostring A) : count_where p m = 0 → delete_where p m = m.
Proof.
  intros H0. pose proof (proj1 (count_where_0 p m) H0) as H. apply map_eq. intros k. destruct (m !! k) as [r|] eqn:E.
  - apply lookup_delete_where. auto.
  - destruct (delete_where p m !! k) as [r|] eqn:E'; [|done]. apply lookup_delete_where in E' as [? _]. congruence.
Qed.

(** One statement and a look at how many rows it was about: nothing has changed, or the
    statement went through and how many rows it was about could not be told. *)
Definition all_or_uncounted {A} (m : M (storage_error + A)) : Prop :=
  ∀ s e s', m s = Some (inl e, s') → tables s' = tables s ∨ ∃ what, e = Failed what (Database CountFailed).

Lemma aon_counted {A} (m : M (storage_error + A)) : all_or_nothing m → all_or_uncounted m.
Proof. intros Hm s e s' E. left. by eapply Hm. Qed.

Lemma aon_affected what what' (f : Tables → option (Z * Tables)) :
  (∀ t t', f t = Some (0, t') → t' = t) →
  all_or_uncounted (n ←? wrap what (exec f); n ←? wrap what' (RowsAffected n); if (n : Z) =? 0 then fail ErrNotFound else mret (inr tt)).
Proof.
  intros Hf s e s'. unfold try_bind, wrap, exec, RowsAffected, next, mbind, prog_bind. destruct (reaches _); cbn [negb]; [|by intros [= _ <-]; left].
  destruct (f (tables s)) as [[n t]|] eqn:Ef; [|by intros [= _ <-]; left]. destruct (violation t); [by intros [= _ <-]; left|].
  cbn. destruct (counts _); cbn; [|intros [= <- _]; right; by eexists].
  destruct (Z.eqb_spec n 0) as [->|]; [|done]. intros [= _ <-]. left. cbn. by apply Hf.
Qed.

Lemma aou_after {A B} (m : M A) (f : A → M (storage_error + B)) : reads m → (∀ a, all_or_uncounted (f a)) → all_or_uncounted (m ≫= f).
Proof.
  intros Hm Hf s e s' H. unfold mbind, prog_bind in H. destruct (m s) as [[a s1]|] eqn:E; [|done].
  rewrite <-(Hm _ _ _ E). by eapply Hf.
Qed.

Lemma aon_exec what (f : Tables → option (Z * Tables)) {A} (k : Z → M (storage_error + A)) :
  (∀ n s e s', k n s ≠ Some (inl e, s')) → all_or_nothing (n ←? wrap what (exec f); k n).
Proof.
  intros Hk s e s'. unfold try_bind, wrap, exec, mbind, prog_bind. destruct (reaches _); cbn [negb]; [|by intros [= _ <-]].
  destruct (f (tables s)) as [[n t]|] eqn:Ef; [|by intros [= _ <-]]. destruct (violation t); [by intros [= _ <-]|].
  cbn [mret prog_ret]. intros H. by apply Hk in H.
Qed.

Lemma set_same_sessions t : t <| sessions := sessions t |> = t.
Proof. by destruct t. Qed.
Lemma set_same_devices t : t <| devices := devices t |> = t.
Proof. by destruct t. Qed.

Lemma aou_session_update i what f : all_or_uncounted (n ←? wrap what (exec (update_session i f)); checkAffected n).
Proof.
  apply aon_affected. intros t t' H. unfold update_session in H. injection H as Hn <-. rewrite (update_none _ f _ Hn). apply set_same_sessions.
Qed.

Lemma error_of_Some {A} (m : M (storage_error + A)) s e s' : error_of m s = Some (Some e, s') → m s = Some (inl e, s').
Proof. unfold error_of, mbind, prog_bind. destruct (m s) as [[[e'|a] s1]|]; [by intros [= -> ->]|done|done]. Qed.

(** The calls whose one statement is its own transaction, and which ask afterwards how
    many rows it was about. *)
Definition counts_after (c : store_call) : Prop :=
  match c with CallSetDeviceNickname _ _ | CallSetSessionEndpoint _ _ _ | CallTouchSession _ | CallDeleteSession _ => True | _ => False end.

(** C23: failing changes nothing.  A call of the storage that returns an error,
    whether it refuses or the machine fails it at any of its statements, leaves the
    database exactly as it was; this is every call that changes the database except
    leaving a group and claiming a nonce, which run two statements and no
    transaction.  Four calls have one more way to fail, after their only statement has
    gone through: the driver cannot tell how many rows it was about.  That error, by its
    name, is the only one of theirs that can have changed something. *)
Theorem failing_changes_nothing c s e s' :
  atomic c → run_call c s = Some (Some e, s') →
  tables s' = tables s ∨ counts_after c ∧ ∃ what, e = Failed what (Database CountFailed).
Proof.
  intros Hat. assert (H : ∀ A (m : M (storage_error + A)), all_or_nothing m → error_of m s = Some (Some e, s') →
    tables s' = tables s ∨ counts_after c ∧ ∃ what, e = Failed what (Database CountFailed)).
  { intros A m Hm Hr. left. by eapply Hm, error_of_Some. }
  assert (H' : ∀ A (m : M (storage_error + A)), counts_after c → all_or_uncounted m → error_of m s = Some (Some e, s') →
    tables s' = tables s ∨ counts_after c ∧ ∃ what, e = Failed what (Database CountFailed)).
  { intros A m Hc Hm Hr. apply error_of_Some in Hr. destruct (Hm _ _ _ Hr); [by left|by right]. }
  destruct c; try done; cbn [run_call]; first [apply (H' _ _ I)|apply H]; try apply aon_write.
  - unfold RemoveMember. case_bool_decide; [apply aon_fail|apply aon_write].
  - apply aon_after_try; [apply reads_newToken|]. intros [token hash]. apply aon_write.
  - apply aon_after_try; [apply reads_wrap, reads_query|]. intros [[i r]|]; [|apply aon_fail].
    apply aon_after; [apply reads_Now|]. intros now. by apply aon_exec.
  - apply aon_affected. intros t t' Hf. injection Hf as Hn <-. rewrite (update_none _ _ _ Hn). apply set_same_devices.
  - apply aon_after_try; [apply reads_NewID|]. intros i. apply aon_write.
  - apply aou_after; [apply reads_Now|]. intros now. apply aou_session_update.
  - apply aou_after; [apply reads_Now|]. intros now. apply aou_session_update.
  - apply aon_affected. intros t t' Hf. injection Hf as Hn <-. rewrite (delete_none _ _ Hn). apply set_same_sessions.
  - apply aon_after; [apply reads_Now|]. intros now. apply aon_transaction.
Qed.

(** Running a statement that goes through, and one that does not. *)
Lemma Now_run {A} (f : Z → M A) t n : (now ← Now; f now) (mkStore t n) = f (clock n) (mkStore t (S n)).
Proof. done. Qed.
Lemma try_exec_run what f {A} (k : Z → M (storage_error + A)) t n m t' :
  reaches n = true → f t = Some (m, t') → violation t' = None →
  (x ←? wrap what (exec f); k x) (mkStore t n) = k m (mkStore t' (S n)).
Proof.
  intros Hr Hf Hv. unfold try_bind, wrap, exec, mbind, prog_bind. cbn [ticks tables]. by rewrite Hr, Hf, Hv.
Qed.
Lemma try_count_run what m {A} (k : Z → M (storage_error + A)) t n :
  counts n = true → (x ←? wrap what (RowsAffected m); k x) (mkStore t n) = k m (mkStore t (S n)).
Proof. intros Hc. unfold try_bind, wrap, RowsAffected, next, mbind, prog_bind. cbn. by rewrite Hc. Qed.
Lemma try_exec_down what f {A} (k : Z → M (storage_error + A)) t n :
  reaches n = false →
  (x ←? wrap what (exec f); k x) (mkStore t n) = Some (inl (Failed what (Database DriverFailed)), mkStore t (S n)).
Proof. intros Hr. unfold try_bind, wrap, exec, mbind, prog_bind. cbn [ticks tables]. by rewrite Hr. Qed.

(** Leaving is not atomic.  When the driver fails the second statement of
    [RevokeMembership], the caller is told leaving failed, and it has happened: the
    membership is revoked while the sessions are all still there. *)
Theorem leaving_can_fail_after_it_happened s g d k r :
  reachable s → memberships (tables s) !! k = Some r → current g d k r = true →
  reaches (S (ticks s)) = true → counts (S (S (ticks s))) = true → reaches (S (S (S (ticks s)))) = false →
  ∃ s' r', RevokeMembership g d s = Some (inl (Failed "storage: end sessions" (Database DriverFailed)), s')
    ∧ memberships (tables s') !! k = Some r' ∧ mb_revoked_at r' ≠ None ∧ sessions (tables s') = sessions (tables s).
Proof.
  intros Hr Hk Hc H1 H3 H2. apply reachable_wf in Hr as Hwf. destruct s as [t n]. cbn [tables ticks] in *.
  set (t' := t <| memberships := update_where (current g d) (λ r, r <| mb_revoked_at := Some (Unix (clock n)) |>) (memberships t) |>).
  (** Revoking a membership breaks no constraint. *)
  assert (Hv : violation t' = None).
  { apply violation_None. split.
    - destruct (wf_unique t Hwf) as [? ? Hm Ha ?]. constructor; [done|done| | |done].
      + eapply unique_on_mono; [|exact Hm]. intros k' r' (r0 & Hk' & ->)%update_where_Some _. exists r0. split; [done|].
        by destruct (current g d k' r0).
      + eapply unique_on_mono; [|exact Ha]. intros k' r' (r0 & Hk' & ->)%update_where_Some Hs. exists r0. split; [done|].
        destruct (current g d k' r0); [by destruct Hs|done].
    - destruct (wf_references t Hwf) as [? ? Hmg Hmd Hsg Hsm]. constructor; [done|done| | |done|].
      + intros k' r' (r0 & Hk' & ->)%update_where_Some. destruct (current g d k' r0); by apply (Hmg k' r0).
      + intros k' r' (r0 & Hk' & ->)%update_where_Some. destruct (current g d k' r0); by apply (Hmd k' r0).
      + intros k' s' Hs. cbn. rewrite lookup_update_where. destruct (Hsm k' s' Hs) as [r0 ->]. by eexists. }
  assert (Hn : count_where (current g d) (memberships t) ≠ 0).
  { intros H0. rewrite count_where_0 in H0. by rewrite (H0 k r Hk) in Hc. }
  exists (mkStore t' (S (S (S (S n))))). eexists. split; [|split; [cbn; rewrite lookup_update_where, Hk; reflexivity|]].
  - unfold RevokeMembership. rewrite Now_run. erewrite try_exec_run; [|exact H1|reflexivity|exact Hv].
    rewrite try_count_run by done. rewrite (proj2 (Z.eqb_neq _ _) Hn). by apply try_exec_down.
  - rewrite Hc. done.
Qed.
End atomic.

Lemma failing_changes_nothing_witness :
  ∃ s e s', @reachable Plain.machine s
    ∧ @run_call Plain.machine (CallRenameGroup (str "grp") (str "bob") (str "Bob's")) s = Some (Some e, s')
    ∧ (tables s' = tables s ∨ counts_after (CallRenameGroup (str "grp") (str "bob") (str "Bob's")) ∧ ∃ what, e = Failed what (Database CountFailed)).
Proof.
  destruct (Plain.reaches_check Plain.two_members
    (λ s, match @run_call Plain.machine (CallRenameGroup (str "grp") (str "bob") (str "Bob's")) s with
          | Some (Some _, _) => true | _ => false end)) as (s & Hr & Hs).
  { vm_compute. reflexivity. }
  destruct (@run_call Plain.machine _ s) as [[[e|] s']|] eqn:E; try done.
  exists s, e, s'. split; [exact Hr|]. split; [exact E|].
  exact (@failing_changes_nothing Plain.machine (CallRenameGroup (str "grp") (str "bob") (str "Bob's")) s e s' I E).
Defined.

Lemma leaving_can_fail_after_it_happened_witness :
  let down n := (n =? 38)%nat in
  ∃ s s' r', @reachable (Plain.machine_with down) s
    ∧ @RevokeMembership (Plain.machine_with down) (str "grp") (str "bob") s
      = Some (inl (Failed "storage: end sessions" (Database DriverFailed)), s')
    ∧ mb_revoked_at r' ≠ None ∧ sessions (tables s') = sessions (tables s).
Proof.
  intros down.
  destruct (@Plain.reaches_check_on (Plain.machine_with down) Plain.two_members
    (λ s, match find_where (current (str "grp") (str "bob")) (memberships (tables s)) with
          | Some _ => (ticks s =? 35)%nat | None => false end)) as (s & Hr & Hs).
  { vm_compute. reflexivity. }
  destruct (find_where _ _) as [[k r]|] eqn:Ef; [|done]. apply Nat.eqb_eq in Hs.
  apply find_where_Some in Ef as [Hk Hc].
  destruct (@leaving_can_fail_after_it_happened (Plain.machine_with down) (Plain.laws_with down) s (str "grp") (str "bob") k r
    Hr Hk Hc) as (s' & r' & H1 & _ & H2 & H3); [by rewrite Hs|done|by rewrite Hs|].
  exists s, s', r'. split; [exact Hr|]. split; [exact H1|]. split; [exact H2|exact H3].
Defined.
