(* ===== verification/Durable.v ===== *)
(** Code whose effects outlive it: files and databases, and a process that may fail at any
    call or be gone after any of them.

    The state is what is durable, and the script of what becomes of the calls that are
    still to come. *)
From S2P Require Import Prelude.

(** A call works, fails, or is the last thing the process does, before or after it took
    effect.  Of a call that writes a file so many bytes may be there when it fails, or
    when the process is gone; another call that is [Short] has failed and one that is
    [Torn] was the last. *)
Inductive reply : Type := Works | Fails | Dies | DiesAfter | Short (n : nat) | Torn (n : nat).

Class Scripted (S : Type) : Type := {
  script : S → list reply;
  with_script : list reply → S → S;
  with_its_script s : with_script (script s) s = s;
  script_with l s : script (with_script l s) = l;
}.

(** A panic is an end of its own. *)
Inductive result (E A : Type) : Type := Done (a : A) | Error (e : E) | Panicked | Dead.
Arguments Done {E A} _.
Arguments Error {E A} _.
Arguments Panicked {E A}.
Arguments Dead {E A}.

Section durable.
Context {S : Type} `{Scripted S} {E : Type}.

Definition act (A : Type) : Type := S → result E A * S.
Definition then_ {A B} (m : act A) (f : A → act B) : act B := λ d,
  match m d with
  | (Done a, d) => f a d
  | (Error e, d) => (Error e, d)
  | (Panicked, d) => (Panicked, d)
  | (Dead, d) => (Dead, d)
  end.
Definition give {A} (a : A) : act A := λ d, (Done a, d).
Definition raise {A} (e : E) : act A := λ d, (Error e, d).

Definition after_one (d : S) : S := with_script (tail (script d)) d.

(** One call: its effect, or an error. *)
Definition call (e : E) (f : S → S) : act unit := λ d,
  let d1 := after_one d in
  match head (script d) with
  | None | Some Works => (Done tt, f d1)
  | Some Fails | Some (Short _) => (Error e, d1)
  | Some Dies | Some (Torn _) => (Dead, d1)
  | Some DiesAfter => (Dead, f d1)
  end.

(** [os.WriteFile]: [f None] puts the whole of it in place, [f (Some n)] the first bytes. *)
Definition write_file (e : E) (f : option nat → S → S) : act unit := λ d,
  let d1 := after_one d in
  match head (script d) with
  | None | Some Works => (Done tt, f None d1)
  | Some Fails => (Error e, d1)
  | Some (Short n) => (Error e, f (Some n) d1)
  | Some Dies => (Dead, d1)
  | Some DiesAfter => (Dead, f None d1)
  | Some (Torn n) => (Dead, f (Some n) d1)
  end.

Lemma after_one_works d : script d = [] → after_one d = d.
Proof. intros Hs. unfold after_one. rewrite Hs. cbn. rewrite <-Hs. apply with_its_script. Qed.
Lemma call_works e f d : script d = [] → call e f d = (Done tt, f d).
Proof. intros Hs. unfold call. by rewrite after_one_works, Hs. Qed.
Lemma write_works e f d : script d = [] → write_file e f d = (Done tt, f None d).
Proof. intros Hs. unfold write_file. by rewrite after_one_works, Hs. Qed.
Lemma then_works {A} e f (k : unit → act A) d : script d = [] → then_ (call e f) k d = k tt (f d).
Proof. intros Hs. unfold then_. by rewrite call_works. Qed.
Lemma then_done {A B} (m : act A) (k : A → act B) d a d' : m d = (Done a, d') → then_ m k d = k a d'.
Proof. intros Hm. unfold then_. by rewrite Hm. Qed.

(** A state that every call keeps to. *)
Definition always (P : S → Prop) {A} (m : act A) : Prop := ∀ d, P d → P (m d).2.
Lemma always_then P {A B} (m : act A) (f : A → act B) : always P m → (∀ a, always P (f a)) → always P (then_ m f).
Proof. intros Hm Hf d Hd. unfold then_. specialize (Hm d Hd). destruct (m d) as [[a|e| |] d1]; [by apply Hf|done..]. Qed.
Lemma always_give P {A} (a : A) : always P (give a).
Proof. by intros d Hd. Qed.
Lemma always_raise P {A} e : always P (raise (A := A) e).
Proof. by intros d Hd. Qed.
Lemma always_call (P : S → Prop) e f : (∀ d, P d → P (after_one d)) → (∀ d, P d → P (f d)) → always P (call e f).
Proof. intros H1 Hf d Hd. unfold call. destruct (head (script d)) as [[]|]; cbn; auto. Qed.
Lemma always_write (P : S → Prop) e f : (∀ d, P d → P (after_one d)) → (∀ o d, P d → P (f o d)) → always P (write_file e f).
Proof. intros H1 Hf d Hd. unfold write_file. destruct (head (script d)) as [[]|]; cbn; auto. Qed.
End durable.
Arguments act S E A : clear implicits.
