(* ===== verification/Migrations.v ===== *)
(** Opening the server's database: [Open], [migrate], [migrationFiles] and
    [checkForeignKeys] of server/storage/storage.go.

    What a migration does to the database is a parameter: a statement is the function
    SQLite makes of its text, which gives nothing when it fails.  A transaction is durable
    when it is committed and not before. *)
From S2P Require Import Prelude Bytes NetText Durable.

Section migrations.
Context {D : Type} (empty : D) (references_hold : D → bool).

Record file : Type := mkFile { name : gostring; statement : D → option D }.

(** The table [schema_version]: whether it is there, and its row. *)
Record Disk : Type := mkDisk { data : D; schema_version : option (option Z); to_come : list reply }.
#[export] Instance eta_Disk : Settable Disk := λ d, mkDisk (data d) (schema_version d) (to_come d).
#[export] Program Instance disk_scripted : Scripted Disk := {| script := to_come; with_script l d := d <| to_come := l |> |}.
Solve Obligations with by intros [].

Inductive open_error : Type :=
  | CannotOpen | CannotSet | BadName (i : nat) | CannotCreate | CannotRead | CannotInit | CannotBegin | BadMigration (i : nat)
  | CannotRecord | CannotCommit | CannotCheck | BrokenReferences | CannotEnable.

Abbreviation act A := (Durable.act Disk open_error A).

(** [%04d_], with the number of the file from 1. *)
Definition prefix_of (i : nat) : gostring :=
  let n := FormatInt (Z.of_nat (S i)) in replicate (4 - length n) 48 ++ n ++ str "_".
Definition has_prefix (p s : gostring) : bool := bool_decide (take (length p) s = p).
Fixpoint names_ok (i : nat) (files : list file) : option nat :=
  match files with
  | [] => None
  | f :: files => if has_prefix (prefix_of i) (name f) then names_ok (S i) files else Some i
  end.
Definition migrationFiles (files : list file) : act unit :=
  match names_ok 0 files with None => give tt | Some i => raise (BadName i) end.

(** [migration i] in its transaction: nothing of it is durable before the commit. *)
Definition migration (i : nat) (f : file) : act unit :=
  then_ (call CannotBegin id) (λ _ d,
  match statement f (data d) with
  | None => then_ (call (BadMigration i) id) (λ _, raise (BadMigration i)) d
  | Some new =>
      then_ (call (BadMigration i) id) (λ _,
      then_ (call CannotRecord id) (λ _,
      call CannotCommit (λ d, d <| data := new |> <| schema_version := Some (Some (Z.of_nat (S i))) |>))) d
  end).

Fixpoint migrations (i : nat) (files : list file) : act unit :=
  match files with
  | [] => give tt
  | f :: files => then_ (migration i f) (λ _, migrations (S i) files)
  end.

Definition create_table (d : Disk) : Disk := d <| schema_version := Some (default None (schema_version d)) |>.
(** [SELECT version], and the row there ought to be. *)
Definition read_version : act Z :=
  then_ (call CannotRead id) (λ _ d,
  match schema_version d with
  | Some (Some v) => (Done v, d)
  | _ => then_ (call CannotInit (λ d, d <| schema_version := Some (Some 0) |>)) (λ _, give 0) d
  end).

(** [files[i]] panics when [i] is negative. *)
Definition migrate (files : list file) : act unit :=
  then_ (migrationFiles files) (λ _,
  then_ (call CannotCreate create_table) (λ _,
  then_ read_version (λ applied,
  if (applied <? 0) && (0 <? length files)%nat then λ d, (Panicked, d)
  else migrations (Z.to_nat applied) (drop (Z.to_nat applied) files)))).

Definition checkForeignKeys : act unit :=
  then_ (call CannotCheck id) (λ _ d, if references_hold (data d) then (Done tt, d) else (Error BrokenReferences, d)).

(** [Open], with its two pragmas before and the one after. *)
Definition Open (files : list file) : act unit :=
  then_ (call CannotOpen id) (λ _,
  then_ (call CannotSet id) (λ _,
  then_ (call CannotSet id) (λ _,
  then_ (migrate files) (λ _,
  then_ checkForeignKeys (λ _,
  call CannotEnable id))))).

(** The server is started again and again, each time as whatever release it then is. *)
Fixpoint releases (l : list (list file * list reply)) (d : Disk) : Disk :=
  match l with
  | [] => d
  | (files, luck) :: l => releases l (Open files (d <| to_come := luck |>)).2
  end.

(** ** What is there *)

(** What the first migrations make of an empty database. *)
Definition made_by (files : list file) : option D := foldl (λ o f, o ≫= statement f) (Some empty) files.
Definition applied (d : Disk) : nat := match schema_version d with Some (Some v) => Z.to_nat v | _ => 0 end.

(** The recorded number of migrations, in their order, once each, and nothing else. *)
Record migrated (files : list file) (d : Disk) : Prop := mkMigrated {
  mg_version v : schema_version d = Some (Some v) → 0 ≤ v ≤ Z.of_nat (length files);
  mg_data : made_by (take (applied d) files) = Some (data d);
}.

Lemma made_by_snoc files f : made_by (files ++ [f]) = made_by files ≫= statement f.
Proof. unfold made_by. by rewrite foldl_app. Qed.

(** [m] keeps to the migrations of [files]. *)
Definition keeps {A} (files : list file) (m : act A) : Prop := ∀ d, migrated files d → migrated files (m d).2 ∧ (m d).1 ≠ Panicked
  ∧ (applied d ≤ applied (m d).2)%nat.

Lemma migrated_then {A B} files (m : act A) (f : A → act B) : keeps files m → (∀ a, keeps files (f a)) → keeps files (then_ m f).
Proof.
  intros Hm Hf d Hd. unfold then_. destruct (Hm d Hd) as (H1 & H2 & H3). destruct (m d) as [[a|e| |] d1]; try done.
  destruct (Hf a d1 H1) as (H4 & H5 & H6). split_and!; [done..|]. cbn in H3. lia.
Qed.
Lemma keeps_give {A} files (a : A) : keeps files (give a).
Proof. by intros d Hd. Qed.
Lemma keeps_raise {A} files e : keeps files (raise (A := A) e).
Proof. by intros d Hd. Qed.

Definition same (d d' : Disk) : Prop := data d' = data d ∧ schema_version d' = schema_version d.
Lemma same_migrated files d d' : same d d' → migrated files d → migrated files d' ∧ applied d' = applied d.
Proof. intros [E1 E2] [H1 H2]. unfold applied in *. split; [split|]; unfold applied; rewrite ?E1, ?E2; done. Qed.

Lemma keeps_call files (e : open_error) f : (∀ d, migrated files d → migrated files (f d) ∧ (applied d ≤ applied (f d))%nat) → keeps files (call e f).
Proof.
  intros Hf d Hd. unfold call. destruct (same_migrated files d (after_one d)) as [H1 H2]; [done..|].
  destruct (Hf _ H1) as [H3 H4]. rewrite H2 in H4. destruct (head (script d)) as [[]|]; cbn [fst snd]; split_and!; try done; by rewrite H2.
Qed.
Lemma keeps_call_id files (e : open_error) : keeps files (call e id).
Proof. apply keeps_call. by intros d Hd. Qed.

Lemma keeps_create files : keeps files (call CannotCreate create_table).
Proof.
  apply keeps_call. intros d [H1 H2]. assert (applied (create_table d) = applied d) as E by (unfold applied; cbn; by destruct (schema_version d) as [[]|]).
  split; [split|lia].
  - intros v Hv. apply H1. cbn in Hv. by destruct (schema_version d) as [[]|].
  - by rewrite E.
Qed.

(** What a step that has begun at version [i] comes to: [post] if it is done. *)
Definition advances {A} (all : list file) (m : act A) (pre post : Disk → Prop) : Prop := ∀ d, migrated all d → pre d →
  migrated all (m d).2 ∧ (m d).1 ≠ Panicked ∧ (applied d ≤ applied (m d).2)%nat ∧ ((∃ a, (m d).1 = Done a) → post (m d).2).

Lemma advances_keeps {A} all (m : act A) (P : Disk → Prop) : keeps all m → (∀ d a, P d → (m d).1 = Done a → P (m d).2) → advances all m P P.
Proof. intros Hm HP d Hd Hp. destruct (Hm d Hd) as (H1 & H2 & H3). split_and!; [done..|]. intros [a Ha]. by apply (HP d a). Qed.

Lemma advances_then {A B} all (m : act A) (f : A → act B) P Q R : advances all m P Q → (∀ a, advances all (f a) Q R) → advances all (then_ m f) P R.
Proof.
  intros Hm Hf d Hd Hp. unfold then_. destruct (Hm d Hd Hp) as (H1 & H2 & H3 & H4). destruct (m d) as [[a|e| |] d1]; cbn in *.
  - destruct (Hf a d1 H1 (H4 (ex_intro _ a eq_refl))) as (G1 & G2 & G3 & G4). split_and!; [done..|lia|done].
  - split_and!; [done..|]. by intros [].
  - done.
  - split_and!; [done..|]. by intros [].
Qed.

Definition at_version (v : nat) (d : Disk) : Prop := schema_version d = Some (Some (Z.of_nat v)).

Lemma call_id_same (e : open_error) d : same d (call e id d).2.
Proof. unfold call. by destruct (head (script d)) as [[]|]. Qed.
Lemma advances_call_id all (e : open_error) v : advances all (call e id) (at_version v) (at_version v).
Proof.
  apply advances_keeps; [apply keeps_call_id|]. intros d a Hd _. unfold at_version. by rewrite (proj2 (call_id_same e d)).
Qed.

Lemma migration_advances all i f : all !! i = Some f → advances all (migration i f) (at_version i) (at_version (S i)).
Proof.
  intros Hf. eapply advances_then; [apply advances_call_id|]. intros [] d Hd Hv.
  destruct (statement f (data d)) as [new|] eqn:Es.
  2:{ assert (advances all (then_ (call (BadMigration i) id) (λ _, raise (A := unit) (BadMigration i))) (at_version i) (at_version (S i))) as Ha; [|by apply Ha].
      eapply advances_then; [apply advances_call_id|]. intros _ d1 H1 H2. split_and!; [done..|]. by intros []. }
  assert (∀ (e : open_error) d, data (call e id d).2 = data d) as Hsame by (intros e d0; apply (proj1 (call_id_same e d0))).
  set (P := λ d', at_version i d' ∧ data d' = data d).
  assert (∀ e : open_error, advances all (call e id) P P) as Hid.
  { intros e. apply advances_keeps; [apply keeps_call_id|]. intros d0 a [P1 P2] _. split; [|by rewrite Hsame].
    unfold at_version. by rewrite (proj2 (call_id_same e d0)). }
  assert (advances all (then_ (call (BadMigration i) id) (λ _, then_ (call CannotRecord id) (λ _,
    call CannotCommit (λ d, d <| data := new |> <| schema_version := Some (Some (Z.of_nat (S i))) |>)))) P (at_version (S i))) as Ha; [|by apply Ha].
  eapply advances_then; [apply Hid|]. intros _. eapply advances_then; [apply Hid|]. intros _ d1 [H1 H2] [P1 P2].
  assert (applied d1 = i) as E1 by (unfold applied; rewrite P1; apply Nat2Z.id).
  assert (migrated all (after_one d1 <| data := new |> <| schema_version := Some (Some (Z.of_nat (S i))) |>)) as Hn.
  { split.
    - intros v [= <-]. apply lookup_lt_Some in Hf. lia.
    - replace (applied _) with (S i) by (unfold applied; cbn; lia). rewrite (take_S_r all i f Hf), made_by_snoc.
      rewrite E1 in H2. rewrite H2. cbn. by rewrite P2. }
  unfold call. destruct (head (script d1)) as [[]|]; cbn [fst snd]; split_and!; try done; try (by intros []); try lia;
    unfold applied at 2; cbn; lia.
Qed.

Lemma migrations_advance all i l : (∀ k f, l !! k = Some f → all !! (i + k)%nat = Some f) →
  advances all (migrations i l) (at_version i) (at_version (i + length l)).
Proof.
  revert i. induction l as [|f l IH]; intros i Hl; cbn [migrations length].
  { rewrite Nat.add_0_r. intros d Hd Hv. by split_and!. }
  eapply advances_then; [apply migration_advances; rewrite <-(Nat.add_0_r i); by apply Hl|]. intros _.
  replace (i + S (length l))%nat with (S i + length l)%nat by lia. apply IH. intros k g Hk. replace (S i + k)%nat with (i + S k)%nat by lia. by apply Hl.
Qed.

Lemma init_advances all : advances all (call CannotInit (λ d, d <| schema_version := Some (Some 0) |>)) (λ d, ∀ v, schema_version d ≠ Some (Some v)) (at_version 0).
Proof.
  intros d [H1 H2] Hn. assert (applied d = 0%nat) as E0 by (unfold applied; destruct (schema_version d) as [[v|]|]; [by destruct (Hn v)|done..]).
  set (d1 := after_one d). assert (migrated all d1 ∧ applied d1 = applied d) as [M1 E1] by (apply same_migrated; [done|by split]).
  assert (migrated all (d1 <| schema_version := Some (Some 0) |>)) as M2 by (rewrite E0 in H2; split; [intros v [= <-]; lia|exact H2]).
  unfold call. fold d1. rewrite E0. destruct (head (script d)) as [[]|]; cbn [fst snd]; split_and!; try done; try lia; by intros [].
Qed.

Lemma read_version_reads all d : migrated all d → migrated all (read_version d).2 ∧ (read_version d).1 ≠ Panicked
  ∧ (applied d ≤ applied (read_version d).2)%nat ∧ ∀ v, (read_version d).1 = Done v → schema_version (read_version d).2 = Some (Some v).
Proof.
  intros Hd. unfold read_version, then_. destruct (keeps_call_id all CannotRead d Hd) as (H1 & H2 & H3).
  destruct (call CannotRead id d) as [[[]|e| |] d1]; cbn [fst snd] in *; [|by split_and!; first [done|intros v [=]]..].
  destruct (schema_version d1) as [[v|]|] eqn:E; [cbn; split_and!; [done..|congruence]|..].
  all: destruct (init_advances all d1 H1) as (G1 & G2 & G3 & G4); [intros v; by rewrite E|].
  all: destruct (call CannotInit _ d1) as [[[]|e| |] d2]; unfold give; cbn [fst snd] in *; (split_and!; [done..|lia|]); try done.
  all: intros v [= <-]; apply G4; by eexists.
Qed.

(** ** Opening *)

Lemma migrate_advances all files : files `prefix_of` all → advances all (migrate files) (λ _, True) (λ d, (length files ≤ applied d)%nat).
Proof.
  intros [rest ->]. unfold migrate.
  eapply (advances_then _ _ _ _ (λ _, True)).
  { intros d Hd _. unfold migrationFiles. by destruct (names_ok 0 files); split_and!. }
  intros _. eapply (advances_then _ _ _ _ (λ _, True)); [intros d Hd _; destruct (keeps_create (files ++ rest) d Hd) as (? & ? & ?); by split_and!|].
  intros _ d Hd _. destruct (read_version_reads _ d Hd) as (H1 & H2 & H3 & H4). unfold then_.
  destruct (read_version d) as [[v|e| |] d1]; cbn [fst snd] in *; [|split_and!; [done..|by intros []]|done|split_and!; [done..|by intros []]].
  specialize (H4 v eq_refl). pose proof (mg_version _ _ H1 v H4) as Hv. destruct (Z.ltb_spec v 0); [lia|]. cbn [andb].
  assert (applied d1 = Z.to_nat v) as E1 by (unfold applied; by rewrite H4).
  destruct (migrations_advance (files ++ rest) (Z.to_nat v) (drop (Z.to_nat v) files)) with (d := d1) as (G1 & G2 & G3 & G4).
  - intros k f Hk. rewrite lookup_drop in Hk. by apply lookup_app_l_Some.
  - done.
  - unfold at_version. rewrite H4. do 2 f_equal. lia.
  - split_and!; [done..|lia|]. intros Hdone. specialize (G4 Hdone). unfold applied. rewrite G4, length_drop. lia.
Qed.

Lemma Open_advances all files : files `prefix_of` all →
  advances all (Open files) (λ _, True) (λ d, (length files ≤ applied d)%nat ∧ references_hold (data d) = true).
Proof.
  intros Hf. assert (∀ e : open_error, advances all (call e id) (λ _, True) (λ _, True)) as Hany.
  { intros e. by apply advances_keeps; [apply keeps_call_id|]. }
  unfold Open. do 3 (eapply (advances_then _ _ _ _ (λ _, True)); [apply Hany|intros _]).
  eapply advances_then; [by apply migrate_advances|]. intros _. set (P := λ d, (length files ≤ applied d)%nat).
  assert (∀ (e : open_error) (Q : D → Prop), advances all (call e id) (λ d, P d ∧ Q (data d)) (λ d, P d ∧ Q (data d))) as Hid.
  { intros e Q. apply advances_keeps; [apply keeps_call_id|]. intros d a [H1 H2] _. destruct (call_id_same e d) as [E1 E2].
    unfold P, applied in *. by rewrite E1, E2. }
  eapply (advances_then _ _ _ _ (λ d, P d ∧ references_hold (data d) = true)); [|intros _; apply (Hid CannotEnable (λ x, references_hold x = true))].
  eapply (advances_then _ _ _ _ (λ d, P d ∧ True)); [intros d Hd Hp; by apply (Hid CannotCheck (λ _, True))|].
  intros _ d Hd [Hp _]. destruct (references_hold (data d)) eqn:E; cbn; split_and!; try done. by intros [].
Qed.

(** ** With nothing in the way *)

Definition onward (o : option D) (l : list file) : option D := foldl (λ o f, o ≫= statement f) o l.
Lemma onward_None l : onward None l = None.
Proof. by induction l. Qed.

Lemma migrations_work i l d new : script d = [] → at_version i d → onward (Some (data d)) l = Some new →
  ∃ d', migrations i l d = (Done tt, d') ∧ data d' = new ∧ script d' = [].
Proof.
  revert i d. induction l as [|f l IH]; intros i d Hs Hv Hl; cbn [migrations].
  { injection Hl as <-. by exists d. }
  cbn in Hl. destruct (statement f (data d)) as [x|] eqn:Es; [|by rewrite onward_None in Hl].
  set (d1 := d <| data := x |> <| schema_version := Some (Some (Z.of_nat (S i))) |>).
  assert (migration i f d = (Done tt, d1)) as Hm.
  { unfold migration. rewrite then_works by done. cbn [id]. rewrite Es, then_works, then_works, call_works by done. done. }
  rewrite (then_done _ _ _ _ _ Hm). by apply (IH (S i) d1).
Qed.

Lemma read_works d : script d = [] → (∀ v, schema_version d = Some (Some v) → 0 ≤ v) →
  ∃ d', read_version d = (Done (Z.of_nat (applied d)), d') ∧ script d' = [] ∧ data d' = data d ∧ at_version (applied d) d'.
Proof.
  intros Hs Hv. unfold read_version. rewrite then_works by done. cbn [id]. unfold applied, at_version.
  destruct (schema_version d) as [[v|]|] eqn:E.
  { specialize (Hv v eq_refl). exists d. rewrite Z2Nat.id by done. by rewrite E. }
  all: rewrite then_works by done; eexists; split; [reflexivity|]; by split.
Qed.

Lemma Open_works all files d new : migrated all d → script d = [] → names_ok 0 files = None → (applied d ≤ length files)%nat → files `prefix_of` all →
  made_by files = Some new → references_hold new = true → ∃ d', Open files d = (Done tt, d') ∧ data d' = new.
Proof.
  intros [Hv Hd] Hs Hn Ha [rest ->] Hm Hr. rewrite take_app_le in Hd by done.
  assert (onward (Some (data d)) (drop (applied d) files) = Some new) as Ho.
  { rewrite <-Hm, <-Hd. unfold onward, made_by. by rewrite <-foldl_app, take_drop. }
  assert (applied (create_table d) = applied d) as E1 by (unfold applied; cbn; by destruct (schema_version d) as [[]|]).
  destruct (read_works (create_table d)) as (d2 & Hread & Hs2 & Hd2 & Hat); [done| |].
  { intros v E. apply Hv. cbn in E. by destruct (schema_version d) as [[]|]. }
  rewrite E1 in *. destruct (migrations_work (applied d) (drop (applied d) files) d2 new Hs2 Hat) as (d3 & Hmig & Hd3 & Hs3); [by rewrite Hd2|].
  assert (migrate files d = (Done tt, d3)) as Hmigrate.
  { unfold migrate, migrationFiles. rewrite Hn. rewrite (then_done (give tt) _ d tt d eq_refl), then_works, (then_done _ _ _ _ _ Hread) by done.
    destruct (Z.ltb_spec (Z.of_nat (applied d)) 0); [lia|]. cbn [andb]. by rewrite Nat2Z.id. }
  exists d3. split; [|done]. unfold Open. rewrite !then_works by done. cbn [id]. rewrite (then_done _ _ _ _ _ Hmigrate).
  assert (checkForeignKeys d3 = (Done tt, d3)) as Hc by (unfold checkForeignKeys; rewrite then_works by done; cbn [id]; by rewrite Hd3, Hr).
  rewrite (then_done _ _ _ _ _ Hc). by apply call_works.
Qed.

Definition fresh : Disk := mkDisk empty None [].
Lemma fresh_migrated all : migrated all fresh.
Proof. by split. Qed.

Lemma releases_migrated all l d : Forall (λ r, r.1 `prefix_of` all) l → migrated all d → migrated all (releases l d).
Proof.
  intros Hl. revert d. induction Hl as [|[files luck] l Hf Hl IH]; intros d Hd; cbn [releases]; [done|].
  apply IH. destruct (same_migrated all d (d <| to_come := luck |>)) as [Hd' _]; [done..|]. by apply (Open_advances all files Hf _ Hd' I).
Qed.

(** C24: every migration runs once.  A server is started again and again on its database,
    as one release after another, older ones too, and any of the calls may fail or be the
    last the process does, with or without its effect.  At every moment what is durable is
    what the first so many migrations, in order and once each, make of an empty database,
    so many being the number recorded.  A start that succeeds has run all of its own and
    found every reference good; and one that nothing goes wrong with does succeed, if the
    migrations apply and their names are in sequence. *)
Theorem every_migration_runs_once all l files luck : Forall (λ r, r.1 `prefix_of` all) l → files `prefix_of` all →
  let d := releases l fresh in
  let '(r, d') := Open files (d <| to_come := luck |>) in
  migrated all d' ∧ r ≠ Panicked ∧ (applied d ≤ applied d')%nat
  ∧ (r = Done tt → (length files ≤ applied d')%nat ∧ references_hold (data d') = true)
  ∧ (luck = [] → names_ok 0 files = None → (applied d ≤ length files)%nat → ∀ new, made_by files = Some new → references_hold new = true →
      r = Done tt ∧ data d' = new).
Proof.
  intros Hl Hf d. pose proof (releases_migrated all l fresh Hl (fresh_migrated all)) as Hd. fold d in Hd.
  destruct (same_migrated all d (d <| to_come := luck |>)) as [Hd' Ha]; [done..|].
  destruct (Open_advances all files Hf _ Hd' I) as (H1 & H2 & H3 & H4). set (d0 := d <| to_come := luck |>) in *.
  pose proof (λ new, Open_works all files d0 new Hd') as Hw. destruct (Open files d0) as [r d'] eqn:E. cbn [fst snd] in *. rewrite Ha in *.
  split_and!; [done..| |].
  - intros ->. apply H4. by eexists.
  - intros Hluck Hn Hle new Hm Hr. destruct (Hw new Hluck Hn Hle Hf Hm Hr) as (d2 & E2 & Hd2). by injection E2 as -> ->.
Qed.
End migrations.

(** Three migrations of a toy database, and a release that had two of them. *)
Definition note (n : Z) : list Z → option (list Z) := λ d, Some (d ++ [n]).
Definition three : list (file (D := list Z)) :=
  [mkFile (str "0001_devices.sql") (note 1); mkFile (str "0002_device_tokens.sql") (note 2); mkFile (str "0003_more.sql") (note 3)].
Lemma every_migration_runs_once_witness :
  let d := releases (λ _, true) [(take 2 three, [Works; Works; Works; Works; Works; Works; Works; Works; Works; DiesAfter])] (fresh []) in
  applied d = 1%nat ∧ (Open (λ _, true) three (d <| to_come := [] |>)).1 = Done tt ∧ data (Open (λ _, true) three (d <| to_come := [] |>)).2 = [1; 2; 3].
Proof.
  intros d. assert (applied d = 1%nat) as Ha by (vm_compute; reflexivity). split; [exact Ha|].
  assert (three `prefix_of` three) as Hp by done.
  pose proof (every_migration_runs_once [] (λ _, true) three
    [(take 2 three, [Works; Works; Works; Works; Works; Works; Works; Works; Works; DiesAfter])] three []) as H.
  assert (Forall (λ r, r.1 `prefix_of` three) [(take 2 three, [Works; Works; Works; Works; Works; Works; Works; Works; Works; DiesAfter])]) as Hl
    by (constructor; [by apply prefix_take|constructor]).
  specialize (H Hl Hp). cbv zeta in H. fold d in H. destruct (Open (λ _, true) three (d <| to_come := [] |>)) as [r d'].
  destruct H as (_ & _ & _ & _ & H). apply (H eq_refl); [vm_compute; reflexivity|rewrite Ha; cbn; lia|vm_compute; reflexivity|reflexivity].
Defined.
