(* ===== verification/Auth.v ===== *)
(** How a device proves who it is: src/protocol/auth/device.go.

    Ed25519 is crypto/ed25519, a parameter with the law the package documents. *)
From S2P Require Import Prelude Bytes NetText Base64.

Definition TokenScheme : gostring := str "Bearer".
Definition registerContext : gostring := str "192168-device-register-v1".

(** [RegisterMaxSkew], in nanoseconds. *)
Definition RegisterMaxSkew : Z := 5 * 60 * 10 ^ 9.

Definition PublicKeySize : nat := 32.

Class Ed25519 : Type := {
  PrivateKey : Type;
  public : PrivateKey → list Z;
  Sign : PrivateKey → list Z → list Z;
  Verify : list Z → list Z → list Z → bool;
}.

Class Ed25519Laws (C : Ed25519) : Prop := {
  public_size : ∀ k, is_bytes (public k) ∧ length (public k) = PublicKeySize;
  Sign_bytes : ∀ k msg, is_bytes (Sign k msg);
  Verify_Sign : ∀ k msg, Verify (public k) msg (Sign k msg) = true;
}.

Inductive auth_error : Type :=
  | MalformedPublicKey
  | PublicKeyLength (n : nat)
  | MalformedSignature
  | SignatureDoesNotVerify.

Definition EncodePublicKey (pub : list Z) : gostring := EncodeToString StdAlphabet pub.

Definition DecodePublicKey (encoded : gostring) : auth_error + list Z :=
  match DecodeString StdAlphabet encoded with
  | None => inl MalformedPublicKey
  | Some raw => if (length raw =? PublicKeySize)%nat then inr raw else inl (PublicKeyLength (length raw))
  end.

(** [issuedAt] is in whole seconds, which is what [time.Unix] was given and what
    [Unix()] gives back. *)
Definition RegisterSigningInput (deviceID publicKey transportKey : gostring) (issuedAt : Z) (nonce : gostring) : list Z :=
  registerContext ++ 10 :: deviceID ++ 10 :: publicKey ++ 10 :: transportKey ++ 10 :: FormatInt issuedAt ++ 10 :: nonce.

Section ed25519.
Context {C : Ed25519}.

Definition SignRegister (priv : PrivateKey) (deviceID publicKey transportKey : gostring) (issuedAt : Z) (nonce : gostring)
    : gostring :=
  EncodeToString StdAlphabet (Sign priv (RegisterSigningInput deviceID publicKey transportKey issuedAt nonce)).

Definition VerifyRegister (publicKey deviceID transportKey signature : gostring) (issuedAt : Z) (nonce : gostring)
    : auth_error + unit :=
  match DecodePublicKey publicKey with
  | inl e => inl e
  | inr pub =>
      match DecodeString StdAlphabet signature with
      | None => inl MalformedSignature
      | Some sig =>
          if Verify pub (RegisterSigningInput deviceID publicKey transportKey issuedAt nonce) sig then inr tt
          else inl SignatureDoesNotVerify
      end
  end.
End ed25519.

(** ** The lines of the signed text *)

(** A text cut at its newlines. *)
Fixpoint lines (s : gostring) : list gostring :=
  match s with
  | [] => [[]]
  | c :: s =>
      if c =? 10 then [] :: lines s
      else match lines s with l :: ls => (c :: l) :: ls | [] => [[c]] end
  end.

Definition one_line (s : gostring) : Prop := Forall (λ c, c ≠ 10) s.

Lemma lines_not_nil s : lines s ≠ [].
Proof. destruct s as [|c s]; cbn; [done|]. destruct (c =? 10); [done|]. by destruct (lines s). Qed.

Lemma lines_one s : one_line s → lines s = [s].
Proof.
  induction 1 as [|c s Hc _ IH]; [done|]. cbn. apply Z.eqb_neq in Hc. by rewrite Hc, IH.
Qed.

Lemma lines_app s t : lines (s ++ 10 :: t) = lines s ++ lines t.
Proof.
  induction s as [|c s IH]; [done|]. cbn. destruct (c =? 10); cbn; rewrite IH; [done|].
  pose proof (lines_not_nil s). by destruct (lines s).
Qed.

Lemma lines_single s : length (lines s) = 1%nat → lines s = [s].
Proof.
  induction s as [|c s IH]; [done|]. cbn. pose proof (lines_not_nil s) as Hn. destruct (c =? 10).
  - cbn. destruct (lines s); [done|]. cbn. lia.
  - destruct (lines s) as [|l ls]; [done|]. cbn in *. intros Hl. injection (IH Hl) as -> ->. done.
Qed.

Lemma one_line_decimal fuel x : 0 ≤ x → one_line (decimal fuel x).
Proof.
  revert x. induction fuel as [|fuel IH]; intros x Hx; cbn; [constructor|].
  destruct (Z.ltb_spec x 10); [repeat constructor; lia|]. apply Forall_app. split; [apply IH, Z.div_pos; lia|].
  repeat constructor. pose proof (Z.mod_pos_bound x 10). lia.
Qed.
Lemma one_line_FormatInt x : one_line (FormatInt x).
Proof.
  unfold FormatInt. destruct (Z.ltb_spec x 0); [constructor; [done|]|]; apply one_line_decimal; lia.
Qed.

(** Decimal digits say the number they are of. *)
Definition undecimal (s : gostring) : Z := foldl (λ acc c, acc * 10 + (c - 48)) 0 s.
Lemma undecimal_decimal fuel x : 0 ≤ x < 10 ^ Z.of_nat fuel → undecimal (decimal fuel x) = x.
Proof.
  revert x. induction fuel as [|fuel IH]; intros x Hx; [cbn in *; lia|]. cbn [decimal].
  destruct (Z.ltb_spec x 10); [unfold undecimal; cbn; lia|]. unfold undecimal. rewrite foldl_app.
  fold (undecimal (decimal fuel (x / 10))). rewrite IH.
  - cbn. pose proof (Z.div_mod x 10). lia.
  - split; [apply Z.div_pos; lia|]. apply Z.div_lt_upper_bound; [lia|].
    rewrite Nat2Z.inj_succ, Z.pow_succ_r in Hx by lia. lia.
Qed.

Lemma decimal_head fuel x c s : 0 ≤ x → decimal fuel x = c :: s → 48 ≤ c.
Proof.
  revert x c s. induction fuel as [|fuel IH]; intros x c s Hx; cbn [decimal]; [done|].
  destruct (Z.ltb_spec x 10); [intros [= <- _]; lia|]. destruct (decimal fuel (x / 10)) as [|c' s'] eqn:E; cbn.
  - intros [= <- _]. pose proof (Z.mod_pos_bound x 10). lia.
  - intros [= <- _]. eapply IH; [|exact E]. apply Z.div_pos; lia.
Qed.

Lemma FormatInt_inj x y : - 2 ^ 63 ≤ x < 2 ^ 63 → - 2 ^ 63 ≤ y < 2 ^ 63 → FormatInt x = FormatInt y → x = y.
Proof.
  assert (Hp : ∀ z, 0 ≤ z ≤ 2 ^ 63 → undecimal (decimal 20 z) = z).
  { intros z Hz. apply undecimal_decimal. change (10 ^ Z.of_nat 20) with 100000000000000000000. lia. }
  intros Hx Hy. unfold FormatInt. generalize (decimal_head 20). revert Hp. generalize (decimal 20). intros dec Hp Hhead.
  destruct (Z.ltb_spec x 0), (Z.ltb_spec y 0); intros E.
  - injection E as E. apply (f_equal undecimal) in E. rewrite !Hp in E by lia. lia.
  - symmetry in E. apply Hhead in E; lia.
  - apply Hhead in E; lia.
  - apply (f_equal undecimal) in E. by rewrite !Hp in E by lia.
Qed.

(** A signature vouches for one registration.  What an honest device signs, with
    fields of one line each, is signed text for that registration alone: any other
    device id, keys, time or nonce, with line breaks put wherever somebody likes, gives
    a different text.  And a registration signed with the key it registers
    verifies. *)
Theorem a_signature_vouches_for_one_registration {C : Ed25519} {L : Ed25519Laws C} :
  (∀ d p t i n d' p' t' i' n',
    one_line d → one_line p → one_line t → one_line n → - 2 ^ 63 ≤ i < 2 ^ 63 → - 2 ^ 63 ≤ i' < 2 ^ 63 →
    RegisterSigningInput d p t i n = RegisterSigningInput d' p' t' i' n' →
    d' = d ∧ p' = p ∧ t' = t ∧ i' = i ∧ n' = n)
  ∧ ∀ priv d t i n, let p := EncodePublicKey (public priv) in
      VerifyRegister p d t (SignRegister priv d p t i n) i n = inr tt.
Proof.
  split.
  - intros d p t i n d' p' t' i' n' Hd Hp Ht Hn Hi Hi' E. apply (f_equal lines) in E.
    unfold RegisterSigningInput in E. rewrite !lines_app in E. apply app_inj_1 in E as [_ E]; [|done].
    rewrite (lines_one d), (lines_one p), (lines_one t), (lines_one n), !(lines_one (FormatInt _)) in E
      by (done || apply one_line_FormatInt).
    assert (Hlen := f_equal length E). rewrite !length_app in Hlen. cbn [length] in Hlen.
    assert (∀ s, (1 ≤ length (lines s))%nat) as H1 by
      (intros s; pose proof (lines_not_nil s); destruct (lines s); [done|cbn; lia]).
    pose proof (H1 d'). pose proof (H1 p'). pose proof (H1 t'). pose proof (H1 n').
    rewrite (lines_single d'), (lines_single p'), (lines_single t'), (lines_single n') in E by lia.
    injection E as <- <- <- E <-. split_and!; try done. symmetry. by apply FormatInt_inj.
  - intros priv d t i n p. unfold VerifyRegister, DecodePublicKey, p, EncodePublicKey, SignRegister.
    destruct (public_size priv) as [Hb Hl]. rewrite !DecodeString_Encode by (auto with vlan || apply Sign_bytes).
    rewrite Hl, Nat.eqb_refl. by rewrite Verify_Sign.
Qed.

(** A signature scheme to run examples on: two keys, and a sum for a signature. *)
Module Toy.
#[local] Instance scheme : Ed25519 := {|
  PrivateKey := bool;
  public k := replicate 32 (if k then 7 else 9);
  Sign k msg := be_encode 8 (foldr Z.add (if k then 7 else 9) msg);
  Verify pub msg sig := bool_decide (sig = be_encode 8 (foldr Z.add (default 0 (head pub)) msg));
|}.
#[local] Instance scheme_laws : Ed25519Laws scheme.
Proof.
  split.
  - intros k. split; [|done]. destruct k; apply (bool_decide_unpack _); by vm_compute.
  - intros k msg. apply is_bytes_be_encode.
  - intros k msg. apply bool_decide_eq_true. by destruct k.
Qed.
End Toy.

Lemma a_signature_vouches_for_one_registration_witness :
  @VerifyRegister Toy.scheme (EncodePublicKey (replicate 32 7)) (str "device") (str "transport")
    (@SignRegister Toy.scheme true (str "device") (EncodePublicKey (replicate 32 7)) (str "transport") 1700000000 (str "nonce"))
    1700000000 (str "nonce") = inr tt
  ∧ @VerifyRegister Toy.scheme (EncodePublicKey (replicate 32 7)) (str "device") (str "transport")
    (@SignRegister Toy.scheme true (str "device") (EncodePublicKey (replicate 32 7)) (str "transport") 1700000000 (str "nonce"))
    1700000001 (str "nonce") = inl SignatureDoesNotVerify.
Proof.
  split; [|vm_compute; reflexivity].
  exact (proj2 (@a_signature_vouches_for_one_registration Toy.scheme Toy.scheme_laws) true (str "device") (str "transport")
    1700000000 (str "nonce")).
Defined.
