(* ===== verification/Limits.v ===== *)
(** The rate limiter of the control plane: src/server/api/middleware.go, [rateLimiter].

    [allow] reads the clock and then takes the lock: [now] is what the clock said, and a
    history lists the attempts in the order the lock let them in, which need not be the
    order of their times.  Times are in nanoseconds.  [allow] filters the attempts of a key in place, in the
    slice it reads; writing never overtakes reading, so the result is the list filtered. *)
From S2P Require Import Prelude Bytes.

Record rateLimiter : Type := mkLimiter {
  limit : nat;
  window : Z;
  attempts : gmap gostring (list Z);
}.
#[export] Instance eta_rateLimiter : Settable rateLimiter := λ l, mkLimiter (limit l) (window l) (attempts l).

Definition newRateLimiter (limit : nat) (window : Z) : rateLimiter := mkLimiter limit window ∅.

Definition recent (l : rateLimiter) (key : gostring) (now : Z) : list Z :=
  filter (λ at_, now - window l < at_) (default [] (attempts l !! key)).

Definition allow (key : gostring) (now : Z) (l : rateLimiter) : bool * rateLimiter :=
  let kept := recent l key now in
  if (limit l <=? length kept)%nat then (false, l <| attempts := <[key := kept]> (attempts l) |>)
  else (true, l <| attempts := <[key := kept ++ [now]]> (attempts l) |>).

(** A history of attempts by one caller or many, in the order of the lock: the times at
    which [key] was let through. *)
Fixpoint run_allows (l : rateLimiter) (history : list (gostring * Z)) (key : gostring) : list Z :=
  match history with
  | [] => []
  | (k, now) :: rest =>
      let '(ok, l') := allow k now l in
      (if ok && bool_decide (k = key) then [now] else []) ++ run_allows l' rest key
  end.

(** The times of one key's attempts, and how far any of them lies behind one that got the
    lock before it. *)
Definition times (key : gostring) (history : list (gostring * Z)) : list Z :=
  omap (λ '(k, now), if bool_decide (k = key) then Some now else None) history.
Fixpoint lag_after (high : Z) (ts : list Z) : Z :=
  match ts with
  | [] => 0
  | now :: ts => Z.max (high - now) (lag_after (Z.max high now) ts)
  end.
Definition lag (ts : list Z) : Z :=
  match ts with [] => 0 | now :: ts => lag_after now ts end.

(** Those of [ts] in the window that ends at [t]. *)
Definition in_window (w t : Z) (ts : list Z) : list Z := filter (λ at_, t - w < at_ ≤ t) ts.

Lemma filter_narrower (P Q : Z → Prop) `{!∀ x, Decision (P x), !∀ x, Decision (Q x)} (l : list Z) :
  (∀ x, P x → Q x) → filter P (filter Q l) = filter P l.
Proof.
  intros Hpq. induction l as [|x l IH]; [done|]. destruct (decide (Q x)) as [Hq|Hq].
  - rewrite (filter_cons_True Q) by done. destruct (decide (P x)); [by rewrite !filter_cons_True, IH|by rewrite !filter_cons_False].
  - rewrite (filter_cons_False Q), (filter_cons_False P) by (done || auto). exact IH.
Qed.

Lemma filter_shrinks (P Q : Z → Prop) `{!∀ x, Decision (P x), !∀ x, Decision (Q x)} (l : list Z) :
  (∀ x, x ∈ l → P x → Q x) → (length (filter P l) ≤ length (filter Q l))%nat.
Proof.
  induction l as [|x l IH]; intros Hpq; [done|]. assert (∀ y, y ∈ l → P y → Q y) as Hl by (intros y Hy; apply Hpq; by right).
  specialize (IH Hl). destruct (decide (P x)) as [Hp|Hp].
  - rewrite !filter_cons_True by (done || (apply Hpq; [by left|done])). cbn. lia.
  - rewrite filter_cons_False by done. destruct (decide (Q x)); [rewrite filter_cons_True by done; cbn; lia|by rewrite filter_cons_False].
Qed.

Lemma lag_after_nonneg high ts : 0 ≤ lag_after high ts.
Proof. revert high. induction ts as [|now ts IH]; intros high; cbn; [lia|]. specialize (IH (Z.max high now)). lia. Qed.

(** Attempts whose times follow the lock lag behind nothing. *)
Lemma lag_in_order ts : Sorted Z.le ts → lag ts = 0.
Proof.
  destruct ts as [|now ts]; [done|]. cbn. revert now. induction ts as [|x ts IH]; intros now Hs; [done|].
  apply Sorted_inv in Hs as [Hs Hd]. apply HdRel_inv in Hd. cbn. rewrite (Z.max_r now x) by done. rewrite (IH x Hs). lia.
Qed.

(** What the limiter remembers of [key] is enough, for windows shorter by [late]: of the
    attempts let through, those that are in any window which has not ended [late] ago. *)
Definition remembers (l : rateLimiter) (key : gostring) (late high : Z) (granted : list Z) : Prop :=
  ∀ t, high - late ≤ t →
    filter (λ at_, t - (window l - late) < at_) granted
    = filter (λ at_, t - (window l - late) < at_) (default [] (attempts l !! key)).

Lemma remembers_allow l k key late high now granted ok l' :
  remembers l key late high granted → 0 ≤ late → (k = key → high - now ≤ late) → allow k now l = (ok, l') →
  remembers l' key late (if bool_decide (k = key) then Z.max high now else high)
    (granted ++ (if ok && bool_decide (k = key) then [now] else []))
  ∧ window l' = window l ∧ limit l' = limit l
  ∧ (ok = true → k = key → ∀ t, now ≤ t → (length (filter (λ at_, (t - (window l - late) < at_)%Z) granted) < limit l)%nat).
Proof.
  intros Hr Hpos Hlate. unfold allow. set (kept := recent l k now).
  assert (Hkept : k = key → ∀ t, Z.max high now - late ≤ t → filter (λ at_, t - (window l - late) < at_) kept
      = filter (λ at_, t - (window l - late) < at_) granted).
  { intros -> t Ht. unfold kept, recent. rewrite filter_narrower by (intros; lia). symmetry. apply Hr. lia. }
  destruct (bool_decide_reflect (k = key)) as [->|Hne].
  - specialize (Hlate eq_refl). specialize (Hkept eq_refl).
    destruct (Nat.leb_spec (limit l) (length kept)) as [|Hroom]; intros [= <- <-]; cbn [andb]; rewrite ?app_nil_r;
      (split_and!; [|done|done|]); try done.
    + intros t Ht. cbn in *. rewrite lookup_insert_eq. cbn. by rewrite Hkept.
    + intros t Ht. cbn in *. rewrite lookup_insert_eq. cbn. by rewrite !filter_app, Hkept.
    + intros _ _ t Ht. rewrite <-(Hkept t) by lia. eapply Nat.le_lt_trans; [apply length_filter|exact Hroom].
  - rewrite andb_false_r, app_nil_r. case_match; intros [= <- <-]; (split_and!; [|done|done|done]);
      intros t Ht; cbn in *; rewrite lookup_insert_ne by done; by apply Hr.
Qed.

Definition bounded (n : nat) (w : Z) (granted : list Z) : Prop := ∀ t, (length (in_window w t granted) ≤ n)%nat.

(** One more attempt let through keeps every window within the limit. *)
Lemma bounded_snoc n w granted now : bounded n w granted →
  (∀ t, now ≤ t → (length (filter (λ at_, (t - w < at_)%Z) granted) < n)%nat) → bounded n w (granted ++ [now]).
Proof.
  intros Hb Hroom t. unfold in_window. rewrite filter_app, length_app.
  destruct (decide (t - w < now ≤ t)) as [Hin|Hout].
  - rewrite (filter_cons_True _ now) by done. cbn. specialize (Hroom t ltac:(lia)).
    enough (length (filter (λ at_, (t - w < at_ ≤ t)%Z) granted) ≤ length (filter (λ at_, (t - w < at_)%Z) granted))%nat by lia.
    apply filter_shrinks. lia.
  - rewrite (filter_cons_False _ now) by done. cbn. rewrite Nat.add_0_r. apply Hb.
Qed.

Lemma run_allows_bounded history l key late high granted :
  remembers l key late high granted → 0 ≤ late → lag_after high (times key history) ≤ late →
  bounded (limit l) (window l - late) granted → bounded (limit l) (window l - late) (granted ++ run_allows l history key).
Proof.
  revert l high granted. induction history as [|[k now] history IH]; intros l high granted Hr Hpos Hn Hb; cbn [run_allows].
  { by rewrite app_nil_r. }
  destruct (allow k now l) as [ok l'] eqn:E. cbn [times omap list_omap] in Hn. fold (times key history) in Hn.
  assert (k = key → high - now ≤ late) as Hlate.
  { intros ->. rewrite bool_decide_eq_true_2 in Hn by done. cbn in Hn. lia. }
  destruct (remembers_allow _ _ _ _ _ _ _ _ _ Hr Hpos Hlate E) as (Hr' & Ew & El & Hroom).
  rewrite app_assoc, <-Ew, <-El. eapply IH; [exact Hr'|done| |].
  - case_bool_decide; [cbn in Hn; lia|done].
  - rewrite Ew, El. destruct ok; cbn [andb]; [|by rewrite app_nil_r].
    case_bool_decide; [|by rewrite app_nil_r]. by apply bounded_snoc; [|apply Hroom].
Qed.

(** C28: the limit holds in every window.  Whoever calls in between, however the attempts
    bunch up and in whatever order the lock takes them: of the attempts of one key that
    were let through, no more than [limit] lie in any stretch of time that is shorter than
    the window by as much as an attempt of that key was overtaken between reading the clock
    and taking the lock, wherever it begins.  With attempts taken in the order of their
    times that is the whole window ([lag_in_order]). *)
Theorem the_limit_holds_in_every_window n w history key t :
  (length (in_window (w - lag (times key history)) t (run_allows (newRateLimiter n w) history key)) ≤ n)%nat.
Proof.
  set (late := lag (times key history)).
  assert (0 ≤ late) as Hpos by (subst late; destruct (times key history); [done|apply lag_after_nonneg]).
  assert (∃ high, lag_after high (times key history) ≤ late) as [high Hh].
  { subst late. destruct (times key history) as [|now ts]; [by exists 0|]. exists now. cbn.
    pose proof (lag_after_nonneg (Z.max now now) ts). rewrite Z.max_id in *. lia. }
  apply (run_allows_bounded history (newRateLimiter n w) key late high []); [done|done|done|].
  intros t'. cbn. lia.
Qed.

(** What the lag takes off is really lost: two attempts that read the clock at 2 and 3 and
    get the lock after one of 11, which drops those of 0 and 1, make four within a window
    of ten and a limit of three. *)
Example overtaken_attempts_crowd_a_window :
  let history := (λ now, (str "a", now)) <$> [0; 1; 11; 2; 3] in
  lag (times (str "a") history) = 9 ∧ length (in_window 10 9 (run_allows (newRateLimiter 3 10) history (str "a"))) = 4%nat.
Proof. by vm_compute. Qed.
