(* ===== verification/ApiTypes.v ===== *)
(** The payloads of the control plane: src/protocol/api.

    JSON is a matter of field tags; a payload here is the Go struct, a pointer field
    an option. *)
From S2P Require Import Prelude Bytes Schema.

Record Endpoint : Type := mkEndpoint { Protocol : gostring; Address : gostring; Port : Z }.

Record Peer : Type := mkPeer {
  pr_DeviceID : gostring; pr_Nickname : gostring; pr_VirtualIP : gostring; pr_TransportKey : gostring;
  pr_Endpoint : option Endpoint }.

Record Membership : Type := mkMembershipJSON {
  MembershipID : gostring; GroupID : gostring; GroupName : gostring; GroupIcon : gostring; GroupColor : gostring;
  Subnet : gostring; VirtualIP : gostring; MemberRole : Role; InviteCode : gostring;
  OnlineMembers : option Z; Members : option Z }.

Record Member : Type := mkMember {
  mm_DeviceID : gostring; mm_Nickname : gostring; mm_VirtualIP : gostring; mm_Role : Role; mm_Online : bool }.

Record RegisterDeviceRequest : Type := mkRegisterDeviceRequest {
  DeviceID : gostring; PublicKey : gostring; TransportKey : gostring; DeviceName : gostring; IssuedAt : Z;
  Nonce : gostring; Signature : gostring }.
Record CreateGroupRequest : Type := mkCreateGroupRequest { Name : gostring; Icon : gostring; Color : gostring }.
Record SetGroupAppearanceRequest : Type := mkSetGroupAppearanceRequest { look_Icon : gostring; look_Color : gostring }.

Record Invite : Type := mkInvite {
  Code : gostring; inv_GroupName : gostring; inv_GroupIcon : gostring; inv_GroupColor : gostring; inv_Members : Z }.

(** What a server says about itself. *)
Record Features : Type := mkFeatures { ft_Relay : bool; ft_PeerRouting : bool }.
Record Discovery : Type := mkDiscovery {
  d_Version : Z; d_API : gostring; d_Realtime : gostring; d_STUN : list gostring; d_Invite : gostring;
  d_Relay : option gostring; d_Features : Features }.
Definition DiscoveryVersion : Z := 1.

(** What the page of an invite link is drawn from. *)
Record view : Type := mkView { v_Invite : option Invite; v_Members : gostring; v_DeepLink : gostring; v_Download : gostring }.

(** What a response carries; of a file of the web site, the path it was asked for under. *)
Inductive body : Type :=
  | NoBody
  | ErrorBody (code message : string)
  | RegisterDeviceResponse (deviceToken : gostring)
  | Me (deviceID nickname : gostring)
  | OneMembership (m : Membership)
  | Memberships (ms : list Membership)
  | MembersResponse (ms : list Member)
  | InviteBody (i : Invite)
  | InviteCodeResponse (code : gostring)
  | CreateSessionResponse (sessionID virtualIP : gostring) (peers : list Peer)
  | DiscoveryBody (d : Discovery)
  | HealthBody (fields : list (string * gostring))
  | InvitePage (v : view)
  | SiteFile (path : gostring)
  | Upgraded.

Record response : Type := mkResponse { status : Z; payload : body }.

(** The stable error codes. *)
Definition ErrBadRequest : string := "bad_request".
Definition ErrUnauthorized : string := "unauthorized".
Definition ErrGroupNotFound : string := "group_not_found".
Definition ErrInviteInvalid : string := "invite_invalid".
Definition ErrMembershipRevoked : string := "membership_revoked".
Definition ErrSessionInvalid : string := "session_invalid".
Definition CodeGroupFull : string := "group_full".
Definition ErrRateLimited : string := "rate_limited".
Definition CodeForbidden : string := "forbidden".
Definition ErrInternal : string := "internal".

(** A realtime event: its type and data in one. *)
Inductive Event : Type :=
  | EventPeerOnline (peer : Peer)
  | EventPeerOffline (deviceID : gostring)
  | EventPeerEndpointUpdated (deviceID : gostring) (endpoint : Endpoint)
  | EventPeerRenamed (deviceID nickname : gostring)
  | EventMembershipRevoked (deviceID : gostring)
  | EventGroupUpdated (groupID name icon color : gostring)
  | EventGroupDeleted (groupID : gostring).
