(* ===== verification/ServerConfig.v ===== *)
(** What the server is told by its environment, server/config, and what it says of itself:
    the discovery document and the health of server/api/router.go.

    The environment is a function, as [os.Getenv] is one.  [url.Parse] is a parameter,
    told apart from what it reads out of a URL. *)
From S2P Require Import Prelude Bytes NetText Invite ApiTypes.

Abbreviation environment := (string → gostring) (only parsing).
Abbreviation url_parser := (gostring → gostring + gostring * gostring * gostring) (only parsing).

Definition isLoopback (host : gostring) : bool := bool_decide (host ∈ [str "localhost"; str "127.0.0.1"; str "::1"]).

(** [strings.TrimRight(s, "/")] *)
Definition TrimRightSlash (s : gostring) : gostring := trim_right (Z.eqb 47) s.

Module Server.
Definition DefaultSTUN : list gostring := [str "stun:stun.l.google.com:19302"].

Record Config : Type := mkConfig { Addr : gostring; PublicURL : gostring; STUN : list gostring; DatabaseURL : gostring; Version : gostring }.
#[export] Instance eta_Config : Settable Config := λ c, mkConfig (Addr c) (PublicURL c) (STUN c) (DatabaseURL c) (Version c).

Inductive config_error : Type := NoPublicURL | NotAURL | NoHost | MustUseHTTPS.

(** [strings.Split] by one byte. *)
Fixpoint Split (sep : Z) (s : gostring) : list gostring :=
  match s with
  | [] => [[]]
  | c :: s =>
      if c =? sep then [] :: Split sep s
      else match Split sep s with part :: parts => (c :: part) :: parts | [] => [[c]] end
  end.
Definition splitAndTrim (raw : gostring) : list gostring :=
  omap (λ p, let p := TrimSpace p in if bool_decide (p = []) then None else Some p) (Split 44 raw).

Definition listenAddress (getenv : environment) : gostring :=
  let addr := getenv "NET192168_ADDR"%string in
  if negb (bool_decide (addr = [])) then addr else
  let port := getenv "PORT"%string in
  if negb (bool_decide (port = [])) then 58 :: port else str ":8080".

Definition checkPublicURL (url_parse : url_parser) (raw : gostring) : option config_error :=
  match url_parse raw with
  | inl _ => Some NotAURL
  | inr (scheme, host, hostname) =>
      if bool_decide (host = []) then Some NoHost else
      if bool_decide (scheme = str "https") || isLoopback hostname then None else Some MustUseHTTPS
  end.

Definition Load (url_parse : url_parser) (getenv : environment) : config_error + Config :=
  let stun := getenv "NET192168_STUN"%string in
  let c := mkConfig (listenAddress getenv) (TrimRightSlash (TrimSpace (getenv "NET192168_PUBLIC_URL"%string)))
    (if bool_decide (stun = []) then DefaultSTUN else splitAndTrim stun) (getenv "NET192168_DATABASE_URL"%string) [] in
  if bool_decide (PublicURL c = []) then inl NoPublicURL else
  match checkPublicURL url_parse (PublicURL c) with
  | Some e => inl e
  | None => inr c
  end.

Definition APIURL (c : Config) : gostring := PublicURL c ++ str "/api".

(** [strings.CutPrefix], and [strings.TrimPrefix]. *)
Definition CutPrefix (s prefix : gostring) : option gostring :=
  if bool_decide (take (length prefix) s = prefix) then Some (drop (length prefix) s) else None.
Definition RealtimeURL (c : Config) : gostring :=
  match CutPrefix (PublicURL c) (str "https://") with
  | Some rest => str "wss://" ++ rest ++ str "/realtime"
  | None => str "ws://" ++ default (PublicURL c) (CutPrefix (PublicURL c) (str "http://")) ++ str "/realtime"
  end.

(** What [handleDiscovery] writes. *)
Definition document (c : Config) : Discovery :=
  mkDiscovery DiscoveryVersion (APIURL c) (RealtimeURL c) (STUN c) (PublicURL c ++ Path) None (mkFeatures false false).

(** The fields [handleHealth] writes. *)
Definition health (c : Config) : list (string * gostring) := [("status", str "ok"); ("version", Version c)]%string.
End Server.
