(* ===== verification/Hub.v ===== *)
(** The realtime hub: src/server/realtime/hub.go.

    A subscriber is a pointer; its channel is the events queued in it and whether it
    is closed.  Closing a closed channel and sending on one are panics of the Go
    runtime, and are panics here.  A map is walked in the order [walk] says.

    Each method is what one goroutine does alone.  Two mutexes make its parts atomic
    but not its whole, so the parts are also given one by one, as [hub_act]: what
    several goroutines do between them is a list of those in any order. *)
From S2P Require Import Prelude Bytes Schema ApiTypes.

(** [sendBuffer]: the room in a subscriber's channel. *)
Definition sendBuffer : nat := 16.

Abbreviation sub_ref := positive.

Record Subscriber : Type := mkSubscriber {
  sub_DeviceID : gostring;
  sub_GroupID : gostring;
  send : list Event;
  chan_closed : bool;
  closed : bool;
}.
#[export] Instance eta_Subscriber : Settable Subscriber := λ s,
  mkSubscriber (sub_DeviceID s) (sub_GroupID s) (send s) (chan_closed s) (closed s).

Record Hub : Type := mkHub {
  groups : gmap gostring (gset sub_ref);
  subscribers : gmap sub_ref Subscriber;
  next_sub : sub_ref;
  warnings : list (gostring * gostring);
}.
#[export] Instance eta_Hub : Settable Hub := λ h, mkHub (groups h) (subscribers h) (next_sub h) (warnings h).

Definition NewHub : Hub := mkHub ∅ ∅ 1 [].

Abbreviation H := (prog Hub).

(** ** The atomic parts *)

(** [s.mu.Lock(); ...]: what a method does to one subscriber. *)
Definition with_sub {A} (r : sub_ref) (f : Subscriber → option (A * Subscriber)) : H A := λ h,
  match subscribers h !! r with
  | None => None
  | Some s => match f s with
              | None => None
              | Some (a, s') => Some (a, h <| subscribers := <[r := s']> (subscribers h) |>)
              end
  end.

Definition Subscribe (groupID deviceID : gostring) : H sub_ref := λ h,
  let r := next_sub h in
  Some (r, h <| subscribers := <[r := mkSubscriber deviceID groupID [] false false]> (subscribers h) |>
             <| groups := <[groupID := {[r]} ∪ default ∅ (groups h !! groupID)]> (groups h) |>
             <| next_sub := Pos.succ r |>).

(** The half of [Unsubscribe] under the hub's lock. *)
Definition forget (r : sub_ref) : H unit := λ h,
  match subscribers h !! r with
  | None => None
  | Some s =>
      Some (tt, match groups h !! sub_GroupID s with
                | None => h
                | Some subs =>
                    let subs := subs ∖ {[r]} in
                    h <| groups := if bool_decide (subs = ∅) then delete (sub_GroupID s) (groups h)
                                   else <[sub_GroupID s := subs]> (groups h) |>
                end)
  end.

(** [close(s.send)], guarded by [s.closed]. *)
Definition close_chan (s : Subscriber) : option Subscriber :=
  if chan_closed s then None else Some (s <| chan_closed := true |>).
Definition close (r : sub_ref) : H unit :=
  with_sub r (λ s, if closed s then Some (tt, s) else s' ← close_chan (s <| closed := true |>); Some (tt, s')).

(** [select { case s.send <- payload: return true; default: return false }] *)
Definition send_chan (e : Event) (s : Subscriber) : option (bool * Subscriber) :=
  if chan_closed s then None
  else if (length (send s) <? sendBuffer)%nat then Some (true, s <| send := send s ++ [e] |>)
  else Some (false, s).
Definition deliver (e : Event) (r : sub_ref) : H bool :=
  with_sub r (λ s, if closed s then Some (false, s) else send_chan e s).

(** The connection's side: the oldest event, nothing yet, or the end. *)
Definition receive (r : sub_ref) : H (option Event) :=
  with_sub r (λ s, match send s with
                   | e :: rest => Some (Some e, s <| send := rest |>)
                   | [] => Some (None, s)
                   end).

(** Whether there will be no other. *)
Definition ended (r : sub_ref) : H bool := with_sub r (λ s, Some (chan_closed s, s)).

(** ** The methods *)
Definition Unsubscribe (r : sub_ref) : H unit := forget r ≫= λ _, close r.

(** Who in a group [p] picks, in the order the map is walked. *)
Definition targets (walk : list sub_ref → list sub_ref) (groupID : gostring) (p : gostring → bool) : H (list sub_ref) := λ h,
  Some (walk (filter (λ r, from_option (λ s, p (sub_DeviceID s)) false (subscribers h !! r) = true)
                (elements (default ∅ (groups h !! groupID)))), h).

Definition warn_dropped (r : sub_ref) : H unit :=
  with_sub r (λ s, Some ((sub_DeviceID s, sub_GroupID s), s)) ≫= λ who,
  modify (λ h, h <| warnings := warnings h ++ [who] |>).

Definition deliver_or_drop (e : Event) (r : sub_ref) : H unit :=
  ok ← deliver e r;
  if (ok : bool) then mret tt else warn_dropped r ≫= λ _, Unsubscribe r.

Definition Broadcast (walk : list sub_ref → list sub_ref) (groupID exceptDeviceID : gostring) (e : Event) : H unit :=
  ts ← targets walk groupID (λ d, bool_decide (d ≠ exceptDeviceID));
  for_each ts (deliver_or_drop e).

Definition SendTo (walk : list sub_ref → list sub_ref) (groupID deviceID : gostring) (e : Event) : H unit :=
  ts ← targets walk groupID (λ d, bool_decide (d = deviceID));
  for_each ts (λ r, deliver e r ≫= λ _, mret tt).

(** ** What goroutines do between them *)
Inductive hub_act : Type :=
  | ActSubscribe (groupID deviceID : gostring)
  | ActForget (r : sub_ref)
  | ActClose (r : sub_ref)
  | ActTargets (groupID exceptDeviceID : gostring)
  | ActDeliver (e : Event) (r : sub_ref)
  | ActReceive (r : sub_ref).

Definition run_act (a : hub_act) : H unit :=
  match a with
  | ActSubscribe g d => Subscribe g d ≫= λ _, mret tt
  | ActForget r => forget r
  | ActClose r => close r
  | ActTargets g d => targets id g (λ d', bool_decide (d' ≠ d)) ≫= λ _, mret tt
  | ActDeliver e r => deliver e r ≫= λ _, mret tt
  | ActReceive r => receive r ≫= λ _, mret tt
  end.

(** The subscriber an act is about is one somebody got from [Subscribe]. *)
Definition act_ok (h : Hub) (a : hub_act) : Prop :=
  match a with
  | ActForget r | ActClose r | ActDeliver _ r | ActReceive r => is_Some (subscribers h !! r)
  | _ => True
  end.

Inductive hub_run : Hub → list hub_act → Hub → Prop :=
  | hub_done h : hub_run h [] h
  | hub_more h a h1 l h2 : act_ok h a → run_act a h = Some (tt, h1) → hub_run h1 l h2 → hub_run h (a :: l) h2.

(** ** Invariant *)
Record hub_wf (h : Hub) : Prop := mkHubWf {
  (** The flag and the channel agree, and the queue fits its buffer. *)
  sub_closed : ∀ r s, subscribers h !! r = Some s → closed s = chan_closed s ∧ (length (send s) ≤ sendBuffer)%nat;
  (** Who is listed under a group subscribed to it, and no list is empty. *)
  sub_listed : ∀ g subs r, groups h !! g = Some subs → r ∈ subs → ∃ s, subscribers h !! r = Some s ∧ sub_GroupID s = g;
  sub_not_empty : ∀ g subs, groups h !! g = Some subs → subs ≠ ∅;
  sub_fresh : ∀ r, is_Some (subscribers h !! r) → (r < next_sub h)%positive;
}.

Definition listed (h : Hub) (groupID : gostring) : gset sub_ref := default ∅ (groups h !! groupID).

Lemma hub_wf_New : hub_wf NewHub.
Proof. constructor; [done..|]. by intros r [s Hr]. Qed.

Lemma listed_sub h g r : hub_wf h → r ∈ listed h g → ∃ s, subscribers h !! r = Some s ∧ sub_GroupID s = g.
Proof.
  unfold listed. intros Hwf Hr. destruct (groups h !! g) as [subs|] eqn:E; [|set_solver]. by eapply sub_listed.
Qed.

(** Changing a subscriber's channel keeps the invariant. *)
Lemma hub_wf_update h r s s' :
  hub_wf h → subscribers h !! r = Some s → sub_GroupID s' = sub_GroupID s →
  closed s' = chan_closed s' → (length (send s') ≤ sendBuffer)%nat →
  hub_wf (h <| subscribers := <[r := s']> (subscribers h) |>).
Proof.
  intros Hwf Hr Hg Hc Hl. constructor; cbn.
  - intros r1 s1 H1. destruct (decide (r1 = r)) as [->|]; [rewrite lookup_insert_eq in H1; injection H1 as <-; done|].
    rewrite lookup_insert_ne in H1 by done. by eapply sub_closed.
  - intros g subs r1 Hs H1. destruct (sub_listed h Hwf g subs r1 Hs H1) as (s1 & Hs1 & Hg1).
    destruct (decide (r1 = r)) as [->|]; [exists s'; rewrite lookup_insert_eq; split; congruence|].
    exists s1. by rewrite lookup_insert_ne.
  - apply Hwf.
  - intros r1 H1. apply (sub_fresh h Hwf). destruct (decide (r1 = r)) as [->|]; [by eexists|by rewrite lookup_insert_ne in H1].
Qed.

Lemma wp_with_sub {A} h r s (f : Subscriber → option (A * Subscriber)) (Q : A → Hub → Prop) :
  subscribers h !! r = Some s →
  match f s with Some (a, s') => Q a (h <| subscribers := <[r := s']> (subscribers h) |>) | None => False end → wp (with_sub r f) Q h.
Proof. intros Hs HQ. unfold wp, with_sub. rewrite Hs. by destruct (f s) as [[a s']|]. Qed.

Lemma same_sub h r s : subscribers h !! r = Some s → h <| subscribers := <[r := s]> (subscribers h) |> = h.
Proof. intros Hs. rewrite insert_id by done. by destruct h. Qed.

Lemma wp_close h r s (Q : unit → Hub → Prop) :
  hub_wf h → subscribers h !! r = Some s →
  (let s' := s <| closed := true |> <| chan_closed := true |> in
   let h' := h <| subscribers := <[r := s']> (subscribers h) |> in hub_wf h' → Q tt h') → wp (close r) Q h.
Proof.
  intros Hwf Hr HQ. destruct (sub_closed h Hwf r s Hr) as [Hc Hl].
  assert (Hwf' : hub_wf (h <| subscribers := <[r := s <| closed := true |> <| chan_closed := true |>]> (subscribers h) |>)) by
    (by apply (hub_wf_update h r s)).
  specialize (HQ Hwf').
  unfold wp, close, with_sub. rewrite Hr. destruct (closed s) eqn:Ec.
  - destruct s; cbn in *; subst; exact HQ.
  - unfold close_chan. cbn [chan_closed set_field eta_Subscriber]. rewrite <-Hc. exact HQ.
Qed.

Lemma wp_forget h r s (Q : unit → Hub → Prop) :
  hub_wf h → subscribers h !! r = Some s →
  (∀ h', hub_wf h' → subscribers h' = subscribers h → warnings h' = warnings h →
     (∀ g, listed h' g = listed h g ∖ {[r]}) → Q tt h') → wp (forget r) Q h.
Proof.
  intros Hwf Hr HQ. unfold wp, forget. rewrite Hr.
  assert (Hout : ∀ g, g ≠ sub_GroupID s → r ∉ listed h g).
  { intros g Hg Hin. destruct (listed_sub h g r Hwf Hin) as (s1 & H1 & H2). congruence. }
  destruct (groups h !! sub_GroupID s) as [subs|] eqn:E.
  - apply HQ; [|done|done|].
    + constructor; cbn; [apply Hwf| | |apply Hwf].
      * intros g subs' r' Hg Hr'. case_bool_decide.
        -- apply lookup_delete_Some in Hg as [_ Hg]. by eapply sub_listed.
        -- destruct (decide (g = sub_GroupID s)) as [->|]; [|rewrite lookup_insert_ne in Hg by done; by eapply sub_listed].
           rewrite lookup_insert_eq in Hg. injection Hg as <-. eapply sub_listed; [done..|set_solver].
      * intros g subs' Hg. case_bool_decide.
        -- apply lookup_delete_Some in Hg as [_ Hg]. by eapply sub_not_empty.
        -- destruct (decide (g = sub_GroupID s)) as [->|]; [|rewrite lookup_insert_ne in Hg by done; by eapply sub_not_empty].
           rewrite lookup_insert_eq in Hg. by injection Hg as <-.
    + intros g. unfold listed. cbn. destruct (decide (g = sub_GroupID s)) as [->|Hne].
      * rewrite E. cbn. case_bool_decide as Hs; [rewrite lookup_delete_eq; cbn; by rewrite Hs|by rewrite lookup_insert_eq].
      * assert (groups h !! g = (if bool_decide (subs ∖ {[r]} = ∅) then delete (sub_GroupID s) (groups h)
          else <[sub_GroupID s:=subs ∖ {[r]}]> (groups h)) !! g) as <-.
        { case_bool_decide; [by rewrite lookup_delete_ne|by rewrite lookup_insert_ne]. }
        specialize (Hout g Hne). unfold listed in Hout. set_solver.
  - apply HQ; [done..|]. intros g. destruct (decide (g = sub_GroupID s)) as [->|Hne].
    + unfold listed. rewrite E. cbn. set_solver.
    + specialize (Hout g Hne). set_solver.
Qed.

(** What an event does to a subscriber: it is queued, or it is the one too many. *)
Definition full (s : Subscriber) : bool := (sendBuffer <=? length (send s))%nat.
Arguments full : simpl never.
Definition told (e : Event) (s : Subscriber) : Subscriber :=
  if closed s then s
  else if full s then s <| closed := true |> <| chan_closed := true |>
  else s <| send := send s ++ [e] |>.
Definition dropped (s : Subscriber) : bool := closed s || full s.

Lemma wp_deliver h e r s (Q : bool → Hub → Prop) :
  hub_wf h → subscribers h !! r = Some s →
  (dropped s = true → Q false h) →
  (dropped s = false → let h' := h <| subscribers := <[r := told e s]> (subscribers h) |> in hub_wf h' → Q true h') →
  wp (deliver e r) Q h.
Proof.
  intros Hwf Hr Hd Hk. destruct (sub_closed h Hwf r s Hr) as [Hc Hl]. unfold wp, deliver, with_sub. rewrite Hr.
  unfold dropped, full, told, send_chan in *.
  assert (Hsame : h <| subscribers := <[r := s]> (subscribers h) |> = h) by (destruct h; cbn; by rewrite insert_id).
  destruct (closed s) eqn:Ec; cbn [orb] in *; [rewrite Hsame; by apply Hd|]. rewrite <-Hc.
  destruct (Nat.leb_spec sendBuffer (length (send s))) as [Hf|Hf].
  - rewrite (proj2 (Nat.ltb_ge _ _)) by done. rewrite Hsame. by apply Hd.
  - rewrite (proj2 (Nat.ltb_lt _ _)) by done.
    assert (full s = false) as Hfull by (by apply Nat.leb_gt). rewrite Hfull in Hk. apply (Hk eq_refl). apply (hub_wf_update h r s); [done..| |].
    + cbn. congruence.
    + cbn. rewrite length_app. cbn. lia.
Qed.

(** What [h'] is once everybody in [ts] has been told. *)
Record after (e : Event) (ts : list sub_ref) (h h' : Hub) : Prop := mkAfter {
  after_wf : hub_wf h';
  after_subs : ∀ r, subscribers h' !! r = (if decide (r ∈ ts) then told e else id) <$> subscribers h !! r;
  after_listed : ∀ g r s, subscribers h !! r = Some s → r ∈ listed h' g ↔ r ∈ listed h g ∧ ¬ (r ∈ ts ∧ dropped s = true);
}.

Lemma wp_tell_one h e r s :
  hub_wf h → subscribers h !! r = Some s → wp (deliver_or_drop e r) (λ _ h', after e [r] h h') h.
Proof.
  intros Hwf Hr. apply wp_bind.
  assert (Hsub : ∀ m, m = <[r := told e s]> (subscribers h) →
    ∀ r', m !! r' = (if decide (r' ∈ [r]) then told e else id) <$> subscribers h !! r').
  { intros m -> r'. destruct (decide (r' ∈ [r])) as [Hin|Hin]; rewrite list_elem_of_singleton in Hin.
    - subst. by rewrite lookup_insert_eq, Hr.
    - rewrite lookup_insert_ne by done. by destruct (subscribers h !! r'). }
  apply (wp_deliver h e r s); [done..| |].
  - intros Hd. apply wp_bind, wp_bind. unfold warn_dropped, with_sub. unfold wp at 1. rewrite Hr.
    rewrite (same_sub h r s) by done.
    apply wp_modify. set (h1 := h <| warnings := _ |>).
    assert (Hwf1 : hub_wf h1) by (destruct Hwf; by constructor).
    apply wp_bind, (wp_forget h1 r s); [done..|]. intros h2 Hwf2 Hs2 _ Hl2.
    apply (wp_close h2 r s); [done|by rewrite Hs2|]. intros s' h3 Hwf3. constructor; [done| |].
    + apply Hsub. unfold h3, s'. cbn. rewrite Hs2. f_equal. unfold told, dropped in *.
      destruct (sub_closed h Hwf r s Hr) as [Hc _].
      destruct (closed s) eqn:Ec; cbn in Hd; [|by rewrite Hd]. destruct s; cbn in *; by subst.
    + intros g r' s1 Hs1. change (listed h3 g) with (listed h2 g). rewrite Hl2. change (listed h1 g) with (listed h g).
      rewrite elem_of_difference, elem_of_singleton, list_elem_of_singleton.
      split; [|intros [? Hn]; split; [done|]; intros ->; apply Hn; split; [done|congruence]].
      intros [? Hn]. split; [done|]. by intros [-> _].
  - intros Hd h' Hwf'. constructor; [done|by apply Hsub|]. intros g r' s1 Hs1. change (listed h' g) with (listed h g).
    rewrite list_elem_of_singleton. split; [|tauto]. intros ?. split; [done|]. intros [-> ?]. congruence.
Qed.

Lemma wp_tell_all h e ts :
  hub_wf h → NoDup ts → (∀ r, r ∈ ts → is_Some (subscribers h !! r)) →
  wp (for_each ts (deliver_or_drop e)) (λ _ h', after e ts h h') h.
Proof.
  revert h. induction ts as [|r ts IH]; intros h Hwf Hnd Hin; cbn [for_each].
  - constructor; [done| |]; intros.
    + destruct (decide (r ∈ [])) as [Hr|]; [by inversion Hr|]. by destruct (subscribers h !! r).
    + split; [|tauto]. intros ?. split; [done|]. intros [Hr _]. by inversion Hr.
  - apply NoDup_cons in Hnd as [Hr Hnd]. destruct (Hin r) as [s Hs]; [by left|]. apply wp_bind.
    eapply wp_mono; [exact (wp_tell_one h e r s Hwf Hs)|]. cbv beta. intros _ h1 [Hwf1 Hs1 Hl1].
    assert (Hrest : ∀ r', r' ≠ r → subscribers h1 !! r' = subscribers h !! r').
    { intros r' Hne. rewrite Hs1. destruct (decide (r' ∈ [r])) as [Hr'|]; [by apply list_elem_of_singleton in Hr'|].
      by destruct (subscribers h !! r'). }
    eapply wp_mono; [apply IH; [done..|]|].
    { intros r' Hr'. rewrite Hrest; [apply Hin; by right|]. by intros ->. }
    cbv beta. intros _ h2 [Hwf2 Hs2 Hl2]. constructor; [done| |].
    + intros r'. rewrite Hs2. destruct (decide (r' = r)) as [->|Hne].
      * rewrite (decide_False (P:=r ∈ ts)) by done. rewrite Hs1, !decide_True by (by left). by destruct (subscribers h !! r).
      * rewrite Hrest by done. destruct (decide (r' ∈ ts)) as [Ht|Ht].
        -- by rewrite decide_True by (by right).
        -- rewrite decide_False; [done|]. by intros [?|?]%elem_of_cons.
    + intros g r' s' Hs'. destruct (decide (r' = r)) as [->|Hne].
      * rewrite (Hl2 g r (told e s)) by (rewrite Hs1, decide_True by (by left); by rewrite Hs).
        assert (s' = s) as -> by congruence. rewrite (Hl1 g r s) by done. rewrite list_elem_of_singleton, elem_of_cons. tauto.
      * rewrite (Hl2 g r' s') by (by rewrite Hrest). rewrite (Hl1 g r' s') by done.
        rewrite list_elem_of_singleton, elem_of_cons. tauto.
Qed.

Lemma wp_targets walk g p h (Q : list sub_ref → Hub → Prop) :
  (∀ l, walk l ≡ₚ l) →
  (∀ ts, NoDup ts → (∀ r, r ∈ ts ↔ r ∈ listed h g ∧ ∃ s, subscribers h !! r = Some s ∧ p (sub_DeviceID s) = true) → Q ts h) →
  wp (targets walk g p) Q h.
Proof.
  intros Hw HQ. unfold wp, targets. apply HQ.
  - rewrite Hw. apply NoDup_filter, NoDup_elements.
  - intros r. rewrite Hw, list_elem_of_filter, elem_of_elements. unfold listed.
    destruct (subscribers h !! r) as [s|] eqn:E; cbn; [naive_solver|]. split; [by intros [? _]|intros (_ & s & ? & _); congruence].
Qed.

Lemma not_dropped (P Q : Prop) s : P ∧ ¬ (Q ∧ dropped s = true) ↔ P ∧ (Q → closed s = false ∧ full s = false).
Proof. unfold dropped. destruct (closed s), (full s); cbn; intuition discriminate. Qed.

(** A broadcast leaves nobody behind.  Whoever is listed in the group, on any
    device but the one that caused it, has the event at the end of its queue, or was
    too far behind or gone and is now closed and listed nowhere; so everyone still
    listed has every event there was room for, in the order they were broadcast.
    Nobody else's queue changes, and everybody else stays listed where they were,
    whatever order the map is walked in. *)
Theorem a_broadcast_leaves_nobody_behind walk h g except e :
  hub_wf h → (∀ l, walk l ≡ₚ l) →
  ∃ h', Broadcast walk g except e h = Some (tt, h') ∧ hub_wf h'
    ∧ ∀ r s, subscribers h !! r = Some s →
        let addressed := r ∈ listed h g ∧ sub_DeviceID s ≠ except in
        ∃ s', subscribers h' !! r = Some s'
          ∧ (addressed → r ∈ listed h' g → send s' = send s ++ [e] ∧ closed s' = false)
          ∧ (addressed → r ∉ listed h' g → closed s' = true ∧ send s' = send s ∧ (closed s = true ∨ full s = true))
          ∧ (¬ addressed → s' = s)
          ∧ ∀ g', r ∈ listed h' g' ↔ r ∈ listed h g' ∧ (addressed → closed s = false ∧ full s = false).
Proof.
  intros Hwf Hw.
  assert (wp (Broadcast walk g except e) (λ _ h', hub_wf h'
    ∧ ∀ r s, subscribers h !! r = Some s →
        let addressed := r ∈ listed h g ∧ sub_DeviceID s ≠ except in
        ∃ s', subscribers h' !! r = Some s'
          ∧ (addressed → r ∈ listed h' g → send s' = send s ++ [e] ∧ closed s' = false)
          ∧ (addressed → r ∉ listed h' g → closed s' = true ∧ send s' = send s ∧ (closed s = true ∨ full s = true))
          ∧ (¬ addressed → s' = s)
          ∧ ∀ g', r ∈ listed h' g' ↔ r ∈ listed h g' ∧ (addressed → closed s = false ∧ full s = false)) h) as H.
  { apply wp_bind, wp_targets; [done|]. intros ts Hnd Hts.
    eapply wp_mono; [apply wp_tell_all; [done..|]|].
    { intros r Hr. apply Hts in Hr as (_ & s & Hs & _). by eexists. }
    cbv beta. intros _ h' [Hwf' Hs' Hl']. split; [done|]. intros r s Hs addressed.
    assert (Hin : r ∈ ts ↔ addressed).
    { rewrite Hts, Hs. unfold addressed. split.
      - intros (? & s1 & [= <-] & Hp). by apply bool_decide_eq_true in Hp.
      - intros [? Hd]. split; [done|]. exists s. split; [done|]. by apply bool_decide_eq_true. }
    pose proof (Hl' g r s Hs) as Hlg. unfold dropped in Hlg.
    exists (if decide (r ∈ ts) then told e s else s). split; [rewrite Hs', Hs; by destruct (decide (r ∈ ts))|].
    split_and!.
    - intros Ha Hr. apply Hlg in Hr as [_ Hn]. rewrite decide_True by (by apply Hin).
      unfold told. destruct (closed s) eqn:Ec, (full s) eqn:Ef; [destruct Hn; by rewrite Hin..|by split].
    - intros Ha Hr. rewrite decide_True by (by apply Hin). destruct Ha as [Hg Hd]. unfold told.
      destruct (closed s) eqn:Ec, (full s) eqn:Ef; cbn in *; auto. exfalso. apply Hr, Hlg. split; [done|]. by intros [_ ?].
    - intros Ha. by rewrite decide_False by (by rewrite Hin).
    - intros g'. rewrite (Hl' g' r s Hs), Hin. apply not_dropped. }
  apply wp_run in H as ([] & h' & Hrun & Hw' & H). eauto.
Qed.

Lemma hub_wf_Subscribe h g d : hub_wf h → wp (Subscribe g d) (λ _, hub_wf) h.
Proof.
  intros Hwf. unfold wp, Subscribe. set (r := next_sub h).
  assert (Hr : subscribers h !! r = None).
  { destruct (subscribers h !! r) as [s|] eqn:E; [|done]. assert (r < r)%positive; [by apply (sub_fresh h Hwf); exists s|lia]. }
  constructor; cbn.
  - intros r1 s1 H1. destruct (decide (r1 = r)) as [->|]; [rewrite lookup_insert_eq in H1; injection H1 as <-; cbn; split; [done|lia]|].
    rewrite lookup_insert_ne in H1 by done. by eapply sub_closed.
  - intros g1 subs r1 Hg Hr1.
    assert (Hold : ∀ subs0, groups h !! g1 = Some subs0 → r1 ∈ subs0 →
      ∃ s, <[r := mkSubscriber d g [] false false]> (subscribers h) !! r1 = Some s ∧ sub_GroupID s = g1).
    { intros subs0 Hg0 Hr0. destruct (sub_listed h Hwf g1 subs0 r1 Hg0 Hr0) as (s & Hs & Hsg). exists s.
      rewrite lookup_insert_ne; [done|]. intros <-. congruence. }
    destruct (decide (g1 = g)) as [->|]; [|rewrite lookup_insert_ne in Hg by done; by eapply Hold].
    rewrite lookup_insert_eq in Hg. injection Hg as <-. apply elem_of_union in Hr1 as [->%elem_of_singleton|Hr1].
    + eexists. by rewrite lookup_insert_eq.
    + destruct (groups h !! g) as [subs0|] eqn:E; cbn in Hr1; [by eapply Hold|]. by apply elem_of_empty in Hr1.
  - intros g1 subs Hg. destruct (decide (g1 = g)) as [->|]; [|rewrite lookup_insert_ne in Hg by done; by eapply sub_not_empty].
    rewrite lookup_insert_eq in Hg. injection Hg as <-. intros E. apply (not_elem_of_empty (C:=gset sub_ref) r).
    rewrite <-E. apply elem_of_union_l, elem_of_singleton. done.
  - intros r1 H1. destruct (decide (r1 = r)) as [->|]; [lia|]. rewrite lookup_insert_ne in H1 by done.
    pose proof (sub_fresh h Hwf r1 H1). lia.
Qed.

Lemma wp_ended h r s (Q : bool → Hub → Prop) : subscribers h !! r = Some s → Q (chan_closed s) h → wp (ended r) Q h.
Proof. intros Hs HQ. apply (wp_with_sub _ _ s); [done|]. by rewrite (same_sub h r s). Qed.

Lemma wp_receive h r s (Q : option Event → Hub → Prop) : hub_wf h → subscribers h !! r = Some s →
  (send s = [] → Q None h) →
  (∀ e rest h', send s = e :: rest → hub_wf h' → subscribers h' !! r = Some (s <| send := rest |>) → Q (Some e) h') →
  wp (receive r) Q h.
Proof.
  intros Hwf Hs Hnone Hsome. destruct (sub_closed h Hwf r s Hs) as [Hc Hl].
  apply (wp_with_sub _ _ s); [done|]. destruct (send s) as [|e rest] eqn:Es; [rewrite (same_sub h r s) by done; auto|].
  apply (Hsome e rest); [done| |apply lookup_insert_eq]. apply (hub_wf_update h r s); [done..|]. cbn in *. lia.
Qed.

Lemma wp_act h a : hub_wf h → act_ok h a → wp (run_act a) (λ _, hub_wf) h.
Proof.
  intros Hwf Hok. destruct a as [g d|r|r|g d|e r|r]; cbn [run_act act_ok] in *.
  - apply wp_bind. by apply hub_wf_Subscribe.
  - destruct Hok as [s Hs]. by eapply wp_forget.
  - destruct Hok as [s Hs]. by eapply wp_close.
  - apply wp_bind. done.
  - destruct Hok as [s Hs]. apply wp_bind. eapply wp_deliver; [done|exact Hs|done|]. by intros _ h' Hh'.
  - destruct Hok as [s Hs]. apply wp_bind. by apply (wp_receive _ _ s).
Qed.

Lemma hub_run_wf h acts h' : hub_wf h → hub_run h acts h' → hub_wf h'.
Proof.
  intros Hwf Hr. induction Hr as [|h a h1 l h2 Hok Hrun _ IH]; [done|]. apply IH.
  pose proof (wp_act h a Hwf Hok) as H. unfold wp in H. by rewrite Hrun in H.
Qed.

(** C27: no interleaving breaks the hub.  However the goroutines of any number of
    requests and connections interleave at the hub's locks, subscribing, broadcasting
    to a list of targets that is out of date by then, unsubscribing twice from both
    ends of a connection: nothing is sent on a closed channel and no channel is closed
    twice; no queue outgrows its buffer; who is listed under a group subscribed to it,
    and no group without listeners is kept. *)
Theorem no_interleaving_breaks_the_hub acts h :
  hub_run NewHub acts h → hub_wf h ∧ ∀ a, act_ok h a → ∃ h', run_act a h = Some (tt, h').
Proof.
  intros Hr. pose proof (hub_run_wf _ _ _ hub_wf_New Hr) as Hwf. split; [done|]. intros a Hok.
  pose proof (wp_act h a Hwf Hok) as H. apply wp_run in H as ([] & h' & H & _). eauto.
Qed.

(** Two people listen to one group, one of them leaves from both ends at once. *)
Definition two_listeners : list hub_act :=
  [ActSubscribe (str "g") (str "ann"); ActSubscribe (str "g") (str "bob"); ActForget 1; ActForget 1; ActClose 1;
   ActDeliver (EventPeerOffline (str "eve")) 1; ActClose 1].

Fixpoint run_acts (l : list hub_act) (h : Hub) : option Hub :=
  match l with
  | [] => Some h
  | a :: l => match run_act a h with Some (_, h1) => run_acts l h1 | None => None end
  end.

Lemma no_interleaving_breaks_the_hub_witness :
  ∃ h, hub_run NewHub two_listeners h ∧ hub_wf h ∧ size (listed h (str "g")) = 1%nat.
Proof.
  eexists. split; [|split].
  - unfold two_listeners. repeat (eapply hub_more; [first [exact I|eexists; vm_compute; reflexivity]|vm_compute; reflexivity|]).
    apply hub_done.
  - refine (proj1 (no_interleaving_breaks_the_hub two_listeners _ _)). unfold two_listeners.
    repeat (eapply hub_more; [first [exact I|eexists; vm_compute; reflexivity]|vm_compute; reflexivity|]). apply hub_done.
  - vm_compute. reflexivity.
Defined.

Lemma a_broadcast_leaves_nobody_behind_witness :
  ∃ h h', hub_run NewHub [ActSubscribe (str "g") (str "ann"); ActSubscribe (str "g") (str "bob")] h
    ∧ Broadcast id (str "g") (str "ann") (EventGroupDeleted (str "g")) h = Some (tt, h') ∧ hub_wf h'.
Proof.
  assert (∃ h, hub_run NewHub [ActSubscribe (str "g") (str "ann"); ActSubscribe (str "g") (str "bob")] h) as [h Hr].
  { eexists. repeat (eapply hub_more; [exact I|vm_compute; reflexivity|]). apply hub_done. }
  destruct (a_broadcast_leaves_nobody_behind id h (str "g") (str "ann") (EventGroupDeleted (str "g"))) as (h' & H1 & H2 & _).
  - exact (hub_run_wf _ _ _ hub_wf_New Hr).
  - intros l. reflexivity.
  - exists h, h'. split; [exact Hr|]. split; [exact H1|exact H2].
Defined.
