(* ===== verification/Api.v ===== *)
(** The coordination server's handlers: src/server/api.

    The server is its configuration, its store, its hub and its two rate limiters.  A handler here is the
    Go handler: the calls it makes in their order, and the response it writes.  A
    request arrives as its route with the path values in it, its body already decoded
    ([None] is a body [decode] rejects), its Authorization header and the address it
    came from.  What the handlers log is left out. *)
From S2P Require Import Prelude Bytes NetAddr NetText Base64 Invite Schema Storage Auth Limits ApiTypes ServerConfig Hub.

Definition maxNameLength : Z := 64.
Definition DefaultSubnet : gostring := str "10.69.0.0/24".
(** [SessionTimeout], in nanoseconds. *)
Definition SessionTimeout : Z := 90 * 10 ^ 9.

Record Server : Type := mkServer {
  srv_store : Store;
  srv_hub : Hub;
  joins : rateLimiter;
  registrations : rateLimiter;
  cfg : Server.Config;
}.
#[export] Instance eta_Server : Settable Server := λ s, mkServer (srv_store s) (srv_hub s) (joins s) (registrations s) (cfg s).

(** [api.New]. *)
Definition New (config : Server.Config) (store : Store) : Server :=
  mkServer store NewHub (newRateLimiter 10 (60 * 10 ^ 9)) (newRateLimiter 20 (60 * 10 ^ 9)) config.

(** ** Requests *)

(** The patterns of the mux.  A websocket that is asked for is made, or the library
    answers with a status of its own.  Any path is one of the site's to the mux if nothing
    more specific is, so a method nothing is registered for is all that is turned away. *)
Inductive Route : Type :=
  | GetDiscovery
  | GetHealth
  | GetInvite (code : gostring)
  | GetInvitePage (code : gostring)
  | PostRegister (req : option RegisterDeviceRequest)
  | GetMe
  | PutNickname (req : option gostring)
  | GetGroups
  | PostGroups (req : option CreateGroupRequest)
  | PostJoin (req : option gostring)
  | DeleteGroupRoute (groupID : gostring)
  | GetMembers (groupID : gostring)
  | DeleteMember (groupID deviceID : gostring)
  | PutName (groupID : gostring) (req : option gostring)
  | PutAppearance (groupID : gostring) (req : option SetGroupAppearanceRequest)
  | PostInviteReset (groupID : gostring)
  | PutOwner (groupID deviceID : gostring)
  | DeleteMembership (groupID : gostring)
  | PostSessions (groupID : gostring)
  | PutEndpoint (sessionID : gostring) (req : option ApiTypes.Endpoint)
  | PostHeartbeat (sessionID : gostring)
  | DeleteSessionRoute (sessionID : gostring)
  | GetRealtime (sessionID : gostring) (refused : option Z)
  | GetSite (path : gostring)
  | OtherMethod.

Record Request : Type := mkRequest { RemoteAddr : gostring; Authorization : gostring; route : Route }.

(** [net.SplitHostPort], of which only the host is used. *)
Definition split_host (hostport : gostring) : option gostring :=
  match cut_last 58 hostport with
  | None => None
  | Some (before, _) =>
      match hostport with
      | 91 :: _ =>
          match cut_at 93 hostport with
          | (_, None) => None
          | (inside, Some after) =>
              (** The bracket closes right before the last colon. *)
              if negb (length before =? S (length inside))%nat then None else
              let host := drop 1 inside in
              if existsb (Z.eqb 91) (drop 1 hostport) || existsb (Z.eqb 93) after then None else Some host
          end
      | _ =>
          if existsb (Z.eqb 58) before || existsb (Z.eqb 91) hostport || existsb (Z.eqb 93) hostport then None else Some before
      end
  end.
Definition clientIP (r : Request) : gostring := default (RemoteAddr r) (split_host (RemoteAddr r)).

(** ASCII letters without their case; no other rune folds to a letter of the scheme. *)
Definition fold_case (s : gostring) : gostring := (λ c, if (65 <=? c) && (c <=? 90) then c + 32 else c) <$> s.

Definition bearerToken (r : Request) : option gostring :=
  match cut_at 32 (Authorization r) with
  | (scheme, Some token) =>
      if bool_decide (fold_case scheme = fold_case TokenScheme) && negb (bool_decide (token = [])) then Some token else None
  | _ => None
  end.

(** [len] of a string given by its runes: the bytes of its UTF-8. *)
Definition byte_length (s : gostring) : Z :=
  foldr (λ r n, (if r <? 128 then 1 else if r <? 2048 then 2 else if r <? 65536 then 3 else 4) + n) 0 s.

Definition isAppearanceKey (key : gostring) : bool :=
  (byte_length key <=? 32) && forallb (λ r, ((97 <=? r) && (r <=? 122)) || ((48 <=? r) && (r <=? 57)) || (r =? 45)) key.

(** ** Responses *)
Definition writeJSON (status : Z) (b : body) : response := mkResponse status b.
Definition writeError (status : Z) (code message : string) : response := mkResponse status (ErrorBody code message).
Definition NoContent : response := mkResponse 204 NoBody.

Definition fail_response (err : storage_error) (notFoundCode notFoundMessage : string) : response :=
  match err with
  | ErrNotFound => writeError 404 notFoundCode notFoundMessage
  | ErrGroupFull => writeError 409 CodeGroupFull "That group has no free addresses left."
  | ErrForbidden => writeError 403 CodeForbidden "Only the group's owner can do that."
  | _ => writeError 500 ErrInternal "Something went wrong on the server."
  end.

Definition NotSignedIn : response := writeError 401 ErrUnauthorized "This device is not signed in.".
Definition Unreadable : response := writeError 400 ErrBadRequest "The request could not be read.".
Definition TooMany : response := writeError 429 ErrRateLimited "Too many attempts. Wait a moment and try again.".
Definition NotMember : string := "You are not a member of that group.".
Definition NotInGroup : string := "That person is not in this group.".
Definition InviteGone : string := "That invite no longer works.".
Definition SessionGone : string := "That session is no longer active.".
Definition NotVerified : response := writeError 401 ErrUnauthorized "The registration could not be verified.".

(** The invite code goes only to the owner. *)
Definition toMembership (m : Storage.Membership) : ApiTypes.Membership :=
  mkMembershipJSON (m_ID m) (m_GroupID m) (m_GroupName m) (m_GroupIcon m) (m_GroupColor m) (m_Subnet m) (m_VirtualIP m)
    (m_Role m) (if bool_decide (m_Role m = RoleOwner) then m_InviteCode m else []) (m_OnlineMembers m) (m_Members m).

Definition toPeer (p : SessionPeer) : ApiTypes.Peer :=
  ApiTypes.mkPeer (p_DeviceID p) (p_Nickname p) (p_VirtualIP p) (p_TransportKey p)
    ((λ e, ApiTypes.mkEndpoint (str "udp") (e_Address e) (e_Port e)) <$> p_Endpoint p).
Definition toPeers (peers : list SessionPeer) : list ApiTypes.Peer := toPeer <$> peers.

Definition toMember (m : Storage.Member) : ApiTypes.Member :=
  ApiTypes.mkMember (mem_DeviceID m) (mem_Nickname m) (mem_VirtualIP m) (mem_Role m) (mem_Online m).

Section server.
Context {MC : Machine} {C : Ed25519}.

Abbreviation M := (prog Server).

Definition on_store {A} (m : prog Store A) : M A := λ s,
  match m (srv_store s) with
  | Some (a, st) => Some (a, s <| srv_store := st |>)
  | None => None
  end.
Definition on_hub {A} (m : prog Hub A) : M A := λ s,
  match m (srv_hub s) with
  | Some (a, h) => Some (a, s <| srv_hub := h |>)
  | None => None
  end.

Definition broadcast (groupID except : gostring) (e : Event) : M unit := λ s,
  on_hub (Broadcast (scan (ticks (srv_store s)) sub_ref) groupID except e) s.
Definition sendTo (groupID deviceID : gostring) (e : Event) : M unit := λ s,
  on_hub (SendTo (scan (ticks (srv_store s)) sub_ref) groupID deviceID e) s.

(** [s.joins.allow(key, time.Now())], and the same of the other limiter. *)
Definition join_allowed (key : gostring) (now : Z) : M bool := λ s,
  let '(ok, l) := allow key now (joins s) in Some (ok, s <| joins := l |>).
Definition registration_allowed (key : gostring) (now : Z) : M bool := λ s,
  let '(ok, l) := allow key now (registrations s) in Some (ok, s <| registrations := l |>).
Definition allow_join (key : gostring) : M bool := now ← on_store Now; join_allowed key now.
Definition allow_registration (key : gostring) : M bool := now ← on_store Now; registration_allowed key now.

(** [if err != nil { s.fail(...); return }] *)
Definition or_fail {A} (code message : string) (m : prog Store (storage_error + A)) (k : A → M response) : M response :=
  r ← on_store m;
  match r with
  | inl e => mret (fail_response e code message)
  | inr a => k a
  end.

(** [if !decode(w, r, &req) { return }] *)
Definition decoded {A} (req : option A) (k : A → M response) : M response :=
  match req with None => mret Unreadable | Some a => k a end.

(** ** groups.go *)
Definition handleCreateGroup (device : Device) (req : option CreateGroupRequest) : M response :=
  decoded req (λ req,
    let name := TrimSpace (Name req) in
    if bool_decide (name = []) || (maxNameLength <? byte_length name) then
      mret (writeError 400 ErrBadRequest "A group needs a name.") else
    if negb (isAppearanceKey (Icon req)) || negb (isAppearanceKey (Color req)) then
      mret (writeError 400 ErrBadRequest "That icon or colour will not work.") else
    or_fail ErrInternal "" (NewID "grp") (λ id,
    or_fail ErrInternal "" (CreateGroup (Group_ id name (Icon req) (Color req) DefaultSubnet [] 0) (d_ID device)) (λ m,
    mret (writeJSON 201 (OneMembership (toMembership m)))))).

Definition handleListGroups (device : Device) : M response :=
  or_fail ErrInternal "" (MembershipsByDevice (d_ID device)) (λ ms,
  mret (writeJSON 200 (Memberships (toMembership <$> ms)))).

Definition handleListMembers (device : Device) (groupID : gostring) : M response :=
  or_fail ErrGroupNotFound NotMember (membership groupID (d_ID device)) (λ _,
  or_fail ErrGroupNotFound NotMember (Storage.Members groupID) (λ ms,
  mret (writeJSON 200 (MembersResponse (toMember <$> ms))))).

Definition handleLeaveGroup (device : Device) (groupID : gostring) : M response :=
  or_fail ErrGroupNotFound NotMember (RevokeMembership groupID (d_ID device)) (λ _,
  broadcast groupID (d_ID device) (EventPeerOffline (d_ID device)) ≫= λ _,
  sendTo groupID (d_ID device) (EventMembershipRevoked (d_ID device)) ≫= λ _,
  mret NoContent).

Definition handleRemoveMember (device : Device) (groupID target : gostring) : M response :=
  or_fail ErrGroupNotFound NotInGroup (RemoveMember groupID (d_ID device) target) (λ _,
  broadcast groupID target (EventPeerOffline target) ≫= λ _,
  sendTo groupID target (EventMembershipRevoked target) ≫= λ _,
  mret NoContent).

Definition announceGroup (groupID : gostring) : M unit :=
  r ← on_store (GroupByID groupID);
  match r with
  | inl _ => mret tt
  | inr g => broadcast groupID [] (EventGroupUpdated (g_ID g) (g_Name g) (g_Icon g) (g_Color g))
  end.

Definition handleRenameGroup (device : Device) (groupID : gostring) (req : option gostring) : M response :=
  decoded req (λ req,
    let name := TrimSpace req in
    if bool_decide (name = []) || (maxNameLength <? byte_length name) then
      mret (writeError 400 ErrBadRequest "That name will not work.") else
    or_fail ErrGroupNotFound NotMember (RenameGroup groupID (d_ID device) name) (λ _,
    announceGroup groupID ≫= λ _, mret NoContent)).

Definition handleSetGroupAppearance (device : Device) (groupID : gostring) (req : option SetGroupAppearanceRequest) : M response :=
  decoded req (λ req,
    if negb (isAppearanceKey (look_Icon req)) || negb (isAppearanceKey (look_Color req)) then
      mret (writeError 400 ErrBadRequest "That icon or colour will not work.") else
    or_fail ErrGroupNotFound NotMember (SetGroupAppearance groupID (d_ID device) (look_Icon req) (look_Color req)) (λ _,
    announceGroup groupID ≫= λ _, mret NoContent)).

Definition handleTransferOwnership (device : Device) (groupID target : gostring) : M response :=
  or_fail ErrGroupNotFound NotInGroup (TransferOwnership groupID (d_ID device) target) (λ _, mret NoContent).

Definition handleDeleteGroup (device : Device) (groupID : gostring) : M response :=
  or_fail ErrGroupNotFound NotMember (DeleteGroup groupID (d_ID device)) (λ _,
  broadcast groupID [] (EventGroupDeleted groupID) ≫= λ _, mret NoContent).

(** ** invites.go *)
Definition handleJoinByCode (device : Device) (ip : gostring) (req : option gostring) : M response :=
  decoded req (λ req,
    let code := Parse req in
    if bool_decide (code = []) then mret (writeError 400 ErrBadRequest "That does not look like an invite.") else
    ok ← allow_join ip;
    if negb ok then mret TooMany else
    g ← on_store (GroupByInviteCode code);
    match g with
    | inl ErrNotFound => mret (writeError 403 ErrInviteInvalid InviteGone)
    | inl e => mret (fail_response e ErrInternal "")
    | inr g =>
        m ← on_store (AddMembership g (d_ID device));
        match m with
        | inl ErrBanned => mret (writeError 403 ErrInviteInvalid InviteGone)
        | inl e => mret (fail_response e ErrInternal "")
        | inr m => mret (writeJSON 200 (OneMembership (toMembership m)))
        end
    end).

Definition findInvite (raw : gostring) : prog Store (storage_error + ApiTypes.Invite) :=
  let code := Parse raw in
  if bool_decide (code = []) then mret (inl ErrNotFound) else
  g ←? GroupByInviteCode code;
  members ←? MemberCount (g_ID g);
  mret (inr (mkInvite (g_InviteCode g) (g_Name g) (g_Icon g) (g_Color g) members)).

Definition handleInvite (ip raw : gostring) : M response :=
  ok ← allow_join ip;
  if negb ok then mret TooMany else
  r ← on_store (findInvite raw);
  match r with
  | inl ErrNotFound => mret (writeError 404 ErrInviteInvalid InviteGone)
  | inl e => mret (fail_response e ErrInternal "")
  | inr found => mret (writeJSON 200 (InviteBody found))
  end.

Definition handleResetInvite (device : Device) (groupID : gostring) : M response :=
  or_fail ErrGroupNotFound NotMember (ResetInviteCode groupID (d_ID device)) (λ code,
  mret (writeJSON 200 (InviteCodeResponse code))).

(** ** devices.go *)
Definition handleRegisterDevice (ip : gostring) (req : option RegisterDeviceRequest) : M response :=
  ok ← allow_registration ip;
  if negb ok then mret TooMany else
  decoded req (λ req,
    if bool_decide (DeviceID req = []) || bool_decide (PublicKey req = []) || bool_decide (TransportKey req = [])
       || bool_decide (Nonce req = []) then
      mret (writeError 400 ErrBadRequest "The registration is missing required fields.") else
    now ← on_store Now;
    let skew := now - at_second (IssuedAt req) in
    if (RegisterMaxSkew <? skew) || (skew <? - RegisterMaxSkew) then
      mret (writeError 400 ErrBadRequest "This device's clock is too far off. Check the system time.") else
    match VerifyRegister (PublicKey req) (DeviceID req) (TransportKey req) (Signature req) (IssuedAt req) (Nonce req) with
    | inl _ => mret NotVerified
    | inr _ =>
        or_fail ErrInternal "" (ClaimRegisterNonce (Nonce req) (2 * RegisterMaxSkew)) (λ fresh,
          if negb fresh then mret NotVerified else
          r ← on_store (RegisterDevice (Device_ (DeviceID req) (PublicKey req) (TransportKey req) (DeviceName req)
                                         (TrimSpace (DeviceName req)) 0 0));
          match r with
          | inl ErrConflict => mret (writeError 409 ErrBadRequest "That key is already registered to another device.")
          | inl e => mret (fail_response e ErrInternal "")
          | inr token => mret (writeJSON 201 (RegisterDeviceResponse token))
          end)
    end).

(** ** me.go *)
Definition handleMe (device : Device) : M response := mret (writeJSON 200 (Me (d_ID device) (d_Nickname device))).

Definition announceNickname (deviceID nickname : gostring) : M unit :=
  r ← on_store (ConnectedGroupIDs deviceID);
  match r with
  | inl _ => mret tt
  | inr groupIDs => for_each groupIDs (λ groupID, broadcast groupID deviceID (EventPeerRenamed deviceID nickname))
  end.

Definition handleSetNickname (device : Device) (req : option gostring) : M response :=
  decoded req (λ req,
    let nickname := TrimSpace req in
    if bool_decide (nickname = []) || (maxNameLength <? byte_length nickname) then
      mret (writeError 400 ErrBadRequest "That nickname will not work.") else
    or_fail ErrUnauthorized "This device is not signed in." (SetDeviceNickname (d_ID device) nickname) (λ _,
    announceNickname (d_ID device) nickname ≫= λ _, mret NoContent)).

(** ** sessions.go *)
Definition handleCreateSession (device : Device) (groupID : gostring) : M response :=
  or_fail ErrMembershipRevoked "You are no longer a member of that group." (membership groupID (d_ID device)) (λ m,
  or_fail ErrGroupNotFound "That group no longer exists." (CreateSession m) (λ session,
  or_fail ErrInternal "" (PeersInGroup groupID (d_ID device)) (λ peers,
  broadcast groupID (d_ID device)
    (EventPeerOnline (ApiTypes.mkPeer (d_ID device) (d_Nickname device) (s_VirtualIP session) (d_TransportKey device) None)) ≫= λ _,
  mret (writeJSON 201 (CreateSessionResponse (s_ID session) (s_VirtualIP session) (toPeers peers)))))).

(** [ownedSession]: the session named in the path, if it is the caller's. *)
Definition ownedSession (device : Device) (sessionID : gostring) (k : Session → M response) : M response :=
  or_fail ErrSessionInvalid SessionGone (SessionByID sessionID) (λ session,
  if bool_decide (s_DeviceID session ≠ d_ID device) then mret (writeError 404 ErrSessionInvalid SessionGone) else k session).

Definition handleSetEndpoint (device : Device) (sessionID : gostring) (req : option ApiTypes.Endpoint) : M response :=
  ownedSession device sessionID (λ session,
  decoded req (λ req,
    if negb (bool_decide (Protocol req = [])) && negb (bool_decide (Protocol req = str "udp")) then
      mret (writeError 400 ErrBadRequest "Only UDP endpoints are supported.") else
    if bool_decide (ParseAddr (Address req) = None) || (Port req <? 1) || (65535 <? Port req) then
      mret (writeError 400 ErrBadRequest "That endpoint is not a valid address and port.") else
    or_fail ErrSessionInvalid SessionGone (SetSessionEndpoint (s_ID session) (Address req) (Port req)) (λ _,
    broadcast (s_GroupID session) (d_ID device)
      (EventPeerEndpointUpdated (d_ID device) (ApiTypes.mkEndpoint (str "udp") (Address req) (Port req))) ≫= λ _,
    mret NoContent))).

Definition handleHeartbeat (device : Device) (sessionID : gostring) : M response :=
  ownedSession device sessionID (λ session,
  or_fail ErrSessionInvalid SessionGone (TouchSession (s_ID session)) (λ _, mret NoContent)).

Definition handleDeleteSession (device : Device) (sessionID : gostring) : M response :=
  ownedSession device sessionID (λ session,
  or_fail ErrSessionInvalid SessionGone (DeleteSession (s_ID session)) (λ _,
  broadcast (s_GroupID session) (d_ID device) (EventPeerOffline (d_ID device)) ≫= λ _, mret NoContent)).

(** ** realtime.go *)
Definition sendCurrentPeers (session : Session) (deviceID : gostring) : M unit :=
  r ← on_store (PeersInGroup (s_GroupID session) deviceID);
  match r with
  | inl _ => mret tt
  | inr peers => for_each (toPeers peers) (λ p, sendTo (s_GroupID session) deviceID (EventPeerOnline p))
  end.

(** [handleRealtime] up to its loop: the subscriber, and the session it is for. *)
Definition realtime_open (device : Device) (sessionID : gostring) (refused : option Z) : M (response + (sub_ref * Session)) :=
  r ← on_store (SessionByID sessionID);
  match r with
  | inl _ => mret (inl (writeError 404 ErrSessionInvalid SessionGone))
  | inr session =>
      if bool_decide (s_DeviceID session ≠ d_ID device) then mret (inl (writeError 404 ErrSessionInvalid SessionGone)) else
      match refused with
      | Some status => mret (inl (mkResponse status NoBody))
      | None =>
          sub ← on_hub (Subscribe (s_GroupID session) (d_ID device));
          sendCurrentPeers session (d_ID device) ≫= λ _,
          mret (inr (sub, session))
      end
  end.

(** What the request is answered with; the loop goes on from there ([realtime_loop]). *)
Definition handleRealtime (device : Device) (sessionID : gostring) (refused : option Z) : M response :=
  r ← realtime_open device sessionID refused;
  mret (match r with inl resp => resp | inr _ => mkResponse 101 Upgraded end).

(** The tick of its loop after a ping that was answered: whether the loop goes on. *)
Definition realtime_alive (session : Session) : M bool :=
  r ← on_store (TouchSession (s_ID session));
  mret (match r with inl _ => false | inr _ => true end).

(** What its [select] comes to: the reader has noticed the end, something is on the
    channel and is written or not, the ticker fired and the ping is answered or not. *)
Inductive wake : Type := ReaderEnded | OnChannel (written : bool) | Ticked (answered : bool).

(** One turn of the loop: whether it goes on.  A channel that is open and empty wakes nobody. *)
Definition realtime_turn (sub : sub_ref) (session : Session) (w : wake) : M bool :=
  match w with
  | ReaderEnded => mret false
  | OnChannel written =>
      e ← on_hub (receive sub);
      match e with
      | Some _ => mret written
      | None => over ← on_hub (ended sub); mret (negb over)
      end
  | Ticked answered => if answered then realtime_alive session else mret false
  end.

(** The loop, and the [Unsubscribe] deferred to its end: whether it is still running. *)
Fixpoint realtime_loop (sub : sub_ref) (session : Session) (ws : list wake) : M bool :=
  match ws with
  | [] => mret true
  | w :: ws =>
      on ← realtime_turn sub session w;
      if (on : bool) then realtime_loop sub session ws else on_hub (Unsubscribe sub) ≫= λ _, mret false
  end.

(** The body of the [ExpireSessions] loop. *)
Definition expire_tick (timeout : Z) : M unit :=
  r ← on_store (ExpireSessions timeout);
  match r with
  | inl _ => mret tt
  | inr stale => for_each stale (λ session,
      broadcast (s_GroupID session) (s_DeviceID session) (EventPeerOffline (s_DeviceID session)))
  end.

(** As often as the ticker ticks before the context ends. *)
Fixpoint expire_loop (ticks : nat) (timeout : Z) : M unit :=
  match ticks with
  | O => mret tt
  | S ticks => expire_tick timeout;; expire_loop ticks timeout
  end.

(** ** invitepage.go *)

(** A count of members, as [fmt] prints it. *)
Definition members (n : Z) : gostring := if n =? 1 then str "1 person" else FormatInt n ++ str " people".
Definition downloadURL : gostring := str "https://github.com/OMouta/192168/releases/latest".

(** The status written, 200 where none is, and what the page is drawn from. *)
Definition handleInvitePage (code : gostring) : M response :=
  found ← on_store (findInvite code);
  mret (match found with
        | inr i => mkResponse 200 (InvitePage (mkView (Some i) (members (inv_Members i)) (DeepLink (Code i)) downloadURL))
        | inl _ => mkResponse 404 (InvitePage (mkView None [] [] downloadURL))
        end).

(** ** router.go *)
Definition handleDiscovery : M response := c ← gets cfg; mret (writeJSON 200 (DiscoveryBody (Server.document c))).
Definition handleHealth : M response := c ← gets cfg; mret (writeJSON 200 (HealthBody (Server.health c))).

Definition authenticated (r : Request) (h : Device → M response) : M response :=
  match bearerToken r with
  | None => mret NotSignedIn
  | Some token =>
      d ← on_store (DeviceByToken token);
      match d with
      | inl _ => mret NotSignedIn
      | inr device => h device
      end
  end.

Definition ServeHTTP (r : Request) : M response :=
  match route r with
  | GetDiscovery => handleDiscovery
  | GetHealth => handleHealth
  | GetInvite code => handleInvite (clientIP r) code
  | GetInvitePage code => handleInvitePage code
  | PostRegister req => handleRegisterDevice (clientIP r) req
  | GetMe => authenticated r handleMe
  | PutNickname req => authenticated r (λ d, handleSetNickname d req)
  | GetGroups => authenticated r handleListGroups
  | PostGroups req => authenticated r (λ d, handleCreateGroup d req)
  | PostJoin req => authenticated r (λ d, handleJoinByCode d (clientIP r) req)
  | DeleteGroupRoute g => authenticated r (λ d, handleDeleteGroup d g)
  | GetMembers g => authenticated r (λ d, handleListMembers d g)
  | DeleteMember g x => authenticated r (λ d, handleRemoveMember d g x)
  | PutName g req => authenticated r (λ d, handleRenameGroup d g req)
  | PutAppearance g req => authenticated r (λ d, handleSetGroupAppearance d g req)
  | PostInviteReset g => authenticated r (λ d, handleResetInvite d g)
  | PutOwner g x => authenticated r (λ d, handleTransferOwnership d g x)
  | DeleteMembership g => authenticated r (λ d, handleLeaveGroup d g)
  | PostSessions g => authenticated r (λ d, handleCreateSession d g)
  | PutEndpoint i req => authenticated r (λ d, handleSetEndpoint d i req)
  | PostHeartbeat i => authenticated r (λ d, handleHeartbeat d i)
  | DeleteSessionRoute i => authenticated r (λ d, handleDeleteSession d i)
  | GetRealtime i refused => authenticated r (λ d, handleRealtime d i refused)
  | GetSite path => mret (mkResponse (site path) (SiteFile path))
  | OtherMethod => mret (mkResponse 405 NoBody)
  end.
End server.
