(* ===== verification/ApiSafe.v ===== *)
(** Requests, as what they do to the database and the hub: every request is answered,
    and refines the description of [StorageSpec]. *)
From S2P Require Import Prelude Bytes NetAddr NetText Base64 Invite Schema Storage Addressing StorageSpec StorageCalls StorageProps GroupJoin Auth Limits ApiTypes ServerConfig Hub Api.

Section api.
Context {MC : Machine} {ML : MachineLaws MC} {C : Ed25519}.

Abbreviation M := (prog Server).

Definition srv_tables (s : Server) : Tables := tables (srv_store s).

(** ** Rules *)
Lemma wp_on_store {A} (m : prog Store A) (Q : A → Server → Prop) s :
  wp m (λ a st, Q a (s <| srv_store := st |>)) (srv_store s) → wp (on_store m) Q s.
Proof. unfold wp, on_store. by destruct (m (srv_store s)) as [[a st]|]. Qed.

Lemma wp_or_fail {A} code message (m : prog Store (storage_error + A)) (k : A → M response) (Q : response → Server → Prop) s :
  wp m (λ r st, match r with
                | inl e => Q (fail_response e code message) (s <| srv_store := st |>)
                | inr a => wp (k a) Q (s <| srv_store := st |>)
                end) (srv_store s) →
  wp (or_fail code message m k) Q s.
Proof. intros H. apply wp_bind, wp_on_store. eapply wp_mono; [exact H|]. by intros [e|a] st. Qed.

Lemma wp_on_hub {A} (m : prog Hub A) (Q : A → Server → Prop) s :
  wp m (λ a h, Q a (s <| srv_hub := h |>)) (srv_hub s) → wp (on_hub m) Q s.
Proof. unfold wp, on_hub. by destruct (m (srv_hub s)) as [[a h]|]. Qed.

(** Asking the storage without changing anything. *)
Definition quiet {A} (m : prog Store A) (P : Tables → A → Prop) : Prop :=
  ∀ t n, wp m (λ a s', tables s' = t ∧ P t a) (mkStore t n).

Definition anything {A} (t : Tables) (a : A) : Prop := True.

Lemma quiet_mono {A} (m : prog Store A) (P P' : Tables → A → Prop) : quiet m P → (∀ t a, P t a → P' t a) → quiet m P'.
Proof. intros H HP t n. eapply wp_mono; [apply H|]. intros a s' [? ?]. auto. Qed.

Lemma quiet_ret {A} (a : A) (P : Tables → A → Prop) : (∀ t, P t a) → quiet (mret a) P.
Proof. intros H t n. by split. Qed.

Lemma quiet_query {A B} what (f : Tables → A) (k : A → prog Store (storage_error + B)) (P : Tables → storage_error + B → Prop) :
  (∀ t e, P t (inl e)) → (∀ t n, wp (k (f t)) (λ a s', tables s' = t ∧ P t a) (mkStore t n)) →
  quiet (x ←? wrap what (query f); k x) P.
Proof. intros He Hk t n. apply wp_try, wp_wrap, wp_query; [by split|]. apply Hk. Qed.

Lemma quiet_rows {A B} what (f : Tables → list A) (k : list A → prog Store (storage_error + B)) :
  (∀ l, quiet (k l) anything) → quiet (x ←? wrap what (query_rows f); k x) anything.
Proof. intros Hk t n. apply wp_try, wp_wrap, wp_query_rows; [by split|]. cbn [tables]. intros n1 l _. apply Hk. Qed.

Lemma quiet_scan {A B} what (rows : list A) ip (f : A → gostring → B) : quiet (scan_rows what rows ip f) anything.
Proof. unfold scan_rows. destruct (mapM _ _); by apply quiet_ret. Qed.

Lemma quiet_Members g : quiet (Storage.Members g) anything.
Proof. apply quiet_rows. intros l. apply quiet_scan. Qed.
Lemma quiet_MembershipsByDevice d : quiet (MembershipsByDevice d) anything.
Proof. apply quiet_rows. intros l. apply quiet_scan. Qed.
Lemma quiet_PeersInGroup g d : quiet (PeersInGroup g d) anything.
Proof. apply quiet_rows. intros l. apply quiet_scan. Qed.
Lemma quiet_ConnectedGroupIDs d : quiet (ConnectedGroupIDs d) anything.
Proof. intros t n. by apply wp_wrap, wp_query_rows. Qed.
Lemma quiet_MemberCount g : quiet (MemberCount g) anything.
Proof. intros t n. by apply wp_wrap, wp_query. Qed.
Lemma quiet_NewID prefix : quiet (NewID prefix) anything.
Proof. intros t n. apply wp_bind, wp_Read. intros n1 i. by destruct (random i 10). Qed.

Lemma quiet_scanGroup find : quiet (scanGroup find) (λ t r, ∀ g, r = inr g → ∃ row, find t = Some (g_ID g, row) ∧ gr_subnet row = g_Subnet g).
Proof.
  apply quiet_query; [by intros|]. intros t n. destruct (find t) as [[k row]|]; (split; [done|]); [|by intros ?].
  intros g [= <-]. by exists row.
Qed.
Lemma quiet_GroupByID g : quiet (GroupByID g) anything.
Proof. by eapply quiet_mono; [apply quiet_scanGroup|]. Qed.

(** The caller's place in a group, as [membership] finds it. *)
Lemma quiet_membership g d : quiet (membership g d) (λ t r,
  ∀ m, r = inr m → ∃ row, memberships t !! m_ID m = Some row ∧ current g d (m_ID m) row = true
    ∧ m_GroupID m = g ∧ m_DeviceID m = d ∧ mb_virtual_ip row = Some (m_VirtualIP m) ∧ mb_role row = m_Role m).
Proof.
  apply quiet_query; [by intros|]. intros t n. unfold membership_row_of.
  destruct (find_where _ _) as [[k r]|] eqn:Ef; cbn; [|by split]. destruct (Schema.groups t !! _) as [row|]; cbn; [|by split].
  unfold scan_string. destruct (mb_virtual_ip r) as [ip|] eqn:Eip; [|by split]. split; [done|]. intros m [= <-].
  apply find_where_Some in Ef as [? ?]. by exists r.
Qed.

(** A session and whose it is, as [SessionByID] finds it. *)
Lemma quiet_SessionByID i : quiet (SessionByID i) (λ t r,
  ∀ x, r = inr x → s_ID x = i ∧ ∃ row m, sessions t !! i = Some row ∧ memberships t !! ss_membership_id row = Some m
    ∧ s_DeviceID x = mb_device_id m ∧ s_GroupID x = ss_group_id row).
Proof.
  apply quiet_query; [by intros|]. intros t n. unfold session_row_of.
  destruct (sessions t !! i) as [row|] eqn:Es; cbn; [|by split].
  destruct (memberships t !! _) as [m|] eqn:Em; cbn; [|by split].
  unfold scan_string. destruct (mb_virtual_ip m) as [ip|]; [|by split]. split; [done|]. intros x [= <-].
  split; [done|]. by exists row, m.
Qed.

(** ** What every handler keeps *)
Section keeps.
Context (D : gostring → Prop) (t0 : Tables).

Record settled (s : Server) : Prop := mkSettled {
  settled_steps : rtc (step D) t0 (srv_tables s);
  settled_store : store_wf (srv_tables s);
  settled_hub : hub_wf (srv_hub s);
}.

Definition keeps {A} (m : M A) : Prop := ∀ s, settled s → wp m (λ _, settled) s.

Lemma settled_store_step s st : settled s → rtc (step D) (srv_tables s) (tables st) → settled (s <| srv_store := st |>).
Proof. intros [H1 H2 H3] Hst. split; [by etransitivity|by eapply steps_wf|done]. Qed.
Lemma settled_same s st : settled s → tables st = srv_tables s → settled (s <| srv_store := st |>).
Proof. intros H E. apply settled_store_step; [done|]. by rewrite E. Qed.
Lemma settled_same_hub s h : settled s → hub_wf h → settled (s <| srv_hub := h |>).
Proof. by intros [H1 H2 H3]. Qed.

Lemma keeps_ret {A} (a : A) : keeps (mret a).
Proof. by intros s H. Qed.
Lemma keeps_bind {A B} (m : M A) (f : A → M B) : keeps m → (∀ a, keeps (f a)) → keeps (m ≫= f).
Proof. intros Hm Hf s H. apply wp_bind. eapply wp_mono; [by apply Hm|]. intros a s'. apply Hf. Qed.
Lemma keeps_for_each {A} (l : list A) (f : A → M unit) : (∀ a, keeps (f a)) → keeps (for_each l f).
Proof. intros Hf s H. apply (wp_for_each settled); [|done]. intros a s1 _. apply Hf. Qed.

Lemma keeps_quiet {A} (m : prog Store A) P : quiet m P → keeps (on_store m).
Proof.
  intros Hm s H. apply wp_on_store. destruct s as [[t n] h j r c]. eapply wp_mono; [apply Hm|]. intros a st [E _].
  by apply (settled_same (mkServer (mkStore t n) h j r c)).
Qed.
Lemma keeps_refines {A} (m : prog Store A) : (∀ t, unique_ok t → refines (D:=D) m t) → keeps (on_store m).
Proof.
  intros Hm s H. apply wp_on_store. pose proof (wf_unique _ (settled_store s H)) as Hu. destruct s as [[t n] h j r c].
  eapply wp_mono; [by apply (Hm t)|]. intros a st Hst. by apply (settled_store_step (mkServer (mkStore t n) h j r c)).
Qed.
Lemma keeps_or_fail {A} code message (m : prog Store (storage_error + A)) k :
  keeps (on_store m) → (∀ a, keeps (k a)) → keeps (or_fail code message m k).
Proof. intros Hm Hk. apply keeps_bind; [done|]. intros [e|a]; [apply keeps_ret|apply Hk]. Qed.

(** A handler that asks first may use the answer while the tables are what they were. *)
Lemma keeps_or_fail_then {A} code message (m : prog Store (storage_error + A)) k P :
  quiet m P → (∀ a s, settled s → P (srv_tables s) (inr a) → wp (k a) (λ _, settled) s) → keeps (or_fail code message m k).
Proof.
  intros Hm Hk s H. apply wp_or_fail. destruct s as [[t n] h j r c]. eapply wp_mono; [apply Hm|]. intros [e|a] st [E HP];
    pose proof (settled_same (mkServer (mkStore t n) h j r c) st H E) as H'; [done|].
  apply Hk; [done|]. unfold srv_tables. cbn. by rewrite E.
Qed.

Lemma walk_perm s : ∀ l : list sub_ref, scan (ticks (srv_store s)) sub_ref l ≡ₚ l.
Proof. intros l. apply scan_perm. Qed.

Lemma keeps_broadcast g d e : keeps (broadcast g d e).
Proof.
  intros s H. apply wp_on_hub. apply wp_bind, wp_targets; [apply walk_perm|]. intros ts Hnd Hts.
  eapply wp_mono; [apply wp_tell_all; [apply H|done|]|].
  - intros r Hr. apply Hts in Hr as (_ & x & Hx & _). by eexists.
  - intros _ h' [Hwf _ _]. by apply settled_same_hub.
Qed.

Lemma keeps_sendTo g d e : keeps (sendTo g d e).
Proof.
  intros s H. apply wp_on_hub. apply wp_bind, wp_targets; [apply walk_perm|]. intros ts Hnd Hts.
  apply (wp_mono _ (λ _ h', hub_wf h' ∧ ∀ r, r ∈ ts → is_Some (subscribers h' !! r))).
  - apply (wp_for_each (λ h', hub_wf h' ∧ ∀ r, r ∈ ts → is_Some (subscribers h' !! r))).
    + intros r h1 Hr [Hwf Hin]. destruct (Hin r Hr) as [x Hx]. apply wp_bind.
      eapply wp_deliver; [done|exact Hx|by split|]. intros Hd h' Hwf'. split; [done|]. intros r' Hr'.
      unfold h'. cbn. destruct (decide (r' = r)) as [->|]; [rewrite lookup_insert_eq; by eexists|].
      rewrite lookup_insert_ne by done. by apply Hin.
    + split; [apply H|]. intros r Hr. apply Hts in Hr as (_ & x & Hx & _). by eexists.
  - intros _ h' [Hwf _]. by apply settled_same_hub.
Qed.

Lemma keeps_allow_join key : keeps (allow_join key).
Proof.
  apply keeps_bind; [by apply (keeps_quiet Now anything)|]. intros now s H. unfold wp, join_allowed.
  destruct (allow key now (joins s)) as [ok l]. by destruct H.
Qed.
Lemma keeps_allow_registration key : keeps (allow_registration key).
Proof.
  apply keeps_bind; [by apply (keeps_quiet Now anything)|]. intros now s H. unfold wp, registration_allowed.
  destruct (allow key now (registrations s)) as [ok l]. by destruct H.
Qed.

(** ** The handlers *)
Lemma keeps_decoded {A} (req : option A) k : (∀ a, keeps (k a)) → keeps (decoded req k).
Proof. intros Hk. destruct req; [apply Hk|apply keeps_ret]. Qed.
Lemma keeps_if {A} (b : bool) (m m' : M A) : keeps m → keeps m' → keeps (if b then m else m').
Proof. by destruct b. Qed.

Lemma default_subnet_ipv4 : ipv4_subnet DefaultSubnet.
Proof. intros p Hp. vm_compute in Hp. by injection Hp as <-. Qed.

Lemma refines_CreateGroup g d t : unique_ok t → ipv4_subnet (g_Subnet g) → refines (D:=D) (CreateGroup g d) t.
Proof. intros Hu Hs n. apply (wp_CreateGroup (D:=D)); [done..|intros; by apply rtc_once]. Qed.

Ltac keep := repeat first
  [ apply keeps_ret
  | apply keeps_broadcast | apply keeps_sendTo | apply keeps_allow_join | apply keeps_allow_registration
  | apply keeps_decoded; intros ?
  | apply keeps_or_fail; [|intros ?]
  | apply keeps_if
  | apply keeps_for_each; intros ?
  | apply keeps_bind; [|intros ?]
  | match goal with |- keeps (match ?r with inl _ => _ | inr _ => _ end) => destruct r end
  | match goal with |- keeps (match ?e with ErrNotFound => _ | _ => _ end) => destruct e end ].

Lemma keeps_CreateGroup d req : keeps (handleCreateGroup d req).
Proof.
  unfold handleCreateGroup. keep; [eapply keeps_quiet, quiet_NewID|]. apply keeps_refines. intros t Hu.
  apply refines_CreateGroup; [done|apply default_subnet_ipv4].
Qed.

Lemma keeps_ListGroups d : keeps (handleListGroups d).
Proof. unfold handleListGroups. keep. eapply keeps_quiet, quiet_MembershipsByDevice. Qed.
Lemma keeps_ListMembers d g : keeps (handleListMembers d g).
Proof. unfold handleListMembers. keep; [eapply keeps_quiet, quiet_membership|eapply keeps_quiet, quiet_Members]. Qed.
Lemma keeps_LeaveGroup d g : keeps (handleLeaveGroup d g).
Proof. unfold handleLeaveGroup. keep. apply keeps_refines. intros t _. apply refines_RevokeMembership. Qed.
Lemma keeps_RemoveMember d g x : keeps (handleRemoveMember d g x).
Proof. unfold handleRemoveMember. keep. apply keeps_refines. intros t _. apply refines_RemoveMember. Qed.
Lemma keeps_announceGroup g : keeps (announceGroup g).
Proof. unfold announceGroup. keep. eapply keeps_quiet, quiet_GroupByID. Qed.
Lemma keeps_RenameGroup d g req : keeps (handleRenameGroup d g req).
Proof.
  unfold handleRenameGroup. keep; [|eapply keeps_quiet, quiet_GroupByID]. apply keeps_refines. intros t _. by apply refines_group_update.
Qed.
Lemma keeps_SetGroupAppearance d g req : keeps (handleSetGroupAppearance d g req).
Proof.
  unfold handleSetGroupAppearance. keep; [|eapply keeps_quiet, quiet_GroupByID]. apply keeps_refines. intros t _. by apply refines_group_update.
Qed.
Lemma keeps_TransferOwnership d g x : keeps (handleTransferOwnership d g x).
Proof. unfold handleTransferOwnership. keep. apply keeps_refines. intros t _. apply refines_TransferOwnership. Qed.
Lemma keeps_DeleteGroup d g : D g → keeps (handleDeleteGroup d g).
Proof. intros HD. unfold handleDeleteGroup. keep. apply keeps_refines. intros t _. by apply refines_DeleteGroup. Qed.

(** The group a code opens is handed on while the tables still agree with it. *)
Lemma keeps_JoinByCode d ip req : keeps (handleJoinByCode d ip req).
Proof.
  unfold handleJoinByCode. apply keeps_decoded. intros text. apply keeps_if; [keep|].
  apply keeps_bind; [apply keeps_allow_join|]. intros ok. apply keeps_if; [keep|].
  intros s H. apply wp_bind, wp_on_store. destruct s as [[t n] h j r c].
  eapply wp_mono; [apply wp_GroupByInviteCode|]. intros g [t' n'] [E Hg]. cbn in E. subst t'.
  pose proof (settled_same (mkServer (mkStore t n) h j r c) (mkStore t n') H eq_refl) as H'.
  destruct g as [e|g]; [by destruct e|]. destruct Hg as (row & Hrow & _ & Eg). apply wp_bind, wp_on_store.
  apply (wp_AddMembership (D:=D)).
  - apply H'.
  - intros row' Hrow'. rewrite Hrow in Hrow'. injection Hrow' as <-. by rewrite Eg.
  - intros e n2 _. destruct e; exact (settled_same (mkServer (mkStore t n) h j r c) (mkStore t n2) H eq_refl).
  - intros k m ip' now n2 _ _ _ t' Hst. apply settled_store_step; [exact H'|]. by apply rtc_once.
Qed.

Lemma quiet_findInvite raw : quiet (findInvite raw) anything.
Proof.
  unfold findInvite. case_bool_decide; [by apply quiet_ret|]. intros t n. apply wp_try.
  eapply wp_mono; [apply wp_GroupByInviteCode|]. intros [e|g] [t' n'] [E _]; cbn in E; subst t'; [by split|].
  apply wp_try. eapply wp_mono; [apply quiet_MemberCount|]. intros [e|m] s' [E _]; by split.
Qed.

Lemma keeps_Invite ip raw : keeps (handleInvite ip raw).
Proof. unfold handleInvite. keep. eapply keeps_quiet, quiet_findInvite. Qed.
Lemma keeps_InvitePage raw : keeps (handleInvitePage raw).
Proof. unfold handleInvitePage. keep. eapply keeps_quiet, quiet_findInvite. Qed.
Lemma keeps_gets {A} (f : Server → A) (k : A → M response) : (∀ a, keeps (k a)) → keeps (a ← gets f; k a).
Proof. intros Hk. apply keeps_bind; [by intros s H|done]. Qed.
Lemma keeps_ResetInvite d g : keeps (handleResetInvite d g).
Proof. unfold handleResetInvite. keep. apply keeps_refines. intros t _. apply refines_ResetInviteCode. Qed.

Lemma keeps_RegisterDevice ip req : keeps (handleRegisterDevice ip req).
Proof.
  unfold handleRegisterDevice. keep; [by apply (keeps_quiet Now anything)|..].
  - apply keeps_refines. intros t _. apply refines_ClaimRegisterNonce.
  - apply keeps_refines. intros t _. apply refines_RegisterDevice.
Qed.

Lemma keeps_SetNickname d req : keeps (handleSetNickname d req).
Proof.
  unfold handleSetNickname, announceNickname. keep; [|eapply keeps_quiet, quiet_ConnectedGroupIDs].
  apply keeps_refines. intros t _. apply refines_SetDeviceNickname.
Qed.

(** The session is made for a membership the tables still hold. *)
Lemma keeps_CreateSession d g : keeps (handleCreateSession d g).
Proof.
  unfold handleCreateSession. eapply keeps_or_fail_then; [apply quiet_membership|]. intros m s H HP.
  destruct (HP m eq_refl) as (row & Hrow & Hcur & Hg & _). apply current_true in Hcur as (Hgr & _).
  apply wp_or_fail. destruct s as [[t n] h j r c].
  eapply wp_mono; [apply (refines_CreateSession (D:=D) m t)|].
  { intros r' Hr'. unfold srv_tables in Hrow. cbn in Hrow. congruence. }
  intros [e|x] st Hst; pose proof (settled_store_step (mkServer (mkStore t n) h j r c) st H Hst) as H'; [done|].
  revert H'. generalize ((mkServer (mkStore t n) h j r c) <| srv_store := st |>). intros s.
  enough (keeps (or_fail ErrInternal "" (PeersInGroup g (d_ID d)) (λ peers,
    broadcast g (d_ID d) (EventPeerOnline (ApiTypes.mkPeer (d_ID d) (d_Nickname d) (s_VirtualIP x) (d_TransportKey d) None)) ≫= λ _,
    mret (writeJSON 201 (CreateSessionResponse (s_ID x) (s_VirtualIP x) (toPeers peers)))))) as K by apply K.
  keep; eapply keeps_quiet, quiet_PeersInGroup.
Qed.

Lemma keeps_ownedSession d i k : (∀ x, keeps (k x)) → keeps (ownedSession d i k).
Proof. intros Hk. unfold ownedSession. keep; [eapply keeps_quiet, quiet_SessionByID|apply Hk]. Qed.

Lemma keeps_SetEndpoint d i req : keeps (handleSetEndpoint d i req).
Proof.
  apply keeps_ownedSession. intros x. keep. apply keeps_refines. intros t _. apply refines_Now. intros now. by apply refines_session_update.
Qed.
Lemma keeps_TouchSession i : keeps (on_store (TouchSession i)).
Proof. apply keeps_refines. intros t _. apply refines_Now. intros now. by apply refines_session_update. Qed.
Lemma keeps_Heartbeat d i : keeps (handleHeartbeat d i).
Proof. apply keeps_ownedSession. intros x. keep. apply keeps_TouchSession. Qed.
Lemma keeps_DeleteSession d i : keeps (handleDeleteSession d i).
Proof. apply keeps_ownedSession. intros x. keep. apply keeps_refines. intros t _. apply refines_DeleteSession. Qed.

Lemma keeps_authenticated r h : (∀ d, keeps (h d)) → keeps (authenticated r h).
Proof.
  intros Hh. unfold authenticated. destruct (bearerToken r); keep; [|apply Hh].
  apply keeps_refines. intros t _. apply refines_DeviceByToken.
Qed.

Lemma keeps_turn sub x w s :
  is_Some (subscribers (srv_hub s) !! sub) → settled s → wp (realtime_turn sub x w) (λ _, settled) s.
Proof.
  intros [r Hr] H. destruct w as [|written|[]]; cbn [realtime_turn]; [exact H| | |exact H].
  - apply wp_bind, wp_on_hub. apply (wp_receive _ _ r); [apply H|done| |intros; by apply settled_same_hub].
    intros _. apply wp_bind, wp_on_hub, (wp_ended _ _ r); [done|]. apply (settled_same_hub (s <| srv_hub := srv_hub s |>)); apply H || by apply settled_same_hub, H.
  - enough (keeps (realtime_alive x)) as Hk by (by apply Hk). unfold realtime_alive. keep. apply keeps_TouchSession.
Qed.

Lemma keeps_realtime_open d i refused : keeps (realtime_open d i refused).
Proof.
  unfold realtime_open, sendCurrentPeers. keep; [eapply keeps_quiet, quiet_SessionByID|].
  destruct refused; keep; [|eapply keeps_quiet, quiet_PeersInGroup].
  intros x H. apply wp_on_hub. eapply wp_mono; [apply hub_wf_Subscribe, H|]. intros r h Hh. by apply settled_same_hub.
Qed.
Lemma keeps_Realtime d i refused : keeps (handleRealtime d i refused).
Proof. apply keeps_bind; [apply keeps_realtime_open|]. intros r. apply keeps_ret. Qed.

Lemma keeps_expire_tick o : keeps (expire_tick o).
Proof. unfold expire_tick. keep. apply keeps_refines. intros t _. apply refines_ExpireSessions. Qed.

Lemma keeps_ServeHTTP r : (∀ g, route r = DeleteGroupRoute g → D g) → keeps (ServeHTTP r).
Proof.
  intros HD. unfold ServeHTTP. destruct (route r) eqn:E; try (apply keeps_authenticated; intros d).
  - apply keeps_gets. intros c. apply keeps_ret.
  - apply keeps_gets. intros c. apply keeps_ret.
  - apply keeps_Invite.
  - apply keeps_InvitePage.
  - apply keeps_RegisterDevice.
  - apply keeps_ret.
  - apply keeps_SetNickname.
  - apply keeps_ListGroups.
  - apply keeps_CreateGroup.
  - apply keeps_JoinByCode.
  - by apply keeps_DeleteGroup, HD.
  - apply keeps_ListMembers.
  - apply keeps_RemoveMember.
  - apply keeps_RenameGroup.
  - apply keeps_SetGroupAppearance.
  - apply keeps_ResetInvite.
  - apply keeps_TransferOwnership.
  - apply keeps_LeaveGroup.
  - apply keeps_CreateSession.
  - apply keeps_SetEndpoint.
  - apply keeps_Heartbeat.
  - apply keeps_DeleteSession.
  - apply keeps_Realtime.
  - apply keeps_ret.
  - apply keeps_ret.
Qed.
End keeps.

End api.

(** ** Runs of the server *)
Section served.
Context {MC : Machine} {ML : MachineLaws MC} {C : Ed25519}.

(** What happens to a server: a request, of which one starts a realtime connection, a turn of
    the loop of one, a turn of the loop that expires sessions, and what connections do at the hub. *)
Inductive server_act : Type :=
  | ActRequest (r : Request)
  | ActTurn (sub : sub_ref) (session : Session) (w : wake)
  | ActExpire
  | ActHub (a : hub_act).

Definition forgetful {A} (m : prog Server A) : prog Server unit := m ≫= λ _, mret tt.

Definition run_server (a : server_act) : prog Server unit :=
  match a with
  | ActRequest r => forgetful (ServeHTTP r)
  | ActTurn r x w => forgetful (realtime_turn r x w)
  | ActExpire => expire_tick SessionTimeout
  | ActHub a => on_hub (run_act a)
  end.

Definition server_act_ok (s : Server) (a : server_act) : Prop :=
  match a with
  | ActHub a => act_ok (srv_hub s) a
  | ActTurn r _ _ => is_Some (subscribers (srv_hub s) !! r)
  | _ => True
  end.

Inductive serves (s s' : Server) : Prop :=
  | serves_one a : server_act_ok s a → run_server a s = Some (tt, s') → serves s s'.

(** A server some history leads to, from a new database. *)
Definition up (s : Server) : Prop := ∃ config n, rtc serves (New config (mkStore empty_tables n)) s.

Definition server_wf (s : Server) : Prop := store_wf (srv_tables s) ∧ hub_wf (srv_hub s).

Lemma settled_start D s : server_wf s → settled D (srv_tables s) s.
Proof. intros [? ?]. by split. Qed.

Lemma keeps_forgetful {A} D t0 (m : prog Server A) : keeps D t0 m → keeps D t0 (forgetful m).
Proof. intros H. apply keeps_bind; [done|]. intros a. apply keeps_ret. Qed.

Lemma wp_run_server a s : server_wf s → server_act_ok s a → wp (run_server a) (λ _, server_wf) s.
Proof.
  intros Hwf Hok. pose proof (settled_start (λ _, True) s Hwf) as H.
  apply (wp_mono _ (λ _, settled (λ _, True) (srv_tables s))); [|by intros _ s' [_ ? ?]].
  destruct a as [r|r x w| |a]; cbn [run_server server_act_ok] in *.
  - apply keeps_forgetful, H. by apply keeps_ServeHTTP.
  - apply wp_bind. eapply wp_mono; [by apply (keeps_turn (λ _, True) (srv_tables s))|]. done.
  - apply keeps_expire_tick, H.
  - apply wp_on_hub. eapply wp_mono; [apply wp_act; [apply Hwf|exact Hok]|]. intros u h Hh. apply settled_same_hub; [exact H|exact Hh].
Qed.

(** A connection the hub has dropped reads what was queued for it and comes to its end,
    off every list. *)
Lemma a_dropped_connection_ends sub x r s : server_wf s → subscribers (srv_hub s) !! sub = Some r → chan_closed r = true →
  wp (realtime_loop sub x (replicate (S (length (send r))) (OnChannel true)))
     (λ on s', on = false ∧ server_wf s' ∧ srv_store s' = srv_store s ∧ (∀ g, sub ∉ listed (srv_hub s') g)
        ∧ send <$> subscribers (srv_hub s') !! sub = Some []) s.
Proof.
  remember (send r) as q eqn:Hq. revert s r Hq. induction q as [|e q IH]; intros s r Hq [Hst Hh] Hr Hc;
    cbn [replicate length realtime_loop realtime_turn]; apply wp_bind, wp_bind, wp_on_hub, (wp_receive _ _ r);
    try done; try congruence.
  - intros _. apply wp_bind, wp_on_hub, (wp_ended _ _ r); [done|]. rewrite Hc. apply wp_bind, wp_on_hub.
    apply wp_bind, (wp_forget _ sub r); [done..|]. intros h1 Hh1 Hs1 _ Hl1.
    apply (wp_close _ sub r); [done|by rewrite Hs1|]. intros r' h2 Hh2. split_and!; [done|by split|done| |].
    + intros g. change (listed _ g) with (listed h1 g). rewrite Hl1. set_solver.
    + cbn. rewrite lookup_insert_eq. unfold r'. cbn. by rewrite <-Hq.
  - intros e' rest h' E Hh' Hr'. rewrite <-Hq in E. injection E as <- <-.
    exact (IH (s <| srv_hub := h' |>) (r <| send := q |>) eq_refl (conj Hst Hh') Hr' Hc).
Qed.

Lemma up_wf s : up s → server_wf s.
Proof.
  intros (config & n & Hr). assert (server_wf (New config (mkStore empty_tables n))) as Hwf by (split; [apply empty_wf|apply hub_wf_New]).
  revert Hwf. induction Hr as [|s s1 s2 [a Hok Hrun] _ IH]; [done|]. intros Hwf. apply IH.
  pose proof (wp_run_server a s Hwf Hok) as H. unfold wp in H. by rewrite Hrun in H.
Qed.

(** C3: every request is answered.  Whatever history of requests, realtime
    connections and expiries a server has had, whatever the machine under it does,
    and whatever the request holds: its handler returns a response, without a crash
    and without sending on a closed channel; what it did to the database is a
    sequence of the changes the description allows, of which the deletion of a group
    is one only when that is what was asked for; and the database and the hub are
    again well formed. *)
Theorem every_request_is_answered s r :
  up s →
  ∃ resp s', ServeHTTP r s = Some (resp, s')
    ∧ rtc (step (λ g, route r = DeleteGroupRoute g)) (srv_tables s) (srv_tables s')
    ∧ store_wf (srv_tables s') ∧ hub_wf (srv_hub s') ∧ up s'.
Proof.
  intros Hup. pose proof (up_wf s Hup) as Hwf.
  pose proof (keeps_ServeHTTP (λ g, route r = DeleteGroupRoute g) (srv_tables s) r (λ g E, E) s (settled_start _ s Hwf)) as H.
  apply wp_run in H as (resp & s' & Hrun & [Hst Hwf' Hh']). exists resp, s'. split_and!; try done.
  destruct Hup as (config & n & Hup). exists config, n. eapply rtc_r; [exact Hup|]. apply (serves_one _ _ (ActRequest r)); [done|].
  cbn [run_server]. unfold forgetful, mbind, prog_bind. by rewrite Hrun.
Qed.
End served.

(** ** A server to run examples on *)
Module Desk.
#[local] Existing Instance Plain.machine.
#[local] Existing Instance Toy.scheme.

(** A registration of [id] with the one key or the other, signed at second [at_]. *)
Definition registration (id : string) (key : bool) (at_ : Z) (nonce : string) : RegisterDeviceRequest :=
  let pub := EncodePublicKey (public key) in
  mkRegisterDeviceRequest (str id) pub (str "transport") (str id) at_ (str nonce)
    (SignRegister key (str id) pub (str "transport") at_ (str nonce)).

Definition ask (token : gostring) (r : Route) : Request := mkRequest (str "192.0.2.7:4711") (str "Bearer " ++ token) r.
Definition register (id : string) (key : bool) (nonce : string) : Request :=
  ask [] (PostRegister (Some (registration id key 1700000000 nonce))).

(** The requests one after the other, with the answers. *)
Fixpoint answers (rs : list Request) (s : Server) : option (list response * Server) :=
  match rs with
  | [] => Some ([], s)
  | r :: rs =>
      match ServeHTTP r s with
      | Some (resp, s1) => prod_map (cons resp) id <$> answers rs s1
      | None => None
      end
  end.

Definition config : Server.Config := Server.mkConfig (str ":8080") (str "https://lan.example") [str "stun.example:3478"] [] (str "1.0").
Definition desk : Server := New config (mkStore empty_tables 0).

Lemma answers_up rs s l s' : up s → answers rs s = Some (l, s') → up s'.
Proof.
  revert s l. induction rs as [|r rs IH]; intros s l Hup; cbn [answers]; [by intros [= _ <-]|].
  destruct (ServeHTTP r s) as [[resp s1]|] eqn:E; [|done]. destruct (answers rs s1) as [[l1 s2]|] eqn:E2; [|done].
  cbn. intros [= _ <-]. eapply IH; [|exact E2]. destruct Hup as (config & n & Hup). exists config, n. eapply rtc_r; [exact Hup|].
  apply (serves_one _ _ (ActRequest r)); [done|]. cbn [run_server]. unfold forgetful, mbind, prog_bind. by rewrite E.
Qed.

(** What a registration at [desk] gives back. *)
Definition token_of (r : response) : gostring := match payload r with RegisterDeviceResponse t => t | _ => [] end.
Definition first_token : gostring :=
  match answers [register "ann" true "n1"] desk with Some ([r], _) => token_of r | _ => [] end.

(** Ann registers and makes a group. *)
Definition ann_and_her_group : list Request :=
  [register "ann" true "n1"; ask first_token (PostGroups (Some (mkCreateGroupRequest (str "LAN") (str "lan") (str "red"))))].

Lemma desk_up : up desk.
Proof. by exists config, 0%nat. Qed.

(** A server that examples start from: what [b] checks holds after [rs]. *)
Lemma up_check rs (b : list response → Server → bool) :
  match answers rs desk with Some (l, s) => b l s | None => false end = true →
  ∃ l s, up s ∧ answers rs desk = Some (l, s) ∧ b l s = true.
Proof.
  destruct (answers rs desk) as [[l s]|] eqn:E; [|done]. intros Hb. exists l, s.
  split; [exact (answers_up rs desk l s desk_up E)|done].
Qed.
End Desk.

Lemma every_request_is_answered_witness :
  ∃ s, @up Plain.machine Toy.scheme s ∧ size (memberships (srv_tables s)) = 1%nat
    ∧ ∃ resp s', @ServeHTTP Plain.machine Toy.scheme (Desk.ask Desk.first_token (DeleteGroupRoute (str "x"))) s = Some (resp, s')
      ∧ store_wf (srv_tables s').
Proof.
  destruct (Desk.up_check Desk.ann_and_her_group (λ _ s, (size (memberships (srv_tables s)) =? 1)%nat)) as (l & s & Hup & _ & Hs).
  { vm_compute. reflexivity. }
  exists s. split; [exact Hup|]. split; [by apply Nat.eqb_eq|].
  destruct (@every_request_is_answered Plain.machine Plain.machine_laws Toy.scheme s
    (Desk.ask Desk.first_token (DeleteGroupRoute (str "x"))) Hup) as (resp & s' & H1 & _ & H2 & _).
  exists resp, s'. split; [exact H1|exact H2].
Defined.
