(* ===== verification/ApiAuth.v ===== *)
(** Who may do what at the server: what a registration gives, and what a caller without
    a token can change. *)
From S2P Require Import Prelude Bytes NetAddr NetText Base64 Invite Auth Limits ApiTypes ServerConfig Hub Schema Storage Addressing StorageSpec StorageCalls StorageProps GroupJoin Api ApiSafe.

Section auth.
Context {MC : Machine} {ML : MachineLaws MC} {C : Ed25519}.

Abbreviation M := (prog Server).

(** What a bearer token stands for. *)
Lemma wp_DeviceByToken token t n :
  wp (DeviceByToken token) (λ r s',
    match r with
    | inl e => tables s' = t
    | inr d => ∃ row, token_row_of (hashToken token) t = Some (d_ID d, row)
    end) (mkStore t n).
Proof.
  apply wp_try, wp_wrap, wp_query; [done|]. cbn [tables]. intros n1.
  destruct (token_row_of _ _) as [[i row]|] eqn:E; [|done]. apply wp_bind, wp_Now. intros now n2. cbn [tables].
  apply wp_try, wp_wrap, wp_exec; [done|]. intros m t1 n3 [= _ <-] _ _. by exists row.
Qed.

Lemma wp_ClaimRegisterNonce nonce keep t n :
  wp (ClaimRegisterNonce nonce keep) (λ r s', ∃ ns, tables s' = t <| register_nonces := ns |>) (mkStore t n).
Proof.
  apply wp_bind, wp_Now. intros now n1. cbn [tables]. set (P := λ t1 : Tables, ∃ ns, t1 = t <| register_nonces := ns |>).
  assert (P t) as H0 by (exists (register_nonces t); by destruct t).
  apply wp_try, wp_wrap, wp_exec; [intros; exact H0|]. cbn [tables]. intros m t1 n2 [= _ <-] _ _. cbn.
  apply wp_bind, wp_exec; cbn [tables].
  - intros e n3. destruct (isUniqueViolation e); by eexists.
  - intros m2 t2 n3 Hi _ _. destruct (insert_row _ _ _) as [ns|]; [|done]. injection Hi as _ <-. by eexists.
Qed.

(** What registering a device does, when it does not fail. *)
Definition registered (t t' : Tables) (id key transport token : gostring) : Prop :=
  (∃ row, devices t' !! id = Some row ∧ dv_public_key row = key ∧ dv_transport_key row = transport
     ∧ token_row_of (hashToken token) t' = Some (id, row))
  ∧ (∀ d, d ≠ id → devices t' !! d = devices t !! d)
  ∧ (∀ h, is_Some (device_tokens t !! h) → device_tokens t' !! h = device_tokens t !! h).

Lemma wp_RegisterDevice d t n :
  wp (RegisterDevice d) (λ r s',
    match r with
    | inl e => tables s' = t
    | inr token =>
        registered t (tables s') (d_ID d) (d_PublicKey d) (d_TransportKey d) token
        ∧ groups (tables s') = groups t ∧ memberships (tables s') = memberships t ∧ sessions (tables s') = sessions t
    end) (mkStore t n).
Proof.
  apply wp_try, wp_bind, wp_Read. intros n1 i. destruct (random i 32) as [raw|]; [|done]. cbn [mret prog_ret wp].
  apply wp_write; [done|]. cbn [tables]. intros n2. apply wp_bind, wp_Now. intros now n3. cbn [tables].
  apply wp_bind, wp_exec; [intros e n4; by destruct (isUniqueViolation e)|]. intros m t1 n4 [= _ <-] _ _. cbn [tables].
  apply wp_try, wp_wrap, wp_exec; [done|]. intros m2 t2 n5 Hi _ _ n6. cbn [tables] in *.
  destruct (insert_row _ _ _) as [ts|] eqn:Ei; [|done]. apply insert_row_Some in Ei as [Hnew ->]. injection Hi as _ <-. cbn.
  split; [|done]. split_and!; cbn.
  - eexists. rewrite lookup_insert_eq. split; [reflexivity|].
    destruct (devices t !! d_ID d); (split; [done|]; split; [done|]; unfold token_row_of; cbn; rewrite lookup_insert_eq; cbn;
      by rewrite lookup_insert_eq).

  - intros d' Hd. by rewrite lookup_insert_ne.
  - intros h [tk Hh]. cbn in Hnew. rewrite lookup_insert_ne; [done|]. intros <-. congruence.
Qed.

(** A server after a registration: who registered, or that nothing came of it. *)
Definition after_registration (s : Server) (req : option RegisterDeviceRequest) (resp : response) (s' : Server) : Prop :=
  groups (srv_tables s') = groups (srv_tables s) ∧ memberships (srv_tables s') = memberships (srv_tables s)
  ∧ sessions (srv_tables s') = sessions (srv_tables s) ∧ srv_hub s' = srv_hub s
  ∧ ((status resp ≠ 201 ∧ devices (srv_tables s') = devices (srv_tables s)
      ∧ device_tokens (srv_tables s') = device_tokens (srv_tables s))
     ∨ ∃ q token, req = Some q ∧ resp = writeJSON 201 (RegisterDeviceResponse token)
         ∧ VerifyRegister (PublicKey q) (DeviceID q) (TransportKey q) (Signature q) (IssuedAt q) (Nonce q) = inr tt
         ∧ registered (srv_tables s) (srv_tables s') (DeviceID q) (PublicKey q) (TransportKey q) token).

Lemma registration_refused s s' req resp :
  srv_tables s' = (srv_tables s) <| register_nonces := register_nonces (srv_tables s') |> → srv_hub s' = srv_hub s →
  status resp ≠ 201 → after_registration s req resp s'.
Proof.
  intros E Hh Hr. unfold after_registration. rewrite E. cbn. split_and!; try done. by left.
Qed.

Lemma fail_status e code message : status (fail_response e code message) ≠ 201.
Proof. by destruct e. Qed.

Lemma wp_handleRegisterDevice ip req s : wp (handleRegisterDevice ip req) (after_registration s req) s.
Proof.
  assert (∀ t : Tables, t = t <| register_nonces := register_nonces t |>) as Hsame by (by intros []).
  destruct s as [[t n] h j rg c]. apply wp_bind, wp_bind, wp_on_store, wp_Now. intros now n1. cbn [tables].
  unfold wp at 1, registration_allowed. destruct (allow ip now _) as [ok rg'].
  destruct ok; cbn [negb]; [|by apply registration_refused; [apply Hsame| |]].
  destruct req as [q|]; cbn [decoded]; [|by apply registration_refused; [apply Hsame| |]].
  destruct (_ || _); [by apply registration_refused; [apply Hsame| |]|].
  apply wp_bind, wp_on_store, wp_Now. intros now2 n2. cbn [tables].
  destruct (_ || _); [by apply registration_refused; [apply Hsame| |]|].
  destruct (VerifyRegister _ _ _ _ _ _) as [e|[]] eqn:Ev; [by apply registration_refused; [apply Hsame| |]|].
  apply wp_or_fail. eapply wp_mono; [apply wp_ClaimRegisterNonce|]. intros [e|fresh] [t' n3] [ns Et]; cbn in Et; subst t'.
  { apply registration_refused; [done..|apply fail_status]. }
  destruct fresh; cbn [negb]; [|by apply registration_refused].
  apply wp_bind, wp_on_store. eapply wp_mono; [apply wp_RegisterDevice|]. intros [e|token] [t' n4].
  - cbn [tables]. intros ->. destruct e; by apply registration_refused.
  - intros ((Hrow & Hd & Hts) & Hg & Hm & Hs). cbn in *. split_and!; try done. right. by exists q, token.
Qed.

(** C21: a device id is all it takes.  A registration the server accepts is signed with
    the key it registers, and nothing else is asked of it: whoever had the device id
    before, its keys are now the new ones, the token given out stands for that id, and
    with it for every membership, group and role the id has, none of which change.
    Tokens given out before keep working.  Any other answer leaves the devices, their
    tokens and everything else but the list of nonces as they were. *)
Theorem a_device_id_is_all_it_takes ip req s resp s' :
  handleRegisterDevice ip req s = Some (resp, s') → after_registration s req resp s'.
Proof.
  intros H. pose proof (wp_handleRegisterDevice ip req s) as Hw. unfold wp in Hw. by rewrite H in Hw.
Qed.

(** ** Callers without a token *)
Definition knows_token (r : Request) (t : Tables) : Prop :=
  ∃ token, bearerToken r = Some token ∧ is_Some (token_row_of (hashToken token) t).

Definition untouched (s s' : Server) : Prop := srv_tables s' = srv_tables s ∧ srv_hub s' = srv_hub s.

Lemma wp_authenticated r h s :
  ¬ knows_token r (srv_tables s) → wp (authenticated r h) (λ resp s', resp = NotSignedIn ∧ untouched s s') s.
Proof.
  intros Hk. unfold authenticated. destruct (bearerToken r) as [token|] eqn:Eb; [|done].
  apply wp_bind, wp_on_store. destruct s as [[t n] hb j rg c]. eapply wp_mono; [apply wp_DeviceByToken|].
  intros [e|d] [t' n'].
  - cbn [tables]. by intros ->.
  - intros [row Hrow]. destruct Hk. exists token. split; [done|]. by eexists.
Qed.

Lemma wp_handleInvite ip raw s : wp (handleInvite ip raw) (λ _ s', untouched s s') s.
Proof.
  destruct s as [[t n] h j rg c]. apply wp_bind, wp_bind, wp_on_store, wp_Now. intros now n1. cbn [tables].
  unfold wp at 1, join_allowed. destruct (allow ip now _) as [ok j']. destruct ok; cbn [negb]; [|done].
  apply wp_bind, wp_on_store. eapply wp_mono; [apply quiet_findInvite|]. intros [e|i] [t' n'] [E _]; cbn in E; subst t'; [|done].
  by destruct e.
Qed.

Lemma wp_handleInvitePage raw s : wp (handleInvitePage raw) (λ _ s', untouched s s') s.
Proof.
  destruct s as [[t n] h j rg c]. apply wp_bind, wp_on_store. eapply wp_mono; [apply quiet_findInvite|].
  intros [e|i] [t' n'] [E _]; cbn in E; by subst t'.
Qed.

(** What stands open to everybody: what the server says of itself and the site, and what an
    invite opens, asked for by the app or by its page. *)
Definition open_to_all (r : Route) : Prop :=
  match r with
  | GetDiscovery | GetHealth | GetInvite _ | GetInvitePage _ | GetSite _ | OtherMethod => True
  | _ => False
  end.

(** C20: without a token nothing changes.  Of everything the mux hands on: a request whose
    bearer token the server does not hold, or holds as revoked, or that has none, is told
    that it is not signed in on every route but those that stand open to everybody and
    registering, the realtime channel among them; and it changes nothing, no table and no
    queue of a subscriber, on any route but registering, which touches no group, no
    membership and no session. *)
Theorem without_a_token_nothing_changes r s resp s' :
  ¬ knows_token r (srv_tables s) → ServeHTTP r s = Some (resp, s') →
  match route r with
  | PostRegister req => after_registration s req resp s'
  | route => untouched s s' ∧ (¬ open_to_all route → resp = NotSignedIn)
  end.
Proof.
  intros Hk H.
  assert (wp (ServeHTTP r) (λ resp s', match route r with
    | PostRegister req => after_registration s req resp s'
    | route => untouched s s' ∧ (¬ open_to_all route → resp = NotSignedIn)
    end) s) as Hw; [|unfold wp in Hw; by rewrite H in Hw].
  assert (∀ (m : M response) route, wp m (λ _ s', untouched s s') s → open_to_all route →
    wp m (λ resp s', untouched s s' ∧ (¬ open_to_all route → resp = NotSignedIn)) s) as Hopen.
  { intros m route Hm Ho. eapply wp_mono; [exact Hm|]. intros resp0 s0 Hu. by split. }
  assert (∀ h, wp (authenticated r h) (λ resp s', untouched s s' ∧ (¬ open_to_all (route r) → resp = NotSignedIn)) s) as Hauth.
  { intros h. eapply wp_mono; [by apply wp_authenticated|]. by intros ? ? [-> ?]. }
  unfold ServeHTTP. destruct (route r); try apply Hauth; try (by apply Hopen).
  - apply Hopen; [apply wp_handleInvite|done].
  - apply Hopen; [apply wp_handleInvitePage|done].
  - apply wp_handleRegisterDevice.
Qed.
End auth.

(** Ann's group, and somebody with another key who knows Ann's device id. *)
Module Thief.
#[local] Existing Instance Plain.machine.
#[local] Existing Instance Toy.scheme.

Definition last_answer {A} (f : response → list A) (o : option (list response * Server)) : list A :=
  match o with Some (l, _) => default [] (f <$> last l) | None => [] end.

Definition the_group : gostring :=
  last_answer (λ r, match payload r with OneMembership m => GroupID m | _ => [] end)
    (Desk.answers Desk.ann_and_her_group Desk.desk).
Definition claim : RegisterDeviceRequest := Desk.registration "ann" false 1700000000 "n2".
Definition stolen_token : gostring :=
  last_answer Desk.token_of (Desk.answers (Desk.ann_and_her_group ++ [Desk.register "ann" false "n2"]) Desk.desk).

(** What the thief's registration and its token lead to. *)
Definition deletes (s : Server) : bool :=
  from_option (λ rs : response * Server, status rs.1 =? 204) false (ServeHTTP (Desk.ask stolen_token (DeleteGroupRoute the_group)) s).
Definition same (a b : gostring) : bool := bool_decide (a = b).
Definition robs (l : list response) (s : Server) : bool :=
  from_option (λ rs : response * Server, same (Desk.token_of rs.1) stolen_token && deletes rs.2) false
    (handleRegisterDevice (str "192.0.2.7") (Some claim) s).
End Thief.

(** Another key registers Ann's device id, and its token deletes her group. *)
Lemma a_device_id_is_all_it_takes_witness :
  ∃ s resp s', @up Plain.machine Toy.scheme s
    ∧ @handleRegisterDevice Plain.machine Toy.scheme (str "192.0.2.7") (Some Thief.claim) s = Some (resp, s')
    ∧ @after_registration Plain.machine Toy.scheme s (Some Thief.claim) resp s' ∧ Desk.token_of resp = Thief.stolen_token
    ∧ Thief.deletes s' = true.
Proof.
  destruct (Desk.up_check Desk.ann_and_her_group Thief.robs) as (l & s & Hup & _ & Hs).
  { vm_compute. reflexivity. }
  unfold Thief.robs in Hs.
  destruct (@handleRegisterDevice Plain.machine Toy.scheme (str "192.0.2.7") (Some Thief.claim) s) as [[resp s']|] eqn:E; [|discriminate].
  apply andb_true_iff in Hs as [H1 H2]. exists s, resp, s'. split; [exact Hup|]. split; [exact E|].
  split; [exact (@a_device_id_is_all_it_takes Plain.machine Toy.scheme _ _ s resp s' E)|].
  split; [exact (bool_decide_eq_true_1 _ H1)|exact H2].
Defined.

Lemma without_a_token_nothing_changes_witness :
  ∃ s s', @up Plain.machine Toy.scheme s
    ∧ @ServeHTTP Plain.machine Toy.scheme (Desk.ask (str "made up") (DeleteGroupRoute Thief.the_group)) s = Some (NotSignedIn, s')
    ∧ untouched s s'.
Proof.
  set (r := Desk.ask (str "made up") (DeleteGroupRoute Thief.the_group)).
  destruct (Desk.up_check Desk.ann_and_her_group (λ _ s,
    bool_decide (@token_row_of (@hashToken Plain.machine (str "made up")) (srv_tables s) = None)
    && match @ServeHTTP Plain.machine Toy.scheme r s with Some _ => true | None => false end)) as (l & s & Hup & _ & Hs).
  { vm_compute. reflexivity. }
  apply andb_true_iff in Hs as [Hn Hs]. apply bool_decide_eq_true in Hn.
  destruct (@ServeHTTP Plain.machine Toy.scheme r s) as [[resp s']|] eqn:E; [|discriminate].
  destruct (@without_a_token_nothing_changes Plain.machine Toy.scheme r s resp s') as [H Hsaid].
  - intros (token & Eb & [row Hrow]). assert (bearerToken r = Some (str "made up")) as Et by (vm_compute; reflexivity). congruence.
  - exact E.
  - exists s, s'. split; [exact Hup|]. split; [rewrite E, Hsaid; [reflexivity|intros []]|exact H].
Defined.

(** ** The page of an invite link *)
Section page.
Context {MC : Machine} {C : Ed25519}.

Definition opens (raw : gostring) (t : Tables) (k : gostring) (g : group_row) : Prop :=
  Schema.groups t !! k = Some g ∧ gr_invite_code g = Normalize (Parse raw).

Lemma query_works {A} (f : Tables → A) s : reaches (ticks s) = true → query f s = Some (inr (f (tables s)), s <| ticks := S (ticks s) |>).
Proof. unfold query. by intros ->. Qed.

(** A code opens a group, and then its name is given; or it opens none. *)
Definition tells (raw : gostring) (t : Tables) (r : storage_error + ApiTypes.Invite) : Prop :=
  match r with
  | inr i => ∃ k g, opens raw t k g ∧ Normalize (Parse raw) ≠ [] ∧ i = mkInvite (gr_invite_code g) (gr_name g) (gr_icon g) (gr_color g) (members_in k t)
  | inl e => e = ErrNotFound ∧ (Normalize (Parse raw) = [] ∨ ∀ k g, ¬ opens raw t k g)
  end.

Lemma findInvite_tells raw s : (∀ n, reaches n = true) →
  ∃ r s', findInvite raw s = Some (r, s') ∧ tables s' = tables s ∧ tells raw (tables s) r.
Proof.
  intros Hr. unfold findInvite. case_bool_decide as Hp.
  { exists (inl ErrNotFound), s. split_and!; [done..|]. split; [done|]. left. by rewrite Hp. }
  unfold GroupByInviteCode. case_bool_decide as Hn.
  { exists (inl ErrNotFound), s. split_and!; [done..|]. split; [done|]. by left. }
  unfold scanGroup, MemberCount, wrap, try_bind, mbind, prog_bind. rewrite query_works by done. cbn.
  destruct (find_where _ _) as [[k g]|] eqn:Ef; cbn.
  - rewrite query_works by done. cbn. apply find_where_Some in Ef as [Hk Hg]. apply bool_decide_eq_true in Hg.
    do 2 eexists. split_and!; [done..|]. exists k, g. by split_and!.
  - do 2 eexists. split_and!; [done..|]. split; [done|]. right. intros k g [Hk Hg].
    pose proof (find_where_None _ _ Ef k g Hk) as Hf. cbn in Hf. by apply bool_decide_eq_false in Hf.
Qed.

(** The page answers every guess.  Asking the API what a code opens is refused once an
    address has used its ten attempts of a minute.  The page a link opens says the same
    of every code, of which it tells the ones that open a group by its status and shows
    the group's name, it counts no attempt, and it never refuses: with the limit reached
    guessing goes on there. *)
Theorem the_page_answers_every_guess ip raw s : (∀ n, reaches n = true) →
  (limit (joins s) ≤ length (recent (joins s) ip (clock (ticks (srv_store s)))))%nat →
  (∃ s', handleInvite ip raw s = Some (TooMany, s'))
  ∧ ∃ status v s', handleInvitePage raw s = Some (mkResponse status (InvitePage v), s')
      ∧ joins s' = joins s ∧ registrations s' = registrations s ∧ srv_tables s' = srv_tables s
      ∧ (status = 200 ↔ is_Some (v_Invite v)) ∧ (status ≠ 200 → status = 404)
      ∧ (is_Some (v_Invite v) ↔ Normalize (Parse raw) ≠ [] ∧ ∃ k g, opens raw (srv_tables s) k g)
      ∧ (∀ i, v_Invite v = Some i → ∃ k g, opens raw (srv_tables s) k g ∧ inv_GroupName i = gr_name g ∧ Code i = gr_invite_code g).
Proof.
  intros Hr Hfull. split.
  - unfold handleInvite, allow_join, on_store, Now, next, join_allowed, allow, mbind, prog_bind. cbn.
    destruct (Nat.leb_spec (limit (joins s)) (length (recent (joins s) ip (clock (ticks (srv_store s)))))); [|lia]. by eexists.
  - destruct (findInvite_tells raw (srv_store s) Hr) as (r & st & Hf & Ht & Htell).
    unfold handleInvitePage, on_store, mbind, prog_bind. rewrite Hf. destruct r as [e|i].
    + destruct Htell as [_ Hno]. do 3 eexists. split; [done|]. split_and!; try done; cbn.
      * split; [done|]. by intros [].
      * split; [by intros []|]. intros [Hn (k & g & Ho)]. destruct Hno as [|Hno]; [done|]. by destruct (Hno k g).
    + destruct Htell as (k & g & Ho & Hp & ->). do 3 eexists. split; [done|]. split_and!; try done; cbn.
      * split; [intros _; split; [done|by exists k, g]|intros _; by eexists].
      * intros i [= <-]. exists k, g. split; [done|]. by destruct Ho.
Qed.
End page.

(** Twelve attempts in a row, and the code of Ann's group. *)
Module Guess.
#[local] Existing Instance Plain.machine.
#[local] Existing Instance Toy.scheme.
Definition code : gostring :=
  Thief.last_answer (λ r, match payload r with OneMembership m => InviteCode m | _ => [] end) (Desk.answers Desk.ann_and_her_group Desk.desk).
Definition guesses : list Request := replicate 11 (Desk.ask [] (GetInvite (str "aaaaaaaa"))).
Definition shows (s : Server) : bool :=
  match handleInvitePage code s with Some (mkResponse 200 (InvitePage v), _) => bool_decide (members 1 = v_Members v) | _ => false end.
End Guess.

Lemma the_page_answers_every_guess_witness :
  ∃ s, @up Plain.machine Toy.scheme s ∧ Guess.shows s = true
  ∧ (∃ s', @handleInvite Plain.machine (str "192.0.2.7") Guess.code s = Some (TooMany, s'))
  ∧ ∃ status v s', @handleInvitePage Plain.machine Guess.code s = Some (mkResponse status (InvitePage v), s')
      ∧ joins s' = joins s ∧ registrations s' = registrations s ∧ srv_tables s' = srv_tables s
      ∧ (status = 200 ↔ is_Some (v_Invite v)) ∧ (status ≠ 200 → status = 404)
      ∧ (is_Some (v_Invite v) ↔ Normalize (Parse Guess.code) ≠ [] ∧ ∃ k g, opens Guess.code (srv_tables s) k g)
      ∧ (∀ i, v_Invite v = Some i → ∃ k g, opens Guess.code (srv_tables s) k g ∧ inv_GroupName i = gr_name g ∧ Code i = gr_invite_code g).
Proof.
  destruct (Desk.up_check (Desk.ann_and_her_group ++ Guess.guesses)
    (λ _ s, Guess.shows s && (limit (joins s) <=? length (recent (joins s) (str "192.0.2.7") (Schema.clock (Machine := Plain.machine) (ticks (srv_store s)))))%nat))
    as (l & s & Hup & _ & Hs); [vm_compute; reflexivity|].
  apply andb_true_iff in Hs as [H1 H2]. apply Nat.leb_le in H2. exists s. split; [exact Hup|]. split; [exact H1|].
  exact (@the_page_answers_every_guess Plain.machine (str "192.0.2.7") Guess.code s (λ n, eq_refl) H2).
Defined.
