(* ===== verification/Session.v ===== *)
(** protocol/session: the cryptography behind a peer link.

    The Noise implementation (github.com/flynn/noise) is not part of this
    repository, so it is the class [Noise]: its types and operations are
    parameters, and what its documentation and the Noise specification say of them
    is the class [NoiseLaws].  A handshake or a cipher state is mutated through a
    pointer, so an operation on one returns the object as the call leaves it. *)
From S2P Require Import Prelude Bytes Wire.

(** ** The library *)
Class Noise : Type := {
  Keypair : Type;
  Public : Keypair → list Z;
  noise_error : Type;
  HandshakeState : Type;
  CipherState : Type;
  (** What [rand.Reader] will yield to one caller. *)
  Random : Type;
  DH25519_GenerateKeypair : Random → noise_error + Keypair;
  (** [Config]: initiator or not, prologue, static keypair, peer static, random. *)
  NewHandshakeState : bool → list Z → Keypair → option (list Z) → Random → noise_error + HandshakeState;
  (** The message or payload, and the two cipher states once the pattern ends. *)
  WriteMessage : HandshakeState → (noise_error + (list Z * option CipherState * option CipherState)) * HandshakeState;
  ReadMessage : HandshakeState → list Z → (noise_error + (list Z * option CipherState * option CipherState)) * HandshakeState;
  hs_PeerStatic : HandshakeState → list Z;
  SetNonce : CipherState → Z → CipherState;
  (** Destination, additional data, plaintext or ciphertext. *)
  Encrypt : CipherState → list Z → list Z → list Z → (noise_error + list Z) * CipherState;
  Decrypt : CipherState → list Z → list Z → list Z → (noise_error + list Z) * CipherState;
}.

(** ** session.go *)
Definition KeySize : nat := 32.

(** [protocol.Name + "-transport-v" + strconv.Itoa(protocol.TransportVersion)] *)
Definition prologue : list Z := str "192168-transport-v1".
Arguments prologue : simpl never.

Section session.
Context {N : Noise}.

Inductive session_error : Type :=
  | GenerateKeypairErr (e : noise_error)
  | PeerKeySize (n : nat)
  | NewInitiatorErr (e : noise_error)
  | NewResponderErr (e : noise_error)
  | ResponderWritesInit
  | WriteInitErr (e : noise_error)
  | InitiatorReadsInit
  | ReadInitErr (e : noise_error)
  | InitiatorWritesResponse
  | WriteResponseErr (e : noise_error)
  | ResponderReadsResponse
  | ReadResponseErr (e : noise_error)
  | HandshakeWithoutKeys
  | SealErr (e : noise_error)
  | OpenErr (e : noise_error).

Record Handshake : Type := mkHandshake { hs_state : HandshakeState; initiator : bool }.

Record Session : Type := mkSession {
  send : CipherState;
  recv : CipherState;
  peerStatic : list Z;
}.

Definition GenerateKeypair (r : Random) : session_error + Keypair :=
  match DH25519_GenerateKeypair r with
  | inl e => inl (GenerateKeypairErr e)
  | inr kp => inr kp
  end.

Definition NewInitiator (static : Keypair) (peerStatic : list Z) (r : Random) : session_error + Handshake :=
  if negb (length peerStatic =? KeySize)%nat then inl (PeerKeySize (length peerStatic)) else
  match NewHandshakeState true prologue static (Some peerStatic) r with
  | inl e => inl (NewInitiatorErr e)
  | inr state => inr (mkHandshake state true)
  end.

Definition NewResponder (static : Keypair) (r : Random) : session_error + Handshake :=
  match NewHandshakeState false prologue static None r with
  | inl e => inl (NewResponderErr e)
  | inr state => inr (mkHandshake state false)
  end.

Definition WriteInit : st Handshake (session_error + list Z) := λ h,
  if negb (initiator h) then (inl ResponderWritesInit, h) else
  let '(result, state) := WriteMessage (hs_state h) in
  let h := mkHandshake state (initiator h) in
  match result with
  | inl e => (inl (WriteInitErr e), h)
  | inr (msg, _, _) => (inr msg, h)
  end.

Definition ReadInit (msg : list Z) : st Handshake (session_error + unit) := λ h,
  if initiator h then (inl InitiatorReadsInit, h) else
  let '(result, state) := ReadMessage (hs_state h) msg in
  let h := mkHandshake state (initiator h) in
  match result with
  | inl e => (inl (ReadInitErr e), h)
  | inr _ => (inr tt, h)
  end.

(** The responder sends on the second cipher state and receives on the first. *)
Definition WriteResponse : st Handshake (session_error + (list Z * Session)) := λ h,
  if initiator h then (inl InitiatorWritesResponse, h) else
  let '(result, state) := WriteMessage (hs_state h) in
  let h := mkHandshake state (initiator h) in
  match result with
  | inl e => (inl (WriteResponseErr e), h)
  | inr (msg, Some toResponder, Some toInitiator) =>
      (inr (msg, mkSession toInitiator toResponder (hs_PeerStatic state)), h)
  | inr _ => (inl HandshakeWithoutKeys, h)
  end.

Definition ReadResponse (msg : list Z) : st Handshake (session_error + Session) := λ h,
  if negb (initiator h) then (inl ResponderReadsResponse, h) else
  let '(result, state) := ReadMessage (hs_state h) msg in
  let h := mkHandshake state (initiator h) in
  match result with
  | inl e => (inl (ReadResponseErr e), h)
  | inr (_, Some toResponder, Some toInitiator) =>
      (inr (mkSession toResponder toInitiator (hs_PeerStatic state)), h)
  | inr _ => (inl HandshakeWithoutKeys, h)
  end.

Definition PeerStatic (h : Handshake) : list Z := hs_PeerStatic (hs_state h).

Definition Seal (dst additionalData plaintext : list Z) (counter : Z)
    : st Session (session_error + list Z) := λ s,
  let send := SetNonce (send s) counter in
  let '(result, send) := Encrypt send dst additionalData plaintext in
  let s := mkSession send (recv s) (peerStatic s) in
  match result with
  | inl e => (inl (SealErr e), s)
  | inr out => (inr out, s)
  end.

Definition Open (dst additionalData ciphertext : list Z) (counter : Z)
    : st Session (session_error + list Z) := λ s,
  let recv := SetNonce (recv s) counter in
  let '(result, recv) := Decrypt recv dst additionalData ciphertext in
  let s := mkSession (send s) recv (peerStatic s) in
  match result with
  | inl e => (inl (OpenErr e), s)
  | inr out => (inr out, s)
  end.
End session.

(** ** What the library promises

    The Noise specification's [CipherState] is a key and a nonce; [Encrypt] seals
    under both and counts the nonce up (section 5.1), for any nonce but the last,
    which it reserves.  [IK] is the pattern the handshake runs. *)
Class NoiseLaws (N : Noise) : Type := {
  cs_key : CipherState → list Z;
  cs_nonce : CipherState → Z;
  (** ENCRYPT(k, n, ad, plaintext) *)
  aead : list Z → Z → list Z → list Z → list Z;

  SetNonce_key c n : cs_key (SetNonce c n) = cs_key c;
  SetNonce_nonce c n : cs_nonce (SetNonce c n) = n;
  Encrypt_key c dst ad pt : cs_key (Encrypt c dst ad pt).2 = cs_key c;
  Decrypt_key c dst ad ct : cs_key (Decrypt c dst ad ct).2 = cs_key c;

  (** A [byte] is a byte. *)
  Decrypt_bytes c dst ad ct out : is_bytes dst → is_bytes ct → (Decrypt c dst ad ct).1 = inr out → is_bytes out;

  Encrypt_out c dst ad pt : 0 ≤ cs_nonce c < 2 ^ 64 - 1 →
    (Encrypt c dst ad pt).1 = inr (dst ++ aead (cs_key c) (cs_nonce c) ad pt);
  Encrypt_nonce c dst ad pt : 0 ≤ cs_nonce c < 2 ^ 64 - 1 →
    cs_nonce (Encrypt c dst ad pt).2 = cs_nonce c + 1;
  Decrypt_out c dst ad pt : 0 ≤ cs_nonce c < 2 ^ 64 - 1 →
    (Decrypt c dst ad (aead (cs_key c) (cs_nonce c) ad pt)).1 = inr (dst ++ pt);

  (** The two messages of IK, run against the right static key. *)
  IK_completes p kI kR rI rR :
    ∃ i0 r0 i1 r1 i2 r2 m1 m2 o1 o2 a1 a2 b1 b2,
      NewHandshakeState true p kI (Some (Public kR)) rI = inr i0
      ∧ NewHandshakeState false p kR None rR = inr r0
      ∧ WriteMessage i0 = (inr (m1, None, None), i1)
      ∧ ReadMessage r0 m1 = (inr (o1, None, None), r1)
      ∧ hs_PeerStatic r1 = Public kI
      ∧ WriteMessage r1 = (inr (m2, Some a1, Some a2), r2)
      ∧ hs_PeerStatic r2 = Public kI
      ∧ ReadMessage i1 m2 = (inr (o2, Some b1, Some b2), i2)
      ∧ hs_PeerStatic i2 = Public kR
      ∧ cs_key b1 = cs_key a1 ∧ cs_key b2 = cs_key a2;

  (** No Noise message is longer than 65535 bytes (section 3), and those of IK carry no payload here. *)
  IK_short p kI kR rI rR i0 r0 m1 :
    length (Public kI) = KeySize → length (Public kR) = KeySize →
    NewHandshakeState true p kI (Some (Public kR)) rI = inr i0 → NewHandshakeState false p kR None rR = inr r0 →
    (∀ m a b, (WriteMessage i0).1 = inr (m, a, b) → (length m ≤ Z.to_nat 65535)%nat)
    ∧ (∀ m a b, (WriteMessage (ReadMessage r0 m1).2).1 = inr (m, a, b) → (length m ≤ Z.to_nat 65535)%nat);

  (** A handshake state that was given the peer's static key keeps it. *)
  initiator_PeerStatic p k s r h : NewHandshakeState true p k (Some s) r = inr h → hs_PeerStatic h = s;
  hs_is_initiator : HandshakeState → bool;
  hs_is_initiator_new p k s r h : NewHandshakeState true p k (Some s) r = inr h → hs_is_initiator h = true;
  WriteMessage_PeerStatic h : hs_PeerStatic (WriteMessage h).2 = hs_PeerStatic h;
  WriteMessage_initiator h : hs_is_initiator h = true → hs_is_initiator (WriteMessage h).2 = true;
  ReadMessage_initiator h m : hs_is_initiator h = true →
    hs_is_initiator (ReadMessage h m).2 = true ∧ hs_PeerStatic (ReadMessage h m).2 = hs_PeerStatic h;
}.

(** ** Histories and interleavings *)
Section histories.
Context {N : Noise}.

(** A session as it is after any number of packets have been sealed and opened on
    it, whether or not they verified. *)
Inductive evolves : Session → Session → Prop :=
  | evolves_refl s : evolves s s
  | evolves_seal s s' dst ad pt n : evolves s s' → evolves s (Seal dst ad pt n s').2
  | evolves_open s s' dst ad ct n : evolves s s' → evolves s (Open dst ad ct n s').2.

(** [Seal] takes no lock, so what another goroutine can see of it is its two
    effects on the shared cipher state, one after the other. *)
Inductive seal_step : Type :=
  | StepSetNonce (counter : Z)
  | StepEncrypt (dst ad pt : list Z).

Definition run_step (x : seal_step) : st Session (list (noise_error + list Z)) := λ s,
  match x with
  | StepSetNonce n => ([], mkSession (SetNonce (send s) n) (recv s) (peerStatic s))
  | StepEncrypt dst ad pt =>
      let '(result, c) := Encrypt (send s) dst ad pt in
      ([result], mkSession c (recv s) (peerStatic s))
  end.

Fixpoint run_steps (xs : list seal_step) : st Session (list (noise_error + list Z)) :=
  match xs with
  | [] => mret []
  | x :: xs => out ← run_step x; outs ← run_steps xs; mret (out ++ outs)
  end.

(** The steps of one call. *)
Definition seal_steps (dst ad pt : list Z) (counter : Z) : list seal_step :=
  [StepSetNonce counter; StepEncrypt dst ad pt].
End histories.
Arguments seal_step : clear implicits.

(** [interleaving ts xs]: the goroutines with steps [ts] can run in the order [xs]. *)
Inductive interleaving {A} : list (list A) → list A → Prop :=
  | interleaving_done ts : Forall (λ t, t = []) ts → interleaving ts []
  | interleaving_step ts i x t xs :
      ts !! i = Some (x :: t) → interleaving (<[i := t]> ts) xs → interleaving ts (x :: xs).

(** ** A library to evaluate with

    It keeps its promises and hides nothing: keys are their own public halves, the
    first message names the key it is for, and sealing appends a sixteen byte sum. *)
Module Plain.
Inductive error : Type := BadMessage | BadNonce | BadTag.

Record hs : Type := mkHs {
  init : bool;
  me : list Z;
  them : list Z;
}.
Definition cipher : Type := list Z * Z.

Definition write (h : hs) : (error + (list Z * option cipher * option cipher)) * hs :=
  if init h then (inr (Z.of_nat (length (them h)) :: them h ++ me h, None, None), h)
  else (inr ([2], Some (1 :: them h ++ me h, 0), Some (2 :: them h ++ me h, 0)), h).

Definition read (h : hs) (m : list Z) : (error + (list Z * option cipher * option cipher)) * hs :=
  if init h then
    if decide (m = [2]) then (inr ([], Some (1 :: me h ++ them h, 0), Some (2 :: me h ++ them h, 0)), h)
    else (inl BadMessage, h)
  else match m with
  | n :: m =>
      if decide (take (Z.to_nat n) m = me h)
      then (inr ([], None, None), mkHs (init h) (me h) (drop (Z.to_nat n) m))
      else (inl BadMessage, h)
  | [] => (inl BadMessage, h)
  end.

Definition tag (k : list Z) (n : Z) (ad : list Z) : list Z := replicate 16 ((foldr Z.add n (k ++ ad)) mod 256).
Definition seal (k : list Z) (n : Z) (ad pt : list Z) : list Z := pt ++ tag k n ad.

Definition encrypt (c : cipher) (dst ad pt : list Z) : (error + list Z) * cipher :=
  if decide (0 ≤ c.2 < 2 ^ 64 - 1) then (inr (dst ++ seal c.1 c.2 ad pt), (c.1, c.2 + 1))
  else (inl BadNonce, c).
Definition decrypt (c : cipher) (dst ad ct : list Z) : (error + list Z) * cipher :=
  let pt := take (length ct - 16) ct in
  if decide (ct = seal c.1 c.2 ad pt) then (inr (dst ++ pt), (c.1, c.2 + 1)) else (inl BadTag, c).

#[export] Instance noise : Noise := {|
  Keypair := list Z;
  Public := id;
  Random := unit;
  DH25519_GenerateKeypair _ := inr (replicate 32 7);
  NewHandshakeState i _ k s _ := inr (mkHs i k (default [] s));
  WriteMessage := write;
  ReadMessage := read;
  hs_PeerStatic := them;
  SetNonce c n := (c.1, n);
  Encrypt := encrypt;
  Decrypt := decrypt;
|}.

(** A session sealing under one key and opening under another. *)
Definition between (out back who : list Z) : @Session noise := mkSession (N := noise) (out, 0) (back, 0) who.
Definition calling (me them : list Z) : @Handshake noise := mkHandshake (N := noise) (mkHs true me them) true.
End Plain.

#[export] Instance plain_laws : NoiseLaws Plain.noise.
Proof.
  refine {|
    cs_key := (fst : @CipherState Plain.noise → list Z);
    cs_nonce := (snd : @CipherState Plain.noise → Z);
    aead := Plain.seal;
    hs_is_initiator := Plain.init : @HandshakeState Plain.noise → bool;
  |}.
  - done.
  - done.
  - intros [k n] dst ad pt. cbn. unfold Plain.encrypt. by case_decide.
  - intros [k n] dst ad ct. cbn. unfold Plain.decrypt. by case_decide.
  - intros [k n] dst ad ct out Hd Hc. cbn in *. unfold Plain.decrypt. case_decide; [|done]. intros [= <-].
    apply is_bytes_app. split; [done|]. by apply is_bytes_take.
  - intros [k n] dst ad pt Hn. cbn in *. unfold Plain.encrypt. by rewrite decide_True.
  - intros [k n] dst ad pt Hn. cbn in *. unfold Plain.encrypt. by rewrite decide_True.
  - intros [k n] dst ad pt Hn. cbn in *. unfold Plain.decrypt. cbn.
    assert (take (length (Plain.seal k n ad pt) - 16) (Plain.seal k n ad pt) = pt) as Ht.
    { unfold Plain.seal. rewrite length_app. unfold Plain.tag. rewrite length_replicate.
      rewrite take_app_length'; [done|lia]. }
    rewrite Ht. by rewrite decide_True.
  - intros p kI kR [] [].
    exists (Plain.mkHs true kI kR), (Plain.mkHs false kR []), (Plain.mkHs true kI kR), (Plain.mkHs false kR kI),
      (Plain.mkHs true kI kR), (Plain.mkHs false kR kI).
    do 8 eexists. split_and!; try done.
    cbn. by rewrite Nat2Z.id, take_app_length, drop_app_length, decide_True by done.
  - intros p kI kR [] [] i0 r0 m1 HI HR [= <-] [= <-]. unfold KeySize in *. cbn in *. split.
    + intros m a b [= <- <- <-]. cbn. rewrite length_app, HI, HR. lia.
    + intros m a b. destruct m1 as [|n m1]; cbn; [|case_decide; cbn]; intros [= <- <- <-]; cbn; lia.
  - by intros p k s [] h [= <-].
  - by intros p k s [] h [= <-].
  - intros h. cbn in *. unfold Plain.write. by destruct (Plain.init h).
  - intros h Hh. cbn in *. unfold Plain.write. by rewrite Hh.
  - intros h m Hh. cbn in *. unfold Plain.read. rewrite Hh. by case_decide.
Defined.

(** ** Lemmas *)
Lemma Seal_static `{N : Noise} dst ad pt n s : peerStatic (Seal dst ad pt n s).2 = peerStatic s.
Proof. unfold Seal. by destruct (Encrypt _ _ _ _) as [[] c]. Qed.

Section lemmas.
Context `{L : NoiseLaws}.

Lemma Seal_out dst ad pt n s : 0 ≤ n < 2 ^ 64 - 1 →
  (Seal dst ad pt n s).1 = inr (dst ++ aead (cs_key (send s)) n ad pt).
Proof.
  intros Hn. unfold Seal.
  pose proof (Encrypt_out (SetNonce (send s) n) dst ad pt) as E.
  rewrite SetNonce_nonce, SetNonce_key in E. specialize (E Hn).
  destruct (Encrypt _ _ _ _) as [r c]. cbn in E. by subst r.
Qed.

Lemma Open_out dst ad pt n s : 0 ≤ n < 2 ^ 64 - 1 →
  (Open dst ad (aead (cs_key (recv s)) n ad pt) n s).1 = inr (dst ++ pt).
Proof.
  intros Hn. unfold Open.
  pose proof (Decrypt_out (SetNonce (recv s) n) dst ad pt) as E.
  rewrite SetNonce_nonce, SetNonce_key in E. specialize (E Hn).
  destruct (Decrypt _ _ _ _) as [r c]. cbn in E. by subst r.
Qed.

Lemma Seal_keys dst ad pt n s :
  cs_key (send (Seal dst ad pt n s).2) = cs_key (send s) ∧ recv (Seal dst ad pt n s).2 = recv s
  ∧ peerStatic (Seal dst ad pt n s).2 = peerStatic s.
Proof.
  unfold Seal. pose proof (Encrypt_key (SetNonce (send s) n) dst ad pt) as E.
  rewrite SetNonce_key in E. by destruct (Encrypt _ _ _ _) as [[] c].
Qed.

Lemma Open_keys dst ad ct n s :
  cs_key (recv (Open dst ad ct n s).2) = cs_key (recv s) ∧ send (Open dst ad ct n s).2 = send s
  ∧ peerStatic (Open dst ad ct n s).2 = peerStatic s.
Proof.
  unfold Open. pose proof (Decrypt_key (SetNonce (recv s) n) dst ad ct) as E.
  rewrite SetNonce_key in E. by destruct (Decrypt _ _ _ _) as [[] c].
Qed.

Lemma Open_bytes ad ct n s out : is_bytes ct → (Open [] ad ct n s).1 = inr out → is_bytes out.
Proof.
  intros Hc. unfold Open. pose proof (Decrypt_bytes (SetNonce (recv s) n) [] ad ct) as Hb.
  destruct (Decrypt _ _ _ _) as [[e|x] c]; [done|]. intros [= <-]. apply Hb; [constructor|done|done].
Qed.

Lemma evolves_keys s s' : evolves s s' →
  cs_key (send s') = cs_key (send s) ∧ cs_key (recv s') = cs_key (recv s) ∧ peerStatic s' = peerStatic s.
Proof.
  induction 1 as [|s s' dst ad pt n _ IH|s s' dst ad ct n _ IH]; [done|..].
  - destruct (Seal_keys dst ad pt n s') as (-> & -> & ->). done.
  - destruct (Open_keys dst ad ct n s') as (-> & -> & ->). done.
Qed.

(** One side's packets open on the other, whatever both have carried before. *)
Lemma carries a b a' b' n dst ad pt :
  cs_key (send a) = cs_key (recv b) → evolves a a' → evolves b b' → 0 ≤ n < 2 ^ 64 - 1 →
  ∃ ct, (Seal dst ad pt n a').1 = inr (dst ++ ct) ∧ (Open [] ad ct n b').1 = inr pt.
Proof.
  intros Hk Ha Hb Hn.
  exists (aead (cs_key (send a')) n ad pt). split; [by apply Seal_out|].
  destruct (evolves_keys _ _ Ha) as (Es & _). destruct (evolves_keys _ _ Hb) as (_ & Er & _).
  rewrite Es, Hk, <-Er. by apply Open_out.
Qed.

(** A [Seal] call run without interruption is its two steps. *)
Lemma Seal_steps dst ad pt n s :
  (run_steps (seal_steps dst ad pt n) s).2 = (Seal dst ad pt n s).2.
Proof.
  unfold seal_steps, Seal. cbn. unfold mbind, st_bind. cbn. by destruct (Encrypt _ _ _ _) as [[] c].
Qed.
End lemmas.

(** ** Properties *)

(** The two messages of a handshake between devices that know each other's
    static key open a session on both sides, each side learns the other's key, and
    from then on a packet either side seals, with any counter the nonce allows and
    whatever both sessions have carried before, opens on the other to the same
    bytes. *)
Theorem handshake_opens_one_session `{L : NoiseLaws} kI kR rI rR :
  length (Public kR) = KeySize →
  ∃ hI hR m1 hI1 hR1 m2 sR hR2 sI hI2,
    NewInitiator kI (Public kR) rI = inr hI ∧ NewResponder kR rR = inr hR
    ∧ WriteInit hI = (inr m1, hI1) ∧ ReadInit m1 hR = (inr tt, hR1)
    ∧ PeerStatic hR1 = Public kI
    ∧ WriteResponse hR1 = (inr (m2, sR), hR2) ∧ ReadResponse m2 hI1 = (inr sI, hI2)
    ∧ peerStatic sI = Public kR ∧ peerStatic sR = Public kI
    ∧ ∀ sI' sR', evolves sI sI' → evolves sR sR' → ∀ n dst ad pt, 0 ≤ n < 2 ^ 64 - 1 →
        (∃ ct, (Seal dst ad pt n sI').1 = inr (dst ++ ct) ∧ (Open [] ad ct n sR').1 = inr pt)
        ∧ (∃ ct, (Seal dst ad pt n sR').1 = inr (dst ++ ct) ∧ (Open [] ad ct n sI').1 = inr pt).
Proof.
  intros Hlen.
  destruct (IK_completes prologue kI kR rI rR) as
    (i0 & r0 & i1 & r1 & i2 & r2 & m1 & m2 & o1 & o2 & a1 & a2 & b1 & b2 &
     E1 & E2 & E3 & E4 & E5 & E6 & E7 & E8 & E9 & K1 & K2).
  exists (mkHandshake i0 true), (mkHandshake r0 false), m1, (mkHandshake i1 true), (mkHandshake r1 false), m2,
    (mkSession a2 a1 (Public kI)), (mkHandshake r2 false), (mkSession b1 b2 (Public kR)), (mkHandshake i2 true).
  unfold NewInitiator, NewResponder, WriteInit, ReadInit, WriteResponse, ReadResponse, PeerStatic. cbn.
  rewrite Hlen, E1, E2, E3, E4, E6, E7, E8, E9. cbn. split_and!; [done..|].
  intros sI' sR' HI HR n dst ad pt Hn. split.
  - by apply (carries (mkSession b1 b2 (Public kR)) (mkSession a2 a1 (Public kI))).
  - by apply (carries (mkSession a2 a1 (Public kI)) (mkSession b1 b2 (Public kR))).
Qed.

Lemma handshake_opens_one_session_witness :
  ∃ hI hR m1 hI1 hR1 m2 sR hR2 sI hI2,
    NewInitiator (N := Plain.noise) (replicate 32 1) (replicate 32 2) tt = inr hI
    ∧ NewResponder (N := Plain.noise) (replicate 32 2) tt = inr hR
    ∧ WriteInit hI = (inr m1, hI1) ∧ ReadInit m1 hR = (inr tt, hR1)
    ∧ WriteResponse hR1 = (inr (m2, sR), hR2) ∧ ReadResponse m2 hI1 = (inr sI, hI2).
Proof.
  destruct (handshake_opens_one_session (L := plain_laws) (replicate 32 1) (replicate 32 2) tt tt eq_refl)
    as (hI & hR & m1 & hI1 & hR1 & m2 & sR & hR2 & sI & hI2 & E1 & E2 & E3 & E4 & _ & E6 & E7 & _).
  by exists hI, hR, m1, hI1, hR1, m2, sR, hR2, sI, hI2.
Defined.

(** [Seal] is not atomic.  Three goroutines sealing on one session with three
    different counters, as [nextCounter] hands them out, can run in an order in
    which the second and the third packet are sealed under the same key and the
    same nonce, and the first under a nonce its header does not carry. *)
Theorem interleaved_seals_reuse_a_nonce `{L : NoiseLaws} s n adA ptA adB ptB adC ptC :
  0 ≤ n < 2 ^ 64 - 3 →
  ∃ order,
    interleaving [seal_steps [] adA ptA n; seal_steps [] adB ptB (n + 1); seal_steps [] adC ptC (n + 2)] order
    ∧ (run_steps order s).1 = [inr (aead (cs_key (send s)) (n + 1) adA ptA);
                               inr (aead (cs_key (send s)) (n + 2) adB ptB);
                               inr (aead (cs_key (send s)) (n + 2) adC ptC)].
Proof.
  intros Hn.
  exists [StepSetNonce n; StepSetNonce (n + 1); StepEncrypt [] adA ptA; StepEncrypt [] adB ptB;
          StepSetNonce (n + 2); StepEncrypt [] adC ptC].
  split.
  - apply (interleaving_step _ 0 _ [StepEncrypt [] adA ptA]); [done|].
    apply (interleaving_step _ 1 _ [StepEncrypt [] adB ptB]); [done|].
    apply (interleaving_step _ 0 _ []); [done|].
    apply (interleaving_step _ 1 _ []); [done|].
    apply (interleaving_step _ 2 _ [StepEncrypt [] adC ptC]); [done|].
    apply (interleaving_step _ 2 _ []); [done|].
    apply interleaving_done. by repeat constructor.
  - cbn. unfold mbind, st_bind. cbn.
    pose proof (Encrypt_out (SetNonce (SetNonce (send s) n) (n + 1)) [] adA ptA) as EA.
    pose proof (Encrypt_nonce (SetNonce (SetNonce (send s) n) (n + 1)) [] adA ptA) as NA.
    pose proof (Encrypt_key (SetNonce (SetNonce (send s) n) (n + 1)) [] adA ptA) as KA.
    rewrite ?SetNonce_key, ?SetNonce_nonce in *.
    destruct (Encrypt _ [] adA ptA) as [rA cA]. cbn in *.
    pose proof (Encrypt_out cA [] adB ptB) as EB. pose proof (Encrypt_key cA [] adB ptB) as KB.
    rewrite NA, KA in * by lia.
    destruct (Encrypt cA [] adB ptB) as [rB cB]. cbn in *.
    pose proof (Encrypt_out (SetNonce cB (n + 2)) [] adC ptC) as EC.
    rewrite SetNonce_key, SetNonce_nonce, KB in EC.
    destruct (Encrypt _ [] adC ptC) as [rC cC]. cbn in *.
    rewrite EA, EB, EC by lia. by replace (n + 1 + 1) with (n + 2) by lia.
Qed.

Lemma interleaved_seals_reuse_a_nonce_witness :
  ∃ order, interleaving [seal_steps [] [] [10] 0; seal_steps [] [] [11] 1; seal_steps [] [] [12] 2] order.
Proof.
  destruct (interleaved_seals_reuse_a_nonce (L := plain_laws)
    (Plain.between [1] [2] []) 0 [] [10] [] [11] [] [12]) as (order & Ho & _); [lia|].
  by exists order.
Defined.
