(* ===== verification/Netlog.v ===== *)
(** daemon/netlog: the daemon's account of what happens to packets.

    The counters always run; the per-packet detail is written only while the
    packet log is on.  Opening and closing the file is the operating system's, so
    its outcome is an argument. *)
From S2P Require Import Prelude NetAddr.

(** Reason is a uint8: a value past the last constant can be written. *)
Abbreviation Reason := Z (only parsing).
Definition NoPeer : Reason := 0.
Definition NoSession : Reason := 1.
Definition NoPath : Reason := 2.
Definition NotIPv4 : Reason := 3.
Definition AdapterFull : Reason := 4.
Definition QueueFull : Reason := 5.
Definition Undecryptable : Reason := 6.
Definition Replayed : Reason := 7.
Definition UnknownPeer : Reason := 8.
Definition Unroutable : Reason := 9.
Definition HopsExhausted : Reason := 10.
Definition Malformed : Reason := 11.
Definition Undeliverable : Reason := 12.
Definition reasonCount : nat := 13.

Definition reasonNames : list string :=
  ["noPeer"; "noSession"; "noPath"; "notIPv4"; "adapterFull"; "queueFull"; "undecryptable";
   "replayed"; "unknownPeer"; "unroutable"; "hopsExhausted"; "malformed"; "undeliverable"]%string.

Definition Reason_String (r : Reason) : string :=
  match reasonNames !! Z.to_nat r with
  | None => "unknown"%string
  | Some name => name
  end.

(** One line of the packet log. *)
Inductive detail : Type :=
  | DroppedAPacket (reason : string)
  | ReplicatedAPacket (destination : Addr) (peers bytes : Z)
  | PacketForEveryoneArrived (from destination : Addr) (bytes : Z).

(** [file] is the open packet log and what has been written to it. *)
Record Recorder : Type := mkRecorder {
  sent : Z;
  received : Z;
  shouted : Z;
  overheard : Z;
  drops : list Z;
  on : bool;
  file : option (list detail);
}.
#[export] Instance eta_Recorder : Settable Recorder := λ r,
  mkRecorder (sent r) (received r) (shouted r) (overheard r) (drops r) (on r) (file r).

Definition New : Recorder := mkRecorder 0 0 0 0 (replicate reasonCount 0) false None.

(** A nil Recorder is usable: every method tolerates it. *)
Definition tolerant {A} (a : A) (f : st Recorder A) : st (option Recorder) A := λ r,
  match r with
  | None => (a, None)
  | Some r => let '(x, r) := f r in (x, Some r)
  end.

Definition Enabled (r : option Recorder) : bool :=
  match r with None => false | Some r => on r end.

(** The second argument is what opening the file, or closing it, returned. *)
Definition SetEnabled {E} (want : bool) (outcome : option E) : st (option Recorder) (option E) :=
  tolerant None (λ r,
    if eqb want (bool_decide (is_Some (file r))) then (None, r) else
    if negb want then (outcome, r <| on := false |> <| file := None |>) else
    match outcome with
    | Some err => (Some err, r)
    | None => (None, r <| file := Some [] |> <| on := true |>)
    end).

(** What is in the file goes, when it could be emptied. *)
Definition Clear {E} (outcome : option E) : st (option Recorder) (option E) :=
  tolerant None (λ r, match outcome with Some err => (Some err, r) | None => (None, r <| file := (λ _, []) <$> file r |>) end).
Definition Close {E} (outcome : option E) : st (option Recorder) (option E) := SetEnabled false outcome.

Definition Sent : st (option Recorder) unit := tolerant tt (λ r, (tt, r <| sent := u64 (sent r + 1) |>)).
Definition Received : st (option Recorder) unit := tolerant tt (λ r, (tt, r <| received := u64 (received r + 1) |>)).

Definition Detail (line : detail) : st (option Recorder) unit := tolerant tt (λ r,
  if negb (on r) then (tt, r) else
  match file r with
  | None => (tt, r)
  | Some lines => (tt, r <| file := Some (lines ++ [line]) |>)
  end).

(** [r.drops[reason].Add(1)], when there is such a counter. *)
Definition count_drop (reason : Reason) (r : Recorder) : Recorder :=
  if (Z.to_nat reason <? length (drops r))%nat
  then r <| drops := alter (λ n, u64 (n + 1)) (Z.to_nat reason) (drops r) |>
  else r.

Definition Drop (reason : Reason) : st (option Recorder) unit := λ r,
  match r with
  | None => (tt, None)
  | Some r =>
      let r := count_drop reason r in
      if negb (on r) then (tt, Some r) else
      Detail (DroppedAPacket (Reason_String reason)) (Some r)
  end.

Definition Shouted (destination : Addr) (peers bytes : Z) : st (option Recorder) unit := λ r,
  match r with
  | None => (tt, None)
  | Some r =>
      let r := r <| shouted := u64 (shouted r + 1) |> in
      if on r then Detail (ReplicatedAPacket destination peers bytes) (Some r) else (tt, Some r)
  end.

Definition Overheard (from destination : Addr) (bytes : Z) : st (option Recorder) unit := λ r,
  match r with
  | None => (tt, None)
  | Some r =>
      let r := r <| overheard := u64 (overheard r + 1) |> in
      if on r then Detail (PacketForEveryoneArrived from destination bytes) (Some r) else (tt, Some r)
  end.

(** One reading of every counter. *)
Record totals : Type := mkTotals {
  t_sent : Z;
  t_received : Z;
  t_shouted : Z;
  t_overheard : Z;
  t_drops : list Z;
}.
#[export] Instance totals_eq_dec : EqDecision totals.
Proof. solve_decision. Defined.

Definition Recorder_totals (r : Recorder) : totals :=
  mkTotals (sent r) (received r) (shouted r) (overheard r) (drops r).

(** The loop over [t.drops]: the counters that moved and their sum. *)
Fixpoint moved_drops (i : nat) (counts since : list Z) : list (string * Z) * Z :=
  match counts, since with
  | count :: counts, before :: since =>
      let moved := u64 (count - before) in
      let '(rest, dropped) := moved_drops (S i) counts since in
      if moved =? 0 then (rest, dropped)
      else ((Reason_String (Z.of_nat i), moved) :: rest, u64 (moved + dropped))
  | _, _ => ([], 0)
  end.

Definition attrs (t since : totals) : list (string * Z) :=
  let attrs := [("sent"%string, u64 (t_sent t - t_sent since));
                ("received"%string, u64 (t_received t - t_received since))] in
  let moved := u64 (t_shouted t - t_shouted since) in
  let attrs := if 0 <? moved then attrs ++ [("replicated"%string, moved)] else attrs in
  let moved := u64 (t_overheard t - t_overheard since) in
  let attrs := if 0 <? moved then attrs ++ [("arrivedForEveryone"%string, moved)] else attrs in
  let '(breakdown, dropped) := moved_drops 0 (t_drops t) (t_drops since) in
  let attrs := attrs ++ breakdown in
  if 0 <? dropped then ("dropped"%string, dropped) :: attrs else attrs.

(** One tick of [Run]: the line it writes, if any, and the reading it keeps. *)
Definition summarise (r : Recorder) (last : totals) : option (list (string * Z)) * totals :=
  let current := Recorder_totals r in
  if decide (current = last) then (None, last) else (Some (attrs current last), current).

(** ** What happened to the packets, as a list of calls *)
Inductive call : Type :=
  | CSent | CReceived | CDrop (reason : Reason)
  | CShouted (d : Addr) (p b : Z) | COverheard (f d : Addr) (b : Z)
  | CSetEnabled (want : bool) (failed : bool).

Definition run_call (c : call) (r : option Recorder) : option Recorder :=
  match c with
  | CSent => (Sent r).2
  | CReceived => (Received r).2
  | CDrop reason => (Drop reason r).2
  | CShouted d p b => (Shouted d p b r).2
  | COverheard f d b => (Overheard f d b r).2
  | CSetEnabled want failed => (SetEnabled want (if failed then Some tt else None) r).2
  end.

Definition is_drop (i : nat) (c : call) : bool :=
  match c with CDrop r => (Z.to_nat r =? i)%nat | _ => false end.
Definition is_any_drop (c : call) : bool :=
  match c with CDrop r => (Z.to_nat r <? reasonCount)%nat | _ => false end.
Definition is_sent (c : call) : bool := match c with CSent => true | _ => false end.
Definition is_received (c : call) : bool := match c with CReceived => true | _ => false end.
Definition is_shouted (c : call) : bool := match c with CShouted _ _ _ => true | _ => false end.
Definition is_overheard (c : call) : bool := match c with COverheard _ _ _ => true | _ => false end.

Fixpoint count (p : call → bool) (cs : list call) : Z :=
  match cs with
  | [] => 0
  | c :: cs => (if p c then 1 else 0) + count p cs
  end.

Fixpoint run_calls (cs : list call) (r : option Recorder) : option Recorder :=
  match cs with
  | [] => r
  | c :: cs => run_calls cs (run_call c r)
  end.

(** The line an interval deserves: what its calls were, each kind with its number,
    and the kinds that did not happen left out. *)
Definition named (i : nat) (moved : Z) : option (string * Z) :=
  if moved =? 0 then None else Some (Reason_String (Z.of_nat i), moved).
Definition mention (name : string) (moved : Z) : list (string * Z) :=
  if 0 <? moved then [(name, moved)] else [].
Definition expected_attrs (cs : list call) : list (string * Z) :=
  mention "dropped" (u64 (count is_any_drop cs))
  ++ [("sent"%string, u64 (count is_sent cs)); ("received"%string, u64 (count is_received cs))]
  ++ mention "replicated" (u64 (count is_shouted cs))
  ++ mention "arrivedForEveryone" (u64 (count is_overheard cs))
  ++ omap (λ i, named i (u64 (count (is_drop i) cs))) (seq 0 reasonCount).

(** ** Lemmas *)

(** What a recorder in use looks like: thirteen counters of 64 bits, and a detail
    log that is on exactly when its file is open. *)
Record recorder_wf (r : Recorder) : Prop := {
  wf_sent : is_u64 (sent r);
  wf_received : is_u64 (received r);
  wf_shouted : is_u64 (shouted r);
  wf_overheard : is_u64 (overheard r);
  wf_drops : length (drops r) = reasonCount;
  wf_counters : Forall is_u64 (drops r);
  wf_file : on r = true ↔ is_Some (file r);
}.

(** A counter after a call that adds [b] to it. *)
Definition bump (b : bool) (n : Z) : Z := if b then u64 (n + 1) else n.
Definition bumped (c : call) (r r' : Recorder) : Prop :=
  sent r' = bump (is_sent c) (sent r) ∧ received r' = bump (is_received c) (received r)
  ∧ shouted r' = bump (is_shouted c) (shouted r) ∧ overheard r' = bump (is_overheard c) (overheard r)
  ∧ drops r' = imap (λ i, bump (is_drop i c)) (drops r).

Lemma bump_u64 b n : is_u64 n → is_u64 (bump b n).
Proof. destruct b; cbn; auto with vlan. Qed.

Lemma imap_bump_false (l : list Z) : imap (λ _, bump false) l = l.
Proof. induction l as [|x l IH]; cbn; [done|]. f_equal. exact IH. Qed.

Lemma count_drop_imap reason (l : list Z) :
  (if (Z.to_nat reason <? length l)%nat then alter (λ n, u64 (n + 1)) (Z.to_nat reason) l else l)
  = imap (λ i, bump (is_drop i (CDrop reason))) l.
Proof.
  apply list_eq. intros i. rewrite list_lookup_imap. unfold is_drop.
  case_match eqn:E; bool_lia.
  - destruct (decide (i = Z.to_nat reason)) as [->|Hne].
    + by rewrite list_lookup_alter_eq, Nat.eqb_refl.
    + rewrite list_lookup_alter_ne by done. destruct (l !! i); cbn; [|done].
      by destruct (Nat.eqb_spec (Z.to_nat reason) i); [congruence|].
  - destruct (l !! i) eqn:Ei; cbn; [|done]. apply lookup_lt_Some in Ei.
    by destruct (Nat.eqb_spec (Z.to_nat reason) i); [lia|].
Qed.

(** Writing a detail line changes the log file only. *)
Lemma Detail_keeps line r : recorder_wf r →
  ∃ r', Detail line (Some r) = (tt, Some r') ∧ recorder_wf r' ∧ sent r' = sent r ∧ received r' = received r
    ∧ shouted r' = shouted r ∧ overheard r' = overheard r ∧ drops r' = drops r.
Proof.
  intros Hwf. pose proof (wf_file _ Hwf) as Hf. unfold Detail, tolerant.
  destruct (on r) eqn:Eon; cbn; [|by exists r].
  destruct (file r) as [lines|] eqn:Ef; [|by apply proj1 in Hf; destruct Hf].
  eexists. split; [done|]. destruct Hwf. split_and!; [split|..]; cbn; rewrite ?Eon; try done.
Qed.

#[local] Arguments Detail : simpl never.

Lemma run_call_spec c r : recorder_wf r →
  ∃ r', run_call c (Some r) = Some r' ∧ recorder_wf r' ∧ bumped c r r'.
Proof.
  intros Hwf. pose proof Hwf as [H1 H2 H3 H4 H5 H6 H7].
  unfold bumped. destruct c as [| |reason|d p b|f d b|want failed]; cbn; rewrite ?imap_bump_false.
  - eexists. split_and!; try done. split; cbn; auto with vlan.
  - eexists. split_and!; try done. split; cbn; auto with vlan.
  - assert (drops (count_drop reason r) = imap (λ i, bump (is_drop i (CDrop reason))) (drops r)) as Ed.
    { rewrite <-count_drop_imap. unfold count_drop. by case_match. }
    assert (recorder_wf (count_drop reason r)) as Hwf'.
    { split; try (unfold count_drop; by case_match); rewrite Ed; [by rewrite length_imap|].
      apply Forall_lookup. intros i x. rewrite list_lookup_imap. destruct (drops r !! i) eqn:Ei; [|done].
      intros [= <-]. apply bump_u64. by apply (Forall_lookup_1 _ _ _ _ H6 Ei). }
    assert (sent (count_drop reason r) = sent r ∧ received (count_drop reason r) = received r
      ∧ shouted (count_drop reason r) = shouted r ∧ overheard (count_drop reason r) = overheard r) as (E1 & E2 & E3 & E4)
      by (unfold count_drop; by case_match).
    destruct (negb (on _)) eqn:Eon; [eexists; split_and!; done|].
    destruct (Detail_keeps (DroppedAPacket (Reason_String reason)) _ Hwf') as (r' & -> & Hr' & D1 & D2 & D3 & D4 & D5).
    exists r'. rewrite D1, D2, D3, D4, D5, E1, E2, E3, E4, Ed. by split_and!.
  - assert (recorder_wf (r <| shouted := u64 (shouted r + 1) |>)) as Hwf' by (split; cbn; auto with vlan).
    destruct (Detail_keeps (ReplicatedAPacket d p b) _ Hwf') as (r' & Er & Hr' & D). cbn in Er, Hwf'.
    destruct (on r) eqn:Eon; [rewrite Er; by exists r'|]. rewrite <-Eon in *. by eexists.
  - assert (recorder_wf (r <| overheard := u64 (overheard r + 1) |>)) as Hwf' by (split; cbn; auto with vlan).
    destruct (Detail_keeps (PacketForEveryoneArrived f d b) _ Hwf') as (r' & Er & Hr' & D). cbn in Er, Hwf'.
    destruct (on r) eqn:Eon; [rewrite Er; by exists r'|]. rewrite <-Eon in *. by eexists.
  - unfold SetEnabled, tolerant. destruct (eqb want _) eqn:Ew; [by eexists|].
    destruct want; cbn.
    + destruct failed; cbn; [by eexists|]. eexists. split_and!; [done| |done..]. by split.
    + eexists. split_and!; [done| |done..]. split; cbn; try done.
Qed.

Lemma run_calls_spec cs r : recorder_wf r → ∃ r', run_calls cs (Some r) = Some r' ∧ recorder_wf r'
  ∧ sent r' = u64 (sent r + count is_sent cs) ∧ received r' = u64 (received r + count is_received cs)
  ∧ shouted r' = u64 (shouted r + count is_shouted cs) ∧ overheard r' = u64 (overheard r + count is_overheard cs)
  ∧ drops r' = imap (λ i n, u64 (n + count (is_drop i) cs)) (drops r).
Proof.
  assert (∀ b n k, is_u64 n → u64 (bump b n + k) = u64 (n + ((if b then 1 else 0) + k))) as Hb.
  { intros b n k Hn. destruct b; cbn; [|f_equal; lia]. unfold u64. rewrite Zplus_mod_idemp_l. f_equal. lia. }
  revert r; induction cs as [|c cs IH]; intros r Hwf; cbn.
  - exists r. destruct Hwf as [H1 H2 H3 H4 H5 H6 H7]. rewrite !Z.add_0_r, !u64_id by done. split_and!; try done.
    apply list_eq. intros i. rewrite list_lookup_imap. destruct (drops r !! i) eqn:Ei; cbn; [|done].
    rewrite Z.add_0_r, u64_id; [done|]. by apply (Forall_lookup_1 _ _ _ _ H6 Ei).
  - destruct (run_call_spec c r Hwf) as (r1 & -> & Hwf1 & B1 & B2 & B3 & B4 & B5).
    destruct (IH r1 Hwf1) as (r2 & -> & Hwf2 & A1 & A2 & A3 & A4 & A5).
    exists r2. destruct Hwf as [H1 H2 H3 H4 H5 H6 H7].
    rewrite A1, A2, A3, A4, A5, B1, B2, B3, B4, B5, !Hb by done. split_and!; try done.
    apply list_eq. intros i. rewrite !list_lookup_imap. destruct (drops r !! i) eqn:Ei; cbn; [|done].
    rewrite Hb; [done|]. by apply (Forall_lookup_1 _ _ _ _ H6 Ei).
Qed.

Lemma u64_diff n k : is_u64 n → u64 (u64 (n + k) - n) = u64 k.
Proof. intros Hn. unfold u64. rewrite Zminus_mod_idemp_l. f_equal. lia. Qed.

Lemma moved_drops_spec i (l : list Z) (f : nat → Z) :
  Forall is_u64 l →
  moved_drops i (imap (λ j n, u64 (n + f (i + j)%nat)) l) l =
    (omap (λ j, named j (u64 (f j))) (seq i (length l)), u64 (foldr (λ j acc, f j + acc) 0 (seq i (length l)))).
Proof.
  revert i; induction l as [|x l IH]; intros i Hl; [done|].
  apply Forall_cons in Hl as [Hx Hl]. cbn [imap moved_drops length seq omap list_omap foldr].
  rewrite Nat.add_0_r, u64_diff by done.
  specialize (IH (S i) Hl).
  assert (imap ((λ j n, u64 (n + f (i + j)%nat)) ∘ S) l = imap (λ j n, u64 (n + f (S i + j)%nat)) l) as ->.
  { apply imap_ext. intros j y _. cbn. by rewrite Nat.add_succ_r. }
  rewrite IH. assert (named i (u64 (f i)) = if u64 (f i) =? 0 then None else Some (Reason_String (Z.of_nat i), u64 (f i))) as -> by done.
  destruct (u64 (f i) =? 0) eqn:E; bool_lia; f_equal; unfold u64 in *.
  - by rewrite Z.add_mod, E, Z.add_0_l, Z.mod_mod.
  - by rewrite <-Z.add_mod.
Qed.

Lemma count_any_drop cs :
  foldr (λ j acc, count (is_drop j) cs + acc) 0 (seq 0 reasonCount) = count is_any_drop cs.
Proof.
  induction cs as [|c cs IH]; [done|]. cbn [count]. rewrite <-IH.
  assert ((if is_any_drop c then 1 else 0) = foldr (λ j acc, (if is_drop j c then 1 else 0) + acc) 0 (seq 0 reasonCount)) as ->.
  { destruct c as [| |reason| | |]; try done. unfold is_any_drop, is_drop.
    generalize (Z.to_nat reason) as n. intros n. do 13 (destruct n as [|n]; [done|]). done. }
  generalize (seq 0 reasonCount) as js. induction js as [|j js IHj]; cbn; lia.
Qed.

Lemma recorder_wf_New : recorder_wf New.
Proof.
  split; try done; [by apply Forall_replicate|]. cbn. split; [done|by intros []].
Qed.

(** ** Properties *)

(** The summary line written after an interval is a function of what happened
    in that interval alone: each kind of event with how often it happened, every
    reason a packet was dropped for and no other, and in front the number of drops
    altogether.  It is the same whether or not the packet log was being switched on
    and off meanwhile, and whatever was counted before. *)
Theorem summary_accounts_for_the_interval before during :
  ∃ r1 r2, run_calls before (Some New) = Some r1 ∧ run_calls during (Some r1) = Some r2
    ∧ attrs (Recorder_totals r2) (Recorder_totals r1) = expected_attrs during.
Proof.
  destruct (run_calls_spec before New recorder_wf_New) as (r1 & E1 & Hwf1 & _).
  destruct (run_calls_spec during r1 Hwf1) as (r2 & E2 & _ & A1 & A2 & A3 & A4 & A5).
  exists r1, r2. split_and!; [done..|]. destruct Hwf1 as [H1 H2 H3 H4 H5 H6 H7].
  unfold attrs, Recorder_totals, expected_attrs. cbn [t_sent t_received t_shouted t_overheard t_drops].
  rewrite A1, A2, A3, A4, A5, !u64_diff by done.
  pose proof (moved_drops_spec 0 (drops r1) (λ i, count (is_drop i) during) H6) as E. cbn [Nat.add] in E.
  rewrite E, H5, count_any_drop. unfold mention. repeat case_match; cbn [app]; by rewrite <-?app_assoc.
Qed.
