(* ===== verification/Ipc.v ===== *)
(** protocol/ipc: the vocabulary the daemon and the app share.

    The types of state.go, with their string constants as constructors.  A Go
    string is the list of its bytes, and a pointer that may be nil is an option. *)
From S2P Require Import Prelude Bytes.

Inductive ConnectionState : Type :=
  | StateDisconnected
  | StateConnecting
  | StateConnected
  | StateDisconnecting
  | StateError.

Inductive PeerState : Type :=
  | PeerConnecting
  | PeerDirect
  | PeerIndirect
  | PeerOffline
  | PeerFailed.

(** The empty reason has no constant in the source. *)
Inductive PeerReason : Type :=
  | ReasonNone
  | ReasonNoAddress
  | ReasonNoRoute.

(** Empty alongside an empty message. *)
Inductive MessageSeverity : Type :=
  | MessageNone
  | MessageError
  | MessageWarning.

#[export] Instance ConnectionState_eq_dec : EqDecision ConnectionState.
Proof. solve_decision. Defined.
#[export] Instance PeerState_eq_dec : EqDecision PeerState.
Proof. solve_decision. Defined.
#[export] Instance PeerReason_eq_dec : EqDecision PeerReason.
Proof. solve_decision. Defined.
#[export] Instance MessageSeverity_eq_dec : EqDecision MessageSeverity.
Proof. solve_decision. Defined.

(** One row of the active group screen. *)
Record PeerView : Type := mkPeerView {
  pv_DeviceID : gostring;
  pv_Nickname : gostring;
  pv_VirtualIP : gostring;
  pv_State : PeerState;
  pv_LatencyMS : option Z;
  pv_Reason : PeerReason;
  pv_IsOwner : bool;
  pv_PacketsSent : Z;
  pv_PacketsReceived : Z;
}.
#[export] Instance eta_PeerView : Settable PeerView := λ p,
  mkPeerView (pv_DeviceID p) (pv_Nickname p) (pv_VirtualIP p) (pv_State p) (pv_LatencyMS p) (pv_Reason p)
    (pv_IsOwner p) (pv_PacketsSent p) (pv_PacketsReceived p).

#[export] Instance PeerView_eq_dec : EqDecision PeerView.
Proof. solve_decision. Defined.

(** The snapshot pushed to the app on every change. *)
Record State : Type := mkState {
  s_Connection : ConnectionState;
  s_ServerURL : gostring;
  s_ServerOnline : bool;
  s_GroupID : gostring;
  s_GroupName : gostring;
  s_GroupIcon : gostring;
  s_GroupColor : gostring;
  s_Nickname : gostring;
  s_VirtualIP : gostring;
  s_IsOwner : bool;
  s_Peers : list PeerView;
  s_PacketsSent : Z;
  s_PacketsReceived : Z;
  s_Message : gostring;
  s_MessageSeverity : MessageSeverity;
}.
#[export] Instance eta_State : Settable State := λ s,
  mkState (s_Connection s) (s_ServerURL s) (s_ServerOnline s) (s_GroupID s) (s_GroupName s) (s_GroupIcon s)
    (s_GroupColor s) (s_Nickname s) (s_VirtualIP s) (s_IsOwner s) (s_Peers s) (s_PacketsSent s)
    (s_PacketsReceived s) (s_Message s) (s_MessageSeverity s).

(** One saved membership as shown on the groups screen. *)
Record Group : Type := mkGroup {
  g_GroupID : gostring;
  g_Name : gostring;
  g_Icon : gostring;
  g_Color : gostring;
  g_Active : bool;
  g_OnlineMembers : option Z;
  g_Members : option Z;
  g_InviteCode : gostring;
  g_InviteLink : gostring;
  g_IsOwner : bool;
}.
