(* ===== verification/Peer.v ===== *)
(** daemon/mesh/peer.go: one link to one other device.

    A [Peer] is shared by pointer: the mesh's tables and another link's [via] name
    it, so it lives in the mesh's store and is known by its [ref].  The methods here
    are the ones peer.go writes on the receiver, each from the lock to the unlock, but for
    [accept], which takes the lock twice: its halves are [decrypt] and [let_in], a link's
    life takes them apart, and the mesh, whose one goroutine reads the socket, calls them
    in a row.  The clock is the argument [now], and [time.Time{}] is [None]. *)
From S2P Require Import Prelude Bytes NetAddr Wire Replay Session Ipc.

Abbreviation ref := positive (only parsing).

(** Instants and durations are nanoseconds. *)
Definition second : Z := 1000000000.
Definition millisecond : Z := 1000000.

(** [now.Sub(t)]: the zero time is so long ago that the difference saturates. *)
Definition maxDuration : Z := 2 ^ 63 - 1.
Definition Since (now : Z) (t : option Z) : Z :=
  match t with None => maxDuration | Some t => now - t end.

Section peer.
Context {N : Noise}.

Record Peer : Type := mkPeer {
  DeviceID : gostring;
  Nickname : gostring;
  VirtualIP : Addr;
  transportKey : list Z;
  endpoint : AddrPort;
  state : PeerState;
  latency : Z;
  via : option ref;
  relaysTried : gset gostring;
  sender : Z;
  handshake : option Handshake;
  session : option Session;
  replay : ReplayWindow;
  counter : Z;
  pending : gmap Z Z;
  lastHeard : option Z;
  lastProbe : option Z;
  lastHandshake : option Z;
  handshakes : Z;
  sent : Z;
  received : Z;
}.
#[export] Instance eta_Peer : Settable Peer := λ p,
  mkPeer (DeviceID p) (Nickname p) (VirtualIP p) (transportKey p) (endpoint p) (state p) (latency p) (via p)
    (relaysTried p) (sender p) (handshake p) (session p) (replay p) (counter p) (pending p) (lastHeard p)
    (lastProbe p) (lastHandshake p) (handshakes p) (sent p) (received p).

(** The sentinels of peer.go, and whatever else a send or a receive comes back with. *)
Inductive mesh_error : Type :=
  | ErrNoSession
  | ErrReplayed
  | ErrNoPath
  | SessionFailed (e : session_error)
  | WireFailed (e : wire_error)
  | WriteFailed
  | NobodyHas (a : Addr)
  | KeyHasLength (deviceID : gostring) (n : nat)
  | RandomFailed.

Definition newPeer (deviceID nickname : gostring) (virtualIP : Addr) (transportKey : list Z)
    (endpoint : AddrPort) (sender : Z) : Peer := {|
  DeviceID := deviceID;
  Nickname := nickname;
  VirtualIP := virtualIP;
  transportKey := transportKey;
  endpoint := endpoint;
  state := PeerConnecting;
  latency := 0;
  via := None;
  relaysTried := ∅;
  sender := sender;
  handshake := None;
  session := None;
  replay := ReplayWindow_zero;
  counter := 0;
  pending := ∅;
  lastHeard := None;
  lastProbe := None;
  lastHandshake := None;
  handshakes := 0;
  sent := 0;
  received := 0;
|}.

Definition status (p : Peer) : PeerState * PeerReason :=
  if decide (state p = PeerFailed) then (state p, ReasonNoRoute)
  else if bool_decide (state p = PeerConnecting) && negb (ap_IsValid (endpoint p)) && bool_decide (via p = None)
  then (state p, ReasonNoAddress)
  else (state p, ReasonNone).

Definition Traffic (p : Peer) : Z * Z := (sent p, received p).

Definition goDirectLocked (p : Peer) : Peer :=
  p <| via := None |> <| relaysTried := ∅ |>.

Definition resetLocked (p : Peer) : Peer :=
  p <| session := None |> <| handshake := None |> <| replay := ReplayWindow_zero |> <| counter := 0 |>
    <| state := PeerConnecting |> <| lastProbe := None |> <| lastHeard := None |> <| lastHandshake := None |>
    <| handshakes := 0 |> <| pending := ∅ |>.

Definition setEndpoint (e : AddrPort) : st Peer bool := λ p,
  if decide (endpoint p = e) then (false, p) else
  let p := p <| endpoint := e |> in
  let p := resetLocked p in
  (true, goDirectLocked p).

Definition restart (p : Peer) : Peer := goDirectLocked (resetLocked p).

(** The relay and its device id. *)
Definition relayThrough (relay : ref) (relayID : gostring) (p : Peer) : Peer :=
  let p := resetLocked p in
  let p := p <| via := Some relay |> in
  p <| relaysTried := {[relayID]} ∪ relaysTried p |>.

Definition answerVia (relay : ref) (relayID : gostring) (p : Peer) : Peer :=
  if decide (via p = Some relay) then p else
  let p := p <| via := Some relay |> in
  let p := p <| relaysTried := {[relayID]} ∪ relaysTried p |> in
  match session p with
  | Some _ => p <| state := PeerIndirect |>
  | None => p
  end.

Definition triedRelay (deviceID : gostring) (p : Peer) : bool := bool_decide (deviceID ∈ relaysTried p).

Definition open (s : Session) (now : Z) (p : Peer) : Peer :=
  let p := p <| session := Some s |> <| handshake := None |> <| replay := ReplayWindow_zero |>
             <| counter := 0 |> <| state := PeerDirect |> in
  let p := match via p with Some _ => p <| state := PeerIndirect |> | None => p end in
  p <| lastHeard := Some now |>.

(** The nonce for one packet. *)
Definition nextCounter : st Peer (mesh_error + Z) := λ p,
  match session p with
  | None => (inl ErrNoSession, p)
  | Some _ => (inr (counter p), p <| counter := u64 (counter p + 1) |>)
  end.

(** Sealing on the link's session: [current.Seal] for [current] the session
    [nextCounter] returned, which is still the link's. *)
Definition seal (dst ad plaintext : list Z) (c : Z) : st Peer (mesh_error + list Z) := λ p,
  match session p with
  | None => (inl ErrNoSession, p)
  | Some s =>
      let '(r, s) := Seal dst ad plaintext c s in
      (match r with inl e => inl (SessionFailed e) | inr out => inr out end, p <| session := Some s |>)
  end.

(** The first half of [accept]: the session is read under the lock and opens the packet
    outside it. *)
Definition decrypt (header ciphertext : list Z) (c : Z) : st Peer (mesh_error + list Z) := λ p,
  match session p with
  | None => (inl ErrNoSession, p)
  | Some current =>
      let '(r, current) := Open [] header ciphertext c current in
      let p := p <| session := Some current |> in
      match r with
      | inl e => (inl (SessionFailed e), p)
      | inr plaintext => (inr plaintext, p)
      end
  end.

(** The second, under the lock again: whatever the window is by then decides. *)
Definition let_in (plaintext : list Z) (c : Z) (now : Z) : st Peer (mesh_error + list Z) := λ p,
  let '(new, w) := Accept (replay p) c in
  let p := p <| replay := w |> in
  if negb new then (inl ErrReplayed, p)
  else (inr plaintext, p <| lastHeard := Some now |>).

(** Decrypting before checking the replay window, so an unauthenticated counter
    never reaches it. *)
Definition accept (header ciphertext : list Z) (c : Z) (now : Z) : st Peer (mesh_error + list Z) := λ p,
  match decrypt header ciphertext c p with
  | (inl err, p) => (inl err, p)
  | (inr plaintext, p) => let_in plaintext c now p
  end.

Definition heard (now : Z) (p : Peer) : Peer := p <| lastHeard := Some now |>.

Definition expect (token now : Z) (p : Peer) : Peer :=
  let p := if (32 <? size (pending p))%nat then p <| pending := ∅ |> else p in
  p <| pending := <[token := now]> (pending p) |>.

Definition measure (token now : Z) : st Peer (option Z) := λ p,
  match pending p !! token with
  | None => (None, p)
  | Some sentAt =>
      let p := p <| pending := delete token (pending p) |> in
      let p := p <| latency := now - sentAt |> in
      (Some (now - sentAt), p <| lastHeard := Some now |>)
  end.

Definition fail : st Peer bool := λ p,
  if decide (state p = PeerFailed) then (false, p)
  else (true, p <| state := PeerFailed |> <| session := None |> <| handshake := None |>).
End peer.

(** ** A link's life as a sequence of calls *)
Section life.
Context {N : Noise}.

Inductive peer_op : Type :=
  | OpSetEndpoint (e : AddrPort)
  | OpRestart
  | OpRelayThrough (relay : ref) (relayID : gostring)
  | OpAnswerVia (relay : ref) (relayID : gostring)
  | OpOpen (s : Session) (now : Z)
  | OpNextCounter
  | OpSeal (dst ad plaintext : list Z) (c : Z)
  | OpDecrypt (header ciphertext : list Z) (c : Z)
  | OpLetIn (plaintext : list Z) (c now : Z)
  | OpHeard (now : Z)
  | OpExpect (token now : Z)
  | OpMeasure (token now : Z)
  | OpBeginHandshake (h : Handshake) (now : Z)
  | OpFail.

(** What a call gives to the packet layer: a nonce to seal under, or a counter
    whose packet was let through. *)
Inductive observation : Type :=
  | Handed (n : Z)
  | LetThrough (n : Z).

(** [OpBeginHandshake] is what beginHandshake (handle.go) stores in a link that
    has no session. *)
Definition run_op (op : peer_op) : st Peer (option observation) := λ p,
  match op with
  | OpSetEndpoint e => (None, (setEndpoint e p).2)
  | OpRestart => (None, restart p)
  | OpRelayThrough r i => (None, relayThrough r i p)
  | OpAnswerVia r i => (None, answerVia r i p)
  | OpOpen s now => (None, open s now p)
  | OpNextCounter =>
      let '(r, p) := nextCounter p in
      (match r with inr n => Some (Handed n) | inl _ => None end, p)
  | OpSeal dst ad pt c => (None, (seal dst ad pt c p).2)
  | OpDecrypt header ct c => (None, (decrypt header ct c p).2)
  | OpLetIn pt c now =>
      let '(r, p) := let_in pt c now p in
      (match r with inr _ => Some (LetThrough c) | inl _ => None end, p)
  | OpHeard now => (None, heard now p)
  | OpExpect t now => (None, expect t now p)
  | OpMeasure t now => (None, (measure t now p).2)
  | OpBeginHandshake h now =>
      (None, match session p with
             | Some _ => p
             | None => p <| handshakes := handshakes p + 1 |> <| lastHandshake := Some now |>
                         <| handshake := Some h |>
             end)
  | OpFail => (None, (fail p).2)
  end.

(** Whether a call starts the replay window afresh. *)
Definition resets (op : peer_op) (p : Peer) : bool :=
  match op with
  | OpSetEndpoint e => negb (bool_decide (endpoint p = e))
  | OpRestart | OpRelayThrough _ _ | OpOpen _ _ => true
  | _ => false
  end.

(** What is observed over a life: a nonce with the number of the session it was handed out
    under, a counter with the number of the window that let it through.  [sessions] counts
    the calls to [open], [windows] the calls that reset the window. *)
Definition stamp (sessions windows : nat) (o : observation) : nat * observation :=
  match o with Handed _ => (sessions, o) | LetThrough _ => (windows, o) end.
Fixpoint life (sessions windows : nat) (ops : list peer_op) (p : Peer) : list (nat * observation) :=
  match ops with
  | [] => []
  | op :: ops =>
      let windows := if resets op p then S windows else windows in
      let sessions := match op with OpOpen _ _ => S sessions | _ => sessions end in
      let '(o, p) := run_op op p in
      match o with
      | Some o => stamp sessions windows o :: life sessions windows ops p
      | None => life sessions windows ops p
      end
  end.

Definition run_ops (ops : list peer_op) (p : Peer) : Peer := foldl (λ p op, (run_op op p).2) p ops.

(** Counters come out of an eight byte field. *)
Definition op_wf (op : peer_op) : Prop :=
  match op with OpLetIn _ c _ => is_u64 c | _ => True end.
End life.
Arguments peer_op {N}.

(** ** The invariant of a link *)
Section invariant.
Context `{L : NoiseLaws}.

(** A session opened, and a handshake under way, are with the device the server
    named: they carry its key. *)
Definition right_key (p : Peer) (s : Session) : Prop := peerStatic s = transportKey p.
Definition right_handshake (p : Peer) (h : Handshake) : Prop :=
  initiator h = true ∧ hs_is_initiator (hs_state h) = true ∧ PeerStatic h = transportKey p.

Record peer_wf (p : Peer) : Prop := {
  (** What the app is told is what there is. *)
  pw_state : match state p with
    | PeerDirect => is_Some (session p) ∧ via p = None
    | PeerIndirect => is_Some (session p) ∧ is_Some (via p)
    | PeerConnecting | PeerFailed => session p = None
    | PeerOffline => False
    end;
  pw_handshake : is_Some (session p) → handshake p = None;
  pw_session_key : ∀ s, session p = Some s → right_key p s;
  pw_handshake_key : ∀ h, handshake p = Some h → right_handshake p h;
  pw_counter : is_u64 (counter p);
  pw_pending : (size (pending p) ≤ 33)%nat;
  pw_handshakes : 0 ≤ handshakes p;
  pw_replay : ∃ history, window_of (replay p) history;
  pw_received : is_u64 (received p);
  pw_sent : is_u64 (sent p);
}.

(** What an operation must be given for the invariant to survive it. *)
Definition op_right (p : Peer) (op : peer_op) : Prop :=
  match op with
  | OpOpen s _ => right_key p s
  | OpBeginHandshake h _ => right_handshake p h
  | OpLetIn _ c _ => is_u64 c
  | _ => True
  end.

(** The fields an operation resets, or does not touch. *)
Local Ltac fields Hp :=
  split; cbn; try done; try (by intros []); try apply Hp; try (unfold is_u64; lia);
  try (rewrite map_size_empty; lia); try (by eexists; apply window_of_zero).

Lemma peer_wf_newPeer i n v k e s : peer_wf (newPeer i n v k e s).
Proof. fields I. Qed.

Lemma resetLocked_wf p : peer_wf p → peer_wf (resetLocked p).
Proof. intros Hp. fields Hp. Qed.

Lemma resetLocked_session p : session (resetLocked p) = None.
Proof. done. Qed.

(** Without a session the route can be changed freely. *)
Lemma reroute_wf v t p : peer_wf p → session p = None → peer_wf (p <| via := v |> <| relaysTried := t |>).
Proof.
  intros Hp Hs. destruct Hp as [H1 H2 H3 H4 H5 H6 H7 H8]. split; cbn; try done.
  destruct (state p); cbn; rewrite ?Hs in *; try done; by destruct H1 as [[] _].
Qed.

Lemma restart_wf p : peer_wf p → peer_wf (restart p).
Proof. intros Hp. by apply reroute_wf; [apply resetLocked_wf|]. Qed.

Lemma set_endpoint_field_wf e p : peer_wf p → peer_wf (p <| endpoint := e |>).
Proof. by intros []. Qed.

Lemma setEndpoint_wf e p : peer_wf p → peer_wf (setEndpoint e p).2.
Proof.
  intros Hp. unfold setEndpoint. case_decide; [done|]. apply reroute_wf; [|done].
  by apply resetLocked_wf, set_endpoint_field_wf.
Qed.

Lemma relayThrough_wf r i p : peer_wf p → peer_wf (relayThrough r i p).
Proof. intros Hp. by apply (reroute_wf (Some r)); [apply resetLocked_wf|]. Qed.

Lemma answerVia_wf r i p : peer_wf p → peer_wf (answerVia r i p).
Proof.
  intros Hp. unfold answerVia. case_decide; [done|]. cbn. destruct (session p) as [s|] eqn:Hs.
  - destruct Hp as [H1 H2 H3 H4 H5 H6 H7 H8]. split; cbn; try done; rewrite Hs in *; eauto.
  - rewrite <-Hs. exact (reroute_wf (Some r) _ p Hp Hs).
Qed.

Lemma open_wf s now p : peer_wf p → right_key p s → peer_wf (open s now p).
Proof.
  intros Hp Hk. unfold open. cbn. destruct (via p) as [v|] eqn:Hv; cbn.
  all: fields Hp; rewrite ?Hv; eauto; by intros ? [= <-].
Qed.

Lemma nextCounter_wf p : peer_wf p → peer_wf (nextCounter p).2.
Proof. intros Hp. unfold nextCounter. destruct (session p) eqn:E; [|done]. destruct Hp. split; cbn; auto with vlan. Qed.

(** Swapping in a session that evolved from the link's own keeps everything. *)
Lemma set_session_wf s s' p : peer_wf p → session p = Some s → peerStatic s' = peerStatic s →
  peer_wf (p <| session := Some s' |>).
Proof.
  intros Hp Hs Hk. destruct Hp as [H1 H2 H3 H4 H5 H6 H7 H8]. rewrite Hs in *. split; cbn; try done.
  - destruct (state p); try done; by destruct H1.
  - intros _. by apply H2.
  - intros ? [= <-]. unfold right_key in *. cbn. rewrite Hk. by apply H3.
Qed.

Lemma seal_wf dst ad pt c p : peer_wf p → peer_wf (seal dst ad pt c p).2.
Proof.
  intros Hp. unfold seal. destruct (session p) as [s|] eqn:Hs; [|done].
  destruct (Seal_keys dst ad pt c s) as (_ & _ & Hk). destruct (Seal _ _ _ _ _) as [r s']. cbn in *.
  by apply (set_session_wf s).
Qed.

Lemma set_replay_wf w h p : peer_wf p → window_of w h → peer_wf (p <| replay := w |>).
Proof. intros [] Hw. split; cbn; eauto. Qed.

Lemma set_lastHeard_wf t p : peer_wf p → peer_wf (p <| lastHeard := t |>).
Proof. by intros []. Qed.

Lemma decrypt_wf header ct c p : peer_wf p → peer_wf (decrypt header ct c p).2.
Proof.
  intros Hp. unfold decrypt. destruct (session p) as [s|] eqn:Hs; [|done].
  destruct (Open_keys [] header ct c s) as (_ & _ & Hk). destruct (Open _ _ _ _ _) as [r s']. cbn in Hk.
  pose proof (set_session_wf s s' p Hp Hs Hk). by destruct r.
Qed.

Lemma let_in_wf pt c now p : peer_wf p → is_u64 c → peer_wf (let_in pt c now p).2.
Proof.
  intros Hp Hc. unfold let_in. destruct (pw_replay _ Hp) as [h Hh]. destruct (Accept_spec (replay p) h c Hh Hc) as [_ Hw].
  destruct (Accept (replay p) c) as [new w]. cbn in Hw. pose proof (set_replay_wf w _ _ Hp Hw).
  destruct new; cbn [negb snd]; [by apply set_lastHeard_wf|done].
Qed.

Lemma accept_wf header ct c now p : peer_wf p → is_u64 c → peer_wf (accept header ct c now p).2.
Proof.
  intros Hp Hc. unfold accept. pose proof (decrypt_wf header ct c p Hp) as Hp'.
  destruct (decrypt header ct c p) as [[e|pt] p']; [done|by apply let_in_wf].
Qed.

Lemma accept_bytes header ct c now p out : is_bytes ct → (accept header ct c now p).1 = inr out → is_bytes out.
Proof.
  intros Hct. unfold accept, decrypt, let_in. destruct (session p) as [s|]; [|done].
  pose proof (Open_bytes header ct c s) as Hb. destruct (Open _ _ _ _ _) as [[e|x] s']; [done|]. cbn in *.
  destruct (Accept _ _) as [[] w]; [|done]. intros [= <-]. by apply Hb.
Qed.

Lemma expect_wf t now p : peer_wf p → peer_wf (expect t now p).
Proof.
  intros Hp. pose proof (pw_pending _ Hp). destruct Hp. unfold expect.
  destruct (Nat.ltb_spec 32 (size (pending p))); split; cbn; try done.
  - rewrite map_size_insert, lookup_empty, map_size_empty. cbn. lia.
  - rewrite map_size_insert. destruct (pending p !! t); cbn; lia.
Qed.

Lemma measure_wf t now p : peer_wf p → peer_wf (measure t now p).2.
Proof.
  intros Hp. pose proof (pw_pending _ Hp). destruct Hp. unfold measure. destruct (pending p !! t) eqn:E; [|done].
  split; cbn; try done. rewrite map_size_delete, E. lia.
Qed.

Lemma fail_wf p : peer_wf p → peer_wf (fail p).2.
Proof.
  intros Hp. unfold fail. case_decide; [done|]. destruct Hp. split; cbn; try done; by intros [].
Qed.

Lemma begin_wf h now p : peer_wf p → session p = None → right_handshake p h →
  peer_wf (p <| handshakes := handshakes p + 1 |> <| lastHandshake := Some now |> <| handshake := Some h |>).
Proof.
  intros Hp Hs Hh. destruct Hp as [H1 H2 H3 H4 H5 H6 H7 H8]. split; cbn; try done.
  - rewrite Hs. by intros [].
  - by intros ? [= <-].
  - lia.
Qed.

Lemma run_op_wf op p : peer_wf p → op_right p op → peer_wf (run_op op p).2.
Proof.
  intros Hp Hop. destruct op; cbn in *.
  - by apply setEndpoint_wf.
  - by apply restart_wf.
  - by apply relayThrough_wf.
  - by apply answerVia_wf.
  - by apply open_wf.
  - pose proof (nextCounter_wf p Hp). by destruct (nextCounter p).
  - by apply seal_wf.
  - by apply decrypt_wf.
  - pose proof (let_in_wf plaintext c now p Hp Hop). by destruct (let_in _ _ _ p).
  - by apply set_lastHeard_wf.
  - by apply expect_wf.
  - by apply measure_wf.
  - destruct (session p) eqn:E; [done|]. rewrite <-E. exact (begin_wf h now p Hp E Hop).
  - by apply fail_wf.
Qed.

(** Every call of a life is given what it needs, at the moment it is made. *)
Fixpoint ops_right (ops : list peer_op) (p : Peer) : Prop :=
  match ops with
  | [] => True
  | op :: ops => op_right p op ∧ ops_right ops (run_op op p).2
  end.

Lemma run_ops_wf ops p : peer_wf p → ops_right ops p → peer_wf (run_ops ops p).
Proof.
  revert p; induction ops as [|op ops IH]; intros p Hp; [done|]. intros [Hop Hops].
  apply IH; [by apply run_op_wf|done].
Qed.
End invariant.

(** ** Nonces and counters over a life *)
Section life_lemmas.
Context {N : Noise}.

(** What has been observed so far, [past], agrees with the link: the nonces handed out
    under the session it has now are below its counter, and the counters its window let
    through are in the history the window stands for. *)
Record life_inv (sessions windows : nat) (past : list (nat * observation)) (p : Peer) : Prop := {
  li_NoDup : NoDup past;
  li_sessions : ∀ e n, (e, Handed n) ∈ past → (e ≤ sessions)%nat;
  li_windows : ∀ e n, (e, LetThrough n) ∈ past → (e ≤ windows)%nat;
  li_handed : is_Some (session p) → ∀ n, (sessions, Handed n) ∈ past → n < counter p;
  li_let : ∃ history, window_of (replay p) history ∧ ∀ n, (windows, LetThrough n) ∈ past → n ∈ history;
}.

(** The counter after a call, as long as it does not wrap. *)
Lemma run_op_counter op p : 0 ≤ counter p → 0 ≤ counter (run_op op p).2 ≤ counter p + 1.
Proof.
  intros Hc. destruct op; cbn.
  - unfold setEndpoint. case_decide; cbn; lia.
  - lia.
  - lia.
  - unfold answerVia. case_decide; cbn; [lia|]. destruct (session p); cbn; lia.
  - unfold open. cbn. destruct (via p); cbn; lia.
  - unfold nextCounter. destruct (session p); cbn; [|lia].
    pose proof (u64_range (counter p + 1)). unfold is_u64, u64 in *.
    split; [lia|]. apply Z.mod_le; lia.
  - unfold seal. destruct (session p); [|cbn; lia]. destruct (Seal _ _ _ _ _). cbn. lia.
  - unfold decrypt. destruct (session p); [|cbn; lia]. destruct (Open _ _ _ _ _) as [[] ?]; cbn; lia.
  - unfold let_in. destruct (Accept _ _) as [[] ?]; cbn; lia.
  - lia.
  - unfold expect. case_match; cbn; lia.
  - unfold measure. destruct (pending p !! token); cbn; lia.
  - destruct (session p); cbn; lia.
  - unfold fail. case_decide; cbn; lia.
Qed.

Lemma life_inv_same sessions windows past p p' :
  life_inv sessions windows past p → replay p' = replay p →
  (is_Some (session p') → is_Some (session p) ∧ counter p' = counter p) →
  life_inv sessions windows past p'.
Proof.
  intros [H1 H2 H2' H3 H4] Hr Hsame. split; [done..| |by rewrite Hr].
  intros Hs. destruct (Hsame Hs) as (Hs' & ->). by apply H3.
Qed.

(** A window that starts afresh has let nothing through. *)
Lemma life_inv_reset sessions sessions' windows past p p' :
  life_inv sessions windows past p → replay p' = ReplayWindow_zero → (sessions ≤ sessions')%nat →
  (is_Some (session p') → (sessions < sessions')%nat) →
  life_inv sessions' (S windows) past p'.
Proof.
  intros [H1 H2 H2' H3 H4] Hr Hle Hs. split.
  - done.
  - intros e n He%H2. lia.
  - intros e n He%H2'. lia.
  - intros Hs' n He%H2. specialize (Hs Hs'). lia.
  - rewrite Hr. exists []. split; [apply window_of_zero|]. intros n He%H2'. lia.
Qed.

Lemma life_inv_nextCounter sessions windows past p : life_inv sessions windows past p → 0 ≤ counter p < 2 ^ 64 - 1 →
  match (nextCounter p).1 with
  | inr n => life_inv sessions windows ((sessions, Handed n) :: past) (nextCounter p).2
  | inl _ => life_inv sessions windows past (nextCounter p).2
  end.
Proof.
  intros Hi Hc. unfold nextCounter. destruct (session p) as [s|] eqn:Hs; cbn; [|done].
  destruct Hi as [H1 H2 H2' H3 H4]. rewrite Hs in *. specialize (H3 ltac:(done)). split; cbn.
  - apply NoDup_cons. split; [|done]. intros Hin%H3. lia.
  - intros e n [[= -> ->]|Ho%H2]%elem_of_cons; done.
  - intros e n [[=]|Ho%H2']%elem_of_cons; done.
  - intros _ n [[= ->]|Ho%H3]%elem_of_cons; rewrite u64_id; unfold is_u64; lia.
  - destruct H4 as (h & Hw & Hh). exists h. split; [done|]. intros n [[=]|Ho]%elem_of_cons. by apply Hh.
Qed.

Lemma life_inv_let_in sessions windows past pt c now p : life_inv sessions windows past p → is_u64 c →
  match (let_in pt c now p).1 with
  | inr _ => life_inv sessions windows ((windows, LetThrough c) :: past) (let_in pt c now p).2
  | inl _ => life_inv sessions windows past (let_in pt c now p).2
  end.
Proof.
  intros Hi Hc. unfold let_in. destruct Hi as [H1 H2 H2' H3 H4].
  destruct H4 as (h & Hw & Hh). destruct (Accept_spec _ _ c Hw Hc) as [Ef Hw'].
  destruct (Accept (replay p) c) as [new w]. cbn in Ef, Hw'. subst new.
  destruct (fresh h c) eqn:Hf; cbn; split; cbn; try done.
  - apply NoDup_cons. split; [|done]. intros Hin%Hh. by apply fresh_not_in in Hf.
  - intros e n [[=]|Ho%H2]%elem_of_cons; done.
  - intros e n [[= -> ->]|Ho%H2']%elem_of_cons; done.
  - intros Hs n [[=]|Ho]%elem_of_cons. by apply H3.
  - exists (c :: h). split; [done|]. intros n [[= ->]|Ho]%elem_of_cons; [by left|right; by apply Hh].
  - by exists h.
Qed.

(** Every other call leaves the counters alone, or throws the session and the window
    away. *)
Lemma life_inv_other sessions windows past op p : life_inv sessions windows past p →
  match op with OpNextCounter | OpLetIn _ _ _ => False | _ => True end →
  (run_op op p).1 = None
  ∧ life_inv (match op with OpOpen _ _ => S sessions | _ => sessions end) (if resets op p then S windows else windows)
      past (run_op op p).2.
Proof.
  intros Hi Hop. destruct op; cbn in *; try done; split; try done.
  - unfold setEndpoint. destruct (decide (endpoint p = e)).
    + by rewrite bool_decide_eq_true_2.
    + rewrite bool_decide_eq_false_2 by done. apply (life_inv_reset _ _ _ _ _ _ Hi); [done|lia|by intros []].
  - apply (life_inv_reset _ _ _ _ _ _ Hi); [done|lia|by intros []].
  - apply (life_inv_reset _ _ _ _ _ _ Hi); [done|lia|by intros []].
  - unfold answerVia. case_decide; [done|]. cbn. apply (life_inv_same _ _ _ _ _ Hi); destruct (session p) eqn:E; cbn; rewrite ?E; done.
  - eapply (life_inv_reset _ _ _ _ _ _ Hi); [|lia..]. unfold open. cbn. by destruct (via p).
  - unfold seal. destruct (session p) eqn:E; [|done]. destruct (Seal _ _ _ _ _). apply (life_inv_same _ _ _ _ _ Hi); [done|]. by rewrite E.
  - unfold decrypt. destruct (session p) eqn:E; [|done]. destruct (Open _ _ _ _ _) as [[] ?];
      (apply (life_inv_same _ _ _ _ _ Hi); [done|by rewrite E]).
  - by apply (life_inv_same _ _ _ _ _ Hi).
  - apply (life_inv_same _ _ _ _ _ Hi); unfold expect; case_match; done.
  - apply (life_inv_same _ _ _ _ _ Hi); unfold measure; case_match; done.
  - apply (life_inv_same _ _ _ _ _ Hi); destruct (session p) eqn:E; cbn; rewrite ?E; done.
  - unfold fail. case_decide; [done|]. apply (life_inv_same _ _ _ _ _ Hi); [done|by intros []].
Qed.

Lemma life_NoDup sessions windows past ops p :
  life_inv sessions windows past p → Forall op_wf ops → 0 ≤ counter p →
  counter p + Z.of_nat (length ops) < 2 ^ 64 →
  NoDup (reverse past ++ life sessions windows ops p).
Proof.
  revert sessions windows past p; induction ops as [|op ops IH]; intros sessions windows past p Hi Hw H0 Hc.
  { cbn. rewrite app_nil_r, reverse_Permutation. apply Hi. }
  apply Forall_cons in Hw as [Hop Hw]. cbn [length] in Hc.
  pose proof (run_op_counter op p H0) as Hcount. cbn [life].
  assert (op = OpNextCounter ∨ (∃ pt c now, op = OpLetIn pt c now)
    ∨ match op with OpNextCounter | OpLetIn _ _ _ => False | _ => True end) as Hcases
    by (destruct op; eauto 10).
  destruct Hcases as [->|[(pt & c & now & ->)|Hother]].
  - pose proof (life_inv_nextCounter _ _ _ _ Hi) as Hn. cbn in Hcount |- *.
    destruct (nextCounter p) as [[e|n] p']; cbn in *; [apply IH; [apply Hn|..]; done || lia|].
    specialize (IH sessions windows ((sessions, Handed n) :: past) p'). rewrite reverse_cons, <-(assoc_L (++)) in IH.
    apply IH; [apply Hn|..]; done || lia.
  - pose proof (life_inv_let_in _ _ _ pt c now _ Hi Hop) as Hn. cbn in Hcount |- *.
    destruct (let_in pt c now p) as [[e|out] p']; cbn in *; [apply IH; done || lia|].
    specialize (IH sessions windows ((windows, LetThrough c) :: past) p'). rewrite reverse_cons, <-(assoc_L (++)) in IH.
    apply IH; done || lia.
  - destruct (life_inv_other _ _ _ _ _ Hi Hother) as [Eo Hi']. destruct (run_op op p) as [o p']. cbn in *. subst o.
    apply IH; done || lia.
Qed.
End life_lemmas.

(** ** Properties *)

(** C30: over the whole life of a link, whatever is called on it in whatever order, the two
    halves of [accept] apart like any other calls: no two packets of one session are handed
    the same nonce, and no counter is let through twice by one replay window.  Sessions are
    told apart by how many handshakes had finished, windows by how often the link had been
    reset; the bound is the length of the counter. *)
Theorem link_numbers_are_used_once `{N : Noise} ops i n v k e s :
  Forall op_wf ops → Z.of_nat (length ops) < 2 ^ 64 →
  NoDup (life 0 0 ops (newPeer i n v k e s)).
Proof.
  intros Hw Hlen. apply (life_NoDup 0 0 []); cbn; try done; try lia.
  split; [constructor|by intros e' o Ho%elem_of_nil..|by intros []|].
  exists []. split; [apply window_of_zero|by intros c Hc%elem_of_nil].
Qed.

Definition a_copy : list (peer_op (N := Plain.noise)) :=
  [OpOpen (Plain.between [1] [1] []) 5; OpNextCounter; OpNextCounter;
   OpDecrypt [] (Plain.seal [1] 9 [] [4]) 9; OpLetIn [4] 9 6; OpDecrypt [] (Plain.seal [1] 9 [] [4]) 9; OpLetIn [4] 9 7;
   OpDecrypt [] (Plain.seal [1] 9 [] [4]) 9; OpRestart; OpLetIn [4] 9 8].
Lemma link_numbers_are_used_once_witness :
  NoDup (life (N := Plain.noise) 0 0 (a_copy ++ [OpNextCounter; OpOpen (Plain.between [1] [1] []) 8; OpNextCounter])
    (newPeer [3] [] (Addr4 1) [2] AddrPortZero 11)).
Proof.
  apply link_numbers_are_used_once; [|done].
  repeat (constructor; [first [exact I|vm_compute; split; [discriminate|reflexivity]]|]). constructor.
Defined.

(** One window, and not one session: a copy of a packet that is decrypted before the link
    is restarted, and gets to the window after, is let through a second time, though no
    other session was opened in between. *)
Example a_restart_lets_a_copy_in :
  life 0 0 a_copy (newPeer [3] [] (Addr4 1) [2] AddrPortZero 11)
  = [(1%nat, Handed 0); (1%nat, Handed 1); (1%nat, LetThrough 9); (2%nat, LetThrough 9)].
Proof. by vm_compute. Qed.

(** A link's fields agree at every moment of its life: it is reported direct or
    indirect exactly while it has a session, with a relay exactly when indirect; a
    handshake is under way only while there is no session; every session and every
    handshake is with the key the server gave for the device; and what grows on
    every probe stays within 33 tokens.  Each call preserves this, given a session
    or handshake for the right key where it takes one. *)
Theorem link_state_invariant `{L : NoiseLaws} ops i n v k e s :
  ops_right ops (newPeer i n v k e s) → peer_wf (run_ops ops (newPeer i n v k e s)).
Proof. apply run_ops_wf, peer_wf_newPeer. Qed.

Lemma link_state_invariant_witness :
  peer_wf (run_ops (N := Plain.noise)
    [OpBeginHandshake (Plain.calling [1] [2]) 5; OpOpen (Plain.between [1] [2] [2]) 6;
     OpNextCounter; OpAnswerVia 7%positive [9]; OpRelayThrough 8%positive [8]; OpFail]
    (newPeer [3] [] (Addr4 1) [2] AddrPortZero 11)).
Proof. apply link_state_invariant. vm_compute. split_and!; done. Defined.
