(* ===== verification/Mesh.v ===== *)
(** daemon/mesh: the socket and every peer link on it.

    This file has the state of [Mesh] (mesh.go), the way a packet leaves (Send,
    Broadcast, sendData, deliver, forward and the senders of handle.go), and the
    calls that add, move, retry and remove links.  What happens to a packet that
    arrives is in [Handle].

    Peers are shared by pointer, so they live in [store] and the tables hold [ref]s;
    reading a ref with nothing behind it is a panic.  What the outside decides is in
    the class [Env]: random numbers, whether a write to the socket succeeds, and the
    order in which Go walks a map.  Each use of it is numbered by [tick], so every use
    may come out differently.  A handler runs at one instant, [now]. *)
From S2P Require Import Prelude Bytes NetAddr Wire Stun Replay Session Netlog Ipc Peer.

Class Env `{N : Noise} : Type := {
  (** [rand.Read] of eight bytes, [None] when it fails. *)
  random64 : nat → option Z;
  (** What a handshake's [rand.Reader] yields. *)
  entropy : nat → Random;
  (** Whether [WriteToUDPAddrPort] succeeds. *)
  writes : nat → bool;
  (** A map's values in the order [range] meets them. *)
  walk : nat → list ref → list ref;
}.

Class EnvLaws `(E : Env) : Prop := {
  random64_u64 n z : random64 n = Some z → is_u64 z;
  walk_perm n l : walk n l ≡ₚ l;
}.

(** mesh.go's constants. *)
Definition probeInterval : Z := 500 * millisecond.
Definition keepaliveInterval : Z := 15 * second.
Definition deadAfter : Z := 45 * second.
Definition handshakeRetry : Z := second.
Definition maxHandshakes : Z := 10.
Definition maxRelayHandshakes : Z := 3.
Definition initialHopLimit : Z := 1.
Definition rememberStrangers : nat := 32.
Definition inboundCapacity : nat := 256.

(** What the callbacks of [Events] were given. *)
Inductive event : Type :=
  | PeerStateChanged (deviceID : gostring) (s : PeerState) (reason : PeerReason)
  | PeerLatencyChanged (deviceID : gostring) (latency : Z).

(** The lines of the ordinary log, with the attributes that tell them apart. *)
Inductive log_line : Type :=
  | PacketFromStranger (from : AddrPort)
  | PeerAdded (deviceID : gostring)
  | PeerEndpointChanged (deviceID : gostring) (e : AddrPort)
  | RetryingPeer (deviceID : gostring)
  | PeerRemoved (deviceID : gostring)
  | HandshakeFromOutsider (deviceID : gostring) (from : AddrPort)
  | CannotStartHandshake
  | HandshakeDidNotVerify (deviceID : gostring)
  | HandshakeWrongKey (deviceID : gostring) (from : AddrPort)
  | CannotAnswerHandshake
  | LinkOpen (deviceID : gostring) (responder : bool)
  | ReplyDidNotVerify (deviceID : gostring)
  | PeerClosedLink (deviceID : gostring)
  | CannotWriteHandshake (deviceID : gostring)
  | AskingRelay (deviceID relay : gostring)
  | SendFailed (deviceID : gostring)
  | ReplyFailed (deviceID : gostring)
  | WriteToFailed (to : AddrPort)
  | LinkWentQuiet (deviceID : gostring)
  | GivingUp (deviceID : gostring)
  | PublicEndpointIs (endpoint : AddrPort) (server : gostring)
  | StunServerSilent (server : gostring)
  | SocketReadFailed.

Section mesh.
Context {N : Noise} {E : Env}.

Record Mesh : Type := mkMesh {
  keys : Keypair;
  device : gostring;
  (** Which callbacks are set. *)
  on_state : bool;
  on_latency : bool;
  virtualIP : Addr;
  packets : option Recorder;
  store : gmap ref Peer;
  next_ref : ref;
  peers : gmap gostring ref;
  byIP : gmap Addr ref;
  byUDP : gmap AddrPort ref;
  strangers : gset AddrPort;
  (** A waiter is a channel with room for one address. *)
  stunWaiters : gmap (list Z) (option AddrPort);
  inbound : list (list Z);
  now : Z;
  tick : nat;
  (** What has left: datagrams, callbacks, log lines. *)
  wire : list (AddrPort * list Z);
  events : list event;
  log : list log_line;
}.
#[export] Instance eta_Mesh : Settable Mesh := λ m,
  mkMesh (keys m) (device m) (on_state m) (on_latency m) (virtualIP m) (packets m) (store m) (next_ref m)
    (peers m) (byIP m) (byUDP m) (strangers m) (stunWaiters m) (inbound m) (now m) (tick m) (wire m)
    (events m) (log m).

Abbreviation M := (prog Mesh).

Definition New (deviceID : gostring) (ip : Addr) (k : Keypair) (state_cb latency_cb : bool)
    (recorder : option Recorder) (t : Z) : Mesh :=
  mkMesh k deviceID state_cb latency_cb ip recorder ∅ 1 ∅ ∅ ∅ ∅ ∅ [] t 0 [] [] [].

(** ** Pointers and the outside *)
Definition deref (r : ref) : M Peer := λ m,
  match store m !! r with Some p => Some (p, m) | None => None end.
Definition with_peer {A} (r : ref) (f : st Peer A) : M A := λ m,
  match store m !! r with
  | Some p => let '(a, p') := f p in Some (a, m <| store := <[r := p']> (store m) |>)
  | None => None
  end.
Definition update_peer (r : ref) (f : Peer → Peer) : M unit := with_peer r (λ p, (tt, f p)).
Definition alloc (p : Peer) : M ref := λ m,
  Some (next_ref m, m <| store := <[next_ref m := p]> (store m) |> <| next_ref := Pos.succ (next_ref m) |>).
Definition next_tick : M nat := λ m, Some (tick m, m <| tick := S (tick m) |>).
Definition logf (l : log_line) : M unit := modify (λ m, m <| log := log m ++ [l] |>).
Definition drop_packet (r : Reason) : M unit := modify (λ m, m <| packets := (Drop r (packets m)).2 |>).
Definition emit (e : event) : M unit := modify (λ m, m <| events := events m ++ [e] |>).

Definition randomSender : M (mesh_error + Z) :=
  n ← next_tick;
  match random64 n with
  | None => mret (inl RandomFailed)
  | Some z => mret (inr z)
  end.

Definition randomToken : M Z :=
  r ← randomSender;
  match r with
  | inl _ => gets (λ m, u64 (now m))
  | inr token => mret token
  end.

(** [m.conn.WriteToUDPAddrPort] *)
Definition WriteToUDPAddrPort (packet : list Z) (to : AddrPort) : M (mesh_error + unit) :=
  n ← next_tick;
  if writes n then modify (λ m, m <| wire := wire m ++ [(to, packet)] |>);; mret (inr tt)
  else mret (inl WriteFailed).

Definition Peers : M (list ref) :=
  n ← next_tick;
  gets (λ m, walk n ((map_to_list (peers m)).*2)).

(** ** Strangers *)
Definition noteStranger (from : AddrPort) : M unit :=
  seen ← gets (λ m, bool_decide (from ∈ strangers m));
  when (negb seen) (modify (λ m,
    if (size (strangers m) <? rememberStrangers)%nat then m <| strangers := {[from]} ∪ strangers m |> else m));;
  when (negb seen) (logf (PacketFromStranger from)).

Definition forgetStranger (from : AddrPort) : M unit :=
  modify (λ m, m <| strangers := strangers m ∖ {[from]} |>).

(** ** The tables *)
Definition report (peer : ref) : M unit :=
  observed ← gets on_state;
  when observed (
    p ← deref peer;
    let '(s, reason) := status p in
    emit (PeerStateChanged (DeviceID p) s reason)).

Definition index_peer (r : ref) : M unit :=
  p ← deref r;
  when (addr_IsValid (VirtualIP p)) (modify (λ m, m <| byIP := <[VirtualIP p := r]> (byIP m) |>));;
  when (ap_IsValid (endpoint p)) (modify (λ m, m <| byUDP := <[endpoint p := r]> (byUDP m) |>)).

Definition reindex : M unit :=
  modify (λ m, m <| byIP := ∅ |> <| byUDP := ∅ |>);;
  all ← Peers;
  for_each all index_peer.

Definition peerAt (from : AddrPort) : M (option ref) := gets (λ m, byUDP m !! from).

(** ** Putting packets on a link *)
Definition envelope (kind : MessageType) (sender counter : Z) (body : list Z) : list Z :=
  Encode (mkHeader TransportVersion kind sender counter) [] body.

(** The header of a sealed packet, in front of what it authenticates. *)
Definition seal_packet (peer : ref) (kind : MessageType) (body : list Z) : M (mesh_error + list Z) :=
  counter ←? with_peer peer nextCounter;
  p ← deref peer;
  let header := Encode (mkHeader TransportVersion kind (sender p) counter) [] [] in
  with_peer peer (seal header (take HeaderSize header) body counter).

Definition of_go {A} (r : go wire_error A) : M (mesh_error + A) :=
  match r with
  | Ret a => mret (inr a)
  | Throw e => mret (inl (WireFailed e))
  | Panic => panic
  end.

Definition forward (relay : ref) (carried : Forward) : M (mesh_error + unit) :=
  body ←? of_go (Forward_Encode carried []);
  out ←? seal_packet relay MsgForward body;
  p ← deref relay;
  if negb (ap_IsValid (endpoint p)) then mret (inl ErrNoPath)
  else WriteToUDPAddrPort out (endpoint p).

Definition deliver (peer : ref) (packet : list Z) : M (mesh_error + unit) :=
  p ← deref peer;
  match via p with
  | Some relay =>
      ip ← gets virtualIP;
      forward relay (mkForward initialHopLimit ip (VirtualIP p) packet)
  | None =>
      if negb (ap_IsValid (endpoint p)) then mret (inl ErrNoPath)
      else WriteToUDPAddrPort packet (endpoint p)
  end.

Definition sendData (peer : ref) (packet : list Z) : M (mesh_error + unit) :=
  out ←? seal_packet peer MsgData packet;
  _ ←? deliver peer out;
  update_peer peer (λ p, p <| sent := u64 (sent p + 1) |>);;
  mret (inr tt).

Definition reasonFor (err : mesh_error) : Reason :=
  match err with
  | ErrNoSession => NoSession
  | ErrNoPath => NoPath
  | _ => Undeliverable
  end.

Definition Send (destination : Addr) (packet : list Z) : M (mesh_error + unit) :=
  peer ← gets (λ m, byIP m !! destination);
  match peer with
  | None => drop_packet NoPeer;; mret (inl (NobodyHas destination))
  | Some peer =>
      r ← sendData peer packet;
      match r with
      | inl err => drop_packet (reasonFor err);; mret (inl err)
      | inr _ => mret (inr tt)
      end
  end.

(** The loop of [Broadcast], counting the peers that got the packet. *)
Fixpoint broadcast_to (all : list ref) (packet : list Z) : M Z :=
  match all with
  | [] => mret 0
  | peer :: all =>
      r ← sendData peer packet;
      match r with
      | inr _ => sent ← broadcast_to all packet; mret (1 + sent)
      | inl err => drop_packet (reasonFor err);; broadcast_to all packet
      end
  end.

Definition Broadcast (packet : list Z) : M Z :=
  all ← Peers;
  broadcast_to all packet.

Definition send (peer : ref) (kind : MessageType) (sender counter : Z) (body : list Z) : M unit :=
  r ← deliver peer (envelope kind sender counter body);
  match r with
  | inl _ => p ← deref peer; logf (SendFailed (DeviceID p))
  | inr _ => mret tt
  end.

Definition sendTo (to : AddrPort) (packet : list Z) : M unit :=
  r ← WriteToUDPAddrPort packet to;
  match r with
  | inl _ => logf (WriteToFailed to)
  | inr _ => mret tt
  end.

(** ** Opening a link *)
Definition punch (peer : ref) : M unit :=
  p ← deref peer;
  when (ap_IsValid (endpoint p)) (
    token ← randomToken;
    t ← gets now;
    update_peer peer (expect token t);;
    update_peer peer (λ p, p <| lastProbe := Some t |>);;
    sendTo (endpoint p) (envelope MsgProbe 0 0 (Ping_Encode (mkPing token false) []))).

Definition sendKeepalive (peer : ref) : M unit :=
  token ← randomToken;
  t ← gets now;
  update_peer peer (expect token t);;
  p ← deref peer;
  send peer MsgKeepalive (sender p) 0 (Ping_Encode (mkPing token false) []).

Definition handshakeBudget (via : option ref) : Z :=
  match via with
  | Some _ => maxRelayHandshakes
  | None => maxHandshakes
  end.

(** Whether [beginHandshake] goes ahead once it has the lock. *)
Definition may_begin (t : Z) (p : Peer) : bool :=
  let reachable := ap_IsValid (endpoint p) || bool_decide (is_Some (via p)) in
  let waiting := bool_decide (is_Some (handshake p)) && (Since t (lastHandshake p) <? handshakeRetry) in
  let busy := bool_decide (is_Some (session p)) || waiting || (handshakeBudget (via p) <=? handshakes p) in
  negb (busy || negb reachable).

Definition beginHandshake (peer : ref) : M unit :=
  p ← deref peer;
  me ← gets device;
  if bytes_lt (DeviceID p) me then mret tt else
  t ← gets now;
  if negb (may_begin t p) then mret tt else
  update_peer peer (λ p, p <| handshakes := handshakes p + 1 |> <| lastHandshake := Some t |>);;
  k ← gets keys;
  n ← next_tick;
  match NewInitiator k (transportKey p) (entropy n) with
  | inl _ => logf CannotStartHandshake
  | inr initiator =>
      let '(message, initiator) := WriteInit initiator in
      match message with
      | inl _ => logf (CannotWriteHandshake (DeviceID p))
      | inr message =>
          body ← of_go (HandshakeInit_Encode (mkHandshakeInit me message) []);
          match body with
          | inl _ => mret tt
          | inr body =>
              update_peer peer (λ p, p <| handshake := Some initiator |>);;
              send peer MsgHandshakeInit (sender p) 0 body
          end
      end
  end.

(** The search of [tryRelay] over the peers in the order the map gives them. *)
Fixpoint pick_relay (peer : ref) (p : Peer) (all : list ref) (relay : option (ref * gostring))
    : M (option (ref * gostring)) :=
  match all with
  | [] => mret relay
  | candidate :: all =>
      c ← deref candidate;
      if bool_decide (candidate = peer) || negb (bool_decide (state c = PeerDirect)) || triedRelay (DeviceID c) p
      then pick_relay peer p all relay
      else match relay with
           | None => pick_relay peer p all (Some (candidate, DeviceID c))
           | Some (_, best) =>
               if bytes_lt (DeviceID c) best then pick_relay peer p all (Some (candidate, DeviceID c))
               else pick_relay peer p all relay
           end
  end.

Definition tryRelay (peer : ref) : M bool :=
  all ← Peers;
  p ← deref peer;
  relay ← pick_relay peer p all None;
  match relay with
  | None => mret false
  | Some (relay, relayID) =>
      logf (AskingRelay (DeviceID p) relayID);;
      update_peer peer (relayThrough relay relayID);;
      report peer;;
      beginHandshake peer;;
      mret true
  end.

(** ** Adding, moving, retrying and removing links *)
Definition AddPeer (deviceID nickname : gostring) (virtualIP : Addr) (transportKey : list Z)
    (endpoint : AddrPort) : M (mesh_error + unit) :=
  if negb (length transportKey =? KeySize)%nat then mret (inl (KeyHasLength deviceID (length transportKey))) else
  sender ←? randomSender;
  existing ← gets (λ m, peers m !! deviceID);
  match existing with
  | Some existing =>
      p ← deref existing;
      if decide (state p = PeerDirect) then mret (inr tt) else
      if negb (ap_IsValid endpoint) then mret (inr tt) else
      moved ← with_peer existing (setEndpoint endpoint);
      when moved (reindex;; report existing);;
      mret (inr tt)
  | None =>
      peer ← alloc (newPeer deviceID nickname virtualIP transportKey endpoint sender);
      modify (λ m, m <| peers := <[deviceID := peer]> (peers m) |>);;
      reindex;;
      logf (PeerAdded deviceID);;
      report peer;;
      punch peer;;
      mret (inr tt)
  end.

Definition SetPeerEndpoint (deviceID : gostring) (endpoint : AddrPort) : M unit :=
  peer ← gets (λ m, peers m !! deviceID);
  match peer with
  | None => mret tt
  | Some peer =>
      if negb (ap_IsValid endpoint) then mret tt else
      moved ← with_peer peer (setEndpoint endpoint);
      when moved (
        reindex;;
        logf (PeerEndpointChanged deviceID endpoint);;
        report peer;;
        punch peer)
  end.

Definition restart_link (peer : ref) : M unit :=
  update_peer peer restart;;
  report peer;;
  punch peer.

Definition RestartLinks : M unit :=
  all ← Peers;
  for_each all restart_link.

Definition RetryPeer (deviceID : gostring) : M bool :=
  peer ← gets (λ m, peers m !! deviceID);
  match peer with
  | None => mret false
  | Some peer =>
      logf (RetryingPeer deviceID);;
      restart_link peer;;
      beginHandshake peer;;
      mret true
  end.

Definition RemovePeer (deviceID : gostring) : M unit :=
  modify (λ m, m <| peers := delete deviceID (peers m) |>);;
  reindex;;
  logf (PeerRemoved deviceID).

(** ** Keeping links alive: one peer's turn of [maintain]'s loop *)
Definition maintain_peer (keepalives : bool) (peer : ref) : M unit :=
  p ← deref peer;
  t ← gets now;
  let opened := bool_decide (is_Some (session p)) in
  let silent := opened && match lastHeard p with Some heard => deadAfter <? t - heard | None => false end in
  if silent then
    logf (LinkWentQuiet (DeviceID p));;
    restart_link peer
  else if opened then when keepalives (sendKeepalive peer)
  else if decide (state p = PeerFailed) then _ ← tryRelay peer; mret tt
  else if handshakeBudget (via p) <=? handshakes p then
    relayed ← tryRelay peer;
    when (negb relayed) (
      failed ← with_peer peer fail;
      when failed (logf (GivingUp (DeviceID p));; report peer))
  else if bool_decide (is_Some (via p)) then beginHandshake peer
  else punch peer;; beginHandshake peer.

(** One tick: keepalives go out when the last were long enough ago; the result is
    the loop's [lastKeepalive]. *)
Definition maintain_tick (lastKeepalive : Z) : M Z :=
  t ← gets now;
  let keepalives := keepaliveInterval <=? t - lastKeepalive in
  all ← Peers;
  for_each all (maintain_peer keepalives);;
  mret (if keepalives then t else lastKeepalive).
End mesh.
