(* ===== verification/Handle.v ===== *)
(** daemon/mesh/handle.go: what happens to a datagram.

    [handle] sorts it, and each handler below is one function of the source.  A
    packet that is discarded goes through [drop_packet] where the source counts it,
    and is ignored where the source ignores it. *)
From S2P Require Import Prelude Bytes NetAddr Wire Stun Replay Session Netlog Ipc Peer Mesh.

(** Where a packet came from, and so where an answer goes back: an address off the
    wire, or the peer it is from and the relay that carried it.  Nil pointers and the
    zero address are [None] and [AddrPortZero]. *)
Record source : Type := mkSource {
  src_addr : AddrPort;
  src_peer : option ref;
  src_relay : option ref;
}.

Section handle.
Context {N : Noise} {E : Env}.
Abbreviation M := (prog Mesh).

(** [diff |= a[i] ^ b[i]] over the whole slice. *)
Definition equalKeys (a b : list Z) : bool :=
  if negb (length a =? length b)%nat then false
  else foldl (λ diff '(x, y), Z.lor diff (Z.lxor x y)) 0 (zip a b) =? 0.

Definition acceptReason (err : mesh_error) : Reason :=
  match err with
  | ErrNoSession => NoSession
  | ErrReplayed => Replayed
  | _ => Undecryptable
  end.

(** [waiter <- addr], on a channel with room for one, or nothing. *)
Definition handleStun (packet : list Z) : M unit :=
  if (length packet <? 20)%nat then mret tt else
  match slice (E := unit) packet 8 20 with
  | Ret id =>
      waiter ← gets (λ m, stunWaiters m !! id);
      match waiter with
      | None => mret tt
      | Some answer =>
          match ParseResponse id packet with
          | Panic => panic
          | Throw _ => mret tt
          | Ret addr =>
              match answer with
              | None => modify (λ m, m <| stunWaiters := <[id := Some addr]> (stunWaiters m) |>)
              | Some _ => mret tt
              end
          end
      end
  | _ => panic
  end.

Definition handleProbe (payload : list Z) (from : AddrPort) : M unit :=
  match DecodePing payload with
  | Panic => panic
  | Throw _ => mret tt
  | Ret ping =>
      if Reply ping then
        peer ← peerAt from;
        match peer with
        | Some peer =>
            t ← gets now;
            with_peer peer (measure (Token ping) t);;
            beginHandshake peer
        | None => mret tt
        end
      else
        sendTo from (envelope MsgProbe 0 0 (Ping_Encode (mkPing (Token ping) true) []));;
        peer ← peerAt from;
        match peer with
        | Some peer => beginHandshake peer
        | None => mret tt
        end
  end.

(** Answering the way a packet came; [src_peer] is read only behind a relay. *)
Definition replyTo (src : source) (kind : MessageType) (sender counter : Z) (body : list Z) : M unit :=
  let packet := envelope kind sender counter body in
  match src_relay src with
  | None => sendTo (src_addr src) packet
  | Some relay =>
      match src_peer src with
      | None => panic
      | Some peer =>
          p ← deref peer;
          ip ← gets virtualIP;
          r ← forward relay (mkForward initialHopLimit ip (VirtualIP p) packet);
          match r with
          | inl _ => logf (ReplyFailed (DeviceID p))
          | inr _ => mret tt
          end
      end
  end.

(** [if src.relay != nil { peer.answerVia(src.relay) }] *)
Definition answer_by_relay (peer : ref) (src : source) : M unit :=
  match src_relay src with
  | Some relay => r ← deref relay; update_peer peer (answerVia relay (DeviceID r))
  | None => mret tt
  end.

(** What both handlers do once a handshake has ended. *)
Definition open_link (peer : ref) (s : Session) (responder : bool) : M unit :=
  t ← gets now;
  update_peer peer (open s t);;
  p ← deref peer;
  logf (LinkOpen (DeviceID p) responder);;
  report peer;;
  sendKeepalive peer.

(** Where the link is pointed once an init message has verified. *)
Definition follow_source (peer : ref) (src : source) : M unit :=
  match src_relay src with
  | Some _ => answer_by_relay peer src
  | None =>
      p ← deref peer;
      when (bool_decide (endpoint p ≠ src_addr src)) (
        with_peer peer (setEndpoint (src_addr src));;
        reindex);;
      forgetStranger (src_addr src)
  end.

Definition handleHandshakeInit (payload : list Z) (src : source) : M unit :=
  match DecodeHandshakeInit payload with
  | Panic => panic
  | Throw _ => mret tt
  | Ret init =>
      known ← gets (λ m, peers m !! Wire.DeviceID init);
      match known with
      | None => logf (HandshakeFromOutsider (Wire.DeviceID init) (src_addr src))
      | Some peer =>
          k ← gets keys;
          n ← next_tick;
          match NewResponder k (entropy n) with
          | inl _ => logf CannotStartHandshake
          | inr responder =>
              let '(r, responder) := ReadInit (KeyExchange init) responder in
              match r with
              | inl _ => logf (HandshakeDidNotVerify (Wire.DeviceID init))
              | inr _ =>
                  p ← deref peer;
                  if negb (equalKeys (PeerStatic responder) (transportKey p))
                  then logf (HandshakeWrongKey (Wire.DeviceID init) (src_addr src)) else
                  match (WriteResponse responder).1 with
                  | inl _ => logf CannotAnswerHandshake
                  | inr (reply, opened) =>
                      follow_source peer src;;
                      body ← of_go (HandshakeResponse_Encode (mkHandshakeResponse reply) []);
                      match body with
                      | inl _ => mret tt
                      | inr body =>
                          send peer MsgHandshakeResponse (sender p) 0 body;;
                          open_link peer opened true
                      end
                  end
              end
          end
      end
  end.

(** A reply read by a handshake changes it whether or not it verifies. *)
Definition read_response (msg : list Z) : st Peer (option (session_error + Session)) := λ p,
  match handshake p with
  | None => (None, p)
  | Some h => let '(r, h) := ReadResponse msg h in (Some r, p <| handshake := Some h |>)
  end.

Definition handleHandshakeResponse (payload : list Z) (src : source) : M unit :=
  match DecodeHandshakeResponse payload with
  | Panic => panic
  | Throw _ => mret tt
  | Ret response =>
      match src_peer src with
      | None => mret tt
      | Some peer =>
          r ← with_peer peer (read_response (RespKeyExchange response));
          match r with
          | None => mret tt
          | Some (inl _) => p ← deref peer; logf (ReplyDidNotVerify (DeviceID p))
          | Some (inr opened) =>
              answer_by_relay peer src;;
              open_link peer opened false
          end
      end
  end.

(** The echo of one of our own keepalives. *)
Definition keepalive_answered (peer : ref) (token : Z) : M unit :=
  t ← gets now;
  latency ← with_peer peer (measure token t);
  match latency with
  | None => mret tt
  | Some latency =>
      observed ← gets on_latency;
      when observed (p ← deref peer; emit (PeerLatencyChanged (DeviceID p) latency))
  end.

Definition handleKeepalive (payload : list Z) (src : source) : M unit :=
  match DecodePing payload with
  | Panic => panic
  | Throw _ => mret tt
  | Ret ping =>
      match src_peer src with
      | None => noteStranger (src_addr src)
      | Some peer =>
          if Reply ping then keepalive_answered peer (Token ping) else
          t ← gets now;
          update_peer peer (heard t);;
          p ← deref peer;
          replyTo src MsgKeepalive (sender p) 0 (Ping_Encode (mkPing (Token ping) true) [])
      end
  end.

(** [select { case m.inbound <- plaintext: default: drop }] *)
Definition queue_inbound (plaintext : list Z) : M unit :=
  full ← gets (A := bool) (λ m, (inboundCapacity <=? length (inbound m))%nat);
  if (full : bool) then drop_packet QueueFull
  else modify (λ m, m <| inbound := inbound m ++ [plaintext] |>).

Definition handleData (packet ciphertext : list Z) (counter : Z) (src : source) : M unit :=
  match src_peer src with
  | None => drop_packet UnknownPeer;; noteStranger (src_addr src)
  | Some peer =>
      t ← gets now;
      match slice (E := unit) packet 0 HeaderSize with
      | Ret header =>
          r ← with_peer peer (accept header ciphertext counter t);
          match r with
          | inl err => drop_packet (acceptReason err)
          | inr plaintext =>
              update_peer peer (λ p, p <| received := u64 (received p + 1) |>);;
              answer_by_relay peer src;;
              queue_inbound plaintext
          end
      | _ => panic
      end
  end.

Definition handleClose (src : source) : M unit :=
  match src_peer src with
  | None => mret tt
  | Some peer =>
      failed ← with_peer peer fail;
      when failed (
        p ← deref peer;
        logf (PeerClosedLink (DeviceID p));;
        report peer)
  end.

(** A type with no case of its own is ignored. *)
Definition dispatch (header : Header) (packet payload : list Z) (src : source) : M unit :=
  if Type_ header =? MsgHandshakeInit then handleHandshakeInit payload src
  else if Type_ header =? MsgHandshakeResponse then handleHandshakeResponse payload src
  else if Type_ header =? MsgKeepalive then handleKeepalive payload src
  else if Type_ header =? MsgData then handleData packet payload (Counter header) src
  else if Type_ header =? MsgClose then handleClose src
  else mret tt.

Definition passOn (carried : Forward) (from : ref) : M unit :=
  if HopLimit carried =? 0 then drop_packet HopsExhausted else
  target ← gets (λ m, byIP m !! Destination carried);
  match target with
  | None => drop_packet Unroutable
  | Some target =>
      p ← deref target;
      if bool_decide (target = from) || negb (bool_decide (state p = PeerDirect)) then drop_packet Unroutable else
      let carried := mkForward (u8 (HopLimit carried - 1)) (Source carried) (Destination carried) (Packet carried) in
      r ← forward target carried;
      match r with
      | inl err => drop_packet (reasonFor err)
      | inr _ => mret tt
      end
  end.

Definition deliverForwarded (carried : Forward) (relay : ref) : M unit :=
  peer ← gets (λ m, byIP m !! Source carried);
  match peer with
  | None => drop_packet Unroutable
  | Some peer =>
      if decide (peer = relay) then drop_packet Unroutable else
      match Decode (Packet carried) with
      | Panic => panic
      | Throw _ => drop_packet Malformed
      | Ret (header, payload) =>
          dispatch header (Packet carried) payload (mkSource AddrPortZero (Some peer) (Some relay))
      end
  end.

Definition handleForward (packet ciphertext : list Z) (counter : Z) (from : AddrPort) : M unit :=
  relay ← peerAt from;
  match relay with
  | None => drop_packet UnknownPeer;; noteStranger from
  | Some relay =>
      t ← gets now;
      match slice (E := unit) packet 0 HeaderSize with
      | Ret header =>
          r ← with_peer relay (accept header ciphertext counter t);
          match r with
          | inl err => drop_packet (acceptReason err)
          | inr body =>
              match DecodeForward body with
              | Panic => panic
              | Throw _ => drop_packet Malformed
              | Ret carried =>
                  ip ← gets virtualIP;
                  if decide (Destination carried = ip) then deliverForwarded carried relay
                  else passOn carried relay
              end
          end
      | _ => panic
      end
  end.

Definition handle (packet : list Z) (from : AddrPort) : M unit :=
  if Looks packet then handleStun packet else
  match Decode packet with
  | Panic => panic
  | Throw _ => drop_packet Malformed
  | Ret (header, payload) =>
      if Type_ header =? MsgProbe then handleProbe payload from
      else if Type_ header =? MsgForward then handleForward packet payload (Counter header) from
      else
        peer ← peerAt from;
        dispatch header packet payload (mkSource from peer None)
  end.

(** ** The STUN query's side of the waiters: it registers, reads, and takes the
    registration away (queryStun, mesh.go). *)
Definition await_stun (id : list Z) : M unit :=
  modify (λ m, m <| stunWaiters := <[id := None]> (stunWaiters m) |>).
Definition stop_awaiting_stun (id : list Z) : M (option AddrPort) :=
  answer ← gets (λ m, stunWaiters m !! id);
  modify (λ m, m <| stunWaiters := delete id (stunWaiters m) |>);;
  mret (mjoin answer).

(** The adapter's side of [Inbound]. *)
Definition take_inbound : M (option (list Z)) :=
  q ← gets inbound;
  match q with
  | [] => mret None
  | packet :: rest => modify (λ m, m <| inbound := rest |>);; mret (Some packet)
  end.
End handle.
