(* ===== verification/Pump.v ===== *)
(** Packets between the virtual adapter and the links: daemon/core/pump.go.

    A packet is the list of its bytes; the functions that read and rewrite one are in
    the [go] monad, where an index out of range is a panic.  The two loops are given as
    what one turn of them does with one packet.  The adapter is outside: what Windows
    hands over is an argument, and whether it takes a packet is [write_outcome]. *)
From S2P Require Import Prelude Bytes NetAddr NetText Checksum Wire Session Netlog Ipc Peer Mesh Handle.

Definition minimumHeader : nat := 20.
Definition protocolUDP : Z := 17.
Definition udpHeaderSize : nat := 8.
Definition fragmentBits : Z := 0x3fff.

(** ** Addresses *)
Inductive adapter_error : Type := BadAddress | BadSubnetText | OutsideSubnet.

Definition adapterAddress (virtualIP subnet : gostring) : adapter_error + Prefix :=
  match ParseAddr virtualIP with
  | None => inl BadAddress
  | Some addr =>
      match ParsePrefix subnet with
      | None => inl BadSubnetText
      | Some prefix =>
          if negb (Contains prefix addr) then inl OutsideSubnet else inr (PrefixFrom addr (p_bits prefix))
      end
  end.

Definition limitedBroadcast : Addr := AddrFrom4 [255; 255; 255; 255].

Definition forEveryone (destination broadcast : Addr) : bool :=
  bool_decide (destination = broadcast) || bool_decide (destination = limitedBroadcast) || IsMulticast destination.

(** A shift by a negative count panics, and so does [As4] of the zero address. *)
Definition broadcastOf (subnet : Prefix) : go unit Addr :=
  if negb (Is4 (p_addr subnet)) then Ret AddrZero else
  if negb (Is4 (p_addr (Masked subnet))) || (p_bits subnet <? 0) then Panic else
  let raw := As4 (p_addr (Masked subnet)) in
  let host := Z.shiftr (u32 (Z.lnot 0)) (p_bits subnet) in
  Ret (AddrFrom4 (be_encode 4 (Z.lor (be_decode raw) host))).

Definition sourceOf (packet : list Z) : go unit Addr := raw ← slice packet 12 16; Ret (AddrFrom4 raw).

Definition destinationOf (packet : list Z) : go unit (option Addr) :=
  if (length packet <? minimumHeader)%nat then Ret None else
  version ← index packet 0;
  if negb (Z.shiftr version 4 =? 4) then Ret None else
  raw ← slice packet 16 20;
  Ret (Some (AddrFrom4 raw)).

(** ** Rewriting *)

(** [copy(l[i:i+len(bytes)], bytes)] *)
Definition put (l : list Z) (i : nat) (bytes : list Z) : go unit (list Z) :=
  if (i + length bytes <=? length l)%nat then Ret (take i l ++ bytes ++ drop (i + length bytes) l) else Panic.

(** [binary.BigEndian.Uint16(l[i:i+2])] *)
Definition word_at (l : list Z) (i : nat) : go unit Z := raw ← slice l i (i + 2)%nat; Ret (be_decode raw).

(** The tests before anything is written: the length of the header, when the packet is
    a whole UDP datagram for a multicast group. *)
Definition localisable (packet : list Z) (local : Addr) : go unit (option nat) :=
  if (length packet <? minimumHeader)%nat then Ret None else
  first ← index packet 0;
  if negb (Z.shiftr first 4 =? 4) || negb (Is4 local) then Ret None else
  was ← slice packet 16 20;
  if negb (IsMulticast (AddrFrom4 was)) then Ret None else
  protocol ← index packet 9;
  if negb (protocol =? protocolUDP) then Ret None else
  fragment ← word_at packet 6;
  if negb (Z.land fragment fragmentBits =? 0) then Ret None else
  let headerLen := Z.to_nat (Z.land first 0x0f * 4) in
  if (headerLen <? minimumHeader)%nat || (length packet <? headerLen + udpHeaderSize)%nat then Ret None
  else Ret (Some headerLen).

Definition localiseMulticast (packet : list Z) (local : Addr) : go unit (list Z) :=
  h ← localisable packet local;
  match h with
  | None => Ret packet
  | Some headerLen =>
      was ← slice packet 16 20;
      let now := As4 local in
      packet ← put packet 16 now;
      sum ← word_at packet 10;
      packet ← put packet 10 (be_encode 2 (adjustChecksum sum was now));
      sum ← word_at packet (headerLen + 6);
      if sum =? 0 then Ret packet else
      let updated := adjustChecksum sum was now in
      let updated := if updated =? 0 then 0xffff else updated in
      put packet (headerLen + 6) (be_encode 2 updated)
  end.

(** ** The reference: the address changed and both checksums computed anew *)
Definition overwrite (l : list Z) (i : nat) (bytes : list Z) : list Z := take i l ++ bytes ++ drop (i + length bytes) l.

Definition header_checksum (packet : list Z) (headerLen : nat) : Z :=
  checksum_of (overwrite (take headerLen packet) 10 [0; 0]).

(** Over the pseudo header of RFC 768 and the [n] bytes of the datagram. *)
Definition udp_checksum (packet : list Z) (headerLen n : nat) : Z :=
  let pseudo := take 8 (drop 12 packet) ++ [0; protocolUDP] ++ be_encode 2 (Z.of_nat n) in
  let sum := checksum_of (pseudo ++ overwrite (take n (drop headerLen packet)) 6 [0; 0]) in
  if sum =? 0 then 0xffff else sum.

Definition field16 (packet : list Z) (i : nat) : Z := be_decode (take 2 (drop i packet)).

Definition readdressed (packet : list Z) (local : Addr) (headerLen n : nat) : list Z :=
  let packet := overwrite packet 16 (As4 local) in
  let packet := overwrite packet 10 (be_encode 2 (header_checksum packet headerLen)) in
  if field16 packet (headerLen + 6) =? 0 then packet
  else overwrite packet (headerLen + 6) (be_encode 2 (udp_checksum packet headerLen n)).

(** A packet whose checksums are right: the header's, and the datagram's if it has one. *)
Record checksums_right (packet : list Z) (headerLen n : nat) : Prop := mkRight {
  cr_bytes : is_bytes packet;
  cr_fits : (headerLen + n ≤ length packet)%nat ∧ (udpHeaderSize ≤ n)%nat ∧ Z.of_nat n ≤ 0xffff;
  cr_header : field16 packet 10 = header_checksum packet headerLen;
  cr_udp : field16 packet (headerLen + 6) = 0 ∨ field16 packet (headerLen + 6) = udp_checksum packet headerLen n;
}.

(** ** The loops *)

(** What came of handing a packet to the adapter. *)
Inductive write_outcome : Type := Written | Dropped | WriteError.
#[export] Instance write_outcome_eq_dec : EqDecision write_outcome.
Proof. solve_decision. Defined.

Section loops.
Context {N : Noise} {E : Env}.

(** What the two loops share: the links, the adapter and the core's counters. *)
Record Pump : Type := mkPump {
  links : Mesh;
  (** [c.settings.LanDiscovery], as the user has it at this moment. *)
  lanDiscovery : bool;
  packetsOut : Z;
  packetsIn : Z;
  (** What the adapter has been given, and whether [pumpIn] is still running. *)
  adapter : list (list Z);
  carrying : bool;
}.
#[export] Instance eta_Pump : Settable Pump := λ p,
  mkPump (links p) (lanDiscovery p) (packetsOut p) (packetsIn p) (adapter p) (carrying p).

Definition on_links {A} (f : prog Mesh A) : prog Pump A := λ p : Pump,
  match f (links p) with Some (a, m) => Some (a, p <| links := m |>) | None => None end.

(** A function on a packet, in a loop: it returns or panics. *)
Definition pure {A} (r : go unit A) : prog Pump A := match r with Ret a => mret a | _ => panic end.

(** A call of the recorder, which the links and the loops share. *)
Definition record (f : st (option Recorder) unit) : prog Pump unit :=
  on_links (modify (λ m, m <| packets := (f (packets m)).2 |>)).

(** [c.packetsOut.Add(1)] and [c.packets.Sent()]. *)
Definition count_sent : prog Pump unit := modify (λ p : Pump, p <| packetsOut := u64 (packetsOut p + 1) |>);; record Sent.

Definition pumpOut (everyone : Addr) (packet : list Z) : prog Pump unit :=
  d ← pure (destinationOf packet);
  match d with
  | None => record (Drop NotIPv4)
  | Some destination =>
      if forEveryone destination everyone then
        lan ← gets (S:=Pump) lanDiscovery;
        if negb lan then mret tt else
        reached ← on_links (Broadcast packet);
        record (Shouted destination reached (Z.of_nat (length packet)));;
        when (0 <? reached) count_sent
      else
        r ← on_links (Send destination packet);
        match r with
        | inl _ => mret tt
        | inr _ => count_sent
        end
  end.

(** What the copy for the adapter becomes. *)
Definition inward (local everyone : Addr) (packet : list Z) : prog Pump (list Z) :=
  d ← pure (destinationOf packet);
  match d with
  | None => mret packet
  | Some destination =>
      if forEveryone destination everyone then
        from ← pure (sourceOf packet);
        record (Overheard from destination (Z.of_nat (length packet)));;
        lan ← gets (S:=Pump) lanDiscovery;
        if negb lan then mret packet else pure (localiseMulticast packet local)
      else mret packet
  end.

(** One turn of the loop; nothing happens while nothing waits. *)
Definition pumpIn (local everyone : Addr) (outcome : write_outcome) : prog Pump unit :=
  running ← gets (S:=Pump) carrying;
  if negb running then mret tt else
  waiting ← on_links take_inbound;
  match waiting with
  | None => mret tt
  | Some packet =>
      packet ← inward local everyone packet;
      match outcome with
      | Written =>
          modify (λ p : Pump, p <| adapter := adapter p ++ [packet] |> <| packetsIn := u64 (packetsIn p + 1) |>);;
          record Received
      | Dropped => record (Drop AdapterFull)
      | WriteError => modify (λ p : Pump, p <| carrying := false |>)
      end
  end.

End loops.
