(* ===== verification/PumpProps.v ===== *)
(** What the daemon does to a packet on its way to the adapter. *)
From S2P Require Import Prelude Bytes NetAddr NetText Checksum Wire Session Netlog Ipc Peer Mesh Handle Pump.

(** ** Pieces of a list *)
Lemma overwrite_at l w r i w' : length l = i → length w' = length w → overwrite (l ++ w ++ r) i w' = l ++ w' ++ r.
Proof.
  intros <- Hw. unfold overwrite. rewrite take_app_length. do 2 f_equal. rewrite Hw, drop_app_add.
  by rewrite drop_app_length.
Qed.

Lemma put_at l w r i w' : length l = i → length w' = length w → put (l ++ w ++ r) i w' = Ret (l ++ w' ++ r).
Proof.
  intros Hl Hw. unfold put. rewrite (proj2 (Nat.leb_le _ _)) by (rewrite !length_app; lia).
  fold (overwrite (l ++ w ++ r) i w'). by rewrite overwrite_at.
Qed.

Lemma slice_at {E} (l w r : list Z) i j : length l = i → (i + length w = j)%nat → slice (E:=E) (l ++ w ++ r) i j = Ret w.
Proof. intros. by apply slice_app_at. Qed.

Lemma field16_at l w r i : length l = i → length w = 2%nat → field16 (l ++ w ++ r) i = be_decode w.
Proof. intros <- Hw. unfold field16. by rewrite drop_app_length, take_app_length'. Qed.

Lemma word_at_at l w r i : length l = i → length w = 2%nat → word_at (l ++ w ++ r) i = Ret (be_decode w).
Proof. intros Hl Hw. unfold word_at. by rewrite (slice_at l w r) by lia. Qed.

(** Cutting a list in two at a place inside it. *)
Lemma cut_list {A} (l : list A) n : (n ≤ length l)%nat → ∃ a b, l = a ++ b ∧ length a = n.
Proof. intros H. exists (take n l), (drop n l). rewrite take_drop, length_take. split; [done|lia]. Qed.

(** ** A datagram taken apart *)

(** [a]: the header up to its checksum [c]; [b], [w]: the addresses; [o]: options;
    [u]: the UDP header up to its checksum [x]; [p]: what it carries; [r]: the rest. *)
Definition datagram (a c b w o u x p r : list Z) : list Z := a ++ c ++ b ++ w ++ o ++ u ++ x ++ p ++ r.

Record parts (h n : nat) (a c b w o u x p : list Z) : Prop := mkParts {
  pt_a : length a = 10%nat; pt_c : length c = 2%nat; pt_b : length b = 4%nat; pt_w : length w = 4%nat;
  pt_o : (length o + 20 = h)%nat; pt_u : length u = 6%nat; pt_x : length x = 2%nat; pt_p : (length p + 8 = n)%nat;
  pt_even : Nat.even (length o) = true;
}.

Lemma taken_apart packet h n :
  (20 ≤ h)%nat → Nat.even h = true → (8 ≤ n)%nat → (h + n ≤ length packet)%nat →
  ∃ a c b w o u x p r, packet = datagram a c b w o u x p r ∧ parts h n a c b w o u x p.
Proof.
  intros Hh He Hn Hl.
  destruct (cut_list packet 10) as (a & l1 & -> & Ha); [lia|]. rewrite length_app in Hl.
  destruct (cut_list l1 2) as (c & l2 & -> & Hc); [lia|]. rewrite length_app in Hl.
  destruct (cut_list l2 4) as (b & l3 & -> & Hb); [lia|]. rewrite length_app in Hl.
  destruct (cut_list l3 4) as (w & l4 & -> & Hw); [lia|]. rewrite length_app in Hl.
  destruct (cut_list l4 (h - 20)) as (o & l5 & -> & Ho); [lia|]. rewrite length_app in Hl.
  destruct (cut_list l5 6) as (u & l6 & -> & Hu); [lia|]. rewrite length_app in Hl.
  destruct (cut_list l6 2) as (x & l7 & -> & Hx); [lia|]. rewrite length_app in Hl.
  destruct (cut_list l7 (n - 8)) as (p & r & -> & Hp); [lia|].
  exists a, c, b, w, o, u, x, p, r. split; [done|]. constructor; try done; try lia.
  rewrite Ho. rewrite Nat.even_sub by lia. by rewrite He.
Qed.

Section datagram.
Context {h n : nat} {a c b w o u x p : list Z} (r : list Z) (H : parts h n a c b w o u x p).

Lemma datagram_address : datagram a c b w o u x p r = (a ++ c ++ b) ++ w ++ (o ++ u ++ x ++ p ++ r).
Proof. unfold datagram. by rewrite <-!app_assoc. Qed.
Lemma datagram_field : datagram a c b w o u x p r = (a ++ c ++ b ++ w ++ o ++ u) ++ x ++ (p ++ r).
Proof. unfold datagram. by rewrite <-!app_assoc. Qed.
Lemma datagram_header : datagram a c b w o u x p r = (a ++ c ++ b ++ w ++ o) ++ (u ++ x ++ p ++ r).
Proof. unfold datagram. by rewrite <-!app_assoc. Qed.

Lemma length_before_address : length (a ++ c ++ b) = 16%nat.
Proof. destruct H. rewrite !length_app. lia. Qed.
Lemma length_before_field : length (a ++ c ++ b ++ w ++ o ++ u) = (h + 6)%nat.
Proof. destruct H. rewrite !length_app. lia. Qed.
Lemma length_header : length (a ++ c ++ b ++ w ++ o) = h.
Proof. destruct H. rewrite !length_app. lia. Qed.

Lemma datagram_put_address w' : length w' = 4%nat →
  put (datagram a c b w o u x p r) 16 w' = Ret (datagram a c b w' o u x p r)
  ∧ overwrite (datagram a c b w o u x p r) 16 w' = datagram a c b w' o u x p r.
Proof.
  intros Hw'. pose proof (pt_w _ _ _ _ _ _ _ _ _ _ H). rewrite datagram_address.
  rewrite (put_at _ _ _ 16 w'), (overwrite_at _ _ _ 16 w') by (congruence || apply length_before_address).
  unfold datagram. by rewrite <-!app_assoc.
Qed.

Lemma datagram_put_checksum c' : length c' = 2%nat →
  put (datagram a c b w o u x p r) 10 c' = Ret (datagram a c' b w o u x p r)
  ∧ overwrite (datagram a c b w o u x p r) 10 c' = datagram a c' b w o u x p r.
Proof.
  intros Hc'. destruct H. unfold datagram. rewrite (put_at a c _ 10 c'), (overwrite_at a c _ 10 c') by congruence. done.
Qed.

Lemma datagram_put_field x' : length x' = 2%nat →
  put (datagram a c b w o u x p r) (h + 6) x' = Ret (datagram a c b w o u x' p r)
  ∧ overwrite (datagram a c b w o u x p r) (h + 6) x' = datagram a c b w o u x' p r.
Proof.
  intros Hx'. pose proof (pt_x _ _ _ _ _ _ _ _ _ _ H). rewrite datagram_field.
  rewrite (put_at _ _ _ (h + 6) x'), (overwrite_at _ _ _ (h + 6) x') by (congruence || apply length_before_field).
  unfold datagram. by rewrite <-!app_assoc.
Qed.

Lemma datagram_address_is : slice (E:=unit) (datagram a c b w o u x p r) 16 20 = Ret w.
Proof. rewrite datagram_address. apply slice_at; [apply length_before_address|]. destruct H. lia. Qed.
Lemma datagram_checksum_is : word_at (datagram a c b w o u x p r) 10 = Ret (be_decode c) ∧ field16 (datagram a c b w o u x p r) 10 = be_decode c.
Proof. destruct H. unfold datagram. by rewrite word_at_at, field16_at. Qed.
Lemma datagram_field_is :
  word_at (datagram a c b w o u x p r) (h + 6) = Ret (be_decode x) ∧ field16 (datagram a c b w o u x p r) (h + 6) = be_decode x.
Proof.
  pose proof (pt_x _ _ _ _ _ _ _ _ _ _ H). rewrite datagram_field.
  by rewrite word_at_at, field16_at by (done || apply length_before_field).
Qed.

(** Both checksums, as sums of the parts. *)
Lemma datagram_header_checksum : is_bytes (a ++ b ++ w ++ o) →
  header_checksum (datagram a c b w o u x p r) h = not16 (norm (total a + total b + total o + total w)).
Proof.
  intros Hb. destruct H. unfold header_checksum. rewrite datagram_header.
  rewrite take_app_length' by (rewrite !length_app; lia). rewrite overwrite_at by done.
  unfold checksum_of. rewrite ones_sum_norm by
    (rewrite !is_bytes_app in *; assert (is_bytes [0; 0]) by (by repeat constructor); tauto).
  rewrite !total_app by (by rewrite ?pt_a0, ?pt_b0, ?pt_w0). do 2 f_equal. change (total [0; 0]) with 0. lia.
Qed.

Lemma datagram_udp_checksum : is_bytes (b ++ w ++ u ++ p) → Z.of_nat n ≤ 65535 →
  let rest := total b + total [0; 17] + total (be_encode 2 (Z.of_nat n)) + total u + total p in
  udp_checksum (datagram a c b w o u x p r) h n =
  (if not16 (norm (rest + total w)) =? 0 then 0xffff else not16 (norm (rest + total w))).
Proof.
  intros Hb Hn rest. destruct H. unfold udp_checksum.
  assert (take 8 (drop 12 (datagram a c b w o u x p r)) = b ++ w) as ->.
  { unfold datagram. rewrite (app_assoc a c), drop_app_length' by (rewrite length_app; lia).
    rewrite (app_assoc b w). apply take_app_length'. rewrite length_app. lia. }
  assert (take n (drop h (datagram a c b w o u x p r)) = u ++ x ++ p) as ->.
  { rewrite datagram_header, drop_app_length' by (rewrite !length_app; lia). rewrite !(app_assoc _ _ r).
    apply take_app_length'. rewrite !length_app. lia. }
  rewrite (overwrite_at u x p) by done.
  assert (checksum_of (((b ++ w) ++ [0; protocolUDP] ++ be_encode 2 (Z.of_nat n)) ++ u ++ [0; 0] ++ p) = not16 (norm (rest + total w))) as E.
  { unfold checksum_of. rewrite ones_sum_norm.
    - rewrite <-!app_assoc, !total_app by (rewrite ?length_be_encode; cbn; congruence || by rewrite ?pt_b0, ?pt_w0, ?pt_u0).
      do 2 f_equal. unfold rest, protocolUDP. change (total [0; 0]) with 0. lia.
    - rewrite !is_bytes_app in *. pose proof (is_bytes_be_encode 2 (Z.of_nat n)).
      assert (is_bytes [0; protocolUDP]) by (by repeat constructor). assert (is_bytes [0; 0]) by (by repeat constructor).
      tauto. }
  by rewrite E.
Qed.
End datagram.

(** ** The tests *)
Lemma localisable_inv packet local h : is_bytes packet → localisable packet local = Ret (Some h) →
  ∃ first rest, packet = first :: rest ∧ Z.shiftr first 4 = 4 ∧ Is4 local = true ∧ (20 ≤ h)%nat ∧ Nat.even h = true
    ∧ (h + udpHeaderSize ≤ length packet)%nat
    ∧ ∃ was, slice (E:=unit) packet 16 20 = Ret was ∧ IsMulticast (AddrFrom4 was) = true.
Proof.
  intros Hb. unfold localisable. destruct (Nat.ltb_spec (length packet) minimumHeader) as [|Hl]; [done|]. unfold minimumHeader in *.
  destruct packet as [|first rest]; [cbn in Hl; lia|]. cbn [index lookup list_lookup]. unfold index. cbn [lookup list_lookup].
  cbn [mbind go_bind]. destruct (Z.eqb_spec (Z.shiftr first 4) 4) as [Hv|]; [|done]. cbn [negb orb].
  destruct (Is4 local); [|done]. cbn [negb].
  intros E. apply go_bind_Ret in E as (was & Hwas & E). destruct (IsMulticast _) eqn:Em; [|done]. cbn [negb] in E.
  apply go_bind_Ret in E as (protocol & _ & E). destruct (protocol =? protocolUDP); [|done]. cbn [negb] in E.
  apply go_bind_Ret in E as (fragment & _ & E). destruct (Z.land _ fragmentBits =? 0); [|done]. cbn [negb] in E.
  destruct (_ || _) eqn:Eo; [done|]. injection E as <-. apply orb_false_iff in Eo as [H1%Nat.ltb_ge H2%Nat.ltb_ge].
  exists first, rest. split; [done|]. split; [done|]. split; [done|]. split; [exact H1|]. split; [|split; [exact H2|by exists was]].
  assert (0 ≤ Z.land first 0x0f) as Hpos by (apply Z.land_nonneg; right; lia). apply Nat.even_spec.
  exists (Z.to_nat (Z.land first 0x0f * 2)). lia.
Qed.

(** A version 4 header does not sum to zero, and no multicast address is all ones. *)
Lemma version_positive first l : is_bytes (first :: l) → Z.shiftr first 4 = 4 → 0 < total (first :: l).
Proof.
  intros Hb Hv. rewrite Z.shiftr_div_pow2 in Hv by lia. pose proof (Z.div_mod first (2 ^ 4)) as Hd.
  pose proof (Z.mod_pos_bound first (2 ^ 4)). apply is_bytes_cons in Hb as [Hf Hl].
  destruct l as [|second l]; unfold total; cbn [words foldr]; [lia|]. apply is_bytes_cons in Hl as [Hs Hl].
  pose proof (total_nonneg l Hl) as Ht. unfold total in Ht. unfold is_u8 in *. lia.
Qed.

Lemma multicast_not_ones w : is_bytes w → length w = 4%nat → IsMulticast (AddrFrom4 w) = true → total w ≠ 2 * 65535.
Proof.
  intros Hb Hl Hm. destruct w as [|b0 [|b1 [|b2 [|b3 [|]]]]]; try done. rewrite total_four. unfold AddrFrom4, IsMulticast in Hm.
  apply Z.eqb_eq in Hm. rewrite Z.shiftr_div_pow2 in Hm by lia. unfold be_decode in Hm. cbn [foldl] in Hm.
  repeat (apply is_bytes_cons in Hb as [? Hb]). unfold is_u8 in *.
  assert ((((0 * 256 + b0) * 256 + b1) * 256 + b2) * 256 + b3 < 15 * 2 ^ 28).
  { apply Z.nle_gt. intros Hge. apply (Z.div_le_mono _ _ (2 ^ 28)) in Hge; [|lia]. rewrite Z.div_mul in Hge by lia. lia. }
  lia.
Qed.

(** What is written into the UDP field. *)
Definition udp_field (sum : Z) : Z := if sum =? 0 then 0xffff else sum.
Lemma udp_field_u16 z : is_u16 z → is_u16 (udp_field z).
Proof. unfold udp_field, is_u16. destruct (z =? 0); lia. Qed.

Lemma localisable_total packet local : localisable packet local = Ret None ∨ ∃ h, localisable packet local = Ret (Some h).
Proof.
  unfold localisable. destruct (Nat.ltb_spec (length packet) minimumHeader) as [|Hl]; [by left|]. unfold minimumHeader in *.
  destruct (index_Ret (E:=unit) packet 0) as (first & -> & _); [lia|]. cbn [mbind go_bind]. destruct (_ || _); [by left|].
  rewrite slice_Ret by lia. cbn [mbind go_bind]. destruct (IsMulticast _); [|by left]. cbn [negb].
  destruct (index_Ret (E:=unit) packet 9) as (protocol & -> & _); [lia|]. cbn [mbind go_bind].
  destruct (protocol =? _); [|by left]. cbn [negb]. unfold word_at. rewrite slice_Ret by lia. cbn [mbind go_bind].
  destruct (_ =? 0); [|by left]. cbn [negb]. destruct (_ || _); [by left|]. right. by eexists.
Qed.

(** A packet that passes them, taken apart. *)
Lemma localisable_parts packet local h n :
  is_bytes packet → localisable packet local = Ret (Some h) → (udpHeaderSize ≤ n)%nat → (h + n ≤ length packet)%nat →
  ∃ a c b w o u x p r, packet = datagram a c b w o u x p r ∧ parts h n a c b w o u x p
    ∧ 0 < total a ∧ total w ≠ 2 * 65535 ∧ Is4 local = true.
Proof.
  intros Hb E Hn Hl. destruct (localisable_inv _ _ _ Hb E) as (first & rest & Ep & Hv & H4 & Hh & He & _ & was & Hwas & Hm).
  destruct (taken_apart packet h n Hh He Hn Hl) as (a & c & b & w & o & u & x & p & r & Ed & Hp).
  exists a, c, b, w, o, u, x, p, r. split; [exact Ed|]. split; [exact Hp|].
  assert (is_bytes a ∧ is_bytes w) as [Hba Hbw] by (subst packet; rewrite Ed in Hb; unfold datagram in Hb; rewrite !is_bytes_app in Hb; tauto).
  rewrite Ed, (datagram_address_is r Hp) in Hwas. injection Hwas as <-. pose proof (pt_w _ _ _ _ _ _ _ _ _ _ Hp).
  split; [|by split; [apply multicast_not_ones|]].
  destruct a as [|first' a]; [by destruct Hp|]. apply version_positive; [done|].
  rewrite Ed in Ep. unfold datagram in Ep. cbn in Ep. by injection Ep as ->.
Qed.

Section localised.
Context {h n : nat} {a c b w o u x p : list Z} (r : list Z) (H : parts h n a c b w o u x p) (local : Addr).
Context (E : localisable (datagram a c b w o u x p r) local = Ret (Some h)) (H4 : Is4 local = true).

(** What the function makes of the parts. *)
Definition new_checksum : list Z := be_encode 2 (adjustChecksum (be_decode c) w (As4 local)).
Definition new_field : list Z :=
  if be_decode x =? 0 then x else be_encode 2 (udp_field (adjustChecksum (be_decode x) w (As4 local))).
Definition localised : list Z := datagram a new_checksum b (As4 local) o u new_field p r.

Lemma moved : parts h n a c b (As4 local) o u x p.
Proof. destruct H. constructor; try done. by apply length_As4. Qed.
Lemma summed : parts h n a new_checksum b (As4 local) o u x p.
Proof. destruct H. constructor; try done; by apply length_As4 || apply length_be_encode. Qed.

Lemma localise_datagram : localiseMulticast (datagram a c b w o u x p r) local = Ret localised.
Proof.
  unfold localiseMulticast. rewrite E. cbn [mbind go_bind]. rewrite (datagram_address_is r H). cbn [mbind go_bind].
  rewrite (proj1 (datagram_put_address r H (As4 local) (length_As4 _ H4))). cbn [mbind go_bind].
  rewrite (proj1 (datagram_checksum_is r moved)). cbn [mbind go_bind].
  rewrite (proj1 (datagram_put_checksum r moved _ (length_be_encode 2 _))). cbn [mbind go_bind]. fold new_checksum.
  rewrite (proj1 (datagram_field_is r summed)). cbn [mbind go_bind]. unfold localised, new_field.
  destruct (be_decode x =? 0); [done|]. apply (datagram_put_field r summed). apply length_be_encode.
Qed.

Lemma length_new_field : length new_field = 2%nat.
Proof. unfold new_field. destruct (_ =? 0); [by destruct H|apply length_be_encode]. Qed.

Lemma localised_parts : parts h n a new_checksum b (As4 local) o u new_field p.
Proof. destruct summed. constructor; try done. apply length_new_field. Qed.

Lemma length_localised : length localised = length (datagram a c b w o u x p r).
Proof.
  unfold localised, datagram. destruct localised_parts, H. rewrite !length_app. lia.
Qed.

Lemma bytes_localised : is_bytes (datagram a c b w o u x p r) → is_bytes localised.
Proof.
  unfold localised, datagram. rewrite !is_bytes_app. intros (Ba & Bc & Bb & Bw & Bo & Bu & Bx & Bp & Br).
  split_and!; try done; [apply is_bytes_be_encode|apply is_bytes_As4|].
  unfold new_field. destruct (_ =? 0); [done|apply is_bytes_be_encode].
Qed.

Lemma localised_right :
  addr_wf local → 0 < total a → total w ≠ 2 * 65535 → Z.of_nat n ≤ 65535 → is_bytes (datagram a c b w o u x p r) →
  field16 (datagram a c b w o u x p r) 10 = header_checksum (datagram a c b w o u x p r) h →
  field16 (datagram a c b w o u x p r) (h + 6) = 0
  ∨ field16 (datagram a c b w o u x p r) (h + 6) = udp_checksum (datagram a c b w o u x p r) h n →
  localised = readdressed (datagram a c b w o u x p r) local h n
  ∧ field16 localised 10 = header_checksum localised h
  ∧ (field16 localised (h + 6) = 0 ∨ field16 localised (h + 6) = udp_checksum localised h n).
Proof.
  intros Hwf Ha Hw Hn Hb. unfold datagram in Hb. rewrite !is_bytes_app in Hb. destruct Hb as (Ba & Bc & Bb & Bw & Bo & Bu & Bx & Bp & _).
  pose proof (is_bytes_As4 local) as Bl. pose proof H as [La Lc Lb Lw Lo Lu Lx Lp _].
  pose proof (length_As4 local H4) as Ll.
  assert (Hnn : ∀ l, is_bytes l → 0 ≤ total l) by apply total_nonneg.
  pose proof (Hnn b Bb). pose proof (Hnn o Bo). pose proof (Hnn w Bw). pose proof (Hnn _ Bl). pose proof (Hnn u Bu). pose proof (Hnn p Bp).
  pose proof (Hnn _ (is_bytes_be_encode 2 (Z.of_nat n))). assert (total [0; 17] = 17) as H17 by done.
  rewrite (proj2 (datagram_checksum_is r H)), (proj2 (datagram_field_is r H)).
  rewrite (datagram_header_checksum r H) by (rewrite !is_bytes_app; tauto). intros Hc.
  rewrite (datagram_udp_checksum r H) by (rewrite ?is_bytes_app; tauto || done). intros Hx.
  assert (Hcw : is_u16 (be_decode c)) by (pose proof (be_decode_range c Bc) as Hr; rewrite Lc in Hr; exact Hr).
  assert (Hxw : is_u16 (be_decode x)) by (pose proof (be_decode_range x Bx) as Hr; rewrite Lx in Hr; exact Hr).
  set (rest := total a + total b + total o) in *.
  set (rest' := total b + total [0; 17] + total (be_encode 2 (Z.of_nat n)) + total u + total p) in *.
  assert (Enew : new_checksum = be_encode 2 (not16 (norm (rest + total (As4 local))))).
  { unfold new_checksum. f_equal. apply adjust_recomputes; try done; try lia; by left. }
  assert (Efield : be_decode x ≠ 0 → adjustChecksum (be_decode x) w (As4 local) = not16 (norm (rest' + total (As4 local)))).
  { intros Hx0. apply adjust_recomputes; try done; try lia. destruct Hx as [?|Hx]; [done|]. rewrite Hx.
    destruct (Z.eqb_spec (not16 (norm (rest' + total w))) 0) as [E0|]; [right|by left]. split; [done|].
    rewrite not16_sub in E0 by (apply norm_range; lia). lia. }
  assert (Hsum : ∀ r', is_u16 (not16 r')) by apply not16_range.
  assert (Hudp : ∀ c' x' (H' : parts h n a c' b (As4 local) o u x' p),
    udp_checksum (datagram a c' b (As4 local) o u x' p r) h n = udp_field (not16 (norm (rest' + total (As4 local))))).
  { intros c' x' H'. by rewrite (datagram_udp_checksum r H') by (rewrite ?is_bytes_app; tauto || done). }
  assert (Hhdr : ∀ c' x' (H' : parts h n a c' b (As4 local) o u x' p),
    header_checksum (datagram a c' b (As4 local) o u x' p r) h = not16 (norm (rest + total (As4 local)))).
  { intros c' x' H'. by rewrite (datagram_header_checksum r H') by (rewrite !is_bytes_app; tauto). }
  split_and!.
  - unfold readdressed, localised. rewrite (proj2 (datagram_put_address r H _ Ll)), (Hhdr _ _ moved), <-Enew.
    rewrite (proj2 (datagram_put_checksum r moved new_checksum (length_be_encode 2 _))).
    rewrite (proj2 (datagram_field_is r summed)), (Hudp _ _ summed). unfold new_field.
    destruct (Z.eqb_spec (be_decode x) 0) as [|Hx0]; [done|]. rewrite (Efield Hx0).
    symmetry. apply (datagram_put_field r summed), length_be_encode.
  - unfold localised. rewrite (proj2 (datagram_checksum_is r localised_parts)), (Hhdr _ _ localised_parts), Enew.
    by apply be_roundtrip16.
  - unfold localised. rewrite (proj2 (datagram_field_is r localised_parts)), (Hudp _ _ localised_parts). unfold new_field.
    destruct (Z.eqb_spec (be_decode x) 0) as [|Hx0]; [by left|right]. rewrite (Efield Hx0). apply be_roundtrip16.
    by apply udp_field_u16.
Qed.
End localised.

(** C12: a packet made local keeps its checksums.  A whole UDP datagram for a multicast
    group whose checksums are right comes out addressed to this machine, with the
    header checksum and the UDP checksum that computing them anew over the changed
    packet gives, bit for bit; a datagram sent without a checksum stays without one;
    and nothing else in the packet is touched.  Anything the tests turn away comes out
    as it was, and no packet makes the function panic. *)
Theorem a_packet_made_local_keeps_its_checksums packet local :
  is_bytes packet →
  (localisable packet local = Ret None ∧ localiseMulticast packet local = Ret packet)
  ∨ ∃ h, localisable packet local = Ret (Some h)
      ∧ (∃ packet', localiseMulticast packet local = Ret packet' ∧ length packet' = length packet)
      ∧ ∀ n, addr_wf local → checksums_right packet h n →
          localiseMulticast packet local = Ret (readdressed packet local h n)
          ∧ checksums_right (readdressed packet local h n) h n.
Proof.
  intros Hb. destruct (localisable_total packet local) as [E|[h E]].
  { left. split; [done|]. unfold localiseMulticast. by rewrite E. }
  right. exists h. split; [done|]. split.
  - destruct (localisable_parts packet local h udpHeaderSize Hb E) as (a & c & b & w & o & u & x & p & r & -> & Hp & _ & _ & H4).
    { done. }
    { by destruct (localisable_inv _ _ _ Hb E) as (? & ? & _ & _ & _ & _ & _ & Hl & _). }
    eexists. split; [exact (localise_datagram r Hp local E H4)|exact (length_localised r Hp local H4)].
  - intros n Hl [Hb' (Hfit & Hn & Hn') Hh Hu].
    destruct (localisable_parts packet local h n Hb E Hn Hfit) as (a & c & b & w & o & u & x & p & r & -> & Hp & H1 & H2 & H4).
    destruct (localised_right r Hp local H4 Hl H1 H2 Hn' Hb Hh Hu) as (<- & Hh' & Hu').
    split; [exact (localise_datagram r Hp local E H4)|]. constructor; [| |exact Hh'|exact Hu'].
    + by apply bytes_localised.
    + rewrite (length_localised r Hp local H4). split; [exact Hfit|by split].
Qed.

(** An announcement of 3 bytes from 10.69.0.2 to 239.255.255.250. *)
Definition announcement : list Z :=
  let p := [69; 0; 0; 31; 0; 1; 0; 0; 1; 17; 0; 0; 10; 69; 0; 2; 239; 255; 255; 250;
            4; 0; 7; 108; 0; 11; 0; 0; 104; 105; 33] in
  overwrite (overwrite p 10 (be_encode 2 (header_checksum p 20))) 26 (be_encode 2 (udp_checksum p 20 11)).

Lemma a_packet_made_local_keeps_its_checksums_witness :
  localiseMulticast announcement (AddrFrom4 [10; 69; 0; 3]) = Ret (readdressed announcement (AddrFrom4 [10; 69; 0; 3]) 20 11)
  ∧ checksums_right (readdressed announcement (AddrFrom4 [10; 69; 0; 3]) 20 11) 20 11
  ∧ destinationOf (readdressed announcement (AddrFrom4 [10; 69; 0; 3]) 20 11) = Ret (Some (AddrFrom4 [10; 69; 0; 3])).
Proof.
  destruct (a_packet_made_local_keeps_its_checksums announcement (AddrFrom4 [10; 69; 0; 3])) as [[E _]|(h & E & _ & H)].
  - apply (bool_decide_unpack _). vm_compute. reflexivity.
  - vm_compute in E. discriminate E.
  - assert (h = 20%nat) as -> by (vm_compute in E; congruence).
    destruct (H 11%nat) as [H1 H2].
    + split; [discriminate|reflexivity].
    + constructor.
      * apply (bool_decide_unpack _). vm_compute. reflexivity.
      * split; [apply Nat.leb_le; vm_compute; reflexivity|]. split; [apply Nat.leb_le; vm_compute; reflexivity|discriminate].
      * vm_compute. reflexivity.
      * right. vm_compute. reflexivity.
    + split; [exact H1|]. split; [exact H2|]. vm_compute. reflexivity.
Defined.
