(* ===== verification/MeshWf.v ===== *)
(** The mesh's well-formedness, and that sending and keeping links alive preserves
    it.

    [mesh_wf] says every pointer leads somewhere, every link is well formed, and the
    bounds hold; [indexed] says the lookup tables are exactly the peers.  [safe f m]
    is the shape of the lemmas: run in [m], [f] does not panic, leaves a well-formed
    mesh, and changes neither the tables nor what they are built from. *)
From S2P Require Import Prelude Bytes NetAddr Wire Stun Replay Session Netlog Ipc Peer Mesh.

Section wf.
Context {N : Noise} {E : Env} {L : NoiseLaws N}.

Record mesh_wf (m : Mesh) : Prop := {
  mw_links : ∀ r p, store m !! r = Some p → peer_wf p;
  mw_via : ∀ r p v, store m !! r = Some p → via p = Some v → is_Some (store m !! v);
  mw_next : ∀ r, is_Some (store m !! r) → (r < next_ref m)%positive;
  mw_peers : ∀ d r, peers m !! d = Some r → ∃ p, store m !! r = Some p ∧ DeviceID p = d;
  mw_byIP : ∀ a r, byIP m !! a = Some r → is_Some (store m !! r);
  mw_byUDP : ∀ a r, byUDP m !! a = Some r → is_Some (store m !! r);
  mw_strangers : (size (strangers m) ≤ rememberStrangers)%nat;
  mw_inbound : (length (inbound m) ≤ inboundCapacity)%nat;
  (** Only the lower device id of the two has a handshake of its own under way. *)
  mw_initiates : ∀ r p, store m !! r = Some p → is_Some (handshake p) → bytes_lt (DeviceID p) (device m) = false;
  mw_packets : match packets m with Some r => recorder_wf r | None => True end;
}.

(** The tables hold the peers that have an address, and nothing else. *)
Record indexed (m : Mesh) : Prop := {
  ix_byIP : ∀ a r, byIP m !! a = Some r →
    ∃ d p, peers m !! d = Some r ∧ store m !! r = Some p ∧ VirtualIP p = a ∧ addr_IsValid a = true;
  ix_byUDP : ∀ e r, byUDP m !! e = Some r →
    ∃ d p, peers m !! d = Some r ∧ store m !! r = Some p ∧ endpoint p = e ∧ ap_IsValid e = true;
  ix_all_byIP : ∀ d r p, peers m !! d = Some r → store m !! r = Some p →
    addr_IsValid (VirtualIP p) = true → is_Some (byIP m !! VirtualIP p);
  ix_all_byUDP : ∀ d r p, peers m !! d = Some r → store m !! r = Some p →
    ap_IsValid (endpoint p) = true → is_Some (byUDP m !! endpoint p);
}.

(** What never changes about a peer, and a mesh that kept it. *)
Definition same_peer (p p' : Peer) : Prop :=
  DeviceID p' = DeviceID p ∧ VirtualIP p' = VirtualIP p ∧ transportKey p' = transportKey p.
Record extends (m m' : Mesh) : Prop := {
  ex_keys : keys m' = keys m;
  ex_device : device m' = device m;
  ex_virtualIP : virtualIP m' = virtualIP m;
  ex_store : ∀ r p, store m !! r = Some p → ∃ p', store m' !! r = Some p' ∧ same_peer p p';
}.
Record quiet (m m' : Mesh) : Prop := {
  qu_extends : extends m m';
  qu_peers : peers m' = peers m;
  qu_byIP : byIP m' = byIP m;
  qu_byUDP : byUDP m' = byUDP m;
  qu_endpoint : ∀ r p p', store m !! r = Some p → store m' !! r = Some p' → endpoint p' = endpoint p;
}.

Definition live (m : Mesh) (r : ref) : Prop := is_Some (store m !! r).

Definition safe {A} (f : prog Mesh A) (m : Mesh) : Prop := wp f (λ _ m', mesh_wf m' ∧ quiet m m') m.

(** What a method may do to a peer of [m]. *)
Record good_step (m : Mesh) (p p' : Peer) : Prop := {
  gs_wf : peer_wf p';
  gs_same : same_peer p p';
  gs_via : ∀ v, via p' = Some v → via p = Some v ∨ live m v;
  gs_handshake : is_Some (handshake p') → is_Some (handshake p) ∨ bytes_lt (DeviceID p) (device m) = false;
}.

(** ** Relations between meshes *)
Lemma extends_refl m : extends m m.
Proof. split; try done. intros r p Hr. by exists p. Qed.

Lemma extends_trans m1 m2 m3 : extends m1 m2 → extends m2 m3 → extends m1 m3.
Proof.
  intros [A1 A2 A3 A4] [B1 B2 B3 B4]. split; try congruence.
  intros r p Hr. destruct (A4 r p Hr) as (p2 & Hr2 & S2). destruct (B4 r p2 Hr2) as (p3 & Hr3 & S3).
  exists p3. split; [done|]. destruct S2 as (?&?&?), S3 as (?&?&?). split_and!; congruence.
Qed.

Lemma quiet_refl m : quiet m m.
Proof. split; try done; [apply extends_refl|]. intros r p p' Hr Hr'. congruence. Qed.

Lemma quiet_trans m1 m2 m3 : quiet m1 m2 → quiet m2 m3 → quiet m1 m3.
Proof.
  intros [A1 A2 A3 A4 A5] [B1 B2 B3 B4 B5]. split; try congruence; [by apply (extends_trans _ m2)|].
  intros r p p' Hr Hr'. destruct (ex_store _ _ A1 r p Hr) as (p2 & Hr2 & _).
  by rewrite (B5 r p2 p'), (A5 r p p2).
Qed.

Lemma live_extends m m' r : extends m m' → live m r → live m' r.
Proof. intros Hq [p Hr]. destruct (ex_store _ _ Hq r p Hr) as (p' & Hr' & _). by exists p'. Qed.

Lemma live_quiet m m' r : quiet m m' → live m r → live m' r.
Proof. intros Hq. by apply live_extends, Hq. Qed.

Lemma indexed_quiet m m' : mesh_wf m → quiet m m' → indexed m → indexed m'.
Proof.
  intros Hw Hq [I1 I2 I3 I4]. destruct Hq as [[X1 X2 X3 X4] Hp Hi Hu He].
  split; intros *; rewrite ?Hp, ?Hi, ?Hu.
  - intros (d & p & Hd & Hr & Hv & Ha)%I1. destruct (X4 _ _ Hr) as (p' & Hr' & _ & Hv' & _).
    exists d, p'. by rewrite Hv'.
  - intros (d & p & Hd & Hr & Hv & Ha)%I2. destruct (X4 _ _ Hr) as (p' & Hr' & _).
    exists d, p'. by rewrite (He _ _ _ Hr Hr').
  - intros Hd Hr Hv. destruct (mw_peers _ Hw _ _ Hd) as (p0 & Hr0 & _).
    destruct (X4 _ _ Hr0) as (p' & Hr' & _ & Hv' & _). simplify_eq. rewrite Hv' in *. eauto.
  - intros Hd Hr Hv. destruct (mw_peers _ Hw _ _ Hd) as (p0 & Hr0 & _).
    rewrite (He _ _ _ Hr0 Hr) in *. eauto.
Qed.

(** Two meshes with the same links and tables. *)
Definition same_core (m m' : Mesh) : Prop :=
  keys m' = keys m ∧ device m' = device m ∧ virtualIP m' = virtualIP m ∧ store m' = store m
  ∧ next_ref m' = next_ref m ∧ peers m' = peers m ∧ byIP m' = byIP m ∧ byUDP m' = byUDP m.

Lemma same_core_quiet m m' : same_core m m' → quiet m m'.
Proof.
  intros (E1 & E2 & E3 & E4 & E5 & E6 & E7 & E8). split; try done.
  - split; try done. rewrite E4. intros r p Hr. by exists p.
  - rewrite E4. intros r p p' Hr Hr'. congruence.
Qed.

Lemma same_core_wf m m' : mesh_wf m → same_core m m' →
  (size (strangers m') ≤ rememberStrangers)%nat → (length (inbound m') ≤ inboundCapacity)%nat →
  (match packets m' with Some r => recorder_wf r | None => True end) → mesh_wf m'.
Proof.
  intros [H1 H2 H3 H4 H5 H6 H7 H8 H9 H10] (E1 & E2 & E3 & E4 & E5 & E6 & E7 & E8) Hs Hi Hp.
  split; rewrite ?E2, ?E4, ?E5, ?E6, ?E7, ?E8; done.
Qed.

(** A change to what is outside the links and the tables. *)
Lemma safe_modify f m : mesh_wf m → same_core m (f m) →
  (size (strangers (f m)) ≤ rememberStrangers)%nat → (length (inbound (f m)) ≤ inboundCapacity)%nat →
  (match packets (f m) with Some r => recorder_wf r | None => True end) → safe (modify f) m.
Proof. intros Hm Hc Hs Hi Hp. split; [by apply (same_core_wf m)|by apply same_core_quiet]. Qed.

(** ** Composition *)
Lemma safe_ret {A} (a : A) m : mesh_wf m → safe (mret a) m.
Proof. intros Hm. split; [done|apply quiet_refl]. Qed.

Lemma safe_wp {A} (f : prog Mesh A) m Q : safe f m →
  (∀ a m', f m = Some (a, m') → mesh_wf m' → quiet m m' → Q a m') → wp f Q m.
Proof. unfold safe, wp. destruct (f m) as [[a m']|]; [|done]. intros [? ?] HQ. by apply HQ. Qed.

Lemma safe_bind {A B} (f : prog Mesh A) (g : A → prog Mesh B) m :
  safe f m → (∀ a m', f m = Some (a, m') → mesh_wf m' → quiet m m' → safe (g a) m') → safe (f ≫= g) m.
Proof.
  intros Hf Hg. apply wp_bind. apply (safe_wp _ _ _ Hf). intros a m' Ha Hm' Hq.
  apply (safe_wp _ _ _ (Hg a m' Ha Hm' Hq)). intros b m'' _ Hm'' Hq'. split; [done|by apply (quiet_trans _ m')].
Qed.

Lemma safe_try {X A B} (f : prog Mesh (X + A)) (g : A → prog Mesh (X + B)) m :
  safe f m → (∀ a m', f m = Some (inr a, m') → mesh_wf m' → quiet m m' → safe (g a) m') → safe (try_bind f g) m.
Proof.
  intros Hf Hg. apply safe_bind; [done|]. intros [x|a] m' Ha Hm' Hq; [by apply safe_ret|by apply Hg].
Qed.

Lemma safe_gets {A B} (f : Mesh → A) (g : A → prog Mesh B) m : safe (g (f m)) m → safe (gets f ≫= g) m.
Proof. done. Qed.

Lemma safe_deref {A} r (g : Peer → prog Mesh A) m p :
  store m !! r = Some p → safe (g p) m → safe (deref r ≫= g) m.
Proof. intros Hr Hg. unfold safe, wp, mbind, prog_bind, deref. by rewrite Hr. Qed.

Lemma safe_tick {A} (g : nat → prog Mesh A) m :
  mesh_wf m → (∀ m', same_core m m' → mesh_wf m' → quiet m m' → safe (g (tick m)) m') →
  safe (next_tick ≫= g) m.
Proof.
  intros Hm Hg. assert (same_core m (m <| tick := S (tick m) |>)) as Hc by done.
  apply safe_bind.
  - split; [by apply (same_core_wf m); try done; apply Hm|by apply same_core_quiet].
  - intros n m' [= <- <-] Hm' Hq. by apply Hg.
Qed.

Lemma safe_when b (f : prog Mesh unit) m : mesh_wf m → (b = true → safe f m) → safe (when b f) m.
Proof. destruct b; cbn; intros Hm Hf; [by apply Hf|exact (safe_ret tt m Hm)]. Qed.

Lemma safe_for_each {A} (xs : list A) (f : A → prog Mesh unit) m :
  mesh_wf m → (∀ x m', x ∈ xs → mesh_wf m' → quiet m m' → safe (f x) m') → safe (for_each xs f) m.
Proof.
  intros Hm Hf. apply (wp_for_each (λ m', mesh_wf m' ∧ quiet m m')); [|split; [done|apply quiet_refl]].
  intros x m' Hx [Hm' Hq]. eapply wp_mono; [by apply (Hf x m')|].
  intros _ m'' [Hm'' Hq']. split; [done|by apply (quiet_trans _ m')].
Qed.
End wf.

(** ** The operations *)
Section ops.
Context {N : Noise} {E : Env} {L : NoiseLaws N} {EL : EnvLaws E}.

Local Ltac aux Hm := apply safe_modify; [exact Hm|done|apply Hm|apply Hm|apply Hm].

Lemma safe_logf l m : mesh_wf m → safe (logf l) m.
Proof. intros Hm. aux Hm. Qed.

Lemma safe_emit e m : mesh_wf m → safe (emit e) m.
Proof. intros Hm. aux Hm. Qed.

Lemma safe_drop r m : mesh_wf m → safe (drop_packet r) m.
Proof.
  intros Hm. apply safe_modify; [exact Hm|done|apply Hm|apply Hm|].
  change (match run_call (CDrop r) (packets m) with Some r => recorder_wf r | None => True end).
  pose proof (mw_packets _ Hm) as Hr. destruct (packets m) as [rec|]; [|done].
  by destruct (run_call_spec (CDrop r) rec Hr) as (rec' & -> & Hrec & _).
Qed.

Lemma safe_noteStranger from m : mesh_wf m → safe (noteStranger from) m.
Proof.
  intros Hm. apply safe_gets. apply safe_bind.
  - apply safe_when; [done|]. intros Hs. apply negb_true_iff, bool_decide_eq_false in Hs.
    apply safe_modify; [exact Hm|by destruct (_ <? _)%nat| |by destruct (_ <? _)%nat; apply Hm|
      by destruct (_ <? _)%nat; apply Hm].
    pose proof (mw_strangers _ Hm).
    destruct (Nat.ltb_spec (size (strangers m)) rememberStrangers) as [Hlt|]; [|done]. cbn.
    rewrite size_union, size_singleton by set_solver. unfold rememberStrangers in *. lia.
  - intros _ m' _ Hm' _. apply safe_when; [done|]. intros _. by apply safe_logf.
Qed.

Lemma safe_forgetStranger from m : mesh_wf m → safe (forgetStranger from) m.
Proof.
  intros Hm. apply safe_modify; [exact Hm|done| |apply Hm|apply Hm]. cbn.
  pose proof (mw_strangers _ Hm). pose proof (subseteq_size (strangers m ∖ {[from]}) (strangers m)) as Hs.
  assert (strangers m ∖ {[from]} ⊆ strangers m) as Hsub by (intros x Hx; by apply elem_of_difference in Hx as [Hx _]). specialize (Hs Hsub). lia.
Qed.

Lemma safe_randomSender m : mesh_wf m → safe randomSender m.
Proof. intros Hm. apply safe_tick; [done|]. intros m' _ Hm' _. case_match; by apply safe_ret. Qed.

Lemma safe_randomToken m : mesh_wf m → safe randomToken m.
Proof.
  intros Hm. apply safe_bind; [by apply safe_randomSender|]. intros r m' _ Hm' _. case_match; [|by apply safe_ret].
  split; [done|apply quiet_refl].
Qed.

Lemma safe_WriteTo packet to m : mesh_wf m → safe (WriteToUDPAddrPort packet to) m.
Proof.
  intros Hm. apply safe_tick; [done|]. intros m' _ Hm' _. case_match; [|by apply safe_ret].
  apply safe_bind; [aux Hm'|]. intros [] m'' _ Hm'' _. by apply safe_ret.
Qed.

Lemma safe_sendTo to packet m : mesh_wf m → safe (sendTo to packet) m.
Proof.
  intros Hm. apply safe_bind; [by apply safe_WriteTo|]. intros [] m' _ Hm' _; [by apply safe_logf|by apply safe_ret].
Qed.

(** A method called on a peer. *)
Lemma good_step_wf m r p p' : mesh_wf m → store m !! r = Some p → good_step m p p' →
  mesh_wf (m <| store := <[r := p']> (store m) |>).
Proof.
  intros [H1 H2 H3 H4 H5 H6 H7 H8 H9 H10] Hr [G1 [Gd [Gv Gk]] G3 G4].
  assert (∀ x, is_Some (store m !! x) → is_Some (<[r := p']> (store m) !! x)) as Hl.
  { intros x Hx. destruct (decide (x = r)) as [->|]; [rewrite lookup_insert_eq; eauto|by rewrite lookup_insert_ne]. }
  split; cbn; try done.
  - intros x q Hx. destruct (decide (x = r)) as [->|]; [rewrite lookup_insert_eq in Hx; by simplify_eq|].
    rewrite lookup_insert_ne in Hx by done. by apply (H1 x).
  - intros x q v Hx Hv. apply Hl. destruct (decide (x = r)) as [->|].
    + rewrite lookup_insert_eq in Hx. simplify_eq. destruct (G3 v Hv); [by apply (H2 r p)|done].
    + rewrite lookup_insert_ne in Hx by done. by apply (H2 x q).
  - intros x Hx. apply H3. destruct (decide (x = r)) as [->|]; [eauto|by rewrite lookup_insert_ne in Hx].
  - intros d x Hd. destruct (H4 d x Hd) as (q & Hx & Hq). destruct (decide (x = r)) as [->|].
    + simplify_eq. exists p'. by rewrite lookup_insert_eq.
    + exists q. by rewrite lookup_insert_ne.
  - intros a x Ha. by apply Hl, (H5 a).
  - intros a x Ha. by apply Hl, (H6 a).
  - intros x q Hx Hh. destruct (decide (x = r)) as [->|].
    + rewrite lookup_insert_eq in Hx. simplify_eq. rewrite Gd. destruct (G4 Hh); [by apply (H9 r)|done].
    + rewrite lookup_insert_ne in Hx by done. by apply (H9 x).
Qed.

Lemma good_step_extends m r p p' : store m !! r = Some p → good_step m p p' →
  extends m (m <| store := <[r := p']> (store m) |>).
Proof.
  intros Hr [_ Gs _ _]. split; try done. cbn. intros x q Hx. destruct (decide (x = r)) as [->|].
  - simplify_eq. exists p'. by rewrite lookup_insert_eq.
  - exists q. by rewrite lookup_insert_ne.
Qed.

Lemma wp_with_peer {A} r (f : st Peer A) m p (Q : A → Mesh → Prop) :
  mesh_wf m → store m !! r = Some p → good_step m p (f p).2 →
  (∀ m', m' = m <| store := <[r := (f p).2]> (store m) |> → mesh_wf m' → extends m m' →
    store m' !! r = Some (f p).2 → Q (f p).1 m') →
  wp (with_peer r f) Q m.
Proof.
  intros Hm Hr Hg HQ. unfold wp, with_peer. rewrite Hr. destruct (f p) as [a p'] eqn:Ef. cbn in *.
  apply HQ; [done|by apply (good_step_wf _ _ p)|by apply (good_step_extends _ _ p)|by cbn; rewrite lookup_insert_eq].
Qed.

(** One that leaves the endpoint alone keeps the tables true. *)
Lemma safe_with_peer {A} r (f : st Peer A) m p :
  mesh_wf m → store m !! r = Some p → good_step m p (f p).2 → endpoint (f p).2 = endpoint p →
  safe (with_peer r f) m.
Proof.
  intros Hm Hr Hg He. apply (wp_with_peer _ _ _ p); [done..|]. intros m' -> Hm' Hx _.
  split; [done|]. split; try done. cbn. intros x q q' Hq Hq'. destruct (decide (x = r)) as [->|].
  - rewrite lookup_insert_eq in Hq'. by simplify_eq.
  - rewrite lookup_insert_ne in Hq' by done. by simplify_eq.
Qed.

(** A method that touches neither the route nor the handshake. *)
Lemma plain_step m p p' : peer_wf p' → same_peer p p' → via p' = via p → handshake p' = handshake p → good_step m p p'.
Proof. intros Hw Hs Hv Hh. split; [done|done|rewrite Hv; by left|rewrite Hh; by left]. Qed.

(** Reading a live peer. *)
Lemma safe_deref_live {A} r (g : Peer → prog Mesh A) m :
  live m r → (∀ p, store m !! r = Some p → safe (g p) m) → safe (deref r ≫= g) m.
Proof. intros [p Hr] Hg. apply (safe_deref _ _ _ p Hr). by apply Hg. Qed.

(** The plain methods, called on a live peer. *)
Lemma safe_update_plain r (f : Peer → Peer) m :
  mesh_wf m → live m r →
  (∀ p, peer_wf p → peer_wf (f p) ∧ same_peer p (f p) ∧ via (f p) = via p ∧ handshake (f p) = handshake p
    ∧ endpoint (f p) = endpoint p) →
  safe (update_peer r f) m.
Proof.
  intros Hm [p Hr] Hf. destruct (Hf p) as (H1 & H2 & H3 & H4 & H5); [by apply (mw_links _ Hm r)|].
  apply (safe_with_peer _ _ _ p); [done|done|by apply plain_step|done].
Qed.

Lemma safe_expect r token t m : mesh_wf m → live m r → safe (update_peer r (expect token t)) m.
Proof.
  intros Hm Hl. apply safe_update_plain; [done..|]. intros p Hp. pose proof (expect_wf token t p Hp).
  unfold expect in *. by case_match.
Qed.

Lemma safe_heard r t m : mesh_wf m → live m r → safe (update_peer r (heard t)) m.
Proof.
  intros Hm Hl. apply safe_update_plain; [done..|]. intros p Hp. by pose proof (set_lastHeard_wf (Some t) p Hp).
Qed.

Lemma safe_measure r token t m : mesh_wf m → live m r → safe (with_peer r (measure token t)) m.
Proof.
  intros Hm [p Hr]. pose proof (measure_wf token t p (mw_links _ Hm _ _ Hr)) as Hp.
  assert (same_peer p (measure token t p).2 ∧ via (measure token t p).2 = via p
    ∧ handshake (measure token t p).2 = handshake p ∧ endpoint (measure token t p).2 = endpoint p) as (?&?&?&?)
    by (unfold measure; by case_match).
  apply (safe_with_peer _ _ _ p); [done|done|by apply plain_step|done].
Qed.

Lemma safe_fail r m : mesh_wf m → live m r → safe (with_peer r fail) m.
Proof.
  intros Hm [p Hr]. pose proof (fail_wf p (mw_links _ Hm _ _ Hr)) as Hp.
  apply (safe_with_peer _ _ _ p); [done|done| |unfold fail; by case_decide].
  split; [done|unfold fail; by case_decide|unfold fail; case_decide; by left|].
  unfold fail. case_decide; [by left|]. by intros [].
Qed.

Lemma safe_report r m : mesh_wf m → live m r → safe (report r) m.
Proof.
  intros Hm Hl. apply safe_gets. apply safe_when; [done|]. intros _. apply safe_deref_live; [done|].
  intros p _. case_match. by apply safe_emit.
Qed.

Lemma safe_nextCounter r m : mesh_wf m → live m r → safe (with_peer r nextCounter) m.
Proof.
  intros Hm [p Hr]. pose proof (nextCounter_wf p (mw_links _ Hm _ _ Hr)) as Hp.
  apply (safe_with_peer _ _ _ p); [done|done| |unfold nextCounter; by case_match].
  apply plain_step; [done|unfold nextCounter; by case_match..].
Qed.

Lemma seal_frame dst ad body c p :
  same_peer p (seal dst ad body c p).2 ∧ via (seal dst ad body c p).2 = via p
  ∧ handshake (seal dst ad body c p).2 = handshake p ∧ endpoint (seal dst ad body c p).2 = endpoint p.
Proof. unfold seal. destruct (session p); [|done]. by destruct (Seal _ _ _ _ _). Qed.

Lemma safe_seal r dst ad body c m : mesh_wf m → live m r → safe (with_peer r (seal dst ad body c)) m.
Proof.
  intros Hm [p Hr]. pose proof (seal_wf dst ad body c p (mw_links _ Hm _ _ Hr)) as Hp.
  destruct (seal_frame dst ad body c p) as (?&?&?&?).
  apply (safe_with_peer _ _ _ p); [done|done|by apply plain_step|done].
Qed.

Lemma accept_frame header ct c t p :
  same_peer p (accept header ct c t p).2 ∧ via (accept header ct c t p).2 = via p
  ∧ handshake (accept header ct c t p).2 = handshake p ∧ endpoint (accept header ct c t p).2 = endpoint p.
Proof.
  unfold accept, decrypt, let_in. destruct (session p); [|done]. destruct (Open _ _ _ _ _) as [[] ?]; [done|].
  cbn. by destruct (Accept _ _) as [[] ?].
Qed.

Lemma safe_accept r header ct c t m : mesh_wf m → live m r → is_u64 c →
  safe (with_peer r (accept header ct c t)) m.
Proof.
  intros Hm [p Hr] Hc. pose proof (accept_wf header ct c t p (mw_links _ Hm _ _ Hr) Hc) as Hp.
  destruct (accept_frame header ct c t p) as (?&?&?&?).
  apply (safe_with_peer _ _ _ p); [done|done|by apply plain_step|done].
Qed.

(** ** Sending *)
Lemma safe_seal_packet r kind body m : mesh_wf m → live m r → safe (seal_packet r kind body) m.
Proof.
  intros Hm Hl. apply safe_try; [by apply safe_nextCounter|]. intros c m' _ Hm' Hq.
  pose proof (live_quiet _ _ r Hq Hl) as Hl'. apply safe_deref_live; [done|]. intros p _. by apply safe_seal.
Qed.

Lemma safe_of_go {A} (r : go wire_error A) m : mesh_wf m → r ≠ Panic → safe (of_go r) m.
Proof. intros Hm Hr. destruct r; [by apply safe_ret|by apply safe_ret|done]. Qed.

Lemma safe_forward relay carried m : mesh_wf m → live m relay → safe (forward relay carried) m.
Proof.
  intros Hm Hl. apply safe_try.
  { apply safe_of_go; [done|]. unfold Forward_Encode. by case_match. }
  intros body m' _ Hm' Hq. pose proof (live_quiet _ _ _ Hq Hl) as Hl'.
  apply safe_try; [by apply safe_seal_packet|]. intros out m'' _ Hm'' Hq'.
  apply safe_deref_live; [by apply (live_quiet m')|]. intros p _.
  case_match; [by apply safe_ret|by apply safe_WriteTo].
Qed.

Lemma safe_deliver r packet m : mesh_wf m → live m r → safe (deliver r packet) m.
Proof.
  intros Hm Hl. apply safe_deref_live; [done|]. intros p Hr. destruct (via p) as [relay|] eqn:Hv.
  - apply safe_gets. apply safe_forward; [done|]. by apply (mw_via _ Hm r p).
  - case_match; [by apply safe_ret|by apply safe_WriteTo].
Qed.

Lemma safe_send r kind s c body m : mesh_wf m → live m r → safe (send r kind s c body) m.
Proof.
  intros Hm Hl. apply safe_bind; [by apply safe_deliver|]. intros [] m' _ Hm' Hq; [|by apply safe_ret].
  apply safe_deref_live; [by apply (live_quiet m)|]. intros p _. by apply safe_logf.
Qed.

Lemma safe_sendData r packet m : mesh_wf m → live m r → safe (sendData r packet) m.
Proof.
  intros Hm Hl. apply safe_try; [by apply safe_seal_packet|]. intros out m' _ Hm' Hq.
  pose proof (live_quiet _ _ _ Hq Hl) as Hl'. apply safe_try; [by apply safe_deliver|].
  intros [] m'' _ Hm'' Hq'. apply safe_bind; [|intros [] m3 _ Hm3 _; by apply safe_ret].
  apply safe_update_plain; [done|by apply (live_quiet m')|]. intros p []. split_and!; try done.
  split; cbn; auto with vlan.
Qed.

Lemma safe_Send destination packet m : mesh_wf m → safe (Send destination packet) m.
Proof.
  intros Hm. apply safe_gets. destruct (byIP m !! destination) as [r|] eqn:Hr.
  - apply safe_bind; [apply safe_sendData; [done|by apply (mw_byIP _ Hm destination)]|].
    intros [] m' _ Hm' Hq; [|by apply safe_ret].
    apply safe_bind; [by apply safe_drop|]. intros [] m'' _ Hm'' _. by apply safe_ret.
  - apply safe_bind; [by apply safe_drop|]. intros [] m'' _ Hm'' _. by apply safe_ret.
Qed.

Lemma safe_Peers m : mesh_wf m → safe Peers m.
Proof. intros Hm. apply safe_tick; [done|]. intros m' _ Hm' _. split; [done|apply quiet_refl]. Qed.

Lemma Peers_result m l m' r : Peers m = Some (l, m') → r ∈ l ↔ ∃ d, peers m !! d = Some r.
Proof.
  intros [= <- _]. cbn. rewrite walk_perm, list_elem_of_fmap. split.
  - intros ([d r'] & -> & Hd%elem_of_map_to_list). by exists d.
  - intros (d & Hd). exists (d, r). by rewrite elem_of_map_to_list.
Qed.

(** Everything [Peers] lists is live. *)
Lemma Peers_live m l m' r : mesh_wf m → Peers m = Some (l, m') → r ∈ l → live m' r.
Proof.
  intros Hm HP Hr. apply (Peers_result _ _ _ _ HP) in Hr as (d & Hd).
  destruct (mw_peers _ Hm _ _ Hd) as (p & Hp & _). injection HP as _ <-. by exists p.
Qed.

Lemma safe_broadcast_to all packet m :
  mesh_wf m → (∀ r, r ∈ all → live m r) → safe (broadcast_to all packet) m.
Proof.
  revert m; induction all as [|r all IH]; intros m Hm Hl; [by apply safe_ret|].
  cbn [broadcast_to]. apply safe_bind; [apply safe_sendData; [done|apply Hl; by left]|].
  intros x m' _ Hm' Hq.
  assert (∀ r, r ∈ all → live m' r) as Hl' by (intros; apply (live_quiet m); [done|apply Hl; by right]).
  destruct x.
  - apply safe_bind; [by apply safe_drop|]. intros [] m'' _ Hm'' Hq'. apply IH; [done|].
    intros y Hy. by apply (live_quiet m'), Hl'.
  - apply safe_bind; [by apply IH|]. intros n m'' _ Hm'' _. by apply safe_ret.
Qed.

Lemma safe_Broadcast packet m : mesh_wf m → safe (Broadcast packet) m.
Proof.
  intros Hm. apply safe_bind; [by apply safe_Peers|]. intros all m' Hall Hm' _.
  apply safe_broadcast_to; [done|]. intros r. by apply (Peers_live m).
Qed.

(** ** Opening a link *)
Lemma safe_punch r m : mesh_wf m → live m r → safe (punch r) m.
Proof.
  intros Hm Hl. apply safe_deref_live; [done|]. intros p _. apply safe_when; [done|]. intros _.
  apply safe_bind; [by apply safe_randomToken|]. intros token m1 _ Hm1 Hq1. apply safe_gets.
  pose proof (live_quiet _ _ _ Hq1 Hl). apply safe_bind; [by apply safe_expect|]. intros [] m2 _ Hm2 Hq2.
  apply safe_bind; [|intros [] m3 _ Hm3 _; by apply safe_sendTo].
  apply safe_update_plain; [done|by apply (live_quiet m1)|]. intros q []. done.
Qed.

Lemma safe_sendKeepalive r m : mesh_wf m → live m r → safe (sendKeepalive r) m.
Proof.
  intros Hm Hl. apply safe_bind; [by apply safe_randomToken|]. intros token m1 _ Hm1 Hq1. apply safe_gets.
  pose proof (live_quiet _ _ _ Hq1 Hl). apply safe_bind; [by apply safe_expect|]. intros [] m2 _ Hm2 Hq2.
  pose proof (live_quiet _ _ r Hq2 ltac:(done)). apply safe_deref_live; [done|]. intros p _. by apply safe_send.
Qed.
End ops.
