(* ===== verification/MeshSafe.v ===== *)
(** The mesh's calls and handlers preserve its well-formedness.

    Built on [MeshWf]: first the links' own life (handshakes, relays, the tables),
    then every call of mesh.go and every handler of handle.go. *)
From S2P Require Import Prelude Bytes NetAddr Wire Stun Replay Session Netlog Ipc Peer Mesh Handle MeshWf.

Section links.
Context {N : Noise} {E : Env} {L : NoiseLaws N} {EL : EnvLaws E}.

Lemma with_peer_result {A} r (f : st Peer A) m p a m' :
  store m !! r = Some p → with_peer r f m = Some (a, m') →
  a = (f p).1 ∧ m' = m <| store := <[r := (f p).2]> (store m) |>.
Proof. unfold with_peer. intros ->. destruct (f p) as [x p']. by intros [= <- <-]. Qed.

Lemma with_peer_store {A} r (f : st Peer A) m p a m' :
  store m !! r = Some p → with_peer r f m = Some (a, m') → store m' !! r = Some (f p).2.
Proof. intros Hr Hf. destruct (with_peer_result _ _ _ _ _ _ Hr Hf) as [_ ->]. cbn. by rewrite lookup_insert_eq. Qed.

Lemma of_go_result {A} (r : go wire_error A) m a m' : of_go r m = Some (a, m') → m' = m.
Proof. destruct r; by intros [=]. Qed.

Lemma NewInitiator_right k p r h : NewInitiator k (transportKey p) r = inr h → right_handshake p h.
Proof.
  unfold NewInitiator. case_match; [done|]. destruct (NewHandshakeState _ _ _ _ _) eqn:En; [done|].
  intros [= <-]. unfold right_handshake, PeerStatic. cbn. split_and!; [done|..].
  - by eapply hs_is_initiator_new.
  - by eapply initiator_PeerStatic.
Qed.

Lemma WriteInit_right p h : right_handshake p h → right_handshake p (WriteInit h).2.
Proof.
  unfold right_handshake, WriteInit, PeerStatic. intros (H1 & H2 & H3). rewrite H1. cbn.
  pose proof (WriteMessage_initiator (hs_state h) H2) as W1. pose proof (WriteMessage_PeerStatic (hs_state h)) as W2. destruct (WriteMessage _) as [[|[[]]] s]; cbn in *;
    split_and!; try done; congruence.
Qed.

Lemma ReadResponse_right p h msg : right_handshake p h →
  right_handshake p (ReadResponse msg h).2
  ∧ ∀ s, (ReadResponse msg h).1 = inr s → right_key p s.
Proof.
  unfold right_handshake, right_key, ReadResponse, PeerStatic. intros (H1 & H2 & H3). rewrite H1. cbn.
  destruct (ReadMessage_initiator (hs_state h) msg H2) as [W1 W2].
  destruct (ReadMessage _ _) as [[|[[o [a|]] [b|]]] s]; cbn in *; split_and!; try done; try congruence.
  intros ? [= <-]. cbn. congruence.
Qed.

Lemma safe_set_handshake r h m p :
  mesh_wf m → store m !! r = Some p → session p = None → right_handshake p h →
  bytes_lt (DeviceID p) (device m) = false →
  safe (update_peer r (λ p, p <| handshake := Some h |>)) m.
Proof.
  intros Hm Hr Hs Hh Hlt. apply (safe_with_peer _ _ _ p); [done|done| |done].
  pose proof (mw_links _ Hm _ _ Hr) as [H1 H2 H3 H4 H5 H6 H7 H8 H9 H10].
  split; [|done|by left|by right]. split; cbn; try done.
  - rewrite Hs. by intros [].
  - by intros ? [= <-].
Qed.

Lemma may_begin_no_session t p : may_begin t p = true → session p = None.
Proof.
  unfold may_begin. rewrite negb_true_iff, !orb_false_iff, bool_decide_eq_false, <-eq_None_not_Some. tauto.
Qed.

Lemma safe_beginHandshake r m : mesh_wf m → live m r → safe (beginHandshake r) m.
Proof.
  intros Hm Hl. apply safe_deref_live; [done|]. intros p Hr. apply safe_gets.
  destruct (bytes_lt _ _) eqn:Hlt; [by apply safe_ret|]. apply safe_gets.
  destruct (may_begin (now m) p) eqn:Hb; cbn [negb]; [|by apply safe_ret].
  apply may_begin_no_session in Hb. apply safe_bind.
  { apply safe_update_plain; [done..|]. intros q Hq. split_and!; try done. destruct Hq. split; cbn; try done. lia. }
  intros [] m1 Hm1eq Hm1 Hq1. pose proof (with_peer_store _ _ _ _ _ _ Hr Hm1eq) as Hr1. cbn in Hr1.
  apply safe_gets. apply safe_tick; [done|]. intros m2 (_ & Ed & _ & Es & _) Hm2 Hq2.
  destruct (NewInitiator _ _ _) as [e|h] eqn:En; [by apply safe_logf|].
  pose proof (WriteInit_right _ _ (NewInitiator_right _ _ _ _ En)) as Hh.
  destruct (WriteInit h) as [[e|msg] h']; cbn in Hh; [by apply safe_logf|].
  apply safe_bind; [apply safe_of_go; [done|unfold HandshakeInit_Encode; by repeat case_match]|].
  intros [e|body] m3 Hm3eq Hm3 Hq3; [by apply safe_ret|]. apply of_go_result in Hm3eq as ->.
  rewrite <-Es in Hr1. apply safe_bind.
  { apply (safe_set_handshake _ _ _ _ Hm3 Hr1); [done|done|]. cbn.
    by rewrite Ed, (ex_device _ _ (qu_extends _ _ Hq1)). }
  intros [] m4 _ Hm4 Hq4. apply safe_send; [done|]. apply (live_quiet _ _ _ Hq4). by eexists.
Qed.

(** The search only reads. *)
Lemma pick_relay_reads r p all relay m :
  (∀ c, c ∈ all → live m c) →
  ∃ res, pick_relay r p all relay m = Some (res, m)
    ∧ ∀ c i, res = Some (c, i) → relay = Some (c, i) ∨ (c ∈ all ∧ c ≠ r).
Proof.
  revert relay; induction all as [|c all IH]; intros relay Hl; [exists relay; split; [done|by left]|].
  destruct (Hl c) as [pc Hc]; [by left|].
  assert (∀ c, c ∈ all → live m c) as Hl' by (intros; apply Hl; by right).
  unfold pick_relay; fold (pick_relay r p). unfold mbind, prog_bind, deref. rewrite Hc.
  assert (∀ relay', (relay' = relay ∨ (c ≠ r ∧ relay' = Some (c, DeviceID pc))) →
    ∃ res, pick_relay r p all relay' m = Some (res, m)
      ∧ ∀ c0 i, res = Some (c0, i) → relay = Some (c0, i) ∨ (c0 ∈ c :: all ∧ c0 ≠ r)) as Hgo.
  { intros relay' Hrel. destruct (IH relay' Hl') as (res & Hres & Hin). exists res. split; [done|].
    intros c0 i [?|[??]]%Hin; [|right; split; [by right|done]]. subst relay'.
    destruct Hrel as [<-|[Hne [= -> ->]]]; [by left|right; split; [by left|done]]. }
  destruct (bool_decide (c = r) || _ || _) eqn:Eb; [apply Hgo; by left|].
  apply orb_false_iff in Eb as [[Eb _]%orb_false_iff _]. apply bool_decide_eq_false in Eb.
  destruct relay as [[b best]|]; [|apply Hgo; by right]. case_match; apply Hgo; [by right|by left].
Qed.

Lemma safe_relayThrough r relay i m : mesh_wf m → live m r → live m relay →
  safe (update_peer r (relayThrough relay i)) m.
Proof.
  intros Hm [p Hr] Hl. apply (safe_with_peer _ _ _ p); [done|done| |done].
  split; [by apply relayThrough_wf, (mw_links _ Hm r)|done| |by intros []].
  intros v [= <-]. by right.
Qed.

Lemma safe_answerVia r relay i m : mesh_wf m → live m r → live m relay →
  safe (update_peer r (answerVia relay i)) m.
Proof.
  intros Hm [p Hr] Hl. pose proof (answerVia_wf relay i p (mw_links _ Hm _ _ Hr)) as Hw.
  assert (same_peer p (answerVia relay i p) ∧ handshake (answerVia relay i p) = handshake p
    ∧ endpoint (answerVia relay i p) = endpoint p ∧ (∀ v, via (answerVia relay i p) = Some v → via p = Some v ∨ v = relay))
    as (Hs & Hh & He & Hv).
  { unfold answerVia. case_decide; [by split_and!; try done; left|]. cbn.
    destruct (session p); split_and!; try done; intros v [= <-]; by right. }
  apply (safe_with_peer _ _ _ p); [done|done| |done].
  split; [done|done| |cbn [snd]; rewrite Hh; by left]. intros v [?| ->]%Hv; [by left|by right].
Qed.

Lemma safe_tryRelay r m : mesh_wf m → live m r → safe (tryRelay r) m.
Proof.
  intros Hm Hl. apply safe_bind; [by apply safe_Peers|]. intros all m1 Hall Hm1 Hq1.
  pose proof (live_quiet _ _ _ Hq1 Hl) as Hl1. apply safe_deref_live; [done|]. intros p Hr.
  destruct (pick_relay_reads r p all None m1) as (res & Hres & Hin); [intros c; by apply (Peers_live m)|].
  apply safe_bind; [unfold safe, wp; rewrite Hres; split; [done|apply quiet_refl]|].
  intros res' m2 Hres2 Hm2 Hq2. rewrite Hres in Hres2. injection Hres2 as <- <-.
  destruct res as [[relay i]|]; [|by apply safe_ret].
  destruct (Hin relay i) as [|[Hin' _]]; [done|done|]. pose proof (Peers_live _ _ _ _ Hm Hall Hin') as Hlr.
  apply safe_bind; [by apply safe_logf|]. intros [] m3 _ Hm3 Hq3.
  pose proof (live_quiet _ _ _ Hq3 Hl1). pose proof (live_quiet _ _ _ Hq3 Hlr).
  apply safe_bind; [by apply safe_relayThrough|]. intros [] m4 _ Hm4 Hq4. pose proof (live_quiet _ _ r Hq4 ltac:(done)).
  apply safe_bind; [by apply safe_report|]. intros [] m5 _ Hm5 Hq5. pose proof (live_quiet _ _ r Hq5 ltac:(done)).
  apply safe_bind; [by apply safe_beginHandshake|]. intros [] m6 _ Hm6 _. by apply safe_ret.
Qed.

Lemma safe_restart_link r m : mesh_wf m → live m r → safe (restart_link r) m.
Proof.
  intros Hm [p Hr]. apply safe_bind.
  - apply (safe_with_peer _ _ _ p); [done|done| |done].
    split; [by apply restart_wf, (mw_links _ Hm r)|done|done|by intros []].
  - intros [] m1 _ Hm1 Hq1. assert (live m1 r) as Hl by (apply (live_quiet _ _ _ Hq1); by exists p).
    apply safe_bind; [by apply safe_report|]. intros [] m2 _ Hm2 Hq2. apply safe_punch; [done|by apply (live_quiet m1)].
Qed.

Lemma safe_RestartLinks m : mesh_wf m → safe RestartLinks m.
Proof.
  intros Hm. apply safe_bind; [by apply safe_Peers|]. intros all m1 Hall Hm1 _.
  apply safe_for_each; [done|]. intros r m2 Hr Hm2 Hq2. apply safe_restart_link; [done|].
  apply (live_quiet _ _ _ Hq2). by apply (Peers_live m _ _ _ Hm Hall).
Qed.

Lemma peers_live m d r : mesh_wf m → peers m !! d = Some r → live m r.
Proof. intros Hm Hd. destruct (mw_peers _ Hm _ _ Hd) as (p & Hp & _). by exists p. Qed.

Lemma safe_RetryPeer d m : mesh_wf m → safe (RetryPeer d) m.
Proof.
  intros Hm. apply safe_gets. destruct (peers m !! d) as [r|] eqn:Hd; [|by apply safe_ret].
  pose proof (peers_live _ _ _ Hm Hd) as Hl.
  apply safe_bind; [by apply safe_logf|]. intros [] m1 _ Hm1 Hq1. pose proof (live_quiet _ _ _ Hq1 Hl).
  apply safe_bind; [by apply safe_restart_link|]. intros [] m2 _ Hm2 Hq2. pose proof (live_quiet _ _ r Hq2 ltac:(done)).
  apply safe_bind; [by apply safe_beginHandshake|]. intros [] m3 _ Hm3 _. by apply safe_ret.
Qed.

(** ** Keeping links alive *)
(** The guard of the program at hand, either way. *)
Local Ltac split_if := match goal with |- safe (if ?b then _ else _) _ => destruct b end.

Lemma safe_maintain_peer keepalives r m : mesh_wf m → live m r → safe (maintain_peer keepalives r) m.
Proof.
  intros Hm Hl. apply safe_deref_live; [done|]. intros p Hr. apply safe_gets. cbv zeta.
  split_if.
  { apply safe_bind; [by apply safe_logf|]. intros [] m1 _ Hm1 Hq1.
    apply safe_restart_link; [done|by apply (live_quiet m)]. }
  split_if; [apply safe_when; [done|]; intros _; by apply safe_sendKeepalive|].
  split_if.
  { apply safe_bind; [by apply safe_tryRelay|]. intros _ m1 _ Hm1 _. by apply safe_ret. }
  split_if.
  { apply safe_bind; [by apply safe_tryRelay|]. intros relayed m1 _ Hm1 Hq1.
    pose proof (live_quiet _ _ _ Hq1 Hl). apply safe_when; [done|]. intros _.
    apply safe_bind; [by apply safe_fail|]. intros failed m2 _ Hm2 Hq2. pose proof (live_quiet _ _ r Hq2 ltac:(done)).
    apply safe_when; [done|]. intros _. apply safe_bind; [by apply safe_logf|]. intros [] m3 _ Hm3 Hq3.
    apply safe_report; [done|by apply (live_quiet m2)]. }
  split_if; [by apply safe_beginHandshake|].
  apply safe_bind; [by apply safe_punch|]. intros [] m1 _ Hm1 Hq1.
  apply safe_beginHandshake; [done|by apply (live_quiet m)].
Qed.

Lemma safe_maintain_tick t m : mesh_wf m → safe (maintain_tick t) m.
Proof.
  intros Hm. apply safe_gets. cbv zeta. apply safe_bind; [by apply safe_Peers|]. intros all m1 Hall Hm1 _.
  apply safe_bind; [|intros [] m2 _ Hm2 _; by apply safe_ret].
  apply safe_for_each; [done|]. intros r m2 Hr Hm2 Hq2. apply safe_maintain_peer; [done|].
  apply (live_quiet _ _ _ Hq2). by apply (Peers_live m _ _ _ Hm Hall).
Qed.
End links.

(** ** The tables *)
Section tables.
Context {N : Noise} {E : Env} {L : NoiseLaws N} {EL : EnvLaws E}.

Lemma index_all xs m :
  (∀ r, r ∈ xs → live m r) →
  ∃ b u, for_each xs index_peer m = Some (tt, m <| byIP := b |> <| byUDP := u |>)
    ∧ (∀ a r, b !! a = Some r → byIP m !! a = Some r ∨
         (r ∈ xs ∧ ∃ p, store m !! r = Some p ∧ VirtualIP p = a ∧ addr_IsValid a = true))
    ∧ (∀ e r, u !! e = Some r → byUDP m !! e = Some r ∨
         (r ∈ xs ∧ ∃ p, store m !! r = Some p ∧ endpoint p = e ∧ ap_IsValid e = true))
    ∧ (∀ a, is_Some (byIP m !! a) → is_Some (b !! a)) ∧ (∀ e, is_Some (byUDP m !! e) → is_Some (u !! e))
    ∧ (∀ r p, r ∈ xs → store m !! r = Some p → addr_IsValid (VirtualIP p) = true → is_Some (b !! VirtualIP p))
    ∧ (∀ r p, r ∈ xs → store m !! r = Some p → ap_IsValid (endpoint p) = true → is_Some (u !! endpoint p)).
Proof.
  revert m; induction xs as [|x xs IH]; intros m Hl.
  { exists (byIP m), (byUDP m). split; [by destruct m|]. split_and!; try done; try (by left); by intros ?? ?%elem_of_nil. }
  destruct (Hl x) as [px Hx]; [by left|].
  set (b1 := if addr_IsValid (VirtualIP px) then <[VirtualIP px := x]> (byIP m) else byIP m).
  set (u1 := if ap_IsValid (endpoint px) then <[endpoint px := x]> (byUDP m) else byUDP m).
  assert (index_peer x m = Some (tt, m <| byIP := b1 |> <| byUDP := u1 |>)) as Ei.
  { unfold index_peer, mbind, prog_bind, deref. rewrite Hx. subst b1 u1.
    destruct (addr_IsValid _), (ap_IsValid _); cbn; try done; by destruct m. }
  destruct (IH (m <| byIP := b1 |> <| byUDP := u1 |>)) as (b & u & Hf & B1 & U1 & B2 & U2 & B3 & U3).
  { intros r Hr. apply Hl. by right. }
  cbn in B1, U1, B2, U2, B3, U3.
  exists b, u. split_and!.
  - cbn [for_each]. unfold mbind, prog_bind. rewrite Ei, Hf. done.
  - intros a r [Hb|[? ?]]%B1; [|right; split; [by right|done]].
    subst b1. destruct (addr_IsValid (VirtualIP px)) eqn:Ev; [|by left].
    apply lookup_insert_Some in Hb as [[<- <-]|[_ ?]]; [|by left]. right. split; [by left|by exists px].
  - intros e r [Hu|[? ?]]%U1; [|right; split; [by right|done]].
    subst u1. destruct (ap_IsValid (endpoint px)) eqn:Ev; [|by left].
    apply lookup_insert_Some in Hu as [[<- <-]|[_ ?]]; [|by left]. right. split; [by left|by exists px].
  - intros a Ha. apply B2. subst b1. case_match; [|done]. apply lookup_insert_is_Some'. by right.
  - intros e He. apply U2. subst u1. case_match; [|done]. apply lookup_insert_is_Some'. by right.
  - intros r p [->|Hr]%elem_of_cons Hp Hv; [|by eapply B3]. simplify_eq. apply B2. subst b1. rewrite Hv.
    by rewrite lookup_insert_eq.
  - intros r p [->|Hr]%elem_of_cons Hp Hv; [|by eapply U3]. simplify_eq. apply U2. subst u1. rewrite Hv.
    by rewrite lookup_insert_eq.
Qed.

(** Rebuilding makes the tables exact, whatever they were. *)
Lemma wp_reindex m : mesh_wf m →
  wp reindex (λ _ m', mesh_wf m' ∧ indexed m' ∧ extends m m' ∧ peers m' = peers m ∧ store m' = store m) m.
Proof.
  intros Hm. set (m0 := m <| byIP := ∅ |> <| byUDP := ∅ |> <| tick := S (tick m) |>).
  set (all := walk (tick m) (map_to_list (peers m)).*2).
  assert (∀ r, r ∈ all ↔ ∃ d, peers m !! d = Some r) as Hall.
  { intros r. by apply (Peers_result m all (m <| tick := S (tick m) |>) r). }
  assert (∀ r, r ∈ all → live m0 r) as Hl.
  { intros r [d Hd]%Hall. by apply (peers_live m d). }
  destruct (index_all all m0 Hl) as (b & u & Hf & B1 & U1 & _ & _ & B3 & U3).
  unfold wp. assert (reindex m = for_each all index_peer m0) as -> by done. rewrite Hf.
  assert (∀ a r, b !! a = Some r → live m r ∧ ∃ d p, peers m !! d = Some r ∧ store m !! r = Some p
    ∧ VirtualIP p = a ∧ addr_IsValid a = true) as HB.
  { intros a r [Hb|[Hr (p & Hp & Ha)]]%B1; [by cbn in Hb; rewrite lookup_empty in Hb|].
    apply Hall in Hr as [d Hd]. split; [by apply (peers_live m d)|by exists d, p]. }
  assert (∀ e r, u !! e = Some r → live m r ∧ ∃ d p, peers m !! d = Some r ∧ store m !! r = Some p
    ∧ endpoint p = e ∧ ap_IsValid e = true) as HU.
  { intros e r [Hu|[Hr (p & Hp & Ha)]]%U1; [by cbn in Hu; rewrite lookup_empty in Hu|].
    apply Hall in Hr as [d Hd]. split; [by apply (peers_live m d)|by exists d, p]. }
  split_and!; [| | |done|done].
  - destruct Hm. split; cbn; try done; [by intros a r [? _]%HB|by intros a r [? _]%HU].
  - split; cbn.
    + by intros a r [_ ?]%HB.
    + by intros a r [_ ?]%HU.
    + intros d r p Hd Hr Hv. apply (B3 r p); [|done..]. apply Hall. by exists d.
    + intros d r p Hd Hr Hv. apply (U3 r p); [|done..]. apply Hall. by exists d.
  - split; try done. cbn. intros r p Hr. by exists p.
Qed.

(** [steady f m]: [f] does not panic and leaves a well-formed mesh with exact
    tables. *)
Definition steady {A} (f : prog Mesh A) (m : Mesh) : Prop :=
  wp f (λ _ m', mesh_wf m' ∧ indexed m' ∧ extends m m') m.

Lemma steady_safe {A} (f : prog Mesh A) m : mesh_wf m → indexed m → safe f m → steady f m.
Proof.
  intros Hm Hi Hf. apply (safe_wp _ _ _ Hf). intros a m' _ Hm' Hq.
  split_and!; [done|by apply (indexed_quiet m)|apply Hq].
Qed.

Lemma steady_bind {A B} (f : prog Mesh A) (g : A → prog Mesh B) m :
  steady f m → (∀ a m', f m = Some (a, m') → mesh_wf m' → indexed m' → extends m m' → steady (g a) m') →
  steady (f ≫= g) m.
Proof.
  unfold steady, wp, mbind, prog_bind. destruct (f m) as [[a m']|] eqn:Ef; [|done].
  intros (Hm & Hi & Hx) Hg. specialize (Hg a m' eq_refl Hm Hi Hx). destruct (g a m') as [[b m'']|]; [|done].
  destruct Hg as (? & ? & ?). split_and!; [done..|by apply (extends_trans _ m')].
Qed.

(** A step whose outcome is known. *)
Lemma steady_step {A B} (f : prog Mesh A) (g : A → prog Mesh B) m a m1 :
  f m = Some (a, m1) → extends m m1 → steady (g a) m1 → steady (f ≫= g) m.
Proof.
  unfold steady, wp, mbind, prog_bind. intros -> Hx. destruct (g a m1) as [[b m2]|]; [|done].
  intros (? & ? & ?). split_and!; [done..|by apply (extends_trans _ m1)].
Qed.

Lemma steady_reindex m : mesh_wf m → steady reindex m.
Proof. intros Hm. eapply wp_mono; [by apply wp_reindex|]. by intros [] m' (? & ? & ? & _). Qed.

(** Moving a link's endpoint: nothing else changes hands, and when the link had it
    already nothing changes at all. *)
Lemma wp_setEndpoint r e m : mesh_wf m → live m r →
  wp (with_peer r (setEndpoint e)) (λ moved m', mesh_wf m' ∧ extends m m' ∧ peers m' = peers m
    ∧ (moved = false → quiet m m')) m.
Proof.
  intros Hm [p Hr]. pose proof (setEndpoint_wf e p (mw_links _ Hm _ _ Hr)) as Hw.
  apply (wp_with_peer _ _ _ p); [done|done| |].
  - split; [done|unfold setEndpoint; by case_decide|unfold setEndpoint; case_decide; by left|].
    unfold setEndpoint. case_decide; [by left|by intros []].
  - intros m' -> Hm' Hx _. split_and!; [done..|]. intros Hf.
    assert ((setEndpoint e p).2 = p) as Hp by (unfold setEndpoint in *; by case_decide). rewrite Hp in *.
    split; try done. cbn. intros x q q' Hq Hq'. destruct (decide (x = r)) as [->|].
    + rewrite lookup_insert_eq in Hq'. by simplify_eq.
    + rewrite lookup_insert_ne in Hq' by done. by simplify_eq.
Qed.

(** ... and then rebuilding the tables and going on. *)
Lemma steady_move {A} r e (g : bool → prog Mesh A) m :
  mesh_wf m → indexed m → live m r →
  (∀ m', mesh_wf m' → indexed m' → extends m m' → steady (g false) m') →
  (∀ m', mesh_wf m' → extends m m' → steady (g true) m') →
  steady (with_peer r (setEndpoint e) ≫= g) m.
Proof.
  intros Hm Hi Hl Hstay Hmove. apply wp_bind. eapply wp_mono; [by apply wp_setEndpoint|].
  intros moved m' (Hm' & Hx & _ & Hq). assert (steady (g moved) m') as Hs.
  { destruct moved; [by apply Hmove|]. apply Hstay; [done| |done]. apply (indexed_quiet m); auto. }
  eapply wp_mono; [exact Hs|]. intros a m'' (? & ? & ?). split_and!; [done..|by apply (extends_trans _ m')].
Qed.

Lemma steady_gets {A B} (f : Mesh → A) (g : A → prog Mesh B) m : steady (g (f m)) m → steady (gets f ≫= g) m.
Proof. done. Qed.

Lemma steady_ret {A} (a : A) m : mesh_wf m → indexed m → steady (mret a) m.
Proof. intros Hm Hi. apply steady_safe; [done..|by apply safe_ret]. Qed.

Lemma steady_SetPeerEndpoint d e m : mesh_wf m → indexed m → steady (SetPeerEndpoint d e) m.
Proof.
  intros Hm Hi. apply steady_gets. destruct (peers m !! d) as [r|] eqn:Hd; [|by apply steady_ret].
  pose proof (peers_live _ _ _ Hm Hd) as Hl. case_match; [by apply steady_ret|].
  apply steady_move; [done..| |]; cbn; [intros m1 Hm1 Hi1 _; exact (steady_ret tt m1 Hm1 Hi1)|].
  intros m1 Hm1 Hx1. apply steady_bind; [by apply steady_reindex|]. intros [] m2 _ Hm2 Hi2 Hx2.
  assert (live m2 r) as Hl2 by (apply (live_extends m1); [done|by apply (live_extends m)]).
  apply steady_safe; [done..|]. apply safe_bind; [by apply safe_logf|]. intros [] m3 _ Hm3 Hq3.
  pose proof (live_quiet _ _ _ Hq3 Hl2).
  apply safe_bind; [by apply safe_report|]. intros [] m4 _ Hm4 Hq4. apply safe_punch; [done|by apply (live_quiet m3)].
Qed.

Lemma mesh_wf_alloc m p : mesh_wf m → peer_wf p → via p = None → handshake p = None →
  mesh_wf (m <| store := <[next_ref m := p]> (store m) |> <| next_ref := Pos.succ (next_ref m) |>
             <| peers := <[DeviceID p := next_ref m]> (peers m) |>)
  ∧ extends m (m <| store := <[next_ref m := p]> (store m) |> <| next_ref := Pos.succ (next_ref m) |>
             <| peers := <[DeviceID p := next_ref m]> (peers m) |>).
Proof.
  intros [H1 H2 H3 H4 H5 H6 H7 H8 H9 H10] Hp Hv Hh.
  assert (∀ r, is_Some (store m !! r) → r ≠ next_ref m) as Hne by (intros r Hr ->; apply H3 in Hr; lia).
  assert (∀ r q, store m !! r = Some q → <[next_ref m := p]> (store m) !! r = Some q) as Hkeep.
  { intros r q Hr. rewrite lookup_insert_ne; [done|]. intros <-. by apply (Hne (next_ref m)); [eexists|]. }
  assert (∀ r, is_Some (store m !! r) → is_Some (<[next_ref m := p]> (store m) !! r)) as Hlive.
  { intros r [q Hq]. exists q. by apply Hkeep. }
  split; [|split; try done; cbn; intros r q Hr; exists q; split; [by apply Hkeep|done]].
  split; cbn; try done.
  - intros r q [[<- <-]|[_ Hr]]%lookup_insert_Some; [done|by apply (H1 r)].
  - intros r q v [[<- <-]|[_ Hr]]%lookup_insert_Some Hvq; [congruence|by apply Hlive, (H2 r q)].
  - intros r [q [[<- <-]|[_ Hr]]%lookup_insert_Some]; [lia|]. pose proof (H3 r (mk_is_Some _ _ Hr)). lia.
  - intros d r [[<- <-]|[_ Hd]]%lookup_insert_Some; [exists p; by rewrite lookup_insert_eq|].
    destruct (H4 d r Hd) as (q & Hq & Hqd). exists q. split; [by apply Hkeep|done].
  - intros a r Ha. by apply Hlive, (H5 a).
  - intros a r Ha. by apply Hlive, (H6 a).
  - intros r q [[<- <-]|[_ Hr]]%lookup_insert_Some Hq; [by rewrite Hh in Hq; destruct Hq|by apply (H9 r)].
Qed.

Lemma steady_AddPeer d n v k e m : mesh_wf m → indexed m → steady (AddPeer d n v k e) m.
Proof.
  intros Hm Hi. unfold AddPeer. case_match; [by apply steady_ret|].
  apply steady_bind; [by apply steady_safe, safe_randomSender|].
  intros [err|sender] m1 _ Hm1 Hi1 _; [by apply steady_ret|].
  apply steady_gets. destruct (peers m1 !! d) as [r|] eqn:Hd.
  - pose proof (peers_live _ _ _ Hm1 Hd) as [p Hr].
    apply (steady_step _ _ _ p m1); [unfold deref; by rewrite Hr|apply extends_refl|].
    case_decide; [by apply steady_ret|]. destruct (negb (ap_IsValid e)); [by apply steady_ret|].
    apply (steady_move r e); [done..|by exists p| |]; cbn [when].
    { intros m2 Hm2 Hi2 _. exact (steady_ret (inr tt) m2 Hm2 Hi2). }
    intros m2 Hm2 Hx2. apply steady_bind; [|intros [] m3 _ Hm3 Hi3 _; by apply steady_ret].
    apply steady_bind; [by apply steady_reindex|]. intros [] m3 _ Hm3 Hi3 Hx3.
    apply steady_safe; [done..|]. apply safe_report; [done|].
    apply (live_extends m2); [done|]. apply (live_extends m1); [done|by exists p].
  - set (p := newPeer d n v k e sender).
    destruct (mesh_wf_alloc m1 p Hm1) as [Hm2 Hx2]; [by apply peer_wf_newPeer|done|done|].
    apply (steady_step _ _ _ (next_ref m1) _ eq_refl).
    { split; try done. cbn. intros r q Hr. exists q. split; [|done]. rewrite lookup_insert_ne; [done|].
      intros <-. pose proof (mw_next _ Hm1 _ (mk_is_Some _ _ Hr)). lia. }
    apply (steady_step _ _ _ tt _ eq_refl); [split; try done; cbn; intros r q Hr; by exists q|].
    cbn in Hm2, Hx2 |- *. apply steady_bind; [by apply steady_reindex|]. intros [] m3 _ Hm3 Hi3 Hx3.
    assert (live m3 (next_ref m1)) as Hl.
    { apply (live_extends _ _ _ Hx3). exists p. cbn. by rewrite lookup_insert_eq. }
    apply steady_safe; [done..|]. apply safe_bind; [by apply safe_logf|]. intros [] m4 _ Hm4 Hq4.
    pose proof (live_quiet _ _ _ Hq4 Hl).
    apply safe_bind; [by apply safe_report|]. intros [] m5 _ Hm5 Hq5. pose proof (live_quiet _ _ (next_ref m1) Hq5 ltac:(done)).
    apply safe_bind; [by apply safe_punch|]. intros [] m6 _ Hm6 _. by apply safe_ret.
Qed.

Lemma steady_RemovePeer d m : mesh_wf m → steady (RemovePeer d) m.
Proof.
  intros Hm. apply (steady_step _ _ _ tt _ eq_refl); [split; try done; cbn; intros r q Hr; by exists q|].
  assert (mesh_wf (m <| peers := delete d (peers m) |>)) as Hm1.
  { destruct Hm. split; cbn; try done. intros d' r [_ Hd]%lookup_delete_Some. by eauto. }
  apply steady_bind; [by apply steady_reindex|]. intros [] m2 _ Hm2 Hi2 _.
  apply steady_safe; [done..|by apply safe_logf].
Qed.
End tables.

(** ** The handlers *)
Section handlers.
Context {N : Noise} {E : Env} {L : NoiseLaws N} {EL : EnvLaws E}.

(** A source names live peers, and one behind a relay names both. *)
Record source_wf (m : Mesh) (src : source) : Prop := {
  sw_peer : ∀ r, src_peer src = Some r → live m r;
  sw_relay : ∀ r, src_relay src = Some r → live m r;
  sw_both : is_Some (src_relay src) → is_Some (src_peer src);
}.

Lemma source_wf_extends m m' src : extends m m' → source_wf m src → source_wf m' src.
Proof. intros Hx [H1 H2 H3]. split; eauto using live_extends. Qed.

Lemma safe_handleStun packet m : mesh_wf m → safe (handleStun packet) m.
Proof.
  intros Hm. unfold handleStun. destruct (Nat.ltb_spec (length packet) 20) as [|Hl]; [by apply safe_ret|].
  rewrite slice_Ret by lia. apply safe_gets. case_match; [|by apply safe_ret].
  destruct (ParseResponse _ _) eqn:Ep; [|by apply safe_ret|].
  - case_match; [by apply safe_ret|]. by apply safe_modify; try apply Hm.
  - by destruct (ParseResponse_not_Panic _ _ Ep).
Qed.

Lemma safe_handleProbe payload from m : mesh_wf m → safe (handleProbe payload from) m.
Proof.
  intros Hm. unfold handleProbe. destruct (DecodePing payload) as [ping|e|] eqn:Ep;
    [|by apply safe_ret|by destruct (DecodePing_not_Panic _ Ep)].
  destruct (Reply ping).
  - apply safe_gets. destruct (byUDP m !! from) as [r|] eqn:Hr; [|by apply safe_ret].
    pose proof (mw_byUDP _ Hm _ _ Hr) as Hl. apply safe_gets.
    apply safe_bind; [by apply safe_measure|]. intros o m1 _ Hm1 Hq1.
    apply safe_beginHandshake; [done|by apply (live_quiet m)].
  - apply safe_bind; [by apply safe_sendTo|]. intros [] m1 _ Hm1 Hq1. apply safe_gets.
    destruct (byUDP m1 !! from) as [r|] eqn:Hr; [|by apply safe_ret].
    apply safe_beginHandshake; [done|]. by apply (mw_byUDP _ Hm1 from).
Qed.

Lemma safe_replyTo src kind s c body m : mesh_wf m → source_wf m src → safe (replyTo src kind s c body) m.
Proof.
  intros Hm [H1 H2 H3]. unfold replyTo. cbv zeta. destruct (src_relay src) as [relay|]; [|by apply safe_sendTo].
  destruct (src_peer src) as [r|]; [|by destruct H3].
  apply safe_deref_live; [by apply H1|]. intros p _. apply safe_gets.
  apply safe_bind; [by apply safe_forward, H2|]. intros [] m1 _ Hm1 _; [by apply safe_logf|by apply safe_ret].
Qed.

Lemma safe_answer_by_relay r src m : mesh_wf m → live m r → source_wf m src → safe (answer_by_relay r src) m.
Proof.
  intros Hm Hl [_ H2 _]. unfold answer_by_relay. destruct (src_relay src) as [relay|]; [|by apply safe_ret].
  apply safe_deref_live; [by apply H2|]. intros p _. by apply safe_answerVia, H2.
Qed.

Lemma safe_open_link r s b m p : mesh_wf m → store m !! r = Some p → right_key p s → safe (open_link r s b) m.
Proof.
  intros Hm Hr Hk. apply safe_gets. apply safe_bind.
  { pose proof (open_wf s (now m) p (mw_links _ Hm _ _ Hr) Hk) as Hw.
    assert (same_peer p (open s (now m) p) ∧ via (open s (now m) p) = via p
      ∧ handshake (open s (now m) p) = None ∧ endpoint (open s (now m) p) = endpoint p) as (?&Hv&Hh&?)
      by (unfold open; cbn; by destruct (via p)).
    apply (safe_with_peer _ _ _ p); [done|done| |done].
    split; [done|done|cbn [snd]; rewrite Hv; by left|cbn [snd]; rewrite Hh; by intros []]. }
  intros [] m1 _ Hm1 Hq1. assert (live m1 r) as Hl by (apply (live_quiet _ _ _ Hq1); by exists p).
  apply safe_deref_live; [done|]. intros q _. apply safe_bind; [by apply safe_logf|]. intros [] m2 _ Hm2 Hq2.
  pose proof (live_quiet _ _ _ Hq2 Hl). apply safe_bind; [by apply safe_report|]. intros [] m3 _ Hm3 Hq3.
  apply safe_sendKeepalive; [done|by apply (live_quiet m2)].
Qed.

(** The guard of the program at hand, either way. *)
Local Ltac split_guard := match goal with |- steady (if ?b then _ else _) _ => destruct b end.

Lemma WriteResponse_key h reply s : (WriteResponse h).1 = inr (reply, s) → peerStatic s = PeerStatic h.
Proof.
  unfold WriteResponse, PeerStatic. destruct (initiator h); [done|]. pose proof (WriteMessage_PeerStatic (hs_state h)) as Hk.
  destruct (WriteMessage _) as [[|[[o [a|]] [b|]]] st]; try done. cbn in *. by intros [= _ <-].
Qed.

Lemma xor_zero x y : Z.lxor x y = 0 ↔ x = y.
Proof. split; [apply Z.lxor_eq|intros ->; apply Z.lxor_nilpotent]. Qed.

Lemma foldl_or_zero acc (l : list (Z * Z)) :
  foldl (λ diff '(x, y), Z.lor diff (Z.lxor x y)) acc l = 0 ↔ acc = 0 ∧ Forall (λ '(x, y), x = y) l.
Proof.
  revert acc; induction l as [|[x y] l IH]; intros acc; cbn; [rewrite Forall_nil; tauto|].
  rewrite IH, Forall_cons, Z.lor_eq_0_iff, xor_zero. tauto.
Qed.

(** The comparison that reads every byte decides equality. *)
Lemma equalKeys_spec a b : equalKeys a b = true ↔ a = b.
Proof.
  unfold equalKeys. destruct (Nat.eqb_spec (length a) (length b)) as [Hl|Hl]; cbn [negb].
  - rewrite Z.eqb_eq, foldl_or_zero. split.
    + intros [_ Hf]. revert b Hl Hf. induction a as [|x a IH]; intros [|y b] Hl Hf; cbn in *; try done.
      apply Forall_cons in Hf as [-> Hf]. f_equal. apply IH; [by injection Hl|done].
    + intros ->. split; [done|]. clear Hl. induction b as [|y b IH]; cbn; by constructor.
  - split; [done|]. by intros ->.
Qed.

Lemma follow_source_steady r src m : mesh_wf m → indexed m → live m r → source_wf m src →
  steady (follow_source r src) m.
Proof.
  intros Hm Hi Hl Hs. unfold follow_source. destruct (src_relay src) as [relay|] eqn:Er.
  { apply steady_safe; [done..|by apply safe_answer_by_relay]. }
  destruct Hl as [p Hr]. apply (steady_step _ _ _ p m); [unfold deref; by rewrite Hr|apply extends_refl|].
  apply steady_bind; [|intros [] m1 _ Hm1 Hi1 _; by apply steady_safe, safe_forgetStranger].
  destruct (bool_decide _); cbn [when]; [|by apply steady_ret].
  apply steady_move; [done..|by exists p|intros; by apply steady_reindex|intros; by apply steady_reindex].
Qed.

Lemma steady_handleHandshakeInit payload src m : mesh_wf m → indexed m → source_wf m src →
  steady (handleHandshakeInit payload src) m.
Proof.
  intros Hm Hi Hs. unfold handleHandshakeInit. destruct (DecodeHandshakeInit payload) as [init|e|] eqn:Ed;
    [|by apply steady_ret|by destruct (DecodeHandshakeInit_not_Panic _ Ed)].
  apply steady_gets. destruct (peers m !! _) as [r|] eqn:Hd; [|by apply steady_safe, safe_logf].
  apply steady_gets. pose proof (peers_live _ _ _ Hm Hd) as Hl.
  assert (same_core m (m <| tick := S (tick m) |>)) as Hc by done.
  pose proof (same_core_quiet _ _ Hc) as Hq1.
  assert (mesh_wf (m <| tick := S (tick m) |>)) as Hm1 by (by apply (same_core_wf m); try done; apply Hm).
  pose proof (indexed_quiet _ _ Hm Hq1 Hi) as Hi1. pose proof (source_wf_extends _ _ _ (qu_extends _ _ Hq1) Hs) as Hs1.
  apply (steady_step _ _ _ (tick m) _ eq_refl); [apply Hq1|].
  pose proof (live_quiet _ _ _ Hq1 Hl) as Hl1. clear Hl Hd Hc Hs Hi Hm.
  set (m1 := m <| tick := S (tick m) |>) in *. clearbody m1.
  destruct (NewResponder _ _) as [e|responder] eqn:En; [by apply steady_safe, safe_logf|].
  destruct (ReadInit _ responder) as [[e|[]] responder1] eqn:Ei; [by apply steady_safe, safe_logf|].
  destruct Hl1 as [p Hr]. apply (steady_step _ _ _ p m1); [unfold deref; by rewrite Hr|apply extends_refl|].
  destruct (equalKeys _ _) eqn:Hk; cbn [negb]; [|by apply steady_safe, safe_logf].
  apply equalKeys_spec in Hk. destruct (WriteResponse responder1).1 as [e|[reply opened]] eqn:Ew;
    [by apply steady_safe, safe_logf|].
  pose proof (WriteResponse_key _ _ _ Ew) as Hkey. rewrite Hk in Hkey.
  apply steady_bind; [by apply follow_source_steady; [..|exists p|]|]. intros [] m2 _ Hm2 Hi2 Hx2.
  destruct (ex_store _ _ Hx2 _ _ Hr) as (p2 & Hr2 & _ & _ & Hk2).
  apply steady_bind; [apply steady_safe; [done..|]; apply safe_of_go; [done|unfold HandshakeResponse_Encode; by case_match]|].
  intros [e|body] m3 Hm3 _ _ _; apply of_go_result in Hm3 as ->; [by apply steady_ret|].
  apply steady_safe; [done..|]. apply safe_bind; [apply safe_send; [done|by exists p2]|].
  intros [] m4 _ Hm4 Hq4. destruct (ex_store _ _ (qu_extends _ _ Hq4) _ _ Hr2) as (p4 & Hr4 & _ & _ & Hk4).
  apply (safe_open_link _ _ _ _ p4); [done|done|]. unfold right_key. congruence.
Qed.

Lemma safe_handleHandshakeResponse payload src m : mesh_wf m → source_wf m src →
  safe (handleHandshakeResponse payload src) m.
Proof.
  intros Hm Hs. unfold handleHandshakeResponse. destruct (DecodeHandshakeResponse payload) as [resp|e|] eqn:Ed;
    [|by apply safe_ret|by destruct (DecodeHandshakeResponse_not_Panic _ Ed)].
  destruct (src_peer src) as [r|] eqn:Er; [|by apply safe_ret].
  destruct (sw_peer _ _ Hs _ Er) as [p Hr]. pose proof (mw_links _ Hm _ _ Hr) as Hp.
  assert (good_step m p (read_response (RespKeyExchange resp) p).2
    ∧ endpoint (read_response (RespKeyExchange resp) p).2 = endpoint p
    ∧ ∀ s, (read_response (RespKeyExchange resp) p).1 = Some (inr s) → right_key p s) as (Hg & He & Hkey).
  { unfold read_response. destruct (handshake p) as [h|] eqn:Hh; [|by split_and!; [apply plain_step|..]].
    destruct (ReadResponse_right p h (RespKeyExchange resp)) as [Hr1 Hr2]; [by apply (pw_handshake_key _ Hp)|].
    destruct (ReadResponse _ h) as [res h']. cbn in *. split_and!; [|done|by intros s [= ->]; apply Hr2].
    split; [|done|by left|by rewrite Hh; left]. cbn.
    destruct Hp as [H1 H2 H3 H4 H5 H6 H7 H8 H9 H10]. split; cbn; try done.
    - intros Hsome. by rewrite Hh in H2; specialize (H2 Hsome).
    - by intros ? [= <-]. }
  apply safe_bind; [by apply (safe_with_peer _ _ _ p)|]. intros res m1 Hm1eq Hm1 Hq1.
  destruct (with_peer_result _ _ _ _ _ _ Hr Hm1eq) as [-> _].
  destruct (ex_store _ _ (qu_extends _ _ Hq1) _ _ Hr) as (p1 & Hr1 & _ & _ & Hk1).
  pose proof (source_wf_extends _ _ _ (qu_extends _ _ Hq1) Hs) as Hs1.
  destruct (read_response _ p).1 as [[e|opened]|] eqn:Eres; [| |by apply safe_ret].
  { apply safe_deref_live; [by exists p1|]. intros q _. by apply safe_logf. }
  apply safe_bind; [by apply safe_answer_by_relay; [|exists p1|]|]. intros [] m2 _ Hm2 Hq2.
  destruct (ex_store _ _ (qu_extends _ _ Hq2) _ _ Hr1) as (p2 & Hr2 & _ & _ & Hk2).
  apply (safe_open_link _ _ _ _ p2); [done|done|]. unfold right_key. rewrite Hk2, Hk1. by apply Hkey.
Qed.

Lemma safe_handleKeepalive payload src m : mesh_wf m → source_wf m src → safe (handleKeepalive payload src) m.
Proof.
  intros Hm Hs. unfold handleKeepalive. destruct (DecodePing payload) as [ping|e|] eqn:Ep;
    [|by apply safe_ret|by destruct (DecodePing_not_Panic _ Ep)].
  destruct (src_peer src) as [r|] eqn:Er; [|by apply safe_noteStranger].
  pose proof (sw_peer _ _ Hs _ Er) as Hl. destruct (Reply ping).
  - apply safe_gets. apply safe_bind; [by apply safe_measure|]. intros [latency|] m1 _ Hm1 Hq1; [|by apply safe_ret].
    apply safe_gets. apply safe_when; [done|]. intros _. apply safe_deref_live; [by apply (live_quiet m)|].
    intros p _. by apply safe_emit.
  - apply safe_gets. apply safe_bind; [by apply safe_heard|]. intros [] m1 _ Hm1 Hq1.
    apply safe_deref_live; [by apply (live_quiet m)|]. intros p _. apply safe_replyTo; [done|].
    by apply (source_wf_extends m), Hs; apply Hq1.
Qed.

Lemma safe_queue_inbound plaintext m : mesh_wf m → safe (queue_inbound plaintext) m.
Proof.
  intros Hm. apply safe_gets. destruct (Nat.leb_spec inboundCapacity (length (inbound m))); [by apply safe_drop|].
  apply safe_modify; [done|done|apply Hm| |apply Hm]. cbn. rewrite length_app. cbn. lia.
Qed.

Lemma safe_received r m : mesh_wf m → live m r →
  safe (update_peer r (λ p, p <| received := u64 (received p + 1) |>)) m.
Proof.
  intros Hm Hl. apply safe_update_plain; [done..|]. intros p []. split_and!; try done.
  split; cbn; auto with vlan.
Qed.

Lemma safe_handleData packet ct c src m : mesh_wf m → source_wf m src → is_u64 c →
  (HeaderSize ≤ length packet)%nat → safe (handleData packet ct c src) m.
Proof.
  intros Hm Hs Hc Hlen. unfold handleData. destruct (src_peer src) as [r|] eqn:Er.
  - apply safe_gets. rewrite slice_Ret by lia. pose proof (sw_peer _ _ Hs _ Er) as Hl.
    apply safe_bind; [by apply safe_accept|]. intros [e|pt] m1 _ Hm1 Hq1; [by apply safe_drop|].
    pose proof (live_quiet _ _ _ Hq1 Hl) as Hl1.
    apply safe_bind; [by apply safe_received|]. intros [] m2 _ Hm2 Hq2. pose proof (live_quiet _ _ _ Hq2 Hl1) as Hl2.
    apply safe_bind; [|intros [] m3 _ Hm3 _; by apply safe_queue_inbound].
    apply safe_answer_by_relay; [done|done|].
    apply (source_wf_extends m1); [apply Hq2|]. apply (source_wf_extends m); [apply Hq1|done].
  - apply safe_bind; [by apply safe_drop|]. intros [] m1 _ Hm1 _. by apply safe_noteStranger.
Qed.

Lemma safe_handleClose src m : mesh_wf m → source_wf m src → safe (handleClose src) m.
Proof.
  intros Hm Hs. unfold handleClose. destruct (src_peer src) as [r|] eqn:Er; [|by apply safe_ret].
  pose proof (sw_peer _ _ Hs _ Er) as Hl. apply safe_bind; [by apply safe_fail|]. intros failed m1 _ Hm1 Hq1.
  pose proof (live_quiet _ _ _ Hq1 Hl) as Hl1. apply safe_when; [done|]. intros _.
  apply safe_deref_live; [done|]. intros p _. apply safe_bind; [by apply safe_logf|]. intros [] m2 _ Hm2 Hq2.
  apply safe_report; [done|by apply (live_quiet m1)].
Qed.

Lemma steady_dispatch h packet payload src m :
  mesh_wf m → indexed m → source_wf m src → is_u64 (Counter h) → (HeaderSize ≤ length packet)%nat →
  steady (dispatch h packet payload src) m.
Proof.
  intros Hm Hi Hs Hc Hl. unfold dispatch. repeat split_guard.
  - by apply steady_handleHandshakeInit.
  - by apply steady_safe, safe_handleHandshakeResponse.
  - by apply steady_safe, safe_handleKeepalive.
  - by apply steady_safe, safe_handleData.
  - by apply steady_safe, safe_handleClose.
  - by apply steady_ret.
Qed.

Lemma safe_passOn carried from m : mesh_wf m → safe (passOn carried from) m.
Proof.
  intros Hm. unfold passOn. destruct (_ =? 0); [by apply safe_drop|]. apply safe_gets.
  destruct (byIP m !! _) as [r|] eqn:Hr; [|by apply safe_drop]. pose proof (mw_byIP _ Hm _ _ Hr) as Hl.
  apply safe_deref_live; [done|]. intros p _. destruct (bool_decide _ || _); [by apply safe_drop|].
  apply safe_bind; [by apply safe_forward|]. intros [e|[]] m1 _ Hm1 _; [by apply safe_drop|by apply safe_ret].
Qed.

Lemma steady_deliverForwarded carried relay m : mesh_wf m → indexed m → live m relay → is_bytes (Packet carried) →
  steady (deliverForwarded carried relay) m.
Proof.
  intros Hm Hi Hl Hb. apply steady_gets. destruct (byIP m !! _) as [r|] eqn:Hr; [|by apply steady_safe, safe_drop].
  case_decide; [by apply steady_safe, safe_drop|].
  destruct (Decode (Packet carried)) as [[h payload]|e|] eqn:Ed;
    [|by apply steady_safe, safe_drop|by destruct (Decode_not_Panic _ Ed)].
  destruct (Decode_wf _ _ _ Hb Ed) as [(_ & _ & _ & Hc) _]. destruct (Decode_length _ _ _ Ed) as [Hlen _].
  apply steady_dispatch; [done|done| |done|done].
  split; cbn; [intros ? [= <-]; by apply (mw_byIP _ Hm _ _ Hr)|by intros ? [= <-]|done].
Qed.

Lemma steady_handleForward packet ct c from m : mesh_wf m → indexed m → is_u64 c → is_bytes ct →
  (HeaderSize ≤ length packet)%nat → steady (handleForward packet ct c from) m.
Proof.
  intros Hm Hi Hc Hb Hlen. apply steady_gets. destruct (byUDP m !! from) as [relay|] eqn:Hr.
  - pose proof (mw_byUDP _ Hm _ _ Hr) as Hl. apply steady_gets. rewrite slice_Ret by lia.
    apply steady_bind; [by apply steady_safe, safe_accept|]. intros res m1 Hm1eq Hm1 Hi1 Hx1.
    destruct Hl as [p Hp]. destruct (with_peer_result _ _ _ _ _ _ Hp Hm1eq) as [Hres _].
    destruct res as [e|body]; [by apply steady_safe, safe_drop|].
    pose proof (accept_bytes _ _ _ _ _ _ Hb (eq_sym Hres)) as Hbody.
    destruct (DecodeForward body) as [carried|e|] eqn:Ed;
      [|by apply steady_safe, safe_drop|by destruct (DecodeForward_not_Panic _ Ed)].
    apply steady_gets. case_decide; [|by apply steady_safe, safe_passOn].
    apply steady_deliverForwarded; [done|done| |by eapply DecodeForward_bytes].
    apply (live_extends m); [done|by exists p].
  - apply steady_safe; [done..|]. apply safe_bind; [by apply safe_drop|]. intros [] m1 _ Hm1 _.
    by apply safe_noteStranger.
Qed.

Lemma steady_handle packet from m : mesh_wf m → indexed m → is_bytes packet → steady (handle packet from) m.
Proof.
  intros Hm Hi Hb. unfold handle. destruct (Looks packet); [by apply steady_safe, safe_handleStun|].
  destruct (Decode packet) as [[h payload]|e|] eqn:Ed;
    [|by apply steady_safe, safe_drop|by destruct (Decode_not_Panic _ Ed)].
  destruct (Decode_wf _ _ _ Hb Ed) as [(_ & _ & _ & Hc) _]. destruct (Decode_length _ _ _ Ed) as [Hlen Hpay].
  repeat split_guard.
  - by apply steady_safe, safe_handleProbe.
  - apply steady_handleForward; [done..| |done]. subst payload. by apply is_bytes_drop.
  - apply steady_gets. apply steady_dispatch; [done|done| |done|done].
    split; cbn; [intros r Hr; by apply (mw_byUDP _ Hm from)|done|by intros []].
Qed.
End handlers.
