(* ===== verification/MeshFrame.v ===== *)
(** What the mesh's operations leave alone.

    [frames R f]: whenever [f] ends, it ends in a mesh [R]-related to the one it
    started in, for a preorder [R].  Unlike [MeshWf.safe] this asks nothing of the
    starting mesh, so one pass over the operations serves every frame: the section
    takes [R] and how it fares on the primitive steps, and covers everything the
    daemon does on its own account: sending, punching, handshaking, relaying. *)
From S2P Require Import Prelude Bytes NetAddr Wire Stun Replay Session Netlog Ipc Peer Mesh Handle.

Create HintDb frame.

Section frames.
Context {N : Noise} {E : Env}.

Definition frames (R : Mesh → Mesh → Prop) {A} (f : prog Mesh A) : Prop :=
  ∀ m a m', f m = Some (a, m') → R m m'.

(** The same, given something of the starting mesh. *)
Definition frames_at (R : Mesh → Mesh → Prop) {A} (f : prog Mesh A) (m : Mesh) : Prop :=
  ∀ a m', f m = Some (a, m') → R m m'.

(** What [R] has to allow for the daemon's own operations to frame it. *)
Class Frame (R : Mesh → Mesh → Prop) : Prop := {
  fr_tick : frames R next_tick;
  fr_log l : frames R (logf l);
  fr_emit e : frames R (emit e);
  fr_drop r : frames R (drop_packet r);
  fr_wire to packet : frames R (modify (λ m, m <| wire := wire m ++ [(to, packet)] |>));
  fr_expect r token t : frames R (update_peer r (expect token t));
  fr_probe r t : frames R (update_peer r (λ p, p <| lastProbe := t |>));
  fr_nextCounter r : frames R (with_peer r nextCounter);
  fr_seal r dst ad body c : frames R (with_peer r (seal dst ad body c));
  fr_sent r : frames R (update_peer r (λ p, p <| sent := u64 (sent p + 1) |>));
}.

Section rules.
Context (R : Mesh → Mesh → Prop) `{!PreOrder R}.

Lemma frames_ret {A} (a : A) : frames R (mret a).
Proof. by intros m b m' [= _ <-]. Qed.

Lemma frames_panic {A} : frames R (panic (A := A)).
Proof. done. Qed.

Lemma frames_bind {A B} (f : prog Mesh A) (g : A → prog Mesh B) :
  frames R f → (∀ a, frames R (g a)) → frames R (f ≫= g).
Proof.
  intros Hf Hg m b m'. unfold mbind, prog_bind. destruct (f m) as [[a m1]|] eqn:E1; [|done].
  intros E2. etransitivity; [by apply (Hf m a)|by apply (Hg a m1 b)].
Qed.

Lemma frames_try {X A B} (f : prog Mesh (X + A)) (g : A → prog Mesh (X + B)) :
  frames R f → (∀ a, frames R (g a)) → frames R (try_bind f g).
Proof. intros Hf Hg. apply frames_bind; [done|]. intros [x|a]; [apply frames_ret|apply Hg]. Qed.

Lemma frames_gets {A} (f : Mesh → A) : frames R (gets f).
Proof. by intros m b m' [= _ <-]. Qed.

Lemma frames_deref r : frames R (deref r).
Proof. intros m p m'. unfold deref. case_match; by intros [= _ <-]. Qed.

Lemma frames_when b (f : prog Mesh unit) : frames R f → frames R (when b f).
Proof. intros Hf. destruct b; [done|apply frames_ret]. Qed.

Lemma frames_for_each {A} (xs : list A) (f : A → prog Mesh unit) :
  (∀ x, frames R (f x)) → frames R (for_each xs f).
Proof. intros Hf. induction xs as [|x xs IH]; cbn; [apply frames_ret|]. by apply frames_bind. Qed.

End rules.
End frames.
#[export] Hint Resolve frames_ret frames_panic frames_gets frames_deref : frame.

(** One step of the structure of a program. *)
Ltac frame_step :=
  match goal with
  | |- ∀ _, _ => intros ?
  | |- frames _ (let '(_, _) := ?x in _) => destruct x
  | |- frames _ (if ?b then _ else _) => destruct b
  | |- frames _ (match ?x with _ => _ end) => destruct x
  | |- frames _ (when _ _) => apply frames_when
  | |- frames _ (for_each _ _) => apply frames_for_each
  | |- frames _ (try_bind _ _) => apply frames_try
  | |- frames _ (_ ≫= _) => apply frames_bind
  | |- _ => progress cbv zeta
  end.
Ltac frame := repeat first [solve [auto 3 with frame] | frame_step].

Section own.
Context {N : Noise} {E : Env} (R : Mesh → Mesh → Prop) `{!PreOrder R, !Frame R}.
Hint Resolve fr_tick fr_log fr_emit fr_drop fr_wire fr_expect fr_probe fr_nextCounter fr_seal fr_sent : frame.

Lemma frame_randomSender : frames R randomSender.
Proof. unfold randomSender. frame. Qed.
Hint Resolve frame_randomSender : frame.

Lemma frame_randomToken : frames R randomToken.
Proof. unfold randomToken. frame. Qed.
Hint Resolve frame_randomToken : frame.

Lemma frame_WriteTo packet to : frames R (WriteToUDPAddrPort packet to).
Proof. unfold WriteToUDPAddrPort. frame. Qed.
Hint Resolve frame_WriteTo : frame.

Lemma frame_Peers : frames R Peers.
Proof. unfold Peers. frame. Qed.
Hint Resolve frame_Peers : frame.

Lemma frame_report r : frames R (report r).
Proof. unfold report. frame. Qed.
Hint Resolve frame_report : frame.

Lemma frame_of_go {A} (r : go wire_error A) : frames R (of_go r).
Proof. destruct r; cbn; frame. Qed.
Hint Resolve frame_of_go : frame.

Lemma frame_seal_packet r kind body : frames R (seal_packet r kind body).
Proof. unfold seal_packet. frame. Qed.
Hint Resolve frame_seal_packet : frame.

Lemma frame_forward relay carried : frames R (forward relay carried).
Proof. unfold forward. frame. Qed.
Hint Resolve frame_forward : frame.

Lemma frame_deliver r packet : frames R (deliver r packet).
Proof. unfold deliver. frame. Qed.
Hint Resolve frame_deliver : frame.

Lemma frame_sendData r packet : frames R (sendData r packet).
Proof. unfold sendData. frame. Qed.
Hint Resolve frame_sendData : frame.

Lemma frame_Send destination packet : frames R (Send destination packet).
Proof. unfold Send. frame. Qed.

Lemma frame_Broadcast packet : frames R (Broadcast packet).
Proof.
  unfold Broadcast. unshelve eapply frames_bind; [exact _|frame|]. intros all.
  induction all as [|r all IH]; cbn [broadcast_to]; frame; exact IH.
Qed.

Lemma frame_send r kind s c body : frames R (send r kind s c body).
Proof. unfold send. frame. Qed.
Hint Resolve frame_send : frame.

Lemma frame_sendTo to packet : frames R (sendTo to packet).
Proof. unfold sendTo. frame. Qed.
Hint Resolve frame_sendTo : frame.

Lemma frame_punch r : frames R (punch r).
Proof. unfold punch. frame. Qed.
Hint Resolve frame_punch : frame.

Lemma frame_sendKeepalive r : frames R (sendKeepalive r).
Proof. unfold sendKeepalive. frame. Qed.
Hint Resolve frame_sendKeepalive : frame.

Lemma frame_pick_relay r p all relay : frames R (pick_relay r p all relay).
Proof. revert relay; induction all as [|c all IH]; intros relay; cbn; frame; apply IH. Qed.
Hint Resolve frame_pick_relay : frame.

(** Opening a handshake, where [R] allows it. *)
Context (fr_attempt : ∀ r t, frames R (update_peer r (λ p, p <| handshakes := handshakes p + 1 |> <| lastHandshake := t |>)))
  (fr_handshake : ∀ r h, frames R (update_peer r (λ p, p <| handshake := h |>))).
Hint Resolve fr_attempt fr_handshake : frame.

Lemma frame_beginHandshake r : frames R (beginHandshake r).
Proof. unfold beginHandshake. frame. Qed.
Hint Resolve frame_beginHandshake : frame.

(** What a packet anybody can send makes the daemon do. *)
Context (fr_measure : ∀ r token t, frames R (with_peer r (measure token t)))
  (fr_heard : ∀ r t, frames R (update_peer r (heard t)))
  (fr_stranger : ∀ from, frames R (noteStranger from)).
Hint Resolve fr_measure fr_heard fr_stranger : frame.

Lemma frame_handleProbe payload from : frames R (handleProbe payload from).
Proof. unfold handleProbe, peerAt. frame. Qed.

Lemma frame_replyTo src kind s c body : frames R (replyTo src kind s c body).
Proof. unfold replyTo. frame. Qed.
Hint Resolve frame_replyTo : frame.

Lemma frame_handleKeepalive payload src : frames R (handleKeepalive payload src).
Proof. unfold handleKeepalive, keepalive_answered. frame. Qed.

Lemma frame_passOn carried from : frames R (passOn carried from).
Proof. unfold passOn. frame. Qed.
End own.
