(* ===== verification/MeshProps.v ===== *)
(** What the mesh guarantees: the theorems about daemon/mesh as a whole.

    A run is any sequence of the calls the daemon makes on a [Mesh], with whatever
    datagrams, addresses, keys and clock readings, against any environment. *)
From S2P Require Import Prelude Bytes NetAddr Wire Stun Replay Session Netlog Ipc Peer Mesh Handle MeshWf MeshSafe MeshFrame.

(** ** Runs *)
Section runs.
Context {N : Noise} {E : Env}.

Inductive mesh_call : Type :=
  | CHandle (packet : list Z) (from : AddrPort)
  | CAddPeer (deviceID nickname : gostring) (ip : Addr) (key : list Z) (e : AddrPort)
  | CSetPeerEndpoint (deviceID : gostring) (e : AddrPort)
  | CRestartLinks
  | CRetryPeer (deviceID : gostring)
  | CRemovePeer (deviceID : gostring)
  | CSend (destination : Addr) (packet : list Z)
  | CBroadcast (packet : list Z)
  | CMaintain (lastKeepalive : Z)
  | CAwaitStun (id : list Z)
  | CStopAwaitingStun (id : list Z)
  | CTakeInbound
  | CClock (t : Z).

Definition ignore {A} (f : prog Mesh A) : prog Mesh unit := f;; mret tt.

Definition run_call (c : mesh_call) : prog Mesh unit :=
  match c with
  | CHandle packet from => handle packet from
  | CAddPeer d n ip k e => ignore (AddPeer d n ip k e)
  | CSetPeerEndpoint d e => SetPeerEndpoint d e
  | CRestartLinks => RestartLinks
  | CRetryPeer d => ignore (RetryPeer d)
  | CRemovePeer d => RemovePeer d
  | CSend a p => ignore (Send a p)
  | CBroadcast p => ignore (Broadcast p)
  | CMaintain t => ignore (maintain_tick t)
  | CAwaitStun id => await_stun id
  | CStopAwaitingStun id => ignore (stop_awaiting_stun id)
  | CTakeInbound => ignore take_inbound
  | CClock t => modify (λ m, m <| now := t |>)
  end.

Definition run_calls (cs : list mesh_call) : prog Mesh unit := for_each cs run_call.

(** What the socket reads is bytes. *)
Definition call_wf (c : mesh_call) : Prop :=
  match c with CHandle packet _ => is_bytes packet | _ => True end.
End runs.

(** An environment to evaluate with. *)
#[export] Instance plain_env : Env (N := Plain.noise) := {|
  random64 n := Some (1000 + Z.of_nat n mod 2 ^ 32);
  entropy _ := (tt : @Random Plain.noise);
  writes _ := true;
  walk _ l := l;
|}.
#[export] Instance plain_env_laws : EnvLaws plain_env.
Proof.
  split; [|done]. intros n z [= <-]. pose proof (Z.mod_pos_bound (Z.of_nat n) (2 ^ 32)). unfold is_u64. lia.
Qed.

(** A mesh in it, with both callbacks set. *)
Definition plain_mesh (d : gostring) (ip : Addr) (key : list Z) : @Mesh Plain.noise :=
  New (N := Plain.noise) d ip (key : @Keypair Plain.noise) true true None 0.

(** Whether a run ends in a mesh passing a check. *)
Definition ends_in (cs : list mesh_call) (m : @Mesh Plain.noise) (check : @Mesh Plain.noise → bool) : bool :=
  match run_calls cs m with Some (_, m') => check m' | None => false end.

Lemma plain_run cs m check : ends_in cs m check = true → ∃ m', run_calls cs m = Some (tt, m') ∧ check m' = true.
Proof. unfold ends_in. destruct (run_calls cs m) as [[[] m']|]; [|done]. intros H. by exists m'. Qed.

Section run_lemmas.
Context {N : Noise} {E : Env} {L : NoiseLaws N} {EL : EnvLaws E}.

Lemma steady_ignore {A} (f : prog Mesh A) m : steady f m → steady (ignore f) m.
Proof. intros Hf. apply steady_bind; [done|]. intros a m' _ Hm Hi _. by apply steady_ret. Qed.

Lemma steady_modify_aux f m : mesh_wf m → indexed m → same_core m (f m) →
  (size (strangers (f m)) ≤ rememberStrangers)%nat → (length (inbound (f m)) ≤ inboundCapacity)%nat →
  (match packets (f m) with Some r => recorder_wf r | None => True end) → steady (modify f) m.
Proof. intros Hm Hi Hc Hs Hin Hp. apply steady_safe; [done..|]. by apply safe_modify. Qed.

Lemma steady_take_inbound m : mesh_wf m → indexed m → steady take_inbound m.
Proof.
  intros Hm Hi. apply steady_gets. pose proof (mw_inbound _ Hm) as Hlen.
  destruct (inbound m) as [|packet rest]; [by apply steady_ret|].
  apply steady_bind; [|intros [] m1 _ Hm1 Hi1 _; by apply steady_ret].
  apply steady_modify_aux; [done|done|done|apply Hm|cbn in *; lia|apply Hm].
Qed.

Lemma steady_run_call c m : mesh_wf m → indexed m → call_wf c → steady (run_call c) m.
Proof.
  intros Hm Hi Hc. destruct c; cbn [run_call call_wf] in *.
  - by apply steady_handle.
  - by apply steady_ignore, steady_AddPeer.
  - by apply steady_SetPeerEndpoint.
  - by apply steady_safe, safe_RestartLinks.
  - by apply steady_ignore, steady_safe, safe_RetryPeer.
  - by apply steady_RemovePeer.
  - by apply steady_ignore, steady_safe, safe_Send.
  - by apply steady_ignore, steady_safe, safe_Broadcast.
  - by apply steady_ignore, steady_safe, safe_maintain_tick.
  - by apply steady_modify_aux; try apply Hm.
  - apply steady_ignore, steady_gets. apply steady_bind; [by apply steady_modify_aux; try apply Hm|].
    intros [] m1 _ Hm1 Hi1 _. by apply steady_ret.
  - by apply steady_ignore, steady_take_inbound.
  - by apply steady_modify_aux; try apply Hm.
Qed.

Lemma steady_run_calls cs m : mesh_wf m → indexed m → Forall call_wf cs → steady (run_calls cs) m.
Proof.
  intros Hm Hi Hcs. revert m Hm Hi. induction Hcs as [|c cs Hc _ IH]; intros m Hm Hi; [by apply steady_ret|].
  apply steady_bind; [by apply steady_run_call|]. intros [] m' _ Hm' Hi' _. by apply IH.
Qed.

Lemma New_wf d ip k s l r t : match r with Some r => recorder_wf r | None => True end →
  mesh_wf (New d ip k s l r t) ∧ indexed (New d ip k s l r t).
Proof.
  intros Hr. split; split; cbn; try done; try (intros * H; by rewrite lookup_empty in H).
  - rewrite size_empty. unfold rememberStrangers. lia.
  - lia.
Qed.

Lemma run_calls_wf cs d ip k s l r t m : match r with Some r => recorder_wf r | None => True end →
  Forall call_wf cs → run_calls cs (New d ip k s l r t) = Some (tt, m) → mesh_wf m ∧ indexed m ∧ device m = d.
Proof.
  intros Hr Hcs Hrun. destruct (New_wf d ip k s l r t Hr) as [Hm Hi].
  pose proof (steady_run_calls cs _ Hm Hi Hcs) as Hs. unfold steady, wp in Hs. rewrite Hrun in Hs.
  destruct Hs as (? & ? & Hx). split_and!; [done..|apply Hx].
Qed.
End run_lemmas.

(** Two peers, the first of them answered and so open. *)
Definition plain_two : list mesh_call :=
  [CAddPeer [66] [] (Addr4 2) (replicate 32 2) (AddrPortFrom (Addr4 20) 9);
   CAddPeer [67] [] (Addr4 3) (replicate 32 3) (AddrPortFrom (Addr4 30) 9); CMaintain 0;
   CHandle (envelope MsgHandshakeResponse 7 0 [0; 1; 2]) (AddrPortFrom (Addr4 20) 9)].

Lemma plain_two_wf check :
  ends_in plain_two (plain_mesh [65] (Addr4 1) (replicate 32 1)) check = true →
  ∃ m, mesh_wf m ∧ check m = true.
Proof.
  intros H. destruct (plain_run plain_two _ check H) as (m & Hm & Hc). exists m. split; [clear H|exact Hc].
  apply (run_calls_wf plain_two [65] (Addr4 1) (replicate 32 1 : @Keypair Plain.noise) true true None 0 m I); [|exact Hm].
  repeat (constructor; [first [exact I|apply (bool_decide_unpack _); vm_compute; exact I]|]). constructor.
Qed.

(** ** Properties *)

(** C1: the mesh survives anything.  Whatever calls the daemon makes and whatever
    datagrams arrive, of any bytes from any address, in any order, with the socket
    and the random source failing as they like and maps walked in any order, no nil
    pointer is followed and no slice runs out of bounds; and at the end every link is
    well formed ([peer_wf]: its state tells the truth, and every session and
    handshake on it is with the key the coordination server named), every pointer in
    a table or a route leads to a peer, the lookup tables are exactly the peers, and
    what a stranger can make grow is bounded. *)
Theorem mesh_survives_anything {N : Noise} {E : Env} {L : NoiseLaws N} {EL : EnvLaws E} cs d ip k s l r t :
  match r with Some r => recorder_wf r | None => True end → Forall call_wf cs →
  ∃ m, run_calls cs (New d ip k s l r t) = Some (tt, m) ∧ mesh_wf m ∧ indexed m.
Proof.
  intros Hr Hcs. destruct (New_wf d ip k s l r t Hr) as [Hm Hi].
  pose proof (steady_run_calls cs _ Hm Hi Hcs) as Hs. unfold steady, wp in Hs.
  destruct (run_calls cs _) as [[[] m]|]; [|done]. exists m. by destruct Hs as (? & ? & _).
Qed.

Lemma mesh_survives_anything_witness :
  ∃ m, run_calls (N := Plain.noise)
    [CAddPeer [66] [] (Addr4 2) (replicate 32 2) (AddrPortFrom (Addr4 20) 9); CClock 5;
     CMaintain 0; CHandle [1; 2; 3] (AddrPortFrom (Addr4 20) 9);
     CHandle (envelope MsgClose 0 0 []) (AddrPortFrom (Addr4 20) 9); CRetryPeer [66]; CBroadcast [9]]
    (plain_mesh [65] (Addr4 1) (replicate 32 1)) = Some (tt, m) ∧ mesh_wf m ∧ indexed m.
Proof.
  apply mesh_survives_anything; [exact I|].
  repeat (constructor; [first [exact I|apply (bool_decide_unpack _); vm_compute; exact I]|]). constructor.
Defined.

(** One link never has two handshakes of its own in flight.  Of two devices that
    have each other as peers, whatever has happened to either, at most one is waiting
    for the answer to a handshake it opened. *)
Theorem only_one_side_initiates {N : Noise} {E : Env} {L : NoiseLaws N} {EL : EnvLaws E}
    csa csb a b ma mb ipa ipb ka kb sa sb la lb ta tb :
  a ≠ b → Forall call_wf csa → Forall call_wf csb →
  run_calls csa (New a ipa ka sa la None ta) = Some (tt, ma) →
  run_calls csb (New b ipb kb sb lb None tb) = Some (tt, mb) →
  ∀ rb pb ra pa, peers ma !! b = Some rb → store ma !! rb = Some pb →
    peers mb !! a = Some ra → store mb !! ra = Some pa →
    handshake pb = None ∨ handshake pa = None.
Proof.
  intros Hab Ha Hb Hma Hmb rb pb ra pa Hrb Hpb Hra Hpa.
  destruct (run_calls_wf _ _ _ _ _ _ None _ _ I Ha Hma) as (Hwa & _ & Hda).
  destruct (run_calls_wf _ _ _ _ _ _ None _ _ I Hb Hmb) as (Hwb & _ & Hdb).
  destruct (mw_peers _ Hwa _ _ Hrb) as (pb' & Hpb' & Hid). simplify_eq.
  destruct (mw_peers _ Hwb _ _ Hra) as (pa' & Hpa' & Hid'). simplify_eq.
  destruct (handshake pb) as [hb|] eqn:Eb; [|by left]. destruct (handshake pa) as [ha|] eqn:Ea; [|by right].
  pose proof (mw_initiates _ Hwa _ _ Hpb ltac:(rewrite Eb; eauto)) as H1.
  pose proof (mw_initiates _ Hwb _ _ Hpa ltac:(rewrite Ea; eauto)) as H2.
  destruct Hab. by apply bytes_lt_total; congruence.
Qed.

Lemma only_one_side_initiates_witness :
  ∃ ma mb : @Mesh Plain.noise, ∃ rb pb ra pa,
    store ma !! rb = Some pb ∧ store mb !! ra = Some pa ∧ is_Some (handshake pb)
    ∧ (handshake pb = None ∨ handshake pa = None).
Proof.
  set (csa := [CAddPeer [66] [] (Addr4 2) (replicate 32 2) (AddrPortFrom (Addr4 20) 9); CMaintain 0]).
  set (csb := [CAddPeer [65] [] (Addr4 1) (replicate 32 1) (AddrPortFrom (Addr4 10) 9); CMaintain 0]).
  destruct (plain_run csa (plain_mesh [65] (Addr4 1) (replicate 32 1))
    (λ m, match peers m !! [66], store m !! 1%positive with
          | Some 1%positive, Some p => bool_decide (is_Some (handshake p)) | _, _ => false end))
    as (ma & Ea & Ca); [vm_compute; reflexivity|].
  destruct (plain_run csb (plain_mesh [66] (Addr4 2) (replicate 32 2))
    (λ m, match peers m !! [65], store m !! 1%positive with
          | Some 1%positive, Some p => bool_decide (handshake p = None) | _, _ => false end))
    as (mb & Eb & Cb); [vm_compute; reflexivity|].
  destruct (peers ma !! [66]) as [[| |]|] eqn:Hra; try discriminate Ca.
  destruct (store ma !! 1%positive) as [pb|] eqn:Hpb; [|discriminate Ca].
  destruct (peers mb !! [65]) as [[| |]|] eqn:Hrb; try discriminate Cb.
  destruct (store mb !! 1%positive) as [pa|] eqn:Hpa; [|discriminate Cb].
  exists ma, mb, 1%positive, pb, 1%positive, pa.
  split; [exact Hpb|]. split; [exact Hpa|]. split; [by apply bool_decide_eq_true in Ca|].
  refine (only_one_side_initiates csa csb [65] [66] ma mb _ _ _ _ _ _ _ _ _ _ ltac:(discriminate)
    ltac:(by repeat constructor) ltac:(by repeat constructor) Ea Eb 1%positive pb 1%positive pa Hra Hpb Hrb Hpa).
Defined.
