(* ===== verification/PumpRun.v ===== *)
(** The packet loops over a run: they outlive any packet, the switch for LAN discovery
    governs both directions, and no member of a group is taken for everybody. *)
From S2P Require Import Prelude Bytes NetAddr NetText Storage Addressing Checksum Wire Session Replay Netlog Ipc Peer Mesh Handle Pump PumpProps MeshWf MeshSafe MeshFrame MeshProps.

Section runs.
Context {N : Noise} {E : Env}.

(** A run of both loops: their turns, the switch, and whatever else is called on the
    links meanwhile. *)
Inductive pump_step : Type :=
  | SOut (packet : list Z)
  | SIn (outcome : write_outcome)
  | SLan (enabled : bool)
  | SLinks (c : mesh_call).

Definition step_wf (s : pump_step) : Prop := match s with SLinks c => call_wf c | _ => True end.

Definition run_step (local everyone : Addr) (s : pump_step) : prog Pump unit :=
  match s with
  | SOut packet => pumpOut everyone packet
  | SIn outcome => pumpIn local everyone outcome
  | SLan enabled => modify (λ p : Pump, p <| lanDiscovery := enabled |>)
  | SLinks c => on_links (run_call c)
  end.

(** From the address of the adapter on: the broadcast address, then the loops. *)
Definition run_pump (address : Prefix) (steps : list pump_step) : prog Pump unit :=
  everyone ← pure (broadcastOf address);
  for_each steps (run_step (p_addr address) everyone).

(** Nothing has gone through yet. *)
Definition started (m : Mesh) (lan : bool) : Pump := mkPump m lan 0 0 [] true.
End runs.

(** ** Packets *)
Lemma put_Ret l i w : (i + length w ≤ length l)%nat → ∃ l', put l i w = Ret l' ∧ length l' = length l.
Proof.
  intros H. unfold put. rewrite (proj2 (Nat.leb_le _ _)) by done. eexists. split; [done|].
  rewrite !length_app, length_take, length_drop. lia.
Qed.

Lemma localisable_fits packet local h : localisable packet local = Ret (Some h) →
  Is4 local = true ∧ (20 ≤ h)%nat ∧ (h + 8 ≤ length packet)%nat.
Proof.
  unfold localisable. destruct (_ <? _)%nat; [done|]. intros E. apply go_bind_Ret in E as (first & _ & E).
  destruct (Is4 local); [|by rewrite orb_true_r in E]. destruct (negb (_ =? _)); [done|]. cbn [negb orb] in E.
  apply go_bind_Ret in E as (was & _ & E). destruct (negb (IsMulticast _)); [done|].
  apply go_bind_Ret in E as (protocol & _ & E). destruct (negb _); [done|].
  apply go_bind_Ret in E as (fragment & _ & E). destruct (negb _); [done|].
  destruct (_ || _) eqn:Eo; [done|]. injection E as <-. apply orb_false_iff in Eo as [H1%Nat.ltb_ge H2%Nat.ltb_ge]. done.
Qed.

(** Whatever is in the packet, rewriting returns, and the length stays. *)
Lemma localise_returns packet local :
  ∃ packet', localiseMulticast packet local = Ret packet' ∧ length packet' = length packet.
Proof.
  unfold localiseMulticast. destruct (localisable_total packet local) as [->|[h E]]; [by eexists|]. rewrite E.
  destruct (localisable_fits _ _ _ E) as (H4 & Hh & Hl). pose proof (length_As4 _ H4) as L4. cbn [mbind go_bind].
  rewrite slice_Ret by lia. cbn [mbind go_bind].
  destruct (put_Ret packet 16 (As4 local)) as (l1 & -> & L1); [lia|]. cbn [mbind go_bind].
  unfold word_at. rewrite slice_Ret by lia. cbn [mbind go_bind].
  match goal with |- context [put l1 10 ?w] => destruct (put_Ret l1 10 w) as (l2 & -> & L2) end.
  { rewrite length_be_encode. lia. }
  cbn [mbind go_bind]. rewrite slice_Ret by lia. cbn [mbind go_bind]. case_match; [exists l2; split; [done|lia]|].
  match goal with |- context [put l2 _ ?w] => destruct (put_Ret l2 (h + 6) w) as (l3 & -> & L3) end.
  { rewrite length_be_encode. lia. }
  exists l3. split; [done|lia].
Qed.

Lemma destination_returns packet :
  destinationOf packet = Ret None ∨ (minimumHeader ≤ length packet)%nat ∧ ∃ d, destinationOf packet = Ret (Some d).
Proof.
  unfold destinationOf. destruct (Nat.ltb_spec (length packet) minimumHeader) as [|Hl]; [by left|]. unfold minimumHeader in *.
  destruct (index_Ret (E:=unit) packet 0) as (first & -> & _); [lia|]. cbn [mbind go_bind].
  destruct (negb _); [by left|right]. split; [done|]. rewrite slice_Ret by lia. by eexists.
Qed.

Lemma source_returns packet : (minimumHeader ≤ length packet)%nat → ∃ a, sourceOf packet = Ret a.
Proof. unfold sourceOf, minimumHeader. intros. rewrite slice_Ret by lia. by eexists. Qed.

Section loops.
Context {N : Noise} {E : Env} {L : NoiseLaws N} {EL : EnvLaws E}.
Implicit Types p : Pump.

(** The links are in order, and the count says how many packets the adapter has had. *)
Record pump_wf (p : Pump) : Prop := mkPumpWf {
  pw_links : mesh_wf (links p);
  pw_indexed : indexed (links p);
  pw_in : packetsIn p = u64 (Z.of_nat (length (adapter p)));
}.
(** A step that keeps a pump in order. *)
Definition orderly {A} (f : prog Pump A) p : Prop := wp f (λ _ p', pump_wf p') p.

Lemma orderly_bind {A B} (f : prog Pump A) (g : A → prog Pump B) p :
  orderly f p → (∀ a p', f p = Some (a, p') → pump_wf p' → orderly (g a) p') → orderly (f ≫= g) p.
Proof.
  unfold orderly, wp, mbind, prog_bind. destruct (f p) as [[a p']|] eqn:Ef; [|done]. intros Hp Hg. by apply Hg.
Qed.

Lemma orderly_ret {A} (a : A) p : pump_wf p → orderly (mret a) p.
Proof. done. Qed.

Lemma orderly_on_links {A} (f : prog Mesh A) p : pump_wf p → (∀ m, mesh_wf m → indexed m → steady f m) → orderly (on_links f) p.
Proof.
  intros [H1 H2 H3] Hf. specialize (Hf _ H1 H2). unfold steady, orderly, wp, on_links in *.
  destruct (f (links p)) as [[a m]|]; [|done]. by destruct Hf as (? & ? & _).
Qed.

Lemma orderly_record c p : pump_wf p → orderly (record (λ r, (tt, Netlog.run_call c r))) p.
Proof.
  intros Hp. apply orderly_on_links; [done|]. intros m Hm Hi. apply steady_modify_aux; try done; try apply Hm.
  cbn. pose proof (mw_packets _ Hm) as Hr. destruct (packets m) as [r|].
  - by destruct (run_call_spec c r Hr) as (r' & -> & Hr' & _).
  - by destruct c.
Qed.

Lemma orderly_pure {A} (r : go unit A) a p : r = Ret a → pump_wf p → orderly (pure r) p.
Proof. by intros ->. Qed.

Lemma orderly_count_sent p : pump_wf p → orderly count_sent p.
Proof.
  intros Hp. apply orderly_bind; [by destruct Hp|]. intros [] p1 _ Hp1. by apply (orderly_record CSent).
Qed.

Lemma orderly_pumpOut everyone packet p : pump_wf p → orderly (pumpOut everyone packet) p.
Proof.
  intros Hp. unfold pumpOut. destruct (destination_returns packet) as [->|(_ & d & ->)].
  { by apply (orderly_record (CDrop NotIPv4)). }
  change (orderly (if forEveryone d everyone then
      lan ← gets (S:=Pump) lanDiscovery; if negb lan then mret tt else
      reached ← on_links (Broadcast packet);
      record (Shouted d reached (Z.of_nat (length packet)));; when (0 <? reached) count_sent
    else r ← on_links (Send d packet); match r with inl _ => mret tt | inr _ => count_sent end) p).
  destruct (forEveryone d everyone).
  - apply orderly_bind; [done|]. intros lan p1 _ Hp1. destruct (negb lan); [done|].
    apply orderly_bind; [apply orderly_on_links; [done|]; intros; by apply steady_safe, safe_Broadcast|].
    intros reached p2 _ Hp2. apply orderly_bind; [by apply (orderly_record (CShouted d reached _))|].
    intros [] p3 _ Hp3. destruct (0 <? reached); [by apply orderly_count_sent|done].
  - apply orderly_bind; [apply orderly_on_links; [done|]; intros; by apply steady_safe, safe_Send|].
    intros [e|[]] p1 _ Hp1; [done|by apply orderly_count_sent].
Qed.

Lemma orderly_inward local everyone packet p : pump_wf p → orderly (inward local everyone packet) p.
Proof.
  intros Hp. unfold inward. apply orderly_bind.
  { destruct (destination_returns packet) as [->|(_ & d & ->)]; done. }
  intros d p1 Ed Hp1. destruct d as [d|]; [|done]. destruct (forEveryone d everyone); [|done].
  destruct (destination_returns packet) as [E0|(Hl & d' & E0)]; rewrite E0 in Ed; [done|].
  destruct (source_returns packet Hl) as [a Ea]. apply orderly_bind; [by rewrite Ea|]. intros a' p2 _ Hp2.
  apply orderly_bind; [by apply (orderly_record (COverheard a' d _))|]. intros [] p3 _ Hp3.
  apply orderly_bind; [done|]. intros lan p4 _ Hp4. destruct (negb lan); [done|].
  destruct (localise_returns packet local) as (packet' & -> & _). done.
Qed.

Lemma orderly_pumpIn local everyone outcome p : pump_wf p → orderly (pumpIn local everyone outcome) p.
Proof.
  intros Hp. unfold pumpIn. apply orderly_bind; [done|]. intros running p1 _ Hp1. destruct (negb running); [done|].
  apply orderly_bind; [apply orderly_on_links; [done|]; intros; by apply steady_take_inbound|].
  intros [packet|] p2 _ Hp2; [|done]. apply orderly_bind; [by apply orderly_inward|]. intros packet' p3 _ Hp3.
  destruct outcome.
  - apply orderly_bind; [|intros [] p4 _ Hp4; by apply (orderly_record CReceived)].
    destruct Hp3 as [H1 H2 H3]. split; try done. cbn. rewrite H3, length_app. cbn. unfold u64.
    rewrite Zplus_mod_idemp_l. f_equal. lia.
  - by apply (orderly_record (CDrop AdapterFull)).
  - by destruct Hp3.
Qed.

Lemma orderly_run_step local everyone s p : pump_wf p → step_wf s → orderly (run_step local everyone s) p.
Proof.
  intros Hp Hs. destruct s; cbn [run_step step_wf] in *.
  - by apply orderly_pumpOut.
  - by apply orderly_pumpIn.
  - by destruct Hp.
  - apply orderly_on_links; [done|]. intros. by apply steady_run_call.
Qed.

End loops.

(** ** Addresses *)
Lemma adapterAddress_fits ip subnet address : adapterAddress ip subnet = inr address → Is4 (p_addr address) = true →
  ∃ v, p_addr address = Addr4 v ∧ 0 ≤ p_bits address ≤ 32.
Proof.
  unfold adapterAddress. destruct (ParseAddr ip) as [addr|]; [|done]. destruct (ParsePrefix subnet) as [prefix|]; [|done].
  destruct (Contains prefix addr) eqn:Ec; [|done]. intros [= <-] H4. cbn in *. destruct addr as [|v|]; try done.
  exists v. split; [done|]. unfold Contains, prefix_IsValid in Ec. cbn [BitLen] in Ec.
  rewrite !andb_true_iff in Ec. destruct Ec as [[[[[_ H1] H2] _] H3] _]. bool_lia. lia.
Qed.

(** Every host bit set: the last address of the subnet. *)
Lemma broadcast_is_last v bits : 0 ≤ v < 2 ^ 32 → 0 ≤ bits ≤ 32 →
  broadcastOf (PrefixFrom (Addr4 v) bits) = Ret (Addr4 (network (PrefixFrom (Addr4 v) bits) + 2 ^ (32 - bits) - 1)).
Proof.
  intros Hv Hb. unfold broadcastOf, network, Masked, prefix_IsValid. cbn [p_addr p_bits addr_IsValid BitLen Is4 negb].
  rewrite (proj2 (Z.leb_le 0 bits)), (proj2 (Z.leb_le bits 32)) by lia. cbn [andb p_addr Is4 negb orb addr_val As4].
  rewrite (proj2 (Z.ltb_ge bits 0)) by lia. unfold AddrFrom4. do 2 f_equal. set (n := 32 - bits) in *.
  assert (0 < 2 ^ n) as Hn by (apply Z.pow_pos_nonneg; lia).
  assert (Hp : ipv4_prefix (PrefixFrom (Addr4 v) bits)) by (by exists v).
  pose proof (network_range _ Hp) as [Hr0 Hr1]. unfold network, Masked, prefix_IsValid, subnet_size in Hr0, Hr1.
  cbn [p_addr p_bits addr_IsValid BitLen] in Hr0, Hr1.
  rewrite (proj2 (Z.leb_le 0 bits)), (proj2 (Z.leb_le bits 32)) in Hr0, Hr1 by lia. cbn [andb p_addr addr_val] in Hr0, Hr1.
  fold n in Hr0, Hr1. set (low := Z.shiftl (Z.shiftr v n) n) in *.
  assert (Z.shiftr (u32 (Z.lnot 0)) bits = Z.ones n) as ->.
  { change (u32 (Z.lnot 0)) with (Z.ones 32). rewrite Z.shiftr_div_pow2, Z.ones_div_pow2 by lia. done. }
  rewrite (be_roundtrip32 low) by (split; [lia|]; unfold n in *; lia).
  assert (Z.lor low (Z.ones n) = low + 2 ^ n - 1) as ->.
  { pose proof (Z.add_lor_land low (Z.ones n)) as Ha. rewrite Z.land_ones, Z.ones_equiv in Ha by lia. rewrite Z.ones_equiv.
    assert (low mod 2 ^ n = 0) as Hz by (unfold low; rewrite Z.shiftl_mul_pow2 by lia; apply Z.mod_mul; lia). lia. }
  apply be_roundtrip32. split; lia.
Qed.

(** Every address the adapter can have gives a broadcast address. *)
Lemma broadcast_returns ip subnet address : adapterAddress ip subnet = inr address → ∃ b, broadcastOf address = Ret b.
Proof.
  intros Ha. destruct (Is4 (p_addr address)) eqn:H4.
  - destruct (adapterAddress_fits _ _ _ Ha H4) as (v & Hv & Hb). unfold broadcastOf, Masked, prefix_IsValid. rewrite H4, Hv.
    cbn [p_addr p_bits addr_IsValid BitLen]. rewrite (proj2 (Z.leb_le 0 _)), (proj2 (Z.leb_le _ 32)) by lia.
    cbn [negb andb p_addr Is4 orb]. rewrite (proj2 (Z.ltb_ge _ 0)) by lia. by eexists.
  - exists AddrZero. unfold broadcastOf. by rewrite H4.
Qed.

(** The subnet seen from one of its addresses. *)
Lemma network_of_member p u : ipv4_prefix p → network p ≤ u < network p + subnet_size p →
  network (PrefixFrom (Addr4 u) (p_bits p)) = network p.
Proof.
  intros Hp Hu. pose proof (network_range p Hp). assert (Contains p (Addr4 u) = true) as Hc by (apply Contains_range; [done|lia..]).
  destruct Hp as (a & Ea & Ha & Hb). unfold network, Masked, Contains, prefix_IsValid in *. rewrite Ea in *.
  cbn [p_addr p_bits addr_IsValid BitLen addr_val] in *.
  rewrite (proj2 (Z.leb_le 0 _)), (proj2 (Z.leb_le _ 32)) in * by lia. cbn [andb p_addr addr_val] in *.
  rewrite !andb_true_iff in Hc. destruct Hc as [_ Hc]. apply Z.eqb_eq in Hc. by rewrite Hc.
Qed.

Lemma not_multicast p w : ipv4_prefix p → 4 ≤ p_bits p → IsMulticast (p_addr p) = false → Contains p (Addr4 w) = true →
  IsMulticast (Addr4 w) = false.
Proof.
  intros (a & Ea & Ha & Hb) H4 Hm Hc. unfold Contains in Hc. rewrite Ea in *. cbn [BitLen addr_val IsMulticast] in *.
  rewrite !andb_true_iff in Hc. destruct Hc as [_ Hc]. apply Z.eqb_eq in Hc.
  assert (∀ z, Z.shiftr z 28 = Z.shiftr (Z.shiftr z (32 - p_bits p)) (p_bits p - 4)) as Hsh.
  { intros z. rewrite Z.shiftr_shiftr by lia. f_equal. lia. }
  by rewrite Hsh, <-Hc, <-Hsh.
Qed.

(** ** Properties *)

(** C13: the packet loops outlive everything.  With the address the server gave and its
    group's subnet, whatever packets Windows hands over and whatever peers sent, of any
    bytes, however the adapter answers, with the switch for LAN discovery thrown at any
    moment and any call made on the links in between, neither loop panics; the links
    stay in order, and the count shown to the user is the number of packets the adapter
    took, modulo 2^64. *)
Theorem the_packet_loops_outlive_everything {N : Noise} {E : Env} {L : NoiseLaws N} {EL : EnvLaws E}
    ip subnet address steps d a k s l r t lan :
  adapterAddress ip subnet = inr address →
  match r with Some r => recorder_wf r | None => True end → Forall step_wf steps →
  ∃ p, run_pump address steps (started (New d a k s l r t) lan) = Some (tt, p)
    ∧ mesh_wf (links p) ∧ indexed (links p) ∧ packetsIn p = u64 (Z.of_nat (length (adapter p))).
Proof.
  intros Ha Hr Hs. destruct (broadcast_returns _ _ _ Ha) as [b Hb]. unfold run_pump.
  assert (pump_wf (started (New d a k s l r t) lan)) as Hp by (destruct (New_wf d a k s l r t Hr); by split).
  assert (orderly (for_each steps (run_step (p_addr address) b)) (started (New d a k s l r t) lan)) as Ho.
  { apply (wp_for_each pump_wf); [|done]. intros x p Hx Hpx. apply orderly_run_step; [done|].
    by apply (Forall_forall step_wf steps). }
  apply wp_run in Ho as ([] & p & Ho & [H1 H2 H3]). exists p. rewrite Hb. by split.
Qed.

(** Nobody in the group is everybody.  Take any group whose subnet is not in the
    multicast range, as the server's is not.  With the address of any host of it the
    adapter gets that address with the prefix length of the group, the broadcast address
    the loops compare with is the last of the subnet, and the address of no host at all
    is taken for everybody: packets between members are never copied to the others. *)
Theorem nobody_is_everybody subnet p u :
  ParsePrefix subnet = Some p → Is4 (p_addr p) = true → IsMulticast (p_addr p) = false → 4 ≤ p_bits p → host p u →
  adapterAddress (addr_String (Addr4 u)) subnet = inr (PrefixFrom (Addr4 u) (p_bits p))
  ∧ ∃ everyone, broadcastOf (PrefixFrom (Addr4 u) (p_bits p)) = Ret everyone
      ∧ everyone = Addr4 (network p + subnet_size p - 1)
      ∧ (∀ w, host p w → forEveryone (Addr4 w) everyone = false).
Proof.
  intros Hs H4 Hm H4b Hu. pose proof (ParsePrefix_ipv4 _ _ Hs H4) as Hp. destruct (host_Contains p Hp u Hu) as [Hr Hc].
  split; [unfold adapterAddress; by rewrite ParseAddr_String, Hs, Hc|].
  pose proof Hp as (a & Ea & Ha & Hb). exists (Addr4 (network p + subnet_size p - 1)).
  rewrite broadcast_is_last by done. split; [|split; [done|]].
  - do 2 f_equal. unfold subnet_size. do 2 f_equal. apply network_of_member; [done|]. unfold host in Hu. lia.
  - intros w Hw. unfold forEveryone, limitedBroadcast. rewrite (not_multicast p w), orb_false_r by (try apply host_Contains; done).
    pose proof (network_range p Hp). unfold host in *. rewrite !bool_decide_eq_false_2; [done| |].
    + intros [= E]. revert E. change (be_decode [255; 255; 255; 255]) with (2 ^ 32 - 1). lia.
    + intros [= E]. lia.
Qed.

(** What the adapter gets for a packet a peer sent. *)
Definition handed (lan : bool) (local everyone : Addr) (packet : list Z) : go unit (list Z) :=
  match destinationOf packet with
  | Ret (Some d) => if forEveryone d everyone && lan then localiseMulticast packet local else Ret packet
  | _ => Ret packet
  end.

Section switch.
Context {N : Noise} {E : Env} {L : NoiseLaws N} {EL : EnvLaws E}.

Lemma inward_hands local everyone packet p :
  ∃ packet' p', inward local everyone packet p = Some (packet', p') ∧ handed (lanDiscovery p) local everyone packet = Ret packet'
    ∧ adapter p' = adapter p ∧ carrying p' = carrying p ∧ inbound (links p') = inbound (links p).
Proof.
  unfold inward, handed. destruct (destination_returns packet) as [->|(Hl & d & ->)]; [by eexists _, _|].
  destruct (source_returns packet Hl) as [a Ea]. destruct (localise_returns packet local) as (packet' & El & _).
  unfold mbind, prog_bind. cbn [pure mret prog_ret]. destruct (forEveryone d everyone); [|by eexists _, _].
  rewrite Ea, El. cbn. destruct (lanDiscovery p); cbn; by eexists _, _.
Qed.

(** One switch for both directions, read for each packet.  With LAN discovery off, a
    packet for everybody that Windows hands over changes nothing at all; with it on, it
    goes to the links once, and counts once as sent if it reached anybody.  A packet
    from a peer reaches the adapter exactly as it came, unless it is for everybody and
    the switch is on: then it is the one made local.  When the adapter is full the
    packet is lost and the loop goes on; on any other failure it stops for good. *)
Theorem the_switch_governs_both_directions p local everyone packet :
  mesh_wf (links p) →
  (∀ d, destinationOf packet = Ret (Some d) → forEveryone d everyone = true →
     if lanDiscovery p then
       ∃ reached m p', Broadcast packet (links p) = Some (reached, m) ∧ pumpOut everyone packet p = Some (tt, p')
         ∧ wire (links p') = wire m ∧ store (links p') = store m
         ∧ packetsOut p' = (if 0 <? reached then u64 (packetsOut p + 1) else packetsOut p)
     else pumpOut everyone packet p = Some (tt, p))
  ∧ ∀ rest outcome, carrying p = true → inbound (links p) = packet :: rest →
      ∃ p', pumpIn local everyone outcome p = Some (tt, p') ∧ inbound (links p') = rest
        ∧ carrying p' = bool_decide (outcome ≠ WriteError)
        ∧ ∃ packet', handed (lanDiscovery p) local everyone packet = Ret packet'
            ∧ adapter p' = adapter p ++ (if decide (outcome = Written) then [packet'] else []).
Proof.
  intros Hm. split.
  - intros d Hd He. unfold pumpOut. rewrite Hd. unfold mbind, prog_bind. cbn [pure mret prog_ret]. rewrite He.
    unfold gets. destruct (lanDiscovery p); [|done]. cbn [negb].
    pose proof (safe_Broadcast packet _ Hm) as Hs. apply wp_run in Hs as (reached & m & Eb & _). unfold on_links. rewrite Eb.
    exists reached, m. destruct (0 <? reached); cbn; by eexists.
  - intros rest outcome Hc Hi. unfold pumpIn. unfold mbind at 1 2, prog_bind, gets. rewrite Hc. cbn [negb].
    unfold on_links at 1, take_inbound. unfold mbind at 1 2, prog_bind at 1 2, gets. rewrite Hi.
    unfold modify at 1, mret, prog_ret at 1. cbn [mbind prog_bind].
    set (p1 := p <| links := (links p) <| inbound := rest |> |>).
    destruct (inward_hands local everyone packet p1) as (packet' & p2 & E2 & Eh & Ea & Ec & Ei).
    unfold mbind, prog_bind. rewrite E2.
    assert (carrying p2 = true) as Ht by (rewrite Ec; exact Hc).
    destruct outcome; cbn; eexists; (split; [reflexivity|]); cbn; rewrite Ea, ?Ht;
      (split; [exact Ei|]); (split; [reflexivity|]); exists packet'; (split; [exact Eh|]);
      rewrite ?app_nil_r; reflexivity.
Qed.
End switch.

(** ** Witnesses *)
Lemma Ret_inj {F A} (a b : A) : Ret (E:=F) a = Ret b → b = a.
Proof. congruence. Qed.

Definition pump_home : Prefix := PrefixFrom (Addr4 0x0a450003) 24.

Lemma the_packet_loops_outlive_everything_witness :
  ∃ p, run_pump (N := Plain.noise) pump_home
    [SLinks (CAddPeer [66] [] (Addr4 0x0a450002) (replicate 32 2) (AddrPortFrom (Addr4 20) 9)); SOut [1; 2; 3];
     SOut announcement; SLinks (CHandle [1; 2; 3] (AddrPortFrom (Addr4 20) 9)); SLan false; SOut announcement; SIn Written]
    (started (plain_mesh [65] (Addr4 0x0a450003) (replicate 32 1)) true) = Some (tt, p)
    ∧ mesh_wf (links p) ∧ indexed (links p) ∧ packetsIn p = u64 (Z.of_nat (length (adapter p))).
Proof.
  apply (the_packet_loops_outlive_everything (str "10.69.0.3") (str "10.69.0.0/24")); [vm_compute; reflexivity|exact I|].
  repeat (constructor; [first [exact I|apply (bool_decide_unpack _); vm_compute; exact I]|]). constructor.
Defined.

Lemma nobody_is_everybody_witness :
  adapterAddress (str "10.69.0.3") (str "10.69.0.0/24") = inr pump_home
  ∧ ∃ everyone, broadcastOf pump_home = Ret everyone ∧ addr_String everyone = str "10.69.0.255"
      ∧ ∀ w, host (PrefixFrom (Addr4 0x0a450000) 24) w → forEveryone (Addr4 w) everyone = false.
Proof.
  destruct (nobody_is_everybody (str "10.69.0.0/24") (PrefixFrom (Addr4 0x0a450000) 24) 0x0a450003) as [Ha (b & Hb & E & H)].
  - vm_compute. reflexivity.
  - reflexivity.
  - reflexivity.
  - discriminate.
  - split; vm_compute; reflexivity.
  - split; [exact Ha|]. exists b. split; [exact Hb|]. split; [rewrite E; vm_compute; reflexivity|exact H].
Defined.

Lemma the_switch_governs_both_directions_witness :
  let m := (plain_mesh [65] (Addr4 0x0a450003) (replicate 32 1)) <| inbound := [announcement] |> in
  let p := started m true in
  ∃ p', pumpIn (Addr4 0x0a450003) (Addr4 0x0a4500ff) Written p = Some (tt, p')
    ∧ adapter p' = [readdressed announcement (Addr4 0x0a450003) 20 11]
    ∧ pumpOut (Addr4 0x0a4500ff) announcement (started m false) = Some (tt, started m false).
Proof.
  set (m := (plain_mesh [65] (Addr4 0x0a450003) (replicate 32 1)) <| inbound := [announcement] |>). cbv zeta.
  assert (mesh_wf m) as Hm.
  { destruct (New_wf (N := Plain.noise) [65] (Addr4 0x0a450003) (replicate 32 1 : @Keypair Plain.noise) true true None 0 I) as [Hm _].
    apply (same_core_wf _ _ Hm); [done|apply Hm|unfold inboundCapacity; cbn; lia|exact I]. }
  assert (destinationOf announcement = Ret (Some (AddrFrom4 [239; 255; 255; 250]))) as Hd by (vm_compute; reflexivity).
  assert (forEveryone (AddrFrom4 [239; 255; 255; 250]) (Addr4 0x0a4500ff) = true) as He by (vm_compute; reflexivity).
  destruct (the_switch_governs_both_directions (started m true) (Addr4 0x0a450003) (Addr4 0x0a4500ff) announcement Hm) as [_ H].
  destruct (H [] Written) as (p' & Hp & _ & _ & packet' & Hh & Hap); [reflexivity|reflexivity|].
  exists p'. split; [exact Hp|]. split.
  - rewrite Hap. assert (handed true (Addr4 0x0a450003) (Addr4 0x0a4500ff) announcement
      = Ret (readdressed announcement (Addr4 0x0a450003) 20 11)) as Eh by (vm_compute; reflexivity).
    change (lanDiscovery (started m true)) with true in Hh. rewrite Eh in Hh.
    by rewrite (Ret_inj _ _ Hh).
  - destruct (the_switch_governs_both_directions (started m false) (Addr4 0x0a450003) (Addr4 0x0a4500ff) announcement Hm) as [H' _].
    exact (H' _ Hd He).
Defined.
