(* ===== verification/Threads.v ===== *)
(** Goroutines that share a state under a mutex.

    A thread is what a goroutine does: atomic steps on the shared state (what it does
    between a Lock and its Unlock, or a call that happens at one instant) and [go]
    statements, with any other goroutine's steps in between, waits until something holds,
    and stretches in which it sits in the select of a loop until its context is over.  [alone] runs one thread to its end with nothing in between, the others moving
    only where it waits; [sched_step] is the interleaving of a pool of them; [keeps I] is the
    proof obligation under which every interleaving keeps [I]; [honest] is the one under
    which nobody waits forever.  A loop that a timer or the network drives goes round as
    often as that fires in the run at hand and then sits in its select, so a thread has an
    end to what it does and not to what it waits for: every run comes to where nobody can
    move ([every_run_ends]), and [honest] says that those left then are loops whose
    contexts go on ([covered_rests]). *)
From S2P Require Import Prelude.

#[local] Set Warnings "-register-all".

Inductive thread (S A : Type) : Type :=
  | Return (a : A)
  | Fault
  | Atom (f : S → thread S A * S)
  | Fork (child : thread S unit) (rest : thread S A)
  (** [<-done] *)
  | Await (ready : S → bool) (rest : thread S A)
  (** The select of a loop, when nothing else in it fires any more: [<-ctx.Done()]. *)
  | Idle (over : S → bool) (rest : thread S A).
Arguments Return {_ _} _.
Arguments Fault {_ _}.
Arguments Atom {_ _} _.
Arguments Fork {_ _} _ _.
Arguments Await {_ _} _ _.
Arguments Idle {_ _} _ _.

Fixpoint thread_bind_fix {S A B} (k : A → thread S B) (t : thread S A) : thread S B :=
  match t with
  | Return a => k a
  | Fault => Fault
  | Atom f => Atom (λ s, let '(t, s') := f s in (thread_bind_fix k t, s'))
  | Fork child rest => Fork child (thread_bind_fix k rest)
  | Await ready rest => Await ready (thread_bind_fix k rest)
  | Idle over rest => Idle over (thread_bind_fix k rest)
  end.
#[export] Instance thread_ret {S} : MRet (thread S) := λ A a, Return a.
#[export] Instance thread_bind {S} : MBind (thread S) := λ A B k t, thread_bind_fix k t.

(** What the others come to while one waits. *)
Class Meanwhile (S : Type) := meanwhile : S → S.

Section threads.
Context {S : Type}.

(** One critical section. *)
Definition locked {A} (m : prog S A) : thread S A :=
  Atom (λ s, match m s with Some (a, s') => (Return a, s') | None => (Fault, s) end).
Definition go_ (child : thread S unit) : thread S unit := Fork child (Return tt).
Definition whenT (b : bool) (t : thread S unit) : thread S unit := if b then t else Return tt.

Fixpoint eachT {A : Type} (xs : list A) (f : A → thread S unit) : thread S unit :=
  match xs with
  | [] => Return tt
  | x :: xs => f x ≫= λ _, eachT xs f
  end.

(** [x, err := t; if err != nil { return err }] *)
Definition try_thread {E A B} (t : thread S (E + A)) (k : A → thread S (E + B)) : thread S (E + B) :=
  t ≫= λ r, match r with inl e => Return (inl e) | inr a => k a end.

(** To the end with nothing in between; the threads it started are handed back.  Where
    it waits the others get on, and it never ends if that does not bring what it waits
    for; nor in a select whose context goes on. *)
Fixpoint alone {M : Meanwhile S} {A : Type} (t : thread S A) (s : S) : option (A * list (thread S unit) * S) :=
  match t with
  | Return a => Some (a, [], s)
  | Fault => None
  | Atom f => let '(t, s') := f s in alone t s'
  | Fork child rest => match alone rest s with Some (a, ts, s') => Some (a, child :: ts, s') | None => None end
  | Await ready rest =>
      let s := if ready s then s else meanwhile s in
      if ready s then alone rest s else None
  | Idle over rest => if over s then alone rest s else None
  end.

(** Threads one after the other, each with those it starts after it. *)
Fixpoint settle {M : Meanwhile S} (fuel : nat) (ts : list (thread S unit)) (s : S) : option S :=
  match fuel, ts with
  | _, [] => Some s
  | O, _ => None
  | Datatypes.S fuel, t :: ts =>
      match alone t s with
      | Some (_, more, s') => settle fuel (more ++ ts) s'
      | None => None
      end
  end.

(** ** Interleaving *)
Inductive sched_step : list (thread S unit) * S → list (thread S unit) * S → Prop :=
  | step_atom l1 f l2 s t s' : f s = (t, s') → sched_step (l1 ++ Atom f :: l2, s) (l1 ++ t :: l2, s')
  | step_fork l1 child rest l2 s : sched_step (l1 ++ Fork child rest :: l2, s) (l1 ++ rest :: l2 ++ [child], s)
  | step_await l1 ready rest l2 s : ready s = true → sched_step (l1 ++ Await ready rest :: l2, s) (l1 ++ rest :: l2, s)
  | step_idle l1 over rest l2 s : over s = true → sched_step (l1 ++ Idle over rest :: l2, s) (l1 ++ rest :: l2, s)
  | step_done l1 l2 s : sched_step (l1 ++ Return tt :: l2, s) (l1 ++ l2, s).

(** A given interleaving: which thread moves, each time. *)
Definition move (i : nat) (c : list (thread S unit) * S) : option (list (thread S unit) * S) :=
  match c.1 !! i with
  | Some (Atom f) => let '(t, s') := f c.2 in Some (<[i := t]> c.1, s')
  | Some (Fork child rest) => Some (<[i := rest]> c.1 ++ [child], c.2)
  | Some (Await ready rest) => if ready c.2 then Some (<[i := rest]> c.1, c.2) else None
  | Some (Idle over rest) => if over c.2 then Some (<[i := rest]> c.1, c.2) else None
  | Some (Return _) => Some (delete i c.1, c.2)
  | _ => None
  end.
Fixpoint moves (turns : list nat) (c : list (thread S unit) * S) : option (list (thread S unit) * S) :=
  match turns with
  | [] => Some c
  | i :: turns => move i c ≫= moves turns
  end.

End threads.

Notation "x ←! m ; k" := (try_thread m (λ x, k))
  (at level 100, m at level 90, k at level 200, right associativity).

(** ** What a thread may rely on

    [I] holds whenever nobody is inside a step, and the state only ever grows along [R].
    [yields Q s t]: from any state [s] has grown to, every step of [t] and of the threads
    it starts goes through, leaves [I] and grows the state, what it waits for is there when
    the others have got on, and what it returns satisfies [Q] there. *)
Section rely.
Context {S : Type} {M : Meanwhile S} (I : S → Prop) (R : relation S) `{!PreOrder R}.

Fixpoint yields {A : Type} (Q : A → S → Prop) (s0 : S) (t : thread S A) : Prop :=
  match t with
  | Return a => Q a s0
  | Fault => False
  | Atom f => ∀ s, I s → R s0 s → I (f s).2 ∧ R s (f s).2 ∧ yields Q (f s).2 (f s).1
  | Fork child rest => yields (λ _ _, True) s0 child ∧ yields Q s0 rest
  | Await ready rest =>
      (∀ s, I s → R s0 s → ready s = false → I (meanwhile s) ∧ R s (meanwhile s) ∧ ready (meanwhile s) = true)
      ∧ yields Q s0 rest
  | Idle _ rest => yields Q s0 rest
  end.
Definition keeps {A} (s : S) (t : thread S A) : Prop := yields (λ _ _, True) s t.

(** What stays true as the state grows. *)
Definition stable (P : S → Prop) : Prop := ∀ s s', R s s' → P s → P s'.

Lemma stable_True : stable (λ _, True).
Proof. done. Qed.

Fixpoint yields_grow {A : Type} (Q : A → S → Prop) (s s' : S) (t : thread S A) :
  (∀ a, stable (Q a)) → R s s' → yields Q s t → yields Q s' t.
Proof using PreOrder0.
  destruct t as [a| |f|child rest|ready rest|over rest]; cbn; intros HQ Hr.
  - by apply HQ.
  - done.
  - intros Ht s1 H1 Hs. apply Ht; [done|]. by transitivity s'.
  - intros [Hc Ht]. split; [|exact (yields_grow _ Q s s' rest HQ Hr Ht)].
    exact (yields_grow _ (λ _ _, True) s s' child (λ _, stable_True) Hr Hc).
  - intros [Hw Ht]. split; [|exact (yields_grow _ Q s s' rest HQ Hr Ht)].
    intros s1 H1 Hs. apply Hw; [done|]. by transitivity s'.
  - intros Ht. exact (yields_grow _ Q s s' rest HQ Hr Ht).
Qed.

Lemma keeps_grow {A} (s s' : S) (t : thread S A) : R s s' → keeps s t → keeps s' t.
Proof using PreOrder0. apply yields_grow. intros _. apply stable_True. Qed.

Fixpoint yields_mono {A : Type} (P Q : A → S → Prop) (s : S) (t : thread S A) :
  yields P s t → (∀ a s', R s s' → P a s' → Q a s') → yields Q s t.
Proof using PreOrder0.
  destruct t as [a| |f|child rest|ready rest|over rest]; cbn.
  - intros HP HQ. apply HQ; [done|exact HP].
  - done.
  - intros Ht HQ s1 H1 Hs. destruct (Ht s1 H1 Hs) as (H2 & Hr & Ht'). split; [done|]. split; [done|].
    apply (yields_mono _ P Q _ _ Ht'). intros a s' Hs'. apply HQ. transitivity s1; [done|]. by transitivity (f s1).2.
  - intros [Hc Ht] HQ. split; [done|]. exact (yields_mono _ P Q s rest Ht HQ).
  - intros [Hw Ht] HQ. split; [done|]. exact (yields_mono _ P Q s rest Ht HQ).
  - intros Ht HQ. exact (yields_mono _ P Q s rest Ht HQ).
Qed.

Fixpoint yields_bind {A B : Type} (P : A → S → Prop) (Q : B → S → Prop) (s : S) (t : thread S A) (k : A → thread S B) :
  yields P s t → (∀ a s', R s s' → P a s' → yields Q s' (k a)) → yields Q s (t ≫= k).
Proof using PreOrder0.
  destruct t as [a| |f|child rest|ready rest|over rest]; cbn.
  - intros Ha Hk. apply Hk; [done|exact Ha].
  - done.
  - intros Ht Hk s1 H1 Hs. destruct (Ht s1 H1 Hs) as (H2 & Hr & Ht').
    pose proof (yields_bind _ _ P Q _ (f s1).1 k Ht') as IH. destruct (f s1) as [t s2]. split; [done|]. split; [done|].
    apply IH. intros a s' Hs'. apply Hk. transitivity s1; [done|]. by transitivity s2.
  - intros [Hc Ht] Hk. split; [done|]. exact (yields_bind _ _ P Q s rest k Ht Hk).
  - intros [Hw Ht] Hk. split; [done|]. exact (yields_bind _ _ P Q s rest k Ht Hk).
  - intros Ht Hk. exact (yields_bind _ _ P Q s rest k Ht Hk).
Qed.

Lemma keeps_then {A B} (s : S) (t : thread S A) (k : A → thread S B) :
  keeps s t → (∀ a s', R s s' → keeps s' (k a)) → keeps s (t ≫= k).
Proof using PreOrder0. intros Ht Hk. apply (yields_bind _ _ _ _ _ Ht). intros a s' Hs _. by apply Hk. Qed.

Lemma keeps_try {F A B} (s : S) (t : thread S (F + A)) (k : A → thread S (F + B)) :
  keeps s t → (∀ a s', R s s' → keeps s' (k a)) → keeps s (try_thread t k).
Proof using PreOrder0. intros Ht Hk. apply keeps_then; [done|]. intros [e|a] s' Hs; [exact Logic.I|by apply Hk]. Qed.

Lemma yields_keeps {A} (Q : A → S → Prop) (s : S) (t : thread S A) : yields Q s t → keeps s t.
Proof using PreOrder0. intros Ht. by apply (yields_mono _ _ _ _ Ht). Qed.

Lemma keeps_Return {A} (a : A) s : keeps s (Return a).
Proof. exact Logic.I. Qed.

Lemma yields_locked {A} (Q : A → S → Prop) (m : prog S A) (s0 : S) :
  (∀ s, I s → R s0 s → wp m (λ a s', I s' ∧ R s s' ∧ Q a s') s) → yields Q s0 (locked m).
Proof.
  intros Hm s Hs Hr. specialize (Hm s Hs Hr). unfold wp in Hm. destruct (m s) as [[a s']|]; [|done]. exact Hm.
Qed.

Lemma keeps_locked {A} (m : prog S A) (s0 : S) :
  (∀ s, I s → R s0 s → wp m (λ _ s', I s' ∧ R s s') s) → keeps s0 (locked m).
Proof.
  intros Hm. apply yields_locked. intros s Hs Hr. eapply wp_mono; [by apply Hm|]. intros a s' [? ?]. by split_and!.
Qed.

Lemma keeps_each {A} (xs : list A) (f : A → thread S unit) (s : S) :
  (∀ x s', x ∈ xs → R s s' → keeps s' (f x)) → keeps s (eachT xs f).
Proof using PreOrder0.
  revert s. induction xs as [|x xs IH]; intros s Hf; [exact Logic.I|].
  apply keeps_then; [apply Hf; [by left|done]|]. intros _ s' Hs. apply IH. intros y s'' Hy Hs'.
  apply Hf; [by right|]. by transitivity s'.
Qed.

Lemma keeps_when (b : bool) (t : thread S unit) s : (b = true → keeps s t) → keeps s (whenT b t).
Proof. destruct b; cbn; intros Ht; [by apply Ht|exact Logic.I]. Qed.

Lemma keeps_await (ready : S → bool) s :
  (∀ s', I s' → R s s' → ready s' = false → I (meanwhile s') ∧ R s' (meanwhile s') ∧ ready (meanwhile s') = true) →
  keeps s (Await ready (Return tt)).
Proof. intros Hw. by split. Qed.

Lemma keeps_go (t : thread S unit) s : keeps s t → keeps s (go_ t).
Proof. intros Ht. split; [exact Ht|exact Logic.I]. Qed.

(** Every interleaving of threads that keep [I] keeps it, and none of them panics. *)
Lemma sched_keeps ts s ts' s' : Forall (keeps s) ts → I s → rtc sched_step (ts, s) (ts', s') →
  I s' ∧ R s s' ∧ Forall (keeps s') ts'.
Proof using PreOrder0.
  intros Hts Hs Hr. remember (ts, s) as c eqn:Ec. remember (ts', s') as c' eqn:Ec'.
  revert ts s Hts Hs Ec ts' s' Ec'. induction Hr as [c|c c1 c2 Hstep _ IH]; intros ts s Hts Hs -> ts' s'.
  { intros [= <- <-]. done. }
  intros ->. inversion Hstep as [l1 f l2 s0 t s1 Hf E1 E2|l1 child rest l2 s0 E1 E2|l1 ready rest l2 s0 _ E1 E2|l1 over rest l2 s0 _ E1 E2|l1 l2 s0 E1 E2]; subst.
  - apply Forall_app in Hts as [H1 [Hh H2]%Forall_cons]. destruct (Hh s Hs) as (Hs1 & Hr1 & Ht); [done|].
    rewrite Hf in Hs1, Hr1, Ht. cbn [fst snd] in Hs1, Hr1, Ht.
    assert (∀ l : list (thread S unit), Forall (keeps s) l → Forall (keeps s1) l) as Hg
      by (intros l Hl; apply (Forall_impl _ _ _ Hl); intros; by apply (keeps_grow s)).
    destruct (IH (l1 ++ t :: l2) s1) with (ts' := ts') (s' := s') as (? & ? & ?); [|done..|].
    { apply Forall_app; split; [by apply Hg|]. constructor; [exact Ht|by apply Hg]. }
    split; [done|]. split; [by transitivity s1|done].
  - apply Forall_app in Hts as [H1 [[Hc Ht] H2]%Forall_cons]. eapply IH; [|exact Hs|done|done].
    apply Forall_app; split; [done|]. constructor; [exact Ht|]. apply Forall_app. split; [done|]. by constructor.
  - apply Forall_app in Hts as [H1 [[_ Ht] H2]%Forall_cons]. eapply IH; [|exact Hs|done|done].
    apply Forall_app; split; [done|]. by constructor.
  - apply Forall_app in Hts as [H1 [Ht H2]%Forall_cons]. eapply IH; [|exact Hs|done|done].
    apply Forall_app; split; [done|]. by constructor.
  - apply Forall_app in Hts as [H1 [_ H2]%Forall_cons]. eapply IH; [|exact Hs|done|done]. by apply Forall_app.
Qed.

(** What it can return at all, wherever it gets to. *)
Fixpoint results {A : Type} (P : A → Prop) (t : thread S A) : Prop :=
  match t with
  | Return a => P a
  | Fault => True
  | Atom f => ∀ s, results P (f s).1
  | Fork _ rest | Await _ rest | Idle _ rest => results P rest
  end.
Fixpoint results_bind {A B : Type} (P : B → Prop) (t : thread S A) (k : A → thread S B) : (∀ a, results P (k a)) → results P (t ≫= k).
Proof.
  intros Hk. destruct t as [a| |f|child rest|ready rest|over rest]; [apply Hk|exact Logic.I| |exact (results_bind _ _ P rest k Hk)..].
  intros s. pose proof (results_bind _ _ P (f s).1 k Hk) as Hf. by destruct (f s).
Qed.
Fixpoint yields_results {A : Type} (P : A → Prop) (s : S) (t : thread S A) : keeps s t → results P t → yields (λ a _, P a) s t.
Proof.
  destruct t as [a| |f|child rest|ready rest|over rest]; intros Ht Hp; [exact Hp|destruct Ht| | | |].
  - intros s1 H1 Hs. destruct (Ht s1 H1 Hs) as (? & ? & Hf). split; [done|]. split; [done|]. exact (yields_results _ P _ _ Hf (Hp s1)).
  - destruct Ht as [Hc Hr]. split; [exact Hc|exact (yields_results _ P s rest Hr Hp)].
  - destruct Ht as [Hw Hr]. split; [exact Hw|exact (yields_results _ P s rest Hr Hp)].
  - exact (yields_results _ P s rest Ht Hp).
Qed.

Lemma keeps_not_Fault ts s : Forall (keeps s) ts → (Fault : thread S unit) ∉ ts.
Proof. intros Hts Hin. rewrite Forall_forall in Hts. by apply Hts in Hin. Qed.
End rely.

Lemma insert_middle {A} (l1 l2 : list A) x y : <[length l1 := y]> (l1 ++ x :: l2) = l1 ++ y :: l2.
Proof. rewrite insert_app_r_alt, Nat.sub_diag by lia. done. Qed.

(** A given interleaving is one. *)
Lemma move_step {S} i (c c' : list (thread S unit) * S) : move i c = Some c' → sched_step c c'.
Proof.
  destruct c as [ts s]. unfold move. cbn [fst snd]. destruct (ts !! i) as [t|] eqn:Ei; [|done].
  apply list_elem_of_split_length in Ei as (l1 & l2 & -> & ->).
  destruct t as [[]| |f|child rest|ready rest|over rest];
    [|done|destruct (f s) as [t s'] eqn:Ef| |destruct (ready s) eqn:Ew; [|done]|destruct (over s) eqn:Ew; [|done]]; intros [= <-].
  - rewrite delete_middle. apply step_done.
  - rewrite insert_middle. by apply step_atom.
  - rewrite insert_middle, <-app_assoc. apply step_fork.
  - rewrite insert_middle. by apply step_await.
  - rewrite insert_middle. by apply step_idle.
Qed.

Lemma moves_steps {S} turns (c c' : list (thread S unit) * S) : moves turns c = Some c' → rtc sched_step c c'.
Proof.
  revert c. induction turns as [|i turns IH]; intros c; cbn; [by intros [= ->]|].
  destruct (move i c) as [c1|] eqn:E1; [|done]. cbn. intros H. eapply rtc_l; [by apply (move_step i)|by apply IH].
Qed.

(** One thread until it is done, or sits in a select. *)
Fixpoint through {S} (fuel : nat) (i : nat) (c : list (thread S unit) * S) : option (list (thread S unit) * S) :=
  match fuel with
  | O => None
  | Datatypes.S fuel =>
      match c.1 !! i with
      | Some (Return _) => move i c
      | Some (Idle over _) => if over c.2 then move i c ≫= through fuel i else Some c
      | Some _ => move i c ≫= through fuel i
      | None => None
      end
  end.

Lemma through_steps {S} fuel i (c c' : list (thread S unit) * S) : through fuel i c = Some c' → rtc sched_step c c'.
Proof.
  revert c. induction fuel as [|fuel IH]; intros c; [done|]. cbn [through].
  assert (move i c ≫= through fuel i = Some c' → rtc sched_step c c') as Hgo.
  { destruct (move i c) as [c1|] eqn:E1; [|done]. cbn. intros Hc. eapply rtc_l; [by apply (move_step i)|by apply IH]. }
  destruct (c.1 !! i) as [[| | | | |over rest]|]; try done; [intros Hc; by apply rtc_once, (move_step i)|].
  destruct (over c.2); [done|]. by intros [= ->].
Qed.

(** Turns of which each is a thread and how many steps it takes, or none for all it has. *)
Fixpoint follow {S} (turns : list (nat * option nat)) (c : list (thread S unit) * S) : option (list (thread S unit) * S) :=
  match turns with
  | [] => Some c
  | (i, Some n) :: turns => moves (replicate n i) c ≫= follow turns
  | (i, None) :: turns => through 1000 i c ≫= follow turns
  end.

Lemma follow_steps {S} turns (c c' : list (thread S unit) * S) : follow turns c = Some c' → rtc sched_step c c'.
Proof.
  revert c. induction turns as [|[i [n|]] turns IH]; intros c; cbn [follow]; [by intros [= ->]|..].
  - destruct (moves _ c) as [c1|] eqn:E1; [|done]. intros Hc. etransitivity; [by eapply moves_steps|by apply IH].
  - destruct (through _ i c) as [c1|] eqn:E1; [|done]. intros Hc. etransitivity; [by eapply through_steps|by apply IH].
Qed.

(** ** Running alone *)
Lemma alone_bind {S} {M : Meanwhile S} {A B} (t : thread S A) (k : A → thread S B) s :
  alone (t ≫= k) s =
  match alone t s with
  | Some (a, ts, s1) => match alone (k a) s1 with Some (b, ts', s2) => Some (b, ts ++ ts', s2) | None => None end
  | None => None
  end.
Proof.
  revert B k s. enough (∀ A (t : thread S A), ∀ B (k : A → thread S B) s, alone (thread_bind_fix k t) s =
    match alone t s with
    | Some (a, ts, s1) => match alone (k a) s1 with Some (b, ts', s2) => Some (b, ts ++ ts', s2) | None => None end
    | None => None
    end) as Hgo by (intros; apply Hgo).
  clear. fix IH 2. intros A t B k s. destruct t as [a| |f|child rest|ready rest|over rest]; cbn.
  - by destruct (alone (k a) s) as [[[b ts] s2]|].
  - done.
  - pose proof (IH _ (f s).1) as IHf. destruct (f s) as [t s1]. apply IHf.
  - rewrite IH. destruct (alone rest s) as [[[a ts] s1]|]; [|done]. by destruct (alone (k a) s1) as [[[b ts'] s2]|].
  - cbv zeta. destruct (ready _); [apply IH|done].
  - destruct (over s); [apply IH|done].
Qed.

Lemma alone_then {S} {M : Meanwhile S} {A B} (t : thread S A) (k : A → thread S B) s a s1 :
  alone t s = Some (a, [], s1) → alone (t ≫= k) s = alone (k a) s1.
Proof. intros E. rewrite alone_bind, E. by destruct (alone (k a) s1) as [[[b ts] s2]|]. Qed.

Lemma alone_locked {S} {M : Meanwhile S} {A} (m : prog S A) s a s1 : m s = Some (a, s1) → alone (locked m) s = Some (a, [], s1).
Proof. intros E. unfold locked. cbn [alone]. by rewrite E. Qed.

(** Whether a thread never sits in a select; those it starts may. *)
Fixpoint returns {S A} (t : thread S A) : Prop :=
  match t with
  | Return _ | Fault => True
  | Atom f => ∀ s, returns (f s).1
  | Fork _ rest | Await _ rest => returns rest
  | Idle _ _ => False
  end.
Fixpoint returns_bind {S A B} (t : thread S A) (k : A → thread S B) : returns t → (∀ a, returns (k a)) → returns (t ≫= k).
Proof.
  intros Ht Hk. destruct t as [a| |f|child rest|ready rest|over rest]; cbn in *.
  - apply Hk.
  - done.
  - intros s. pose proof (returns_bind _ _ _ (f s).1 k (Ht s) Hk) as H. by destruct (f s).
  - exact (returns_bind _ _ _ rest k Ht Hk).
  - exact (returns_bind _ _ _ rest k Ht Hk).
  - done.
Qed.
Lemma returns_locked {S A} (m : prog S A) : returns (locked m).
Proof. intros s. by destruct (m s) as [[a s']|]. Qed.
Lemma returns_each {S A} (xs : list A) (f : A → thread S unit) : (∀ x, returns (f x)) → returns (eachT xs f).
Proof. intros Hf. induction xs as [|x xs IH]; [done|]. by apply returns_bind. Qed.

(** Where a thread that keeps [I] gets to by itself: to its end. *)
Fixpoint yields_alone {S} {M : Meanwhile S} (I : S → Prop) (R : relation S) `{!PreOrder R} {A} (t : thread S A) s Q : I s → returns t → yields I R Q s t →
  ∃ a ts s', alone t s = Some (a, ts, s') ∧ I s' ∧ R s s' ∧ Forall (keeps I R s') ts.
Proof.
  intros Hs Hn. destruct t as [b| |f|child rest|ready rest|over rest]; cbn.
  - intros _. by exists b, [], s.
  - done.
  - intros Ht. destruct (Ht s Hs) as (Hs' & Hr & Ht'); [done|].
    destruct (yields_alone _ _ I R _ _ (f s).1 _ _ Hs' (Hn s) Ht') as (a & ts & s' & E & Hi & Hr' & Hts). exists a, ts, s'.
    destruct (f s) as [t s1]. split; [exact E|]. split; [done|]. split; [by transitivity s1|done].
  - intros [Hc Ht]. destruct (yields_alone _ _ I R _ _ rest _ _ Hs Hn Ht) as (a & ts & s' & E & Hi & Hr & Hts).
    exists a, (child :: ts), s'. rewrite E. split_and!; [done..|]. constructor; [|done]. by apply (keeps_grow I R s).
  - intros [Hw Ht]. destruct (ready s) eqn:Er; [rewrite Er; exact (yields_alone _ _ I R _ _ rest s Q Hs Hn Ht)|].
    destruct (Hw s Hs ltac:(done) Er) as (Hs' & Hr & ->).
    assert (yields I R (λ _ _, True) (meanwhile s) rest) as Ht'.
    { apply (yields_grow I R _ s); [intros _; apply stable_True|done|by apply (yields_keeps I R Q)]. }
    destruct (yields_alone _ _ I R _ _ rest _ _ Hs' Hn Ht') as (a & ts & s' & E & Hi & Hr' & Hts). exists a, ts, s'.
    split; [exact E|]. split; [done|]. split; [by transitivity (meanwhile s)|done].
  - by destruct Hn.
Qed.
Lemma keeps_alone {S} {M : Meanwhile S} (I : S → Prop) (R : relation S) `{!PreOrder R} {A} (t : thread S A) s : I s → returns t → keeps I R s t →
  ∃ a ts s', alone t s = Some (a, ts, s') ∧ I s' ∧ R s s' ∧ Forall (keeps I R s') ts.
Proof. apply yields_alone, _. Qed.

(** ** Every run ends *)
Section ends.
Context {S : Type}.

(** What a step puts in the place of a thread. *)
Inductive replaced : thread S unit → list (thread S unit) → Prop :=
  | replaced_atom f s : replaced (Atom f) [(f s).1]
  | replaced_fork child rest : replaced (Fork child rest) [rest; child]
  | replaced_await ready rest : replaced (Await ready rest) [rest]
  | replaced_idle over rest : replaced (Idle over rest) [rest]
  | replaced_done : replaced (Return tt) [].

(** A step as the pool sees it, the state and the order left out. *)
Definition shrinks (ts' ts : list (thread S unit)) : Prop :=
  ∃ t l by_, ts ≡ₚ t :: l ∧ replaced t by_ ∧ ts' ≡ₚ by_ ++ l.

Lemma step_shrinks ts s ts' s' : sched_step (ts, s) (ts', s') → shrinks ts' ts.
Proof.
  intros Hs. inversion Hs as [l1 f l2 s0 t s1 Hf E1 E2|l1 child rest l2 s0 E1 E2|l1 ready rest l2 s0 _ E1 E2|l1 over rest l2 s0 _ E1 E2|l1 l2 s0 E1 E2]; subst.
  - eexists _, (l1 ++ l2), [t]. split; [by rewrite Permutation_middle|]. split; [|by rewrite <-Permutation_middle].
    replace t with (f s).1 by by rewrite Hf. constructor.
  - eexists _, (l1 ++ l2), [rest; child]. split; [by rewrite Permutation_middle|]. split; [constructor|].
    rewrite (Permutation_app_comm l2 [child]). cbn. rewrite <-!Permutation_middle. done.
  - eexists _, (l1 ++ l2), [rest]. split; [by rewrite Permutation_middle|]. split; [constructor|by rewrite <-Permutation_middle].
  - eexists _, (l1 ++ l2), [rest]. split; [by rewrite Permutation_middle|]. split; [constructor|by rewrite <-Permutation_middle].
  - eexists _, (l1 ++ l2), []. split; [by rewrite Permutation_middle|]. split; [constructor|done].
Qed.

Lemma shrinking_perm ts ts' : ts ≡ₚ ts' → Acc shrinks ts → Acc shrinks ts'.
Proof.
  intros Hp [Ha]. constructor. intros ts0 (t & l & by_ & H1 & H2 & H3). apply Ha. exists t, l, by_. split; [by rewrite Hp|done].
Qed.

Lemma cons_perm_inv {A} (x y : A) l k : x :: l ≡ₚ y :: k → (x = y ∧ l ≡ₚ k) ∨ ∃ l', l ≡ₚ y :: l' ∧ k ≡ₚ x :: l'.
Proof.
  intros Hp. destruct (Permutation_vs_cons_inv Hp) as ([|z l1] & l2 & E); cbn in E; injection E as -> ->.
  - left. split; [done|]. by apply Permutation_cons_inv in Hp.
  - right. exists (l1 ++ l2). split; [by rewrite Permutation_middle|].
    apply (Permutation_cons_inv (a := y)). rewrite <-Hp. rewrite <-Permutation_middle. constructor.
Qed.

Lemma one_more_ends (t : thread S unit) l : Acc shrinks l → Acc shrinks (t :: l).
Proof.
  revert l. enough (∀ t : thread S unit, ∀ l, Acc shrinks l → Acc shrinks (t :: l)) as Hgo by apply Hgo. clear t. fix IH 1.
  intros t l Hl.
  assert (∀ by_ l, replaced t by_ → Acc shrinks l → Acc shrinks (by_ ++ l)) as Hmine.
  { clear l Hl. intros by_ l Hr Hl. destruct t as [u| |f|child rest|ready rest|over rest].
    - assert (by_ = []) as -> by (by inversion Hr). exact Hl.
    - exfalso. inversion Hr.
    - assert (∃ s, by_ = [(f s).1]) as [s ->] by (inversion Hr; by eexists). exact (IH (f s).1 l Hl).
    - assert (by_ = [rest; child]) as -> by (by inversion Hr). exact (IH rest _ (IH child l Hl)).
    - assert (by_ = [rest]) as -> by (by inversion Hr). exact (IH rest l Hl).
    - assert (by_ = [rest]) as -> by (by inversion Hr). exact (IH rest l Hl). }
  clear IH. induction Hl as [l Hl IHl]. constructor. intros ts' (u & k & by_ & H1 & H2 & H3).
  apply (shrinking_perm (by_ ++ k)); [done|]. destruct (cons_perm_inv _ _ _ _ H1) as [[<- Hk]|(l' & Hl' & Hk)].
  - apply (shrinking_perm (by_ ++ l)); [by rewrite Hk|]. apply Hmine; [done|]. by constructor.
  - apply (shrinking_perm (t :: by_ ++ l')); [rewrite Hk; by rewrite Permutation_middle|]. apply IHl. by exists u, l', by_.
Qed.

(** However threads are interleaved and whatever the steps do, they come to an end or to
    a point where none can move. *)
Lemma every_run_ends ts (s : S) : Acc (λ c' c, sched_step c c') (ts, s).
Proof.
  assert (Acc shrinks ts) as Ha.
  { induction ts as [|t ts IH]; [|by apply one_more_ends]. constructor. intros ts' (t & l & by_ & H1 & _). by apply Permutation_nil_cons in H1. }
  revert s. induction Ha as [ts _ IH]. intros s. constructor. intros [ts' s'] Hs. eapply IH, step_shrinks, Hs.
Qed.
End ends.

(** ** Nobody waits forever

    Threads wait for things to close that other threads have opened, and loops sit in
    their selects until their contexts are over; [over_for s i] is that the context [i] is,
    which once it is it stays ([told] only grows).  [owes i t]: once [i] is over, whatever
    else happens, [t] will close [i] without waiting for anybody.  [honest s t], from any
    state that knows of no fewer ends than [s]: what [t] opens it owes, or the thread it
    starts does; what it waits for is something open that is over; and where it sits, that
    is until some context is over. *)
Section honest.
Context {S : Type} (opened : S → gset positive) (told : S → gset positive) (over_for : S → positive → bool).
Context (over_grows : ∀ s s' i, told s ⊆ told s' → over_for s i = true → over_for s' i = true).

Fixpoint owes {A : Type} (i : positive) (t : thread S A) : Prop :=
  match t with
  | Return _ | Await _ _ => False
  | Fault => True
  | Atom f => ∀ s, i ∉ opened (f s).2 ∨ owes i (f s).1
  | Fork child rest => owes i child ∨ owes i rest
  | Idle over rest => (∀ s, over_for s i = true → over s = true) ∧ owes i rest
  end.

Fixpoint honest {A : Type} (s0 : S) (t : thread S A) : Prop :=
  match t with
  | Return _ | Fault => True
  | Atom f => ∀ s, told s0 ⊆ told s →
      told s ⊆ told (f s).2 ∧ (∀ i, i ∈ opened (f s).2 → i ∈ opened s ∨ owes i (f s).1) ∧ honest (f s).2 (f s).1
  | Fork child rest => honest s0 child ∧ honest s0 rest
  | Await ready rest => (∃ i, over_for s0 i = true ∧ ∀ s, ready s = false → i ∈ opened s) ∧ honest s0 rest
  | Idle over rest => (∃ i, ∀ s, over s = over_for s i) ∧ honest s0 rest
  end.

Fixpoint honest_grow {A} s s' (t : thread S A) : told s ⊆ told s' → honest s t → honest s' t.
Proof using over_grows.
  intros Hs Ht. destruct t as [a| |f|child rest|ready rest|over rest]; cbn in *; [done|done| |..].
  - intros s1 H1. apply Ht. by transitivity (told s').
  - destruct Ht as [Hc Hr]. split; [exact (honest_grow _ s s' child Hs Hc)|exact (honest_grow _ s s' rest Hs Hr)].
  - destruct Ht as [(i & Hi & Ho) Hr]. split; [exists i; split; [by eapply over_grows|done]|exact (honest_grow _ s s' rest Hs Hr)].
  - destruct Ht as [Ho Hr]. split; [done|exact (honest_grow _ s s' rest Hs Hr)].
Qed.

(** Whether it gets there without waiting. *)
Fixpoint waits_not {A : Type} (t : thread S A) : Prop :=
  match t with
  | Return _ | Fault => True
  | Atom f => ∀ s, waits_not (f s).1
  | Fork _ rest => waits_not rest
  | Await _ _ | Idle _ _ => False
  end.
(** ... or, for what [i] closes, not past the end of [i]. *)
Fixpoint waits_for {A : Type} (i : positive) (t : thread S A) : Prop :=
  match t with
  | Return _ | Fault => True
  | Atom f => ∀ s, waits_for i (f s).1
  | Fork _ rest => waits_for i rest
  | Await _ _ => False
  | Idle over rest => (∀ s, over_for s i = true → over s = true) ∧ waits_for i rest
  end.

Fixpoint waits_not_bind {A B} (t : thread S A) (k : A → thread S B) : waits_not t → (∀ a, waits_not (k a)) → waits_not (t ≫= k).
Proof.
  intros Ht Hk. destruct t as [a| |f|child rest|ready rest|over rest]; cbn in *.
  - apply Hk.
  - done.
  - intros s. pose proof (waits_not_bind _ _ (f s).1 k (Ht s) Hk) as H. by destruct (f s).
  - exact (waits_not_bind _ _ rest k Ht Hk).
  - done.
  - done.
Qed.
Fixpoint waits_for_bind {A B} i (t : thread S A) (k : A → thread S B) : waits_for i t → (∀ a, waits_for i (k a)) → waits_for i (t ≫= k).
Proof.
  intros Ht Hk. destruct t as [a| |f|child rest|ready rest|over rest]; cbn in *.
  - apply Hk.
  - done.
  - intros s. pose proof (waits_for_bind _ _ i (f s).1 k (Ht s) Hk) as H. by destruct (f s).
  - exact (waits_for_bind _ _ i rest k Ht Hk).
  - done.
  - destruct Ht as [Ho Ht]. split; [done|exact (waits_for_bind _ _ i rest k Ht Hk)].
Qed.
Fixpoint waits_not_for {A} i (t : thread S A) : waits_not t → waits_for i t.
Proof.
  intros Ht. destruct t as [a| |f|child rest|ready rest|over rest]; cbn in *; try done.
  - intros s. exact (waits_not_for _ i (f s).1 (Ht s)).
  - exact (waits_not_for _ i rest Ht).
Qed.
Lemma waits_not_locked {A} (m : prog S A) : waits_not (locked m).
Proof. intros s. by destruct (m s) as [[a s']|]. Qed.

Fixpoint owes_bind {A B} i (t : thread S A) (k : A → thread S B) : owes i t → owes i (t ≫= k).
Proof.
  destruct t as [a| |f|child rest|ready rest|over rest]; cbn; [done|done| | |done|].
  - intros Ht s. pose proof (owes_bind _ _ i (f s).1 k) as H. destruct (Ht s) as [Hi|Hi]; destruct (f s) as [t s']; [by left|].
    right. by apply H.
  - intros [Hc|Hr]; [by left|right]. exact (owes_bind _ _ i rest k Hr).
  - intros [Ho Hr]. split; [done|exact (owes_bind _ _ i rest k Hr)].
Qed.
Fixpoint owes_after {A B} i (t : thread S A) (k : A → thread S B) : waits_for i t → (∀ a, owes i (k a)) → owes i (t ≫= k).
Proof.
  intros Ht Hk. destruct t as [a| |f|child rest|ready rest|over rest]; cbn in *; [apply Hk|done| | |done|].
  - intros s. pose proof (owes_after _ _ i (f s).1 k (Ht s) Hk) as H. destruct (f s) as [t s']. by right.
  - right. exact (owes_after _ _ i rest k Ht Hk).
  - destruct Ht as [Ho Ht]. split; [done|exact (owes_after _ _ i rest k Ht Hk)].
Qed.
Lemma owes_locked {A} i (m : prog S A) : (∀ s a s', m s = Some (a, s') → i ∉ opened s') → owes i (locked m).
Proof. intros Hm s. destruct (m s) as [[a s']|] eqn:E; [left; by eapply Hm|by right]. Qed.

(** What comes after may rely on [P] of what [t] returned and of where it got to. *)
Fixpoint comes_to {A} (P : A → S → Prop) (s0 : S) (t : thread S A) : Prop :=
  match t with
  | Return a => P a s0
  | Fault => True
  | Atom f => ∀ s, told s0 ⊆ told s → comes_to P (f s).2 (f s).1
  | Fork _ rest | Await _ rest | Idle _ rest => comes_to P s0 rest
  end.
Fixpoint comes_true {A} s (t : thread S A) : comes_to (λ _ _, True) s t.
Proof. destruct t; cbn; auto. Qed.

Fixpoint honest_bind_to {A B} (P : A → S → Prop) s0 (t : thread S A) (k : A → thread S B) :
  honest s0 t → comes_to P s0 t → (∀ a s, told s0 ⊆ told s → P a s → honest s (k a)) → honest s0 (t ≫= k).
Proof using over_grows.
  intros Ht Hp Hk. destruct t as [a| |f|child rest|ready rest|over rest]; cbn in *.
  - by apply Hk.
  - done.
  - intros s Hs. destruct (Ht s Hs) as (Hg & Ho & Hf).
    assert (honest (f s).2 ((f s).1 ≫= k)) as H.
    { apply (honest_bind_to _ _ P (f s).2 (f s).1 k Hf (Hp s Hs)). intros a s1 H1. apply Hk. transitivity (told s); [done|]. by transitivity (told (f s).2). }
    assert (∀ i, owes i (f s).1 → owes i ((f s).1 ≫= k)) as Hb by (intros i; apply owes_bind).
    destruct (f s) as [t s']. split; [done|]. split; [|exact H]. intros i Hi. destruct (Ho i Hi) as [?|?]; [by left|right; by apply Hb].
  - destruct Ht as [Hc Hr]. split; [done|]. exact (honest_bind_to _ _ P s0 rest k Hr Hp Hk).
  - destruct Ht as [Hw Hr]. split; [done|]. exact (honest_bind_to _ _ P s0 rest k Hr Hp Hk).
  - destruct Ht as [Hw Hr]. split; [done|]. exact (honest_bind_to _ _ P s0 rest k Hr Hp Hk).
Qed.
Lemma honest_bind {A B} s0 (t : thread S A) (k : A → thread S B) : honest s0 t → (∀ a s, honest s (k a)) → honest s0 (t ≫= k).
Proof using over_grows. intros Ht Hk. apply (honest_bind_to (λ _ _, True)); [done|apply comes_true|]. intros a s _ _. apply Hk. Qed.
Lemma honest_try {F A B} s0 (t : thread S (F + A)) (k : A → thread S (F + B)) :
  honest s0 t → (∀ a s, honest s (k a)) → honest s0 (try_thread t k).
Proof using over_grows. intros Ht Hk. apply honest_bind; [done|]. intros [e|a] s; [done|apply Hk]. Qed.
Lemma honest_locked {A} s0 (m : prog S A) : (∀ s a s', m s = Some (a, s') → opened s' ⊆ opened s ∧ told s ⊆ told s') → honest s0 (locked m).
Proof.
  intros Hm s _. destruct (m s) as [[a s']|] eqn:E; cbn; [|split; [done|split; [by left|done]]].
  destruct (Hm s a s' E). split; [done|]. split; [|done]. intros i Hi. left. auto.
Qed.
Lemma honest_when s0 (b : bool) (t : thread S unit) : honest s0 t → honest s0 (whenT b t).
Proof. by destruct b. Qed.
Lemma honest_go s0 (t : thread S unit) : honest s0 t → honest s0 (go_ t).
Proof. by split. Qed.
Lemma honest_each {A} s0 (xs : list A) (f : A → thread S unit) : (∀ x s, honest s (f x)) → honest s0 (eachT xs f).
Proof using over_grows. intros Hf. revert s0. induction xs as [|x xs IH]; intros s0; [done|]. apply honest_bind; [apply Hf|]. intros _ s. apply IH. Qed.

(** Everything open has somebody who owes it. *)
Definition covered (c : list (thread S unit) * S) : Prop :=
  Forall (honest c.2) c.1 ∧ ∀ i, i ∈ opened c.2 → Exists (owes i) c.1.

Lemma covered_step c c' : covered c → sched_step c c' → covered c'.
Proof using over_grows.
  intros [Hh Ho] Hs. destruct Hs as [l1 f l2 s t s' Hf|l1 child rest l2 s|l1 ready rest l2 s _|l1 over rest l2 s Hover|l1 l2 s]; cbn [fst snd] in *;
    apply Forall_app in Hh as [H1 [Hh H2]%Forall_cons].
  - destruct (Hh s) as (Hg & Hnew & Ht); [done|]. rewrite Hf in Hg, Hnew, Ht. cbn [fst snd] in *. split; cbn.
    + assert (∀ l : list (thread S unit), Forall (honest s) l → Forall (honest s') l) as Hl
        by (intros l Hl; apply (Forall_impl _ _ _ Hl); intros; by apply (honest_grow s)).
      apply Forall_app; split; [by apply Hl|]. constructor; [done|by apply Hl].
    + intros i Hi. rewrite Exists_app, Exists_cons. destruct (Hnew i Hi) as [Hold|Hn]; [|tauto].
      specialize (Ho i Hold). rewrite Exists_app, Exists_cons in Ho. destruct Ho as [Ho|[Ho|Ho]]; [tauto| |tauto].
      destruct (Ho s) as [Hc|Hc]; rewrite Hf in Hc; [done|tauto].
  - destruct Hh as [Hc Hr]. split; cbn.
    + apply Forall_app; split; [done|]. constructor; [done|]. apply Forall_app; split; [done|]. by constructor.
    + intros i Hi. specialize (Ho i Hi). rewrite Exists_app, Exists_cons in Ho. rewrite Exists_app, Exists_cons, Exists_app, Exists_cons.
      cbn [owes] in Ho. tauto.
  - destruct Hh as [_ Hr]. split; cbn.
    + apply Forall_app; split; [done|]. by constructor.
    + intros i Hi. specialize (Ho i Hi). rewrite Exists_app, Exists_cons in Ho. rewrite Exists_app, Exists_cons. cbn [owes] in Ho. tauto.
  - destruct Hh as [_ Hr]. split; cbn.
    + apply Forall_app; split; [done|]. by constructor.
    + intros i Hi. specialize (Ho i Hi). rewrite Exists_app, Exists_cons in Ho. rewrite Exists_app, Exists_cons. cbn [owes] in Ho. tauto.
  - split; cbn; [by apply Forall_app|]. intros i Hi. specialize (Ho i Hi). rewrite Exists_app, Exists_cons in Ho.
    rewrite Exists_app. cbn [owes] in Ho. tauto.
Qed.

Lemma covered_steps c c' : covered c → rtc sched_step c c' → covered c'.
Proof using over_grows. intros Hc Hr. revert Hc. induction Hr as [|c c1 c2 Hs _ IH]; [done|]. intros Hc. apply IH. by eapply covered_step. Qed.

(** A loop in its select, whose context goes on. *)
Definition rests (s : S) (t : thread S unit) : Prop :=
  ∃ over rest i, t = Idle over rest ∧ (∀ s, over s = over_for s i) ∧ over_for s i = false.

(** Whether a thread that has not panicked can take a step. *)
Definition can_move (s : S) (t : thread S unit) : bool :=
  match t with Await ready _ => ready s | Idle over _ => over s | _ => true end.

(** Where nobody can, there is no further step. *)
Lemma no_step_left ts s : Forall (λ t, can_move s t = false) ts → nf sched_step (ts, s).
Proof using Type.
  intros Hts [c' Hs]. remember (ts, s) as c eqn:E.
  destruct Hs as [l1 f l2 s0 t s' Hf|l1 child rest l2 s0|l1 ready rest l2 s0 Hw|l1 over rest l2 s0 Hw|l1 l2 s0]; injection E as <- <-;
    apply Forall_app in Hts as [_ [Ht _]%Forall_cons]; cbn in Ht; congruence.
Qed.

(** Somebody can move, if nobody has panicked, or there is nobody but such loops. *)
Lemma covered_moves ts s : covered (ts, s) → (Fault : thread S unit) ∉ ts → (∃ c', sched_step (ts, s) c') ∨ Forall (rests s) ts.
Proof using Type.
  intros [Hh Ho] Hf. cbn [fst snd] in *.
  destruct (decide (Exists (λ t, can_move s t = true) ts)) as [Hm|Hm].
  - left. apply Exists_exists in Hm as (t & Ht & Hm). apply list_elem_of_split in Ht as (l1 & l2 & ->).
    destruct t as [[]| |f|child rest|ready rest|over rest].
    + eexists. apply step_done.
    + exfalso. apply Hf, elem_of_app. right. by left.
    + destruct (f s) as [t s'] eqn:E. eexists. by apply step_atom.
    + eexists. apply step_fork.
    + eexists. by apply step_await.
    + eexists. by apply step_idle.
  - right. apply not_Exists_Forall in Hm; [|solve_decision].
    assert (∀ i, over_for s i = true → i ∉ opened s) as Hclosed.
    { intros i Hi Hin. specialize (Ho i Hin). apply Exists_exists in Ho as (t & Ht & Hw). rewrite Forall_forall in Hm. specialize (Hm t Ht).
      destruct t as [u| |f|child rest|ready rest|over rest]; try done; [by apply Hm..|]. destruct Hw as [Hw _]. by apply Hm, Hw. }
    apply Forall_forall. intros t Ht. rewrite Forall_forall in Hh, Hm. specialize (Hh t Ht). specialize (Hm t Ht).
    destruct t as [u| |f|child rest|ready rest|over rest]; try (exfalso; by apply Hm).
    + exfalso. destruct Hh as [(i & Hi & Hw) _]. apply (Hclosed i Hi), Hw. by apply not_true_is_false.
    + destruct Hh as [(i & Hi) _]. exists over, rest, i. split; [done|]. split; [done|]. rewrite <-Hi. by apply not_true_is_false.
Qed.

(** ... so everything comes to rest. *)
Lemma covered_rests ts s : covered (ts, s) →
  (∀ ts' s', rtc sched_step (ts, s) (ts', s') → (Fault : thread S unit) ∉ ts') →
  ∃ ts' s', rtc sched_step (ts, s) (ts', s') ∧ Forall (rests s') ts'.
Proof using over_grows.
  intros Hc Hf. pose proof (every_run_ends ts s) as Ha. remember (ts, s) as c eqn:E. revert ts s E Hc Hf.
  induction Ha as [c _ IH]. intros ts s -> Hc Hf.
  destruct (covered_moves ts s Hc) as [[[ts' s'] Hs]|Hr]; [by apply (Hf _ s)| |by exists ts, s].
  destruct (IH _ Hs ts' s' eq_refl) as (ts2 & s2 & Hr & Hrest); [by eapply covered_step| |exists ts2, s2; split; [by eapply rtc_l|done]].
  intros ts2 s2 Hr. apply (Hf ts2 s2). by eapply rtc_l.
Qed.
End honest.

(** What a thread may change, when it is alone, and that it starts nothing. *)
Definition frames {S} {M : Meanwhile S} (R : relation S) {A} (t : thread S A) : Prop :=
  ∀ s a ts s', alone t s = Some (a, ts, s') → R s s' ∧ ts = [].

Section frames.
Context {S : Type} {M : Meanwhile S} (R : relation S) `{!PreOrder R}.

Lemma framed_Return {A} (a : A) : frames R (Return a).
Proof. intros s b ts s' [= <- <- <-]. done. Qed.
Lemma framed_locked {A} (m : prog S A) : (∀ s a s', m s = Some (a, s') → R s s') → frames R (locked m).
Proof. intros Hm s a ts s'. cbn. destruct (m s) as [[b s1]|] eqn:E; [|done]. intros [= <- <- <-]. split; [by eapply Hm|done]. Qed.
Lemma framed_bind {A B} (t : thread S A) (k : A → thread S B) : frames R t → (∀ a, frames R (k a)) → frames R (t ≫= k).
Proof using PreOrder0.
  intros Ht Hk s b ts s'. rewrite alone_bind. destruct (alone t s) as [[[a ts1] s1]|] eqn:E1; [|done].
  destruct (alone (k a) s1) as [[[b' ts2] s2]|] eqn:E2; [|done]. intros [= <- <- <-].
  apply Ht in E1 as [? ->]. apply Hk in E2 as [? ->]. split; [by transitivity s1|done].
Qed.
Lemma framed_try {F A B} (t : thread S (F + A)) (k : A → thread S (F + B)) :
  frames R t → (∀ a, frames R (k a)) → frames R (try_thread t k).
Proof using PreOrder0. intros Ht Hk. apply framed_bind; [done|]. intros [e|a]; [apply framed_Return|apply Hk]. Qed.
Lemma framed_when (b : bool) (t : thread S unit) : frames R t → frames R (whenT b t).
Proof using PreOrder0. intros Ht. destruct b; [done|apply framed_Return]. Qed.
Lemma framed_each {A} (xs : list A) (f : A → thread S unit) : (∀ x, frames R (f x)) → frames R (eachT xs f).
Proof using PreOrder0.
  intros Hf. induction xs as [|x xs IH]; [apply framed_Return|]. apply framed_bind; [apply Hf|]. intros _. exact IH.
Qed.
End frames.

(** ... or whatever it starts. *)
Definition leaves {S} {M : Meanwhile S} (R : relation S) {A} (t : thread S A) : Prop :=
  ∀ s a ts s', alone t s = Some (a, ts, s') → R s s'.

Section leaves.
Context {S : Type} {M : Meanwhile S} (R : relation S) `{!PreOrder R}.

Lemma leaves_frames {A} (t : thread S A) : frames R t → leaves R t.
Proof. intros Ht s a ts s' E. by apply Ht in E as [? _]. Qed.
Lemma leaves_Return {A} (a : A) : leaves R (Return a).
Proof using PreOrder0. apply leaves_frames, framed_Return, _. Qed.
Lemma leaves_locked {A} (m : prog S A) : (∀ s a s', m s = Some (a, s') → R s s') → leaves R (locked m).
Proof. intros Hm. by apply leaves_frames, framed_locked. Qed.
Lemma leaves_bind {A B} (t : thread S A) (k : A → thread S B) : leaves R t → (∀ a, leaves R (k a)) → leaves R (t ≫= k).
Proof using PreOrder0.
  intros Ht Hk s b ts s'. rewrite alone_bind. destruct (alone t s) as [[[a ts1] s1]|] eqn:E1; [|done].
  destruct (alone (k a) s1) as [[[b' ts2] s2]|] eqn:E2; [|done]. intros [= <- <- <-].
  apply Ht in E1. apply Hk in E2. by transitivity s1.
Qed.
Lemma leaves_go (t : thread S unit) : leaves R (go_ t).
Proof using PreOrder0. by intros s a ts s' [= <- <- <-]. Qed.
Lemma leaves_when (b : bool) (t : thread S unit) : leaves R t → leaves R (whenT b t).
Proof using PreOrder0. intros Ht. destruct b; [done|apply leaves_Return]. Qed.
Lemma leaves_each {A} (xs : list A) (f : A → thread S unit) : (∀ x, leaves R (f x)) → leaves R (eachT xs f).
Proof using PreOrder0.
  intros Hf. induction xs as [|x xs IH]; [apply leaves_Return|]. apply leaves_bind; [apply Hf|]. intros _. exact IH.
Qed.
End leaves.
