(* ===== verification/Control.v ===== *)
(** The daemon's side of the control plane: daemon/control/client.go.

    A request is the route it asks for, with the body it carries, as the server's
    handlers take it ([Api.Request]); an answer is the response they write.  The
    transport in between is the class [Net]: it may lose either.  What net/http makes
    of a cancelled context is a request that fails, [alive] says whether it is. *)
From S2P Require Import Prelude Bytes NetText Base64 Schema Auth ApiTypes ServerConfig Hub Api.

Definition WellKnownPath : gostring := str "/.well-known/192168".
Definition ErrVersionUnsupported : string := "version_unsupported".

(** [*Error], without the cause that only reaches the log; anything else is an error
    with no code. *)
Inductive control_error : Type :=
  | Described (status : Z) (code message : string)
  | Undescribed.

Class Net : Type := {
  W : Type;
  (** A GET of a well-known document, and a call to the API at an address: [None] when
      nothing came back. *)
  fetch : gostring → W → option response * W;
  round : gostring → Request → W → option response * W;
  (** [time.Now().Unix()], and sixteen bytes of [rand.Read]. *)
  clock : W → Z * W;
  random16 : W → option (list Z) * W;
}.

Record Client : Type := mkClient { discovery : Discovery; baseURL : gostring; token : gostring }.
#[export] Instance eta_Client : Settable Client := λ c, mkClient (discovery c) (baseURL c) (token c).
Definition BaseURL (c : Client) : gostring := baseURL c.
Definition SetToken (t : gostring) (c : Client) : Client := c <| token := t |>.

Definition IsUnauthorized (err : control_error) : bool :=
  match err with Described _ code _ => bool_decide (code = ErrUnauthorized) | Undescribed => false end.

Definition Unreachable : control_error :=
  Described 0 "unreachable" "Could not reach the server. Check your connection or server settings.".

Definition toError (status : Z) (payload : body) : control_error :=
  match payload with
  | ErrorBody code message =>
      if bool_decide (code = ""%string) then Described status ErrInternal "The server returned an unexpected response."
      else Described status code message
  | InviteBody i =>
      (** The other bodies with a field called code. *)
      if bool_decide (Code i = []) then Described status ErrInternal "The server returned an unexpected response."
      else Described status (to_string (Code i)) ""
  | InviteCodeResponse code =>
      if bool_decide (code = []) then Described status ErrInternal "The server returned an unexpected response."
      else Described status (to_string code) ""
  | _ => Described status ErrInternal "The server returned an unexpected response."
  end.

(** ** Reading a body as the type a call expects

    JSON goes by field names: a field the body does not have stays zero, an array is
    not an object, a page is no JSON, and a field of another kind is an error. *)
Definition no_membership : Membership := mkMembershipJSON [] [] [] [] [] [] [] RoleMember [] None None.

(** [version] is a number in a document and text in a health report. *)
Definition no_discovery : Discovery := mkDiscovery 0 [] [] [] [] None (mkFeatures false false).
Definition as_discovery (b : body) : option Discovery :=
  match b with
  | DiscoveryBody d => Some d
  | Memberships _ | HealthBody _ | InvitePage _ | SiteFile _ => None
  | _ => Some no_discovery
  end.
Definition as_token (b : body) : option gostring :=
  match b with RegisterDeviceResponse t => Some t | Memberships _ | InvitePage _ | SiteFile _ => None | _ => Some [] end.
Definition as_me (b : body) : option gostring :=
  match b with Me _ nickname => Some nickname | Memberships _ | InvitePage _ | SiteFile _ => None | _ => Some [] end.
Definition as_membership (b : body) : option Membership :=
  match b with
  | OneMembership m => Some m
  | InviteBody i =>
      Some (mkMembershipJSON [] [] (inv_GroupName i) (inv_GroupIcon i) (inv_GroupColor i) [] [] RoleMember [] None (Some (inv_Members i)))
  | CreateSessionResponse _ ip _ => Some (mkMembershipJSON [] [] [] [] [] [] ip RoleMember [] None None)
  | Memberships _ | MembersResponse _ | InvitePage _ | SiteFile _ => None
  | _ => Some no_membership
  end.
Definition as_invite (b : body) : option ApiTypes.Invite :=
  match b with
  | InviteBody i => Some i
  | InviteCodeResponse code => Some (mkInvite code [] [] [] 0)
  | ErrorBody code _ => Some (mkInvite (str code) [] [] [] 0)
  | OneMembership m => Some (mkInvite [] (GroupName m) (GroupIcon m) (GroupColor m) (default 0 (Members m)))
  | Memberships _ | MembersResponse _ | InvitePage _ | SiteFile _ => None
  | _ => Some (mkInvite [] [] [] [] 0)
  end.
Definition as_code (b : body) : option gostring :=
  match b with
  | InviteCodeResponse code => Some code
  | InviteBody i => Some (Code i)
  | ErrorBody code _ => Some (str code)
  | Memberships _ | InvitePage _ | SiteFile _ => None
  | _ => Some []
  end.
Definition as_memberships (b : body) : option (list Membership) :=
  match b with Memberships ms => Some ms | NoBody => Some [] | _ => None end.
Definition as_members (b : body) : option (list Member) :=
  match b with
  | MembersResponse ms => Some ms
  | Memberships _ | InviteBody _ | InvitePage _ | SiteFile _ => None
  | OneMembership m => match Members m with Some _ => None | None => Some [] end
  | _ => Some []
  end.
Definition as_session (b : body) : option (gostring * gostring * list Peer) :=
  match b with
  | CreateSessionResponse id ip peers => Some (id, ip, peers)
  | OneMembership m => Some ([], VirtualIP m, [])
  | Memberships _ | InvitePage _ | SiteFile _ => None
  | _ => Some ([], [], [])
  end.

Section client.
Context {N : Net}.
Abbreviation IO := (st W).

(** ** Calls *)
Definition do (alive : bool) (c : Client) (r : Route) : IO (control_error + body) := λ w,
  if negb alive then (inl Unreachable, w) else
  let header := if bool_decide (token c = []) then [] else TokenScheme ++ 32 :: token c in
  let '(answer, w) := round (d_API (discovery c)) (mkRequest [] header r) w in
  (match answer with
   | None => inl Unreachable
   | Some res => if 300 <=? status res then inl (toError (status res) (payload res)) else inr (payload res)
   end, w).

(** ... and reading what it came back with. *)
Definition ask {A} (read : body → option A) (alive : bool) (c : Client) (r : Route) : IO (control_error + A) := λ w,
  let '(answer, w) := do alive c r w in
  (match answer with
   | inl err => inl err
   | inr b => match read b with Some a => inr a | None => inl Undescribed end
   end, w).
Definition tell := ask (λ _, Some tt).

Definition Discover (alive : bool) (url : gostring) : IO (control_error + Client) := λ w,
  let base := TrimRightSlash url in
  let '(answer, w) := if alive then fetch (base ++ WellKnownPath) w else (None, w) in
  (match answer with
   | None => inl Unreachable
   | Some res =>
       if 300 <=? status res then inl (toError (status res) (payload res)) else
       match as_discovery (payload res) with
       | None => inl Undescribed
       | Some d =>
       if negb (d_Version d =? DiscoveryVersion) then
         inl (Described 0 ErrVersionUnsupported
           ("That server speaks version " ++ to_string (FormatInt (d_Version d)) ++ " and this app speaks version 1."))
       else if bool_decide (d_API d = []) || bool_decide (d_Realtime d = []) then
         inl (Described 0 ErrVersionUnsupported "That server did not describe itself properly.")
       else inr (mkClient d base [])
       end
   end, w).

Definition newNonce : IO (option gostring) := λ w,
  let '(raw, w) := random16 w in (EncodeToString URLAlphabet <$> raw, w).

Definition Register (alive : bool) (c : Client) (deviceID name publicKey transportKey : gostring)
    (sign : gostring → gostring → Z → gostring → gostring) : IO (control_error + gostring) := λ w,
  let '(nonce, w) := newNonce w in
  match nonce with
  | None => (inl Undescribed, w)
  | Some nonce =>
      let '(issuedAt, w) := clock w in
      let signature := sign publicKey transportKey issuedAt nonce in
      ask as_token alive c
        (PostRegister (Some (mkRegisterDeviceRequest deviceID publicKey transportKey name issuedAt nonce signature))) w
  end.

Definition CreateGroup (alive : bool) (c : Client) (name icon color : gostring) :=
  ask as_membership alive c (PostGroups (Some (mkCreateGroupRequest name icon color))).
Definition JoinByCode (alive : bool) (c : Client) (code : gostring) := ask as_membership alive c (PostJoin (Some code)).
Definition Invite (alive : bool) (c : Client) (code : gostring) := ask as_invite alive c (GetInvite code).
Definition ResetInvite (alive : bool) (c : Client) (groupID : gostring) := ask as_code alive c (PostInviteReset groupID).
Definition Groups (alive : bool) (c : Client) := ask as_memberships alive c GetGroups.
Definition Members (alive : bool) (c : Client) (groupID : gostring) := ask as_members alive c (GetMembers groupID).
Definition LeaveGroup (alive : bool) (c : Client) (groupID : gostring) := tell alive c (DeleteMembership groupID).
Definition Me (alive : bool) (c : Client) := ask as_me alive c GetMe.
Definition SetNickname (alive : bool) (c : Client) (nickname : gostring) := tell alive c (PutNickname (Some nickname)).
Definition Connect (alive : bool) (c : Client) (groupID : gostring) := ask as_session alive c (PostSessions groupID).
Definition PublishEndpoint (alive : bool) (c : Client) (sessionID : gostring) (e : Endpoint) :=
  tell alive c (PutEndpoint sessionID (Some (mkEndpoint (str "udp") (Address e) (Port e)))).
Definition Heartbeat (alive : bool) (c : Client) (sessionID : gostring) := tell alive c (PostHeartbeat sessionID).
Definition Disconnect (alive : bool) (c : Client) (sessionID : gostring) := tell alive c (DeleteSessionRoute sessionID).
Definition RemoveMember (alive : bool) (c : Client) (groupID deviceID : gostring) :=
  tell alive c (DeleteMember groupID deviceID).
Definition RenameGroup (alive : bool) (c : Client) (groupID name : gostring) := tell alive c (PutName groupID (Some name)).
Definition SetGroupAppearance (alive : bool) (c : Client) (groupID icon color : gostring) :=
  tell alive c (PutAppearance groupID (Some (mkSetGroupAppearanceRequest icon color))).
Definition TransferOwnership (alive : bool) (c : Client) (groupID deviceID : gostring) :=
  tell alive c (PutOwner groupID deviceID).
Definition DeleteGroup (alive : bool) (c : Client) (groupID : gostring) := tell alive c (DeleteGroupRoute groupID).
End client.
