(* ===== verification/Core.v ===== *)
(** The daemon's brain: daemon/core.

    A [Core] is the Go struct with what it points at; an operation is the [thread] of
    the goroutine that runs it, an atomic step for every critical section of [c.mu], for
    every call to the server and for every event that goes out.  What it needs from
    elsewhere comes through two interfaces: [Links], what it asks of the peer-to-peer
    mesh, and [Host], what the machine and the network decide.

    A loop that runs for a session goes round as often as its timer fires or something
    comes in the run at hand, its [turns], and sits in its select after that until its
    context is over; the theorems hold for any number.  What is left out: the log, and the
    packet loops, which are in [Pump]. *)
From S2P Require Import Prelude Bytes NetAddr NetText Base64 Netlog Pump Invite Schema Auth ApiTypes Control Ipc Threads.

(** ** What the core asks of the links *)
Inductive report : Type :=
  | StateReport (deviceID : gostring) (s : PeerState) (reason : PeerReason)
  | LatencyReport (deviceID : gostring) (latency : Z).

Class Links : Type := {
  L : Type;
  (** [mesh.New], once the socket is open. *)
  new_links : gostring → Addr → L;
  add_peer : gostring → gostring → Addr → list Z → AddrPort → prog L bool;
  set_peer_endpoint : gostring → AddrPort → prog L unit;
  retry_peer : gostring → prog L bool;
  remove_peer : gostring → prog L unit;
  restart_links : prog L unit;
  (** Every link's [Traffic], by device. *)
  traffic : prog L (list (gostring * (Z * Z)));
  (** The callbacks made since the last time. *)
  reports : prog L (list report);
  (** What the links do on their own: a packet, a tick. *)
  turn : Type;
  run_turn : turn → prog L unit;
}.

Class LinksLaws (K : Links) : Type := {
  good : L → Prop;
  new_good d a : good (new_links d a);
  add_peer_good d n a k e l : good l → wp (add_peer d n a k e) (λ _ l', good l') l;
  set_peer_endpoint_good d e l : good l → wp (set_peer_endpoint d e) (λ _ l', good l') l;
  retry_peer_good d l : good l → wp (retry_peer d) (λ _ l', good l') l;
  remove_peer_good d l : good l → wp (remove_peer d) (λ _ l', good l') l;
  restart_links_good l : good l → wp restart_links (λ _ l', good l') l;
  traffic_good l : good l → wp traffic (λ _ l', good l') l;
  reports_good l : good l → wp reports (λ _ l', good l') l;
  turn_ok : turn → Prop;
  run_turn_good t l : turn_ok t → good l → wp (run_turn t) (λ _ l', good l') l;
}.

(** ** What the machine and the network decide *)
Inductive tun_error : Type := ErrNeedsAdmin | ErrMissingDriver | OtherTunError.

(** What the event channel of a session does next. *)
Inductive channel : Type :=
  | Opened
  | Refused (status : Z)
  | Lost
  | Got (e : Event)
  | GotSessionInvalidated
  (** A message that is no event, or of a kind unknown, or whose data is not what its kind has. *)
  | Unreadable.

Class Host {N : Net} {K : Links} : Type := {
  (** Whether a file could be written. *)
  save_settings : st W bool;
  save_identity : st W bool;
  clear_main_log : st W bool;
  clear_packet_log : st W bool;
  (** Opening the packet log's file, or closing it. *)
  move_packet_log : bool → st W bool;
  (** Whether the socket opened. *)
  listen_udp : st W bool;
  open_adapter : Prefix → st W (option tun_error);
  (** Which other adapter holds the discovery route, if any. *)
  prefer_for_multicast : bool → st W gostring;
  (** [Mesh.PublicEndpoint] *)
  public_endpoint : list gostring → st W (option AddrPort);
  (** Whether this machine's addresses changed, or a minute has passed. *)
  recheck_due : st W bool;
  next_event : gostring → st W channel;
  (** What the links do next on their own. *)
  next_turn : st W turn;
  (** [url.Parse]: what is wrong, or the scheme, [Host] and [Hostname()]. *)
  url_parse : gostring → gostring + gostring * gostring * gostring;
}.

Class HostLaws {N : Net} {K : Links} (H : Host) {G : LinksLaws K} : Prop := {
  next_turn_ok w : turn_ok (next_turn w).1;
}.

(** ** State *)
Inductive failure : Type :=
  | Failure (code : string) (message : gostring)
  | Internal.

Inductive core_event : Type :=
  | StateChanged (s : State)
  | GroupConnected (groupID groupName virtualIP : gostring)
  | GroupDisconnected (groupID reason : gostring)
  | PeerAddedEvent (peer : PeerView)
  | PeerRemovedEvent (deviceID : gostring)
  | PeerStateChangedEvent (deviceID : gostring) (s : PeerState) (reason : PeerReason)
  | PeerLatencyChangedEvent (deviceID : gostring) (latencyMS : Z)
  | ServerConnectionChanged (online : bool).

Record settings : Type := mkSettings { ServerURL : gostring; LanDiscovery : bool; PacketLog : bool }.
#[export] Instance eta_settings : Settable settings := λ s, mkSettings (ServerURL s) (LanDiscovery s) (PacketLog s).

Record activeSession : Type := mkActiveSession {
  as_sessionID : gostring;
  as_groupID : gostring;
  as_groupName : gostring;
  as_virtualIP : gostring;
  as_subnet : gostring;
  (** The context [stop] ends. *)
  as_ctx : positive;
}.
#[export] Instance eta_activeSession : Settable activeSession := λ s,
  mkActiveSession (as_sessionID s) (as_groupID s) (as_groupName s) (as_virtualIP s) (as_subnet s) (as_ctx s).

Section core.
Context {C : Ed25519} {N : Net} {K : Links} {H : Host}.

Record Identity : Type := mkIdentity {
  id_DeviceID : gostring;
  id_Name : gostring;
  id_Nickname : gostring;
  id_Signing : PrivateKey;
  (** The mesh seals with it. *)
  id_TransportPrivate : list Z;
  id_TransportPublic : list Z;
  id_Token : gostring;
  id_ServerURL : gostring;
}.
#[export] Instance eta_Identity : Settable Identity := λ i,
  mkIdentity (id_DeviceID i) (id_Name i) (id_Nickname i) (id_Signing i) (id_TransportPrivate i) (id_TransportPublic i) (id_Token i) (id_ServerURL i).

Record Core : Type := mkCore {
  identity : Identity;
  prefs : settings;
  defaultServer : gostring;
  client : option Client;
  inviteBase : gostring;
  state : State;
  peers : gmap gostring PeerView;
  session : option activeSession;
  mesh : option positive;
  device : option positive;
  packetsOut : Z;
  packetsIn : Z;
  packets : option Recorder;
  mainLog : bool;
  (** Behind the pointers: every mesh there has been and which are closed, the adapters
      that are up, the contexts that have been cancelled, and those of them whose
      heartbeat has its [done] still to close. *)
  links : gmap positive L;
  closed : gset positive;
  adapters : gset positive;
  stopped : gset positive;
  beating : gset positive;
  next : positive;
  (** What has been announced, how much of it before there was anybody to announce it to,
      and the rest of the world. *)
  events : list core_event;
  unheard : option nat;
  world : W;
}.
#[export] Instance eta_Core : Settable Core := λ c,
  mkCore (identity c) (prefs c) (defaultServer c) (client c) (inviteBase c) (state c) (peers c) (session c) (mesh c)
    (device c) (packetsOut c) (packetsIn c) (packets c) (mainLog c) (links c) (closed c) (adapters c) (stopped c)
    (beating c) (next c) (events c) (unheard c) (world c).

Abbreviation T := (thread Core).

(** ** Steps *)
Definition io {A} (f : st W A) : T A :=
  Atom (λ c, let '(a, w) := f (world c) in (Return a, c <| world := w |>)).

(** A context: a request's, or the daemon's own and what is derived from it, which ends
    with it. *)
Definition context : Type := option positive.
Definition daemon_ctx : positive := 1.
Definition alive (ctx : context) (c : Core) : bool :=
  match ctx with
  | None => true
  | Some i => bool_decide ((i ∉ stopped c) ∧ (daemon_ctx ∉ stopped c))
  end.

(** A loop whose timer does not fire again, or to which nothing more comes: it sits in its
    select until its context is over. *)
Definition until_ended (ctx : context) : T unit := Idle (λ c, negb (alive ctx c)) (Return tt).

(** The heartbeats whose context has ended end ([CoreConnect.keepAlive]). *)
#[export] Instance heartbeats_end : Meanwhile Core :=
  λ c, (c <| beating := filter (λ i, alive (Some i) c) (beating c) |>).

(** A call that is over at once when its context is. *)
Definition over {A} (ctx : context) (f : bool → st W A) : T A :=
  Atom (λ c, let '(a, w) := f (alive ctx c) (world c) in (Return a, c <| world := w |>)).

Definition read {A} (f : Core → A) : T A := locked (gets f).
Definition write (f : Core → Core) : T unit := locked (modify f).

(** [strings.Compare] says which is first; people who are away come after. *)
Definition goes_before (a b : PeerView) : bool :=
  let away := bool_decide (pv_State a = PeerOffline) in
  let bAway := bool_decide (pv_State b = PeerOffline) in
  if negb (eqb away bAway) then bAway else negb (bytes_lt (pv_VirtualIP b) (pv_VirtualIP a)).
Definition sortPeers (peers : list PeerView) : list PeerView := merge_sort goes_before peers.

(** [c.peers] is walked in no order; the rows of one half with one address may come
    either way. *)
Definition snapshot (c : Core) : State := (state c) <| s_Peers := sortPeers ((map_to_list (peers c)).*2) |>.

Definition emit (e : core_event) : T unit := write (λ c, c <| events := events c ++ [e] |>).

(** A change under the lock, and the state after it. *)
Definition changed_to (f : Core → Core) : T State := locked (modify f;; gets snapshot).
Definition announce (f : Core → Core) : T unit := s ← changed_to f; emit (StateChanged s).

(** [c.state.field = v] *)
Definition in_state (f : State → State) (c : Core) : Core := c <| state := f (state c) |>.

Definition severityFor (message : gostring) : MessageSeverity :=
  if bool_decide (message = []) then MessageNone else MessageError.

Definition setMessage (message : gostring) (severity : MessageSeverity) : T unit :=
  announce (in_state (λ s, s <| s_Message := message |> <| s_MessageSeverity := severity |>)).

(** ** The connection to the server: client.go *)
Definition isUnreachable (err : control_error) : bool :=
  match err with Described _ code _ => bool_decide (code = "unreachable"%string) | Undescribed => false end.

Definition toFailure (err : control_error) : failure :=
  match err with Described _ code message => Failure code (str message) | Undescribed => Internal end.

Definition setServerOnline (online : bool) : T unit :=
  changed ← locked (
    changed ← gets (λ c, negb (eqb (s_ServerOnline (state c)) online));
    modify (in_state (λ s, s <| s_ServerOnline := online |>));;
    mret changed);
  whenT changed (emit (ServerConnectionChanged online)).

Definition PublicKey (i : Identity) : gostring := EncodePublicKey (public (id_Signing i)).
Definition TransportKey (i : Identity) : gostring := EncodeToString StdAlphabet (id_TransportPublic i).
Definition RegisteredWith (url : gostring) (i : Identity) : bool :=
  negb (bool_decide (id_Token i = [])) && bool_decide (id_ServerURL i = url).

(** The three that save the identity: what is in memory changes either way. *)
Definition save_after (f : Identity → Identity) : T (failure + unit) :=
  write (λ c, c <| identity := f (identity c) |>);;
  saved ← io save_identity;
  Return (if (saved : bool) then inr tt else inl Internal).
Definition SetTokenOf (url token : gostring) : T (failure + unit) :=
  save_after (λ i, i <| id_ServerURL := url |> <| id_Token := token |>).
Definition ClearToken : T (failure + unit) := save_after (λ i, i <| id_Token := [] |> <| id_ServerURL := [] |>).
Definition SetNicknameOf (nickname : gostring) : T (failure + unit) :=
  same ← read (λ c, bool_decide (nickname = id_Nickname (identity c)));
  if (same : bool) then Return (inr tt) else save_after (λ i, i <| id_Nickname := nickname |>).

Definition signRegistration (i : Identity) (publicKey transportKey : gostring) (issuedAt : Z) (nonce : gostring) : gostring :=
  SignRegister (id_Signing i) (id_DeviceID i) publicKey transportKey issuedAt nonce.

Definition adoptNickname (ctx : context) (cl : Client) : T unit :=
  me ← over ctx (λ up, Control.Me up cl);
  match me with
  | inl _ => Return tt
  | inr nickname =>
      current ← read (λ c, id_Nickname (identity c));
      if bool_decide (nickname = []) || bool_decide (nickname = current) then Return tt else
      saved ← SetNicknameOf nickname;
      match saved with
      | inl _ => Return tt
      | inr _ => announce (in_state (λ s, s <| s_Nickname := nickname |>))
      end
  end.

Definition no_server : failure := Failure "no_server" (str "No server is set. Choose one in Settings.").

(** A token for the server at [url]: the one this device holds, or a new one. *)
Definition registered (ctx : context) (cl : Client) (url : gostring) : T (failure + gostring) :=
  id ← read identity;
  if RegisteredWith url id then Return (inr (id_Token id)) else
  token ← over ctx (λ up, Register up cl (id_DeviceID id) (id_Name id) (PublicKey id) (TransportKey id)
                            (signRegistration id));
  match token with
  | inl err => setServerOnline (negb (isUnreachable err));; Return (inl (toFailure err))
  | inr token => _ ←! SetTokenOf url token; Return (inr token)
  end.

Definition new_client (ctx : context) (url : gostring) : T (failure + Client) :=
  if bool_decide (url = []) then Return (inl no_server) else
  found ← over ctx (λ up, Discover up url);
  match found with
  | inl err => setServerOnline false;; Return (inl (toFailure err))
  | inr cl =>
      token ←! registered ctx cl url;
      let cl := SetToken token cl in
      adoptNickname ctx cl;;
      write (λ c, c <| client := Some cl |> <| inviteBase := d_Invite (discovery cl) |>);;
      setServerOnline true;;
      Return (inr cl)
  end.

Definition ensureClient (ctx : context) : T (failure + Client) :=
  have ← read (λ c, (client c, ServerURL (prefs c)));
  match have with
  | (Some existing, url) => if bool_decide (BaseURL existing = url) then Return (inr existing) else new_client ctx url
  | (None, url) => new_client ctx url
  end.

(** What a call that did not work comes to. *)
Definition failed_call {A} (err : control_error) : T (failure + A) :=
  setServerOnline (negb (isUnreachable err));;
  Return (inl (toFailure err)).
Definition made_call {A} (result : A) : T (failure + A) := setServerOnline true;; Return (inr result).

Definition withClient {A} (ctx : context) (call : bool → Client → st W (control_error + A)) : T (failure + A) :=
  cl ←! ensureClient ctx;
  result ← over ctx (λ up, call up cl);
  match result with
  | inr result => made_call result
  | inl err =>
      if IsUnauthorized err then
        _ ←! ClearToken;
        write (λ c, c <| client := None |>);;
        cl ←! ensureClient ctx;
        result ← over ctx (λ up, call up cl);
        match result with
        | inr result => made_call result
        | inl err => failed_call err
        end
      else failed_call err
  end.

(** [%q]; what is not ASCII is taken to be printable. *)
Definition hex_digit (n : Z) : Z := if n <? 10 then 48 + n else 87 + n.
Definition quote_byte (c : Z) : gostring :=
  match find (λ e : Z * Z, e.1 =? c) [(34, 34); (92, 92); (7, 97); (8, 98); (12, 102); (10, 110); (13, 114); (9, 116); (11, 118)] with
  | Some (_, e) => [92; e]
  | None => if (c <? 32) || (c =? 127) then [92; 120; hex_digit (c / 16); hex_digit (c mod 16)] else [c]
  end.
Definition quoted (s : gostring) : gostring := 34 :: (s ≫= quote_byte) ++ [34].

(** [config.ValidateServerURL] *)
Definition ValidateServerURL (raw : gostring) : option gostring :=
  match url_parse raw with
  | inl err => Some (str "invalid server URL: " ++ err)
  | inr (scheme, host, hostname) =>
      if bool_decide (host = []) then Some (str "invalid server URL: " ++ quoted raw ++ str " has no host") else
      if bool_decide (scheme = str "https") then None else
      if bool_decide (scheme = str "http") then
        if bool_decide (hostname ∈ [str "localhost"; str "127.0.0.1"; str "::1"]) then None
        else Some (str "server URL must use https: " ++ quoted raw)
      else Some (str "unsupported server URL scheme " ++ quoted scheme)
  end.

Definition validateServerURL (url : gostring) : option failure :=
  if bool_decide (url = []) then Some (Failure "bad_request" (str "Enter a server address.")) else
  match ValidateServerURL url with
  | Some err => Some (Failure "bad_request" (str "That address will not work: " ++ err))
  | None => None
  end.
End core.
