(* ===== verification/CoreNetwork.v ===== *)
(** The peer-to-peer side of a session: daemon/core/network.go, with the two ends of a
    session's life from connect.go that it calls, and the adapter from pump.go. *)
From S2P Require Import Prelude Bytes NetAddr NetText Base64 Netlog Pump Invite Schema Auth ApiTypes Control Ipc Threads Core.

Section network.
Context {C : Ed25519} {N : Net} {K : Links} {H : Host}.
Abbreviation T := (thread Core).

(** ** Ending a session *)
Definition nothing_connected (reason : gostring) (s : State) : State :=
  s <| s_Connection := StateDisconnected |> <| s_GroupID := [] |> <| s_GroupName := [] |> <| s_VirtualIP := [] |>
    <| s_Message := reason |> <| s_MessageSeverity := severityFor reason |> <| s_IsOwner := false |>
    <| s_PacketsSent := 0 |> <| s_PacketsReceived := 0 |>.

Definition finishDisconnect (ended : activeSession) (reason : gostring) : T unit :=
  was ← locked (
    was ← gets (λ c, (mesh c, device c));
    modify (λ c, (in_state (nothing_connected reason) c) <| mesh := None |> <| device := None |> <| peers := ∅ |>);;
    after ← gets snapshot;
    mret (was, after));
  match was.1.1 with
  | Some i => write (λ c, c <| closed := {[i]} ∪ closed c |>)
  | None => Return tt
  end;;
  match was.1.2 with
  | Some i => write (λ c, c <| adapters := adapters c ∖ {[i]} |>)
  | None => Return tt
  end;;
  emit (GroupDisconnected (as_groupID ended) reason);;
  emit (StateChanged was.2).

(** [session.stop()] *)
Definition stop (ctx : positive) : T unit := write (λ c, c <| stopped := {[ctx]} ∪ stopped c |>).

(** Taking the session out of the core, which is what ending one starts with. *)
Definition take_session (f : State → State) : T (option activeSession) :=
  locked (
    was ← gets session;
    match was with
    | None => mret None
    | Some was => modify (λ c, (in_state f c) <| session := None |>);; mret (Some was)
    end).

Definition dropSession (reason : gostring) : T unit :=
  was ← take_session (λ s, s);
  match was with
  | None => Return tt
  | Some was => stop (as_ctx was);; finishDisconnect was reason
  end.

(** ** The links *)

(** What a link reports goes up to the screen. *)
Definition onPeerState (deviceID : gostring) (s : PeerState) (reason : PeerReason) : T unit :=
  r ← locked (
    ok ← gets (λ c, bool_decide (is_Some (peers c !! deviceID)));
    modify (λ c, c <| peers := alter (λ p, p <| pv_State := s |> <| pv_Reason := reason |>) deviceID (peers c) |>);;
    after ← gets snapshot;
    mret (ok, after));
  whenT r.1 (emit (PeerStateChangedEvent deviceID s reason);; emit (StateChanged r.2)).

(** Nanoseconds, to whole milliseconds towards zero. *)
Definition onPeerLatency (deviceID : gostring) (latency : Z) : T unit :=
  let milliseconds := Z.quot latency 1000000 in
  r ← locked (
    ok ← gets (λ c, bool_decide (is_Some (peers c !! deviceID)));
    modify (λ c, c <| peers := alter (λ p, p <| pv_LatencyMS := Some milliseconds |>) deviceID (peers c) |>);;
    after ← gets snapshot;
    mret (ok, after));
  whenT r.1 (emit (PeerLatencyChangedEvent deviceID milliseconds);; emit (StateChanged r.2)).

Definition called_back (r : report) : T unit :=
  match r with
  | StateReport d s reason => onPeerState d s reason
  | LatencyReport d latency => onPeerLatency d latency
  end.

(** A call on a mesh; its callbacks run in the goroutine that made it. *)
Definition on_mesh {A} (i : positive) (f : prog L A) : prog Core A := λ c,
  match links c !! i with
  | Some l => match f l with Some (a, l') => Some (a, c <| links := <[i := l']> (links c) |>) | None => None end
  | None => None
  end.
Definition with_links {A} (i : positive) (f : prog L A) : T A :=
  r ← locked (a ← on_mesh i f; rs ← on_mesh i reports; mret (a, rs));
  eachT r.2 called_back;;
  Return r.1.

(** [Mesh.Run]: the packets and ticks between the daemon's calls. *)
Fixpoint runLinks (turns : nat) (ctx : context) (i : positive) : T unit :=
  match turns with
  | O => until_ended ctx
  | S turns =>
      on ← read (alive ctx);
      if negb on then Return tt else
      t ← io next_turn;
      with_links i (run_turn t);;
      runLinks turns ctx i
  end.

Definition endpointOf (peer : Peer) : Endpoint := default (mkEndpoint [] [] 0) (pr_Endpoint peer).

Definition parseEndpoint (e : Endpoint) : option AddrPort :=
  match ParseAddr (Address e) with
  | None => None
  | Some addr => if (Port e <=? 0) || (65535 <? Port e) then None else Some (AddrPortFrom addr (u16 (Port e)))
  end.

Definition linkPeer (peer : Peer) : T unit :=
  m ← read mesh;
  match m with
  | None => Return tt
  | Some i =>
      match ParseAddr (pr_VirtualIP peer), DecodeString StdAlphabet (pr_TransportKey peer) with
      | Some virtualIP, Some key =>
          let endpoint := default AddrPortZero (parseEndpoint (endpointOf peer)) in
          _ ← with_links i (add_peer (pr_DeviceID peer) (pr_Nickname peer) virtualIP key endpoint);
          Return tt
      | _, _ => Return tt
      end
  end.

(** What the server knows goes in; what belongs to the link stays. *)
Definition fresh_row (deviceID : gostring) : PeerView := mkPeerView deviceID [] [] PeerConnecting None ReasonNone false 0 0.
Definition came_online (peer : Peer) (view : PeerView) : PeerView :=
  let view := view <| pv_Nickname := pr_Nickname peer |> <| pv_VirtualIP := pr_VirtualIP peer |> in
  if decide (pv_State view = PeerOffline) then view <| pv_State := PeerConnecting |> else view.

Definition addPeer (peer : Peer) : T unit :=
  r ← locked (
    known ← gets (λ c, peers c !! pr_DeviceID peer);
    let added := came_online peer (default (fresh_row (pr_DeviceID peer)) known) in
    modify (λ c, c <| peers := <[pr_DeviceID peer := added]> (peers c) |>);;
    after ← gets snapshot;
    mret (bool_decide (is_Some known), added, after));
  let '(known, added, after) := r in
  whenT (negb known) (emit (PeerAddedEvent added));;
  emit (StateChanged after);;
  linkPeer peer.

(** ** Who belongs to the group *)
Definition is_owner (m : Member) : bool := bool_decide (mm_Role m = RoleOwner).
Definition member_row (m : Member) (known : option PeerView) : PeerView :=
  match known with
  | Some p => p <| pv_Nickname := mm_Nickname m |> <| pv_VirtualIP := mm_VirtualIP m |> <| pv_IsOwner := is_owner m |>
  | None => mkPeerView (mm_DeviceID m) (mm_Nickname m) (mm_VirtualIP m) PeerOffline None ReasonNone (is_owner m) 0 0
  end.

(** The loop over the members, and the loop that drops who is not among them. *)
Fixpoint merge_members (me : gostring) (members : list Member) (rows : gmap gostring PeerView) : gmap gostring PeerView :=
  match members with
  | [] => rows
  | m :: members =>
      if bool_decide (mm_DeviceID m = me) then merge_members me members rows
      else merge_members me members (<[mm_DeviceID m := member_row m (rows !! mm_DeviceID m)]> rows)
  end.
Definition belongs (me : gostring) (members : list Member) : gset gostring :=
  list_to_set (filter (λ d, d ≠ me) (mm_DeviceID <$> members)).
Definition members_only (me : gostring) (members : list Member) (rows : gmap gostring PeerView) : gmap gostring PeerView :=
  filter (λ kv, kv.1 ∈ belongs me members) (merge_members me members rows).

(** Whether the session is in this group. *)
Definition in_group (groupID : gostring) (c : Core) : bool :=
  match session c with Some s => bool_decide (as_groupID s = groupID) | None => false end.

Definition loadMembers (ctx : context) (groupID : gostring) : T unit :=
  members ← withClient ctx (λ up cl, Control.Members up cl groupID);
  match members with
  | inl _ => Return tt
  | inr members =>
      r ← locked (
        still ← gets (in_group groupID);
        if negb still then mret None else
        modify (λ c, c <| peers := members_only (id_DeviceID (identity c)) members (peers c) |>);;
        after ← gets snapshot;
        mret (Some after));
      match r with
      | None => Return tt
      | Some after => emit (StateChanged after)
      end
  end.

(** ** What happens to peers *)
Definition went_away (p : PeerView) : PeerView :=
  p <| pv_State := PeerOffline |> <| pv_LatencyMS := None |> <| pv_Reason := ReasonNone |>.

Definition unlink (m : option positive) (deviceID : gostring) : T unit :=
  match m with Some i => with_links i (remove_peer deviceID) | None => Return tt end.

Definition peerWentOffline (deviceID : gostring) : T unit :=
  r ← locked (
    m ← gets mesh;
    groupID ← gets (λ c, match session c with Some s => as_groupID s | None => [] end);
    known ← gets (λ c, bool_decide (is_Some (peers c !! deviceID)));
    modify (λ c, c <| peers := alter went_away deviceID (peers c) |>);;
    after ← gets snapshot;
    mret (m, groupID, known, after));
  let '(m, groupID, known, after) := r in
  unlink m deviceID;;
  whenT known (
    emit (StateChanged after);;
    whenT (negb (bool_decide (groupID = []))) (go_ (loadMembers (Some daemon_ctx) groupID))).

Definition renamePeer (deviceID nickname : gostring) : T unit :=
  r ← locked (
    ok ← gets (λ c, bool_decide (is_Some (peers c !! deviceID)));
    modify (λ c, c <| peers := alter (λ p, p <| pv_Nickname := nickname |>) deviceID (peers c) |>);;
    after ← gets snapshot;
    mret (ok, after));
  whenT r.1 (emit (StateChanged r.2)).

Definition removePeer (deviceID : gostring) : T unit :=
  r ← locked (
    m ← gets mesh;
    modify (λ c, c <| peers := delete deviceID (peers c) |>);;
    after ← gets snapshot;
    mret (m, after));
  unlink r.1 deviceID;;
  emit (PeerRemovedEvent deviceID);;
  emit (StateChanged r.2).

Definition RetryPeer (deviceID : gostring) : T (failure + unit) :=
  if bool_decide (deviceID = []) then Return (inl (Failure "bad_request" (str "Choose who to try again."))) else
  r ← read (λ c, (mesh c, bool_decide (is_Some (peers c !! deviceID))));
  match r with
  | (Some i, true) =>
      found ← with_links i (retry_peer deviceID);
      Return (if (found : bool) then inr tt else inl (Failure "peer_offline" (str "They are not connected right now.")))
  | _ => Return (inl (Failure "not_connected" (str "That person is not on this network.")))
  end.

(** ** This machine's own address *)
Definition stunServers (c : Core) : list gostring :=
  match client c with None => [] | Some cl => d_STUN (discovery cl) end.

Definition addressProblem : gostring :=
  str "Could not work out this machine's address on the internet, so nobody can reach it.".

Definition noteAddressProblem (bad : bool) : T unit :=
  r ← locked (
    showing ← gets (λ c, bool_decide (s_Message (state c) = addressProblem));
    if eqb bad showing then mret None else
    modify (in_state (λ s, s <| s_Message := if bad then addressProblem else [] |>));;
    after ← gets snapshot;
    mret (Some after));
  match r with
  | None => Return tt
  | Some after => emit (StateChanged after)
  end.

(** What has been published after it. *)
Definition republishEndpoint (ctx : context) (i : positive) (sessionID : gostring) (published : AddrPort) : T AddrPort :=
  servers ← read stunServers;
  found ← over ctx (λ up, if up then public_endpoint servers else mret None);
  match found with
  | None => noteAddressProblem true;; Return published
  | Some endpoint =>
      noteAddressProblem false;;
      if bool_decide (endpoint = published) then Return published else
      told ← withClient ctx (λ up cl,
        Control.PublishEndpoint up cl sessionID (mkEndpoint [] (addr_String (ap_addr endpoint)) (ap_port endpoint)));
      match told with
      | inl _ => Return published
      | inr _ =>
          whenT (ap_IsValid published) (with_links i restart_links);;
          Return endpoint
      end
  end.

(** Each turn asks again when an address of this machine has changed or the last answer
    is a minute old; the first always does. *)
Fixpoint publish_turns (turns : nat) (ctx : context) (i : positive) (sessionID : gostring) (first : bool) (published : AddrPort)
    : T unit :=
  due ← io recheck_due;
  published ← (if first || due then republishEndpoint ctx i sessionID published else Return published);
  match turns with
  | O => until_ended ctx
  | S turns =>
      on ← read (alive ctx);
      if negb on then Return tt else publish_turns turns ctx i sessionID false published
  end.
Definition publishEndpoint (turns : nat) (ctx : context) (i : positive) (sessionID : gostring) : T unit :=
  servers ← read stunServers;
  if bool_decide (servers = []) then Return tt else publish_turns turns ctx i sessionID true AddrPortZero.

(** ** The counts on screen *)
Definition count_row (rows : gmap gostring PeerView) (t : gostring * (Z * Z)) : gmap gostring PeerView :=
  alter (λ p, p <| pv_PacketsSent := t.2.1 |> <| pv_PacketsReceived := t.2.2 |>) t.1 rows.

Definition readTraffic (i : positive) : T (option State) :=
  counts ← read (λ c, (packetsOut c, packetsIn c));
  locked (
    was ← gets (λ c, (s_PacketsSent (state c), s_PacketsReceived (state c), peers c));
    modify (in_state (λ s, s <| s_PacketsSent := counts.1 |> <| s_PacketsReceived := counts.2 |>));;
    all ← on_mesh i traffic;
    modify (λ c, c <| peers := foldl count_row (peers c) all |>);;
    moved ← gets (λ c, negb (bool_decide (was = (counts.1, counts.2, peers c))));
    after ← gets snapshot;
    mret (if (moved : bool) then Some after else None)).

Fixpoint watchTraffic (turns : nat) (ctx : context) (i : positive) : T unit :=
  match turns with
  | O => until_ended ctx
  | S turns =>
      on ← read (alive ctx);
      if negb on then Return tt else
      moved ← readTraffic i;
      match moved with None => Return tt | Some s => emit (StateChanged s) end;;
      watchTraffic turns ctx i
  end.

(** ** The event channel: [watchGroup], and control/realtime.go *)
Definition lost_connection : gostring := str "The connection to the group was lost.".

(** What the daemon does with each kind of change. *)
Record RealtimeHandler : Type := mkRealtimeHandler {
  rh_PeerOnline : Peer → T unit;
  rh_PeerOffline : gostring → T unit;
  rh_PeerEndpointUpdated : gostring → Endpoint → T unit;
  rh_PeerRenamed : gostring → gostring → T unit;
  rh_GroupDeleted : gostring → T unit;
  rh_MembershipRevoked : T unit;
  rh_SessionInvalidated : T unit;
  rh_Connected : bool → T unit;
}.

(** One event, one call.  [group_updated] is not among those it knows. *)
Definition dispatch (step : channel) (h : RealtimeHandler) : T unit :=
  match step with
  | Got (EventPeerOnline peer) => rh_PeerOnline h peer
  | Got (EventPeerOffline deviceID) => rh_PeerOffline h deviceID
  | Got (EventPeerEndpointUpdated deviceID e) => rh_PeerEndpointUpdated h deviceID e
  | Got (EventPeerRenamed deviceID nickname) => rh_PeerRenamed h deviceID nickname
  | Got (EventGroupDeleted groupID) => rh_GroupDeleted h groupID
  | Got (EventMembershipRevoked _) => rh_MembershipRevoked h
  | GotSessionInvalidated => rh_SessionInvalidated h
  | _ => Return tt
  end.

(** The handler [watchGroup] makes. *)
Definition realtimeHandler : RealtimeHandler := {|
  rh_PeerOnline peer := addPeer peer;
  rh_PeerOffline deviceID := peerWentOffline deviceID;
  rh_PeerEndpointUpdated deviceID e :=
    match parseEndpoint e with
    | None => Return tt
    | Some addr =>
        m ← read mesh;
        match m with Some i => with_links i (set_peer_endpoint deviceID addr) | None => Return tt end
    end;
  rh_PeerRenamed deviceID nickname := renamePeer deviceID nickname;
  rh_GroupDeleted _ := go_ (dropSession (str "That group was deleted."));
  rh_MembershipRevoked := go_ (dropSession (str "You were removed from that group."));
  rh_SessionInvalidated := go_ (dropSession lost_connection);
  rh_Connected := setServerOnline;
|}.

(** [Client.Realtime], which dials again until its context ends or the server says the
    session is gone; [listening] is whether the channel is up. *)
Fixpoint Realtime (turns : nat) (ctx : context) (sessionID : gostring) (handler : RealtimeHandler) (listening : bool) : T unit :=
  match turns with
  | O => until_ended ctx
  | S turns =>
      on ← read (alive ctx);
      if negb on then Return tt else
      step ← io (next_event sessionID);
      let lost (fatal : bool) :=
        on ← read (alive ctx);
        if negb on then Return tt else
        rh_Connected handler false;;
        if fatal then rh_SessionInvalidated handler else Realtime turns ctx sessionID handler false in
      match step with
      | Opened => (if listening then Return tt else rh_Connected handler true);; Realtime turns ctx sessionID handler true
      | Refused status => lost (negb listening && ((status =? 401) || (status =? 404)))
      | Lost => lost false
      | Got _ | GotSessionInvalidated | Unreadable =>
          (if listening then dispatch step handler else Return tt);; Realtime turns ctx sessionID handler listening
      end
  end.

Definition watchGroup (turns : nat) (ctx : context) (was : activeSession) : T unit :=
  cl ← ensureClient ctx;
  match cl with
  | inl _ => Return tt
  | inr _ => Realtime turns ctx (as_sessionID was) realtimeHandler false
  end.

(** ** The adapter and the socket *)
Definition adapterProblem (err : tun_error) : gostring :=
  match err with
  | ErrNeedsAdmin => str "Creating the network adapter needs administrator rights. Restart 192168 as an administrator."
  | ErrMissingDriver => str "The network driver is missing. Reinstalling 192168 should put it back."
  | OtherTunError => str "Could not create the network adapter, so games will not see the other players."
  end.
Definition discoveryHeldBy (adapter : gostring) : gostring :=
  adapter ++ str " is holding this machine's discovery route, so games may not list each other. Turn it off and reconnect.".

(** A new pointer. *)
Definition fresh : prog Core positive := i ← gets next; modify (λ c, c <| next := Pos.succ (next c) |>);; mret i.

Definition preferForMulticast (enabled : bool) : T unit :=
  held ← io (prefer_for_multicast enabled);
  whenT (negb (bool_decide (held = []))) (setMessage (discoveryHeldBy held) MessageWarning).

(** Up to the packet loops. *)
Definition startAdapter (virtualIP subnet : gostring) : T unit :=
  match adapterAddress virtualIP subnet with
  | inl _ => Return tt
  | inr address =>
      opened ← io (open_adapter address);
      match opened with
      | Some err => setMessage (adapterProblem err) MessageError
      | None =>
          i ← locked (i ← fresh; modify (λ c, c <| adapters := {[i]} ∪ adapters c |>);; mret i);
          lan ← locked (modify (λ c, c <| device := Some i |>);; gets (λ c, LanDiscovery (prefs c)));
          preferForMulticast lan
      end
  end.

(** [turns] is for the loops it starts. *)
Definition startNetwork (turns : nat) (ctx : context) (was : activeSession) (online : list Peer) : T unit :=
  let virtualIP := default AddrZero (ParseAddr (as_virtualIP was)) in
  opened ← io listen_udp;
  if negb opened then Return tt else
  i ← locked (
    i ← fresh;
    modify (λ c, c <| links := <[i := new_links (id_DeviceID (identity c)) virtualIP]> (links c) |>);;
    mret i);
  write (λ c, c <| mesh := Some i |>);;
  go_ (runLinks turns ctx i);;
  eachT online linkPeer;;
  go_ (publishEndpoint turns ctx i (as_sessionID was));;
  go_ (watchGroup turns ctx was);;
  go_ (watchTraffic turns ctx i);;
  go_ (startAdapter (as_virtualIP was) (as_subnet was)).
End network.
