(* ===== verification/CoreConnect.v ===== *)
(** Connecting and disconnecting, and what the app can ask for: daemon/core/connect.go
    and core.go. *)
From S2P Require Import Prelude Bytes NetAddr NetText Base64 Netlog Pump Invite Schema Auth ApiTypes Control Ipc Threads Core CoreNetwork.

Record InviteResult : Type := mkInviteResult {
  ir_Found : bool; ir_Code : gostring; ir_GroupName : gostring; ir_GroupIcon : gostring; ir_GroupColor : gostring;
  ir_Members : Z }.
Definition no_invite : InviteResult := mkInviteResult false [] [] [] [] 0.

Definition bad_request (message : string) : failure := Failure "bad_request" (str message).

Section connect.
Context {C : Ed25519} {N : Net} {K : Links} {H : Host}.
Abbreviation T := (thread Core).

(** [core.New]: the settings as loaded, and the identity. *)
Definition New (id : Identity) (set : settings) (fallback : gostring) (recorder : option Recorder) (w : W) : Core :=
  mkCore id set fallback None []
    (mkState StateDisconnected (ServerURL set) false [] [] [] [] (id_Nickname id) [] false [] 0 0 [] MessageNone)
    ∅ None None None 0 0 recorder false ∅ ∅ ∅ ∅ ∅ 2 [] None w.

(** What [loadSettings] starts from, and keeps where there is no file. *)
Definition default_settings (defaultServer : gostring) : settings := mkSettings defaultServer true false.

(** ** Connecting *)
Definition not_told (groupID : gostring) : Membership :=
  mkMembershipJSON [] groupID groupID [] [] [] [] RoleMember [] None None.

Definition describeGroup (ctx : context) (groupID : gostring) : T Membership :=
  memberships ← withClient ctx (λ up cl, Control.Groups up cl);
  Return (match memberships with
          | inr ms => default (not_told groupID) (head (filter (λ m, GroupID m = groupID) ms))
          | inl _ => not_told groupID
          end).

Definition connecting (groupID : gostring) (s : State) : State :=
  s <| s_Connection := StateConnecting |> <| s_GroupID := groupID |> <| s_Message := [] |>
    <| s_MessageSeverity := severityFor [] |>.

Definition connected (groupID virtualIP : gostring) (m : Membership) (s : State) : State :=
  s <| s_Connection := StateConnected |> <| s_GroupID := groupID |> <| s_GroupName := GroupName m |>
    <| s_GroupIcon := GroupIcon m |> <| s_GroupColor := GroupColor m |> <| s_VirtualIP := virtualIP |>
    <| s_Message := [] |> <| s_MessageSeverity := severityFor [] |>
    <| s_IsOwner := bool_decide (MemberRole m = RoleOwner) |>.

Definition connecting_row (peer : Peer) : PeerView :=
  mkPeerView (pr_DeviceID peer) (pr_Nickname peer) (pr_VirtualIP peer) PeerConnecting None ReasonNone false 0 0.
Definition connecting_rows (online : list Peer) : gmap gostring PeerView :=
  foldl (λ rows p, <[pr_DeviceID p := connecting_row p]> rows) ∅ online.

Definition failConnect (err : failure) : T unit :=
  let message := match err with Failure _ message => message | Internal => str "Could not connect to that group." end in
  announce (λ c, (in_state (nothing_connected message) c) <| peers := ∅ |>).

(** A heartbeat every thirty seconds, until the context ends or the session is gone; of a
    tick and an end that are there at once the end is taken. *)
Fixpoint beat (turns : nat) (ctx : positive) (sessionID : gostring) : T unit :=
  match turns with
  | O => until_ended (Some ctx)
  | S turns =>
      on ← read (alive (Some ctx));
      if negb on then Return tt else
      answer ← withClient (Some ctx) (λ up cl, Control.Heartbeat up cl sessionID);
      match answer with
      | inr _ => beat turns ctx sessionID
      | inl err =>
          on ← read (alive (Some ctx));
          if negb on then Return tt else
          match err with
          | Failure code _ =>
              if bool_decide (code = ErrSessionInvalid) then go_ (dropSession lost_connection) else beat turns ctx sessionID
          | Internal => beat turns ctx sessionID
          end
      end
  end.
(** [defer close(done)] *)
Definition keepAlive (turns : nat) (ctx : positive) (sessionID : gostring) : T unit :=
  beat turns ctx sessionID;;
  write (λ c, c <| beating := beating c ∖ {[ctx]} |>).

Definition runConnect (turns : nat) (groupID : gostring) : T unit :=
  ctx ← locked fresh;
  write (λ c, c <| packetsOut := 0 |>);;
  write (λ c, c <| packetsIn := 0 |>);;
  opened ← withClient (Some ctx) (λ up cl, Control.Connect up cl groupID);
  match opened with
  | inl err => stop ctx;; failConnect err
  | inr (sessionID, virtualIP, online) =>
      membership ← describeGroup (Some ctx) groupID;
      let active := mkActiveSession sessionID groupID (GroupName membership) virtualIP (Subnet membership) ctx in
      after ← changed_to (λ c, (in_state (connected groupID virtualIP membership) c)
        <| session := Some active |> <| beating := {[ctx]} ∪ beating c |> <| peers := connecting_rows online |>);
      emit (GroupConnected groupID (GroupName membership) virtualIP);;
      emit (StateChanged after);;
      go_ (keepAlive turns ctx sessionID);;
      startNetwork turns (Some ctx) active online;;
      go_ (loadMembers (Some ctx) groupID)
  end.

(** ** Disconnecting *)

(** [<-session.done] *)
Definition await_heartbeat (ctx : positive) : T unit := Await (λ c, bool_decide (ctx ∉ beating c)) (Return tt).

Definition Disconnect : T (failure + unit) :=
  was ← take_session (λ s, s <| s_Connection := StateDisconnecting |>);
  match was with
  | None => Return (inr tt)
  | Some was =>
      stop (as_ctx was);;
      await_heartbeat (as_ctx was);;
      _ ← withClient None (λ up cl, Control.Disconnect up cl (as_sessionID was));
      finishDisconnect was [];;
      Return (inr tt)
  end.

(** What [Connect] finds under the lock. *)
Inductive found : Type := Busy | Already | Another | Nothing.
Definition look (groupID : gostring) (c : Core) : found :=
  if bool_decide (s_Connection (state c) = StateConnecting) then Busy else
  if in_group groupID c then Already else
  match session c with Some _ => Another | None => Nothing end.

Definition begin (turns : nat) (groupID : gostring) : T (failure + unit) :=
  announce (in_state (connecting groupID));;
  go_ (runConnect turns groupID);;
  Return (inr tt).

Definition Connect (turns : nat) (groupID : gostring) : T (failure + unit) :=
  if bool_decide (groupID = []) then Return (inl (bad_request "Choose a group to connect to.")) else
  now ← read (look groupID);
  match now with
  | Busy => Return (inl (Failure "busy" (str "Already connecting. Give it a moment.")))
  | Already => Return (inr tt)
  | Another => _ ←! Disconnect; begin turns groupID
  | Nothing => begin turns groupID
  end.

(** ** Groups *)
Definition toGroup (m : Membership) (active : bool) (base : gostring) : Ipc.Group :=
  Ipc.mkGroup (GroupID m) (GroupName m) (GroupIcon m) (GroupColor m) active (OnlineMembers m) (ApiTypes.Members m) (InviteCode m)
    (Link base (InviteCode m)) (bool_decide (MemberRole m = RoleOwner)).

Definition GetState : T State := read snapshot.

Definition GetGroups : T (failure + list Ipc.Group) :=
  ms ←! withClient None (λ up cl, Control.Groups up cl);
  read (λ c, inr ((λ m, toGroup m (in_group (GroupID m) c) (inviteBase c)) <$> ms)).

Definition one_group (m : Membership) : T (failure + Ipc.Group) :=
  base ← read inviteBase;
  Return (inr (toGroup m false base)).

Definition CreateGroup (name icon color : gostring) : T (failure + Ipc.Group) :=
  if bool_decide (name = []) then Return (inl (bad_request "A group needs a name.")) else
  m ←! withClient None (λ up cl, Control.CreateGroup up cl name icon color);
  one_group m.

Definition JoinGroup (pasted : gostring) : T (failure + Ipc.Group) :=
  let code := Parse pasted in
  if bool_decide (code = []) then Return (inl (bad_request "That does not look like an invite.")) else
  m ←! withClient None (λ up cl, Control.JoinByCode up cl code);
  one_group m.

Definition GetInvite (pasted : gostring) : T (failure + InviteResult) :=
  let code := Parse pasted in
  if bool_decide (code = []) then Return (inr no_invite) else
  found ← withClient None (λ up cl, Control.Invite up cl code);
  Return (match found with
          | inl (Failure code message) =>
              if bool_decide (code = ErrInviteInvalid) then inr no_invite else inl (Failure code message)
          | inl Internal => inl Internal
          | inr i => inr (mkInviteResult true (Code i) (inv_GroupName i) (inv_GroupIcon i) (inv_GroupColor i) (inv_Members i))
          end).

Definition ResetInvite (groupID : gostring) : T (failure + gostring * gostring) :=
  if bool_decide (groupID = []) then Return (inl (bad_request "Choose a group.")) else
  code ←! withClient None (λ up cl, Control.ResetInvite up cl groupID);
  base ← read inviteBase;
  Return (inr (code, Link base code)).

(** Disconnecting from a group that is about to go, if it is the active one. *)
Definition leave_first (groupID : gostring) : T (failure + unit) :=
  active ← read (in_group groupID);
  if negb active then Return (inr tt) else Disconnect.

Definition LeaveGroup (groupID : gostring) : T (failure + unit) :=
  _ ←! leave_first groupID;
  withClient None (λ up cl, Control.LeaveGroup up cl groupID).

Definition DeleteGroup (groupID : gostring) : T (failure + unit) :=
  if bool_decide (groupID = []) then Return (inl (bad_request "Choose a group to delete.")) else
  _ ←! leave_first groupID;
  withClient None (λ up cl, Control.DeleteGroup up cl groupID).

(** A change to what is on screen for the connected group, if it is this one. *)
Definition when_in (groupID : gostring) (f : Core → Core) : T unit :=
  announce (λ c, if in_group groupID c then f c else c).

Definition RenameGroup (groupID given : gostring) : T (failure + unit) :=
  let name := TrimSpace given in
  if bool_decide (groupID = []) || bool_decide (name = []) then Return (inl (bad_request "A group needs a name.")) else
  _ ←! withClient None (λ up cl, Control.RenameGroup up cl groupID name);
  when_in groupID (λ c, (in_state (λ s, s <| s_GroupName := name |>) c)
    <| session := (λ s, s <| as_groupName := name |>) <$> session c |>);;
  Return (inr tt).

Definition SetGroupAppearance (groupID icon color : gostring) : T (failure + unit) :=
  if bool_decide (groupID = []) then Return (inl (bad_request "Choose a group to change.")) else
  _ ←! withClient None (λ up cl, Control.SetGroupAppearance up cl groupID icon color);
  when_in groupID (in_state (λ s, s <| s_GroupIcon := icon |> <| s_GroupColor := color |>));;
  Return (inr tt).

Definition RemoveMember (groupID deviceID : gostring) : T (failure + unit) :=
  if bool_decide (groupID = []) || bool_decide (deviceID = []) then Return (inl (bad_request "Choose who to remove.")) else
  _ ←! withClient None (λ up cl, Control.RemoveMember up cl groupID deviceID);
  removePeer deviceID;;
  Return (inr tt).

Definition TransferOwnership (groupID deviceID : gostring) : T (failure + unit) :=
  if bool_decide (groupID = []) || bool_decide (deviceID = []) then
    Return (inl (bad_request "Choose who to hand the group to."))
  else
  _ ←! withClient None (λ up cl, Control.TransferOwnership up cl groupID deviceID);
  when_in groupID (in_state (λ s, s <| s_IsOwner := false |>));;
  go_ (loadMembers (Some daemon_ctx) groupID);;
  Return (inr tt).

(** ** This device *)
Definition SetNickname (given : gostring) : T (failure + unit) :=
  let nickname := TrimSpace given in
  if bool_decide (nickname = []) then Return (inl (bad_request "That nickname will not work.")) else
  _ ←! withClient None (λ up cl, Control.SetNickname up cl nickname);
  _ ←! SetNicknameOf nickname;
  announce (in_state (λ s, s <| s_Nickname := nickname |>));;
  Return (inr tt).

(** ** Settings *)
Definition GetServer : T gostring := read (λ c, ServerURL (prefs c)).

(** [settings.save] *)
Definition save : prog Core bool := λ c, let '(ok, w) := save_settings (world c) in Some (ok, c <| world := w |>).

(** A change to the settings and to the core, saved inside the same section. *)
Definition saving {A} (f : Core → Core) (g : Core → A) : T (bool * A) :=
  locked (
    modify f;;
    saved ← save;
    a ← gets g;
    mret (saved, a)).

Definition SetServer (url : gostring) : T (failure + unit) :=
  match validateServerURL url with
  | Some err => Return (inl err)
  | None =>
      unchanged ← read (λ c, bool_decide (ServerURL (prefs c) = url));
      if (unchanged : bool) then Return (inr tt) else
      _ ←! Disconnect;
      r ← saving (λ c, (in_state (λ s, s <| s_ServerURL := url |> <| s_ServerOnline := false |>) c)
             <| prefs := (prefs c) <| ServerURL := url |> |> <| client := None |>) snapshot;
      if negb r.1 then Return (inl Internal) else
      emit (StateChanged r.2);;
      Return (inr tt)
  end.

Definition GetLanDiscovery : T bool := read (λ c, LanDiscovery (prefs c)).

Definition SetLanDiscovery (enabled : bool) : T (failure + unit) :=
  r ← locked (
    same ← gets (λ c, eqb (LanDiscovery (prefs c)) enabled);
    if (same : bool) then mret None else
    modify (λ c, c <| prefs := (prefs c) <| LanDiscovery := enabled |> |>);;
    d ← gets device;
    saved ← save;
    mret (Some (saved, d)));
  match r with
  | None => Return (inr tt)
  | Some (false, _) => Return (inl Internal)
  | Some (true, Some _) => preferForMulticast enabled;; Return (inr tt)
  | Some (true, None) => Return (inr tt)
  end.

Definition GetPacketLog : T bool := read (λ c, Enabled (packets c)).

(** [Recorder.SetEnabled]: the file is opened or closed only when that is a change. *)
Definition switch_packet_log (enabled : bool) : prog Core (option unit) := λ c,
  let change := match packets c with Some r => negb (eqb enabled (bool_decide (is_Some (file r)))) | None => false end in
  let '(ok, w) := if change then move_packet_log enabled (world c) else (true, world c) in
  let r := SetEnabled enabled (if (ok : bool) then None else Some tt) (packets c) in
  Some (r.1, c <| packets := r.2 |> <| world := w |>).

Definition SetPacketLog (enabled : bool) : T (failure + bool) :=
  err ← locked (switch_packet_log enabled);
  match err with
  | Some _ => Return (inl (Failure "log_unavailable" (str "Could not open the packet log, so it stays off.")))
  | None =>
      r ← saving (λ c, c <| prefs := (prefs c) <| PacketLog := enabled |> |>) (λ _, tt);
      Return (if negb r.1 then inl Internal else inr enabled)
  end.

(** [Recorder.Clear] *)
Definition empty_packet_log : prog Core bool := λ c,
  match packets c with
  | None => Some (true, c)
  | Some _ =>
      let '(ok, w) := clear_packet_log (world c) in
      let r := Netlog.Clear (if (ok : bool) then None else Some tt) (packets c) in
      Some (match r.1 with None => true | Some _ => false end, c <| packets := r.2 |> <| world := w |>)
  end.

Definition ClearLogs : T (failure + list gostring) :=
  main ← read mainLog;
  first ← (if (main : bool) then io clear_main_log else Return true);
  if negb first then Return (inl Internal) else
  second ← locked empty_packet_log;
  if negb second then Return (inl Internal) else
  Return (inr ((if (main : bool) then [str "daemon.log"] else []) ++ [str "packets.log"])).

(** Whether the server answers: its version and features, or what went wrong. *)
Definition TestServer (url : gostring) : T (failure + (gostring + Z * Features)) :=
  match validateServerURL url with
  | Some err => Return (inl err)
  | None =>
      r ← io (Discover true url);
      Return (inr (match r with
        | inl (Described _ _ message) => inl (str message)
        | inl Undescribed => inl (str "That server could not be reached.")
        | inr cl => inr (d_Version (discovery cl), d_Features (discovery cl))
        end))
  end.

Definition ResetSettings : T (failure + gostring) :=
  fallback ← read defaultServer;
  _ ←! SetServer fallback;
  _ ←! SetLanDiscovery true;
  Return (inr fallback).

(** ** Coming up and going down *)
Definition SetEvents : T unit := write (λ c, c <| unheard := Some (length (events c)) |>).
(** What the app was sent. *)
Definition heard (c : Core) : list core_event := match unheard c with None => [] | Some n => drop n (events c) end.
Definition SetLogs (main : bool) : T unit := write (λ c, c <| mainLog := main |>).

Definition Close : T unit :=
  _ ← Disconnect;
  stop daemon_ctx;;
  _ ← locked (switch_packet_log false);
  Return tt.
End connect.
