(* ===== verification/CoreInv.v ===== *)
(** What the core keeps through every interleaving of what it does. *)
From S2P Require Import Prelude Bytes NetAddr NetText Base64 Netlog Pump Invite Schema Auth ApiTypes Control Ipc Threads Core CoreNetwork CoreConnect.

(** ** The order of the rows *)
Lemma goes_before_total a b : goes_before a b ∨ goes_before b a.
Proof.
  unfold goes_before. rewrite !Is_true_true. do 2 case_bool_decide; cbn; auto;
    destruct (bytes_lt (pv_VirtualIP b) (pv_VirtualIP a)) eqn:E; auto; right; by rewrite bytes_lt_asym.
Qed.

Lemma bytes_le_trans a b c : bytes_lt b a = false → bytes_lt c b = false → bytes_lt c a = false.
Proof.
  intros H1 H2. destruct (bytes_lt c a) eqn:E; [|done]. destruct (bytes_lt a b) eqn:E1.
  - by rewrite (bytes_lt_trans c a b) in H2.
  - by rewrite (bytes_lt_total a b E1 H1) in E; rewrite E in H2.
Qed.

Lemma goes_before_trans a b c : goes_before a b → goes_before b c → goes_before a c.
Proof.
  unfold goes_before. rewrite !Is_true_true. do 3 case_bool_decide; cbn; try done;
    rewrite !negb_true_iff; intros; by eapply bytes_le_trans.
Qed.

Lemma sortPeers_spec l : sortPeers l ≡ₚ l ∧ StronglySorted goes_before (sortPeers l).
Proof.
  unfold sortPeers. split; [apply merge_sort_Permutation|].
  apply Sorted_StronglySorted; [intros a b c; apply goes_before_trans|].
  apply Sorted_merge_sort. intros a b. apply goes_before_total.
Qed.

(** ** The invariant *)

(** A list the app can draw: everybody once, people who are here first, each half by
    address. *)
Record screen_ok (s : State) : Prop := mkScreenOk {
  so_once : NoDup (pv_DeviceID <$> s_Peers s);
  so_sorted : StronglySorted goes_before (s_Peers s);
}.
Definition told_ok (e : core_event) : Prop := match e with StateChanged s => screen_ok s | _ => True end.

Section inv.
Context {C : Ed25519} {N : Net} {K : Links} {H : Host} {G : LinksLaws K} {HL : HostLaws H}.
Abbreviation T := (thread Core).

Record core_wf (c : Core) : Prop := mkCoreWf {
  (** A row is under its own device. *)
  cw_rows : ∀ d v, peers c !! d = Some v → pv_DeviceID v = d;
  (** The server on screen is the one in the settings. *)
  cw_server : s_ServerURL (state c) = ServerURL (prefs c);
  cw_links : ∀ i l, links c !! i = Some l → good l;
  cw_mesh : ∀ i, mesh c = Some i → is_Some (links c !! i);
  cw_told : Forall told_ok (events c);
}.

(** A mesh, once made, stays, and a context that has ended has. *)
Definition grows (c c' : Core) : Prop := ∀ i,
  (is_Some (links c !! i) → is_Some (links c' !! i)) ∧ (i ∈ stopped c → i ∈ stopped c').
#[export] Instance grows_preorder : PreOrder grows.
Proof. split; [by intros ? ?|intros c1 c2 c3 H1 H2 i; split; intros Hi; by apply H2, H1]. Qed.

Abbreviation safe := (keeps core_wf grows).

Lemma kept_bind {A B} c (t : T A) (k : A → T B) :
  safe c t → (∀ a c', grows c c' → safe c' (k a)) → safe c (t ≫= k).
Proof. apply (keeps_then core_wf grows). Qed.
Lemma kept_try {F A B} c (t : T (F + A)) (k : A → T (F + B)) :
  safe c t → (∀ a c', grows c c' → safe c' (k a)) → safe c (try_thread t k).
Proof. apply (keeps_try core_wf grows). Qed.
Lemma kept_each {A} c (xs : list A) (f : A → T unit) : (∀ x c', x ∈ xs → grows c c' → safe c' (f x)) → safe c (eachT xs f).
Proof. apply (keeps_each core_wf grows). Qed.
Lemma kept_ret {A} c (a : A) : safe c (Return a).
Proof. exact Logic.I. Qed.
Lemma kept_when c (b : bool) (t : T unit) : safe c t → safe c (whenT b t).
Proof. intros Ht. by apply keeps_when. Qed.

(** Going on with something known of the result. *)
Lemma kept_with {A B} (Q : A → Core → Prop) c (t : T A) (k : A → T B) :
  yields core_wf grows Q c t → (∀ a c', grows c c' → Q a c' → safe c' (k a)) → safe c (t ≫= k).
Proof. apply (yields_bind core_wf grows). Qed.

(** Changes that keep the invariant. *)
Definition sound (f : Core → Core) : Prop := ∀ c, core_wf c → core_wf (f c) ∧ grows c (f c).

(** Nothing the invariant speaks of. *)
Definition aside (f : Core → Core) : Prop := ∀ c,
  peers (f c) = peers c ∧ s_ServerURL (state (f c)) = s_ServerURL (state c) ∧ ServerURL (prefs (f c)) = ServerURL (prefs c)
  ∧ links (f c) = links c ∧ mesh (f c) = mesh c ∧ events (f c) = events c ∧ stopped (f c) = stopped c.

Lemma aside_sound f : aside f → sound f.
Proof.
  intros Hf c [H1 H2 H3 H4 H5]. destruct (Hf c) as (E1 & E2 & E3 & E4 & E5 & E6 & E7).
  split; [split; rewrite ?E1, ?E2, ?E3, ?E4, ?E5, ?E6; done|]. intros i. by rewrite E4, E7.
Qed.

Lemma snapshot_ok c : core_wf c → screen_ok (snapshot c).
Proof.
  intros Hc. destruct (sortPeers_spec ((map_to_list (peers c)).*2)) as [Hp Hs]. split; [|done].
  change (s_Peers (snapshot c)) with (sortPeers ((map_to_list (peers c)).*2)). rewrite Hp, <-list_fmap_compose.
  assert ((pv_DeviceID ∘ snd) <$> map_to_list (peers c) = (map_to_list (peers c)).*1) as ->.
  { apply list_fmap_ext. intros j [d v] Hj. cbn. apply (cw_rows c Hc). apply elem_of_map_to_list.
    by apply list_elem_of_lookup_2 in Hj. }
  apply NoDup_fst_map_to_list.
Qed.

(** ** Steps *)
Lemma kept_io {A} (f : st W A) c : safe c (io f).
Proof.
  intros s Hs _. unfold io. destruct (f (world s)) as [a w]. cbn.
  destruct (aside_sound (λ c, c <| world := w |>) ltac:(by intros ?) s Hs). by split_and!.
Qed.

Lemma yields_io {A} (f : st W A) (Q : A → Prop) c : (∀ w, Q (f w).1) → yields core_wf grows (λ a _, Q a) c (io f).
Proof.
  intros HQ s Hs _. unfold io. pose proof (HQ (world s)) as Hq. destruct (f (world s)) as [a w]. cbn.
  destruct (aside_sound (λ c, c <| world := w |>) ltac:(by intros ?) s Hs). by split_and!.
Qed.

Lemma kept_over {A} ctx (f : bool → st W A) c : safe c (over ctx f).
Proof.
  intros s Hs _. unfold over. destruct (f _ (world s)) as [a w]. cbn.
  destruct (aside_sound (λ c, c <| world := w |>) ltac:(by intros ?) s Hs). by split_and!.
Qed.

Lemma kept_read {A} (f : Core → A) c : safe c (read f).
Proof. by apply keeps_locked. Qed.

Lemma kept_write f c : sound f → safe c (write f).
Proof. intros Hf. apply keeps_locked. intros s Hs _. by apply Hf. Qed.

Lemma kept_emit e c : told_ok e → safe c (emit e).
Proof.
  intros He. apply kept_write. intros s [H1 H2 H3 H4 H5]. split; [|by intros ?]. split; try done. cbn.
  apply Forall_app. by split; [|constructor].
Qed.

(** A change, and the state after it handed on. *)
Lemma yields_changed (f : Core → Core) c : sound f → yields core_wf grows (λ s _, screen_ok s) c (changed_to f).
Proof.
  intros Hf. apply yields_locked. intros s Hs _. destruct (Hf s Hs) as [Hs' Hg]. cbn. split_and!; [done..|].
  by apply snapshot_ok.
Qed.

Lemma kept_announce f c : sound f → safe c (announce f).
Proof.
  intros Hf. apply (kept_with (λ s _, screen_ok s)); [by apply yields_changed|]. intros s c' _ Hs. by apply kept_emit.
Qed.

(** ** Rows *)
Definition rows_ok (rows : gmap gostring PeerView) : Prop := ∀ d v, rows !! d = Some v → pv_DeviceID v = d.

Lemma rows_ok_insert d v rows : rows_ok rows → pv_DeviceID v = d → rows_ok (<[d := v]> rows).
Proof. intros Hr Hv d' v' [[<- <-]|[_ Hd]]%lookup_insert_Some; [done|by apply Hr]. Qed.

Lemma rows_ok_alter d g rows : rows_ok rows → (∀ v, pv_DeviceID (g v) = pv_DeviceID v) → rows_ok (alter g d rows).
Proof.
  intros Hr Hg d' v'. destruct (decide (d = d')) as [->|].
  - rewrite lookup_alter_eq. destruct (rows !! d') as [v|] eqn:E; [|done]. intros [= <-]. by rewrite Hg, (Hr d').
  - rewrite lookup_alter_ne by done. apply Hr.
Qed.

Lemma rows_ok_delete d rows : rows_ok rows → rows_ok (delete d rows).
Proof. intros Hr d' v' Hv. apply lookup_delete_Some in Hv as [_ Hv]. by apply Hr. Qed.

Lemma rows_ok_merge me members rows : rows_ok rows → rows_ok (merge_members me members rows).
Proof.
  revert rows. induction members as [|m members IH]; intros rows Hr; [done|]. cbn. case_bool_decide; [by apply IH|].
  apply IH, rows_ok_insert; [done|]. destruct (rows !! mm_DeviceID m) eqn:E; cbn; [by apply Hr|done].
Qed.

Lemma rows_ok_members me members rows : rows_ok rows → rows_ok (members_only me members rows).
Proof. intros Hr d v Hv. apply map_lookup_filter_Some in Hv as [Hv _]. by apply (rows_ok_merge me members rows). Qed.

Lemma rows_ok_count rows all : rows_ok rows → rows_ok (foldl count_row rows all).
Proof. revert rows. induction all as [|t all IH]; intros rows Hr; [done|]. cbn. by apply IH, rows_ok_alter. Qed.

Lemma rows_ok_connecting online : rows_ok (connecting_rows online).
Proof.
  unfold connecting_rows. assert (rows_ok ∅) as H0 by done. revert H0. generalize (∅ : gmap gostring PeerView).
  induction online as [|p online IH]; intros rows Hr; [done|]. cbn. by apply IH, rows_ok_insert.
Qed.

Lemma sound_rows (f : Core → Core) (F : gmap gostring PeerView → gmap gostring PeerView) :
  (∀ c, peers (f c) = F (peers c) ∧ s_ServerURL (state (f c)) = s_ServerURL (state c)
    ∧ ServerURL (prefs (f c)) = ServerURL (prefs c) ∧ links (f c) = links c ∧ mesh (f c) = mesh c ∧ events (f c) = events c ∧ stopped (f c) = stopped c) →
  (∀ rows, rows_ok rows → rows_ok (F rows)) → sound f.
Proof.
  intros Hf HF c [H1 H2 H3 H4 H5]. destruct (Hf c) as (E1 & E2 & E3 & E4 & E5 & E6 & E7). split; [|by intros i; rewrite E4, E7].
  split; rewrite ?E1, ?E2, ?E3, ?E4, ?E5, ?E6; try done. exact (HF _ H1).
Qed.

(** A section that changes the rows and hands on what it found and the state after. *)
Lemma sound_alter d g : (∀ v, pv_DeviceID (g v) = pv_DeviceID v) → sound (λ c, c <| peers := alter g d (peers c) |>).
Proof. intros Hg. apply (sound_rows _ (alter g d)); [by intros ?|]. intros rows Hr. by apply rows_ok_alter. Qed.

Lemma sound_delete d : sound (λ c, c <| peers := delete d (peers c) |>).
Proof. apply (sound_rows _ (delete d)); [by intros ?|]. intros rows Hr. by apply rows_ok_delete. Qed.

Lemma sound_in_state g : (∀ s, s_ServerURL (g s) = s_ServerURL s) → sound (in_state g).
Proof. intros Hg. apply aside_sound. intros c. by cbn. Qed.

Lemma sound_compose f g : sound f → sound g → sound (λ c, g (f c)).
Proof.
  intros Hf Hg c Hc. destruct (Hf c Hc) as [H1 H2]. destruct (Hg (f c) H1) as [H3 H4]. split; [done|]. by etransitivity.
Qed.

(** ** Calls on the links *)
Lemma wp_on_mesh {A} i (f : prog L A) c : core_wf c → is_Some (links c !! i) → (∀ l, good l → wp f (λ _ l', good l') l) →
  wp (on_mesh i f) (λ _ c', core_wf c' ∧ grows c c') c.
Proof.
  intros [H1 H2 H3 H4 H5] [l Hl] Hf. unfold wp, on_mesh. rewrite Hl. specialize (Hf l (H3 _ _ Hl)). unfold wp in Hf.
  destruct (f l) as [[a l']|]; [|done].
  assert (grows c (c <| links := <[i := l']> (links c) |>)) as Hg.
  { intros j. split; [|done]. intros Hj. cbn. apply lookup_insert_is_Some'. by right. }
  split; [|done]. split; try done; cbn.
  - intros j l0 [[<- <-]|[_ Hj]]%lookup_insert_Some; [done|by apply (H3 j)].
  - intros j Hj. by apply Hg, H4.
Qed.

(** A section that finds something out, changes something and hands both on. *)
Lemma yields_section {A} (h : Core → A) (f : Core → Core) c : sound f →
  yields core_wf grows (λ r _, screen_ok r.2) c
    (locked (a ← gets h; modify f;; after ← gets snapshot; mret (a, after))).
Proof.
  intros Hf. apply yields_locked. intros c1 Hc _. destruct (Hf c1 Hc) as [Hw Hg].
  split; [exact Hw|]. split; [exact Hg|]. by apply snapshot_ok.
Qed.

Lemma kept_onPeerState d s reason c : safe c (onPeerState d s reason).
Proof.
  apply (kept_with (λ r _, screen_ok r.2)); [by apply yields_section, sound_alter|].
  intros [ok after] c1 _ Ha. apply kept_when, kept_bind; [by apply kept_emit|]. intros _ c2 _. by apply kept_emit.
Qed.

Lemma kept_onPeerLatency d latency c : safe c (onPeerLatency d latency).
Proof.
  apply (kept_with (λ r _, screen_ok r.2)); [by apply yields_section, sound_alter|].
  intros [ok after] c1 _ Ha. apply kept_when, kept_bind; [by apply kept_emit|]. intros _ c2 _. by apply kept_emit.
Qed.

Lemma kept_with_links {A} i (f : prog L A) c : is_Some (links c !! i) → (∀ l, good l → wp f (λ _ l', good l') l) →
  safe c (with_links i f).
Proof.
  intros Hi Hf. apply kept_bind.
  - apply keeps_locked. intros c1 Hc Hg. apply wp_bind. eapply wp_mono; [apply wp_on_mesh; [done|by apply Hg|done]|].
    intros a c2 [Hc2 Hg2]. apply wp_bind. eapply wp_mono.
    + apply wp_on_mesh; [done|by apply Hg2, Hg|apply reports_good].
    + intros rs c3 [Hc3 Hg3]. split; [done|]. by transitivity c2.
  - intros [a rs] c1 _. apply kept_bind; [|intros; apply kept_ret]. apply kept_each. intros [d s reason|d latency] c2 _ _.
    + apply kept_onPeerState.
    + apply kept_onPeerLatency.
Qed.

(** A pointer read from the core leads somewhere. *)
Lemma yields_mesh c : yields core_wf grows (λ m c', ∀ i, m = Some i → is_Some (links c' !! i)) c (read mesh).
Proof.
  apply yields_locked. intros c1 Hc _. split; [done|]. split; [by intros ?|]. intros i Hi. by apply Hc.
Qed.
End inv.
