(* ===== verification/CoreSafe.v ===== *)
(** Every operation of the core goes through and keeps what [CoreInv] says, whatever
    the server, the links and the machine do. *)
From S2P Require Import Prelude Bytes NetAddr NetText Base64 Netlog Pump Invite Schema Auth ApiTypes Control Ipc Threads Core CoreNetwork CoreConnect CoreInv.

Create HintDb core_safe.

(** One step of a thread: the part it begins with, then the rest. *)
Ltac kept_leaf :=
  lazymatch goal with
  | |- keeps _ _ _ (Return _) => apply kept_ret
  | |- keeps _ _ _ (io _) => apply kept_io
  | |- keeps _ _ _ (over _ _) => apply kept_over
  | |- keeps _ _ _ (read _) => apply kept_read
  | |- keeps _ _ _ (write _) => apply kept_write, aside_sound; by intros ?
  | |- keeps _ _ _ (emit _) => apply kept_emit; first [exact Logic.I|done]
  | |- keeps _ _ _ (announce (in_state _)) => apply kept_announce, sound_in_state; by intros ?
  | |- keeps _ _ _ _ => solve [auto with core_safe]
  end.
Ltac kept_step :=
  lazymatch goal with
  | |- keeps _ _ _ (whenT _ _) => apply kept_when
  | |- keeps _ _ _ (go_ _) => apply keeps_go
  | |- keeps _ _ _ (try_thread _ _) => apply kept_try; [|intros ? ? ?]
  | |- keeps _ _ _ (_ ≫= _) => apply kept_bind; [|intros ? ? ?]
  | |- keeps _ _ _ (match ?x with _ => _ end) => destruct x eqn:?
  | |- keeps _ _ _ (let '_ := ?x in _) => destruct x eqn:?
  | |- _ => kept_leaf
  end.
Ltac kept_steps := repeat (cbv zeta; kept_step).

(** What sits in no select itself, whatever it starts. *)
Create HintDb core_returns.
Ltac returns_step :=
  lazymatch goal with
  | |- returns (Return _) => exact Logic.I
  | |- returns (go_ _) => exact Logic.I
  | |- returns (whenT ?b _) => destruct b; cbn [whenT]
  | |- returns (eachT _ _) => apply returns_each; intros ?
  | |- returns (try_thread _ _) => apply returns_bind; [|intros [?|?]]
  | |- returns (_ ≫= _) => apply returns_bind; [|intros ?]
  | |- returns (match ?x with _ => _ end) => destruct x
  | |- returns (let '_ := ?x in _) => destruct x
  | |- returns (locked _) => apply returns_locked
  | |- returns (read _) => apply returns_locked
  | |- returns (write _) => apply returns_locked
  | |- returns (emit _) => apply returns_locked
  | |- returns (announce _) => apply returns_bind; [apply returns_locked|intros ?]
  | |- returns (await_heartbeat _) => exact Logic.I
  | |- returns _ => solve [auto with core_returns]
  end.
Ltac returns_steps := repeat (cbv zeta; returns_step).

Section returns.
Context {C : Ed25519} {N : Net} {K : Links} {H : Host}.

Lemma returns_io {A} (f : st W A) : returns (io f).
Proof. intros c. by destruct (f (world c)). Qed.
Lemma returns_over {A} ctx (f : bool → st W A) : returns (over ctx f).
Proof. intros c. by destruct (f _ (world c)). Qed.
#[local] Hint Resolve returns_io returns_over : core_returns.

Lemma returns_withClient {A} ctx (call : bool → Client → st W (control_error + A)) : returns (withClient ctx call).
Proof.
  unfold withClient, made_call, failed_call, ClearToken, ensureClient, new_client, registered, SetTokenOf, adoptNickname, SetNicknameOf,
    save_after, setServerOnline. returns_steps.
Qed.
#[local] Hint Resolve returns_withClient : core_returns.
Lemma returns_with_links {A} i (f : prog L A) : returns (with_links i f).
Proof. unfold with_links. returns_steps; unfold called_back, onPeerState, onPeerLatency; returns_steps. Qed.
#[local] Hint Resolve returns_with_links : core_returns.

Lemma returns_dispatch step : returns (dispatch step realtimeHandler).
Proof.
  unfold dispatch, realtimeHandler, addPeer, linkPeer, peerWentOffline, unlink, renamePeer.
  cbn [rh_PeerOnline rh_PeerOffline rh_PeerEndpointUpdated rh_PeerRenamed rh_GroupDeleted rh_MembershipRevoked rh_SessionInvalidated].
  returns_steps.
Qed.
Lemma returns_startNetwork turns ctx was online : returns (startNetwork turns ctx was online).
Proof. unfold startNetwork, linkPeer. returns_steps. Qed.
Lemma returns_Disconnect : returns Disconnect.
Proof. unfold Disconnect, take_session, stop, finishDisconnect. returns_steps. Qed.
Lemma returns_SetServer url : returns (SetServer url).
Proof. pose proof returns_Disconnect. unfold SetServer, saving. returns_steps. Qed.
#[local] Hint Resolve returns_Disconnect returns_SetServer : core_returns.
Lemma returns_SetLanDiscovery b : returns (SetLanDiscovery b).
Proof. unfold SetLanDiscovery, preferForMulticast, setMessage. returns_steps. Qed.
#[local] Hint Resolve returns_SetLanDiscovery : core_returns.
End returns.
#[export] Hint Resolve returns_io returns_over returns_withClient returns_with_links returns_dispatch returns_startNetwork
  returns_Disconnect returns_SetServer returns_SetLanDiscovery : core_returns.

Section safe.
Context {C : Ed25519} {N : Net} {K : Links} {H : Host} {G : LinksLaws K} {HL : HostLaws H}.
Abbreviation T := (thread Core).
Abbreviation safe := (keeps core_wf grows).

(** ** The server *)
Lemma kept_setServerOnline online c : safe c (setServerOnline online).
Proof.
  apply kept_bind; [|intros changed c1 _; kept_steps]. apply keeps_locked. intros c1 Hc _.
  by apply (sound_in_state (λ s, s <| s_ServerOnline := online |>)).
Qed.
#[local] Hint Resolve kept_setServerOnline : core_safe.

Lemma kept_setMessage m s c : safe c (setMessage m s).
Proof. unfold setMessage. kept_steps. Qed.
#[local] Hint Resolve kept_setMessage : core_safe.

Lemma kept_save_after f c : safe c (save_after f).
Proof. unfold save_after. kept_steps. Qed.
#[local] Hint Resolve kept_save_after : core_safe.

Lemma kept_SetNicknameOf n c : safe c (SetNicknameOf n).
Proof. unfold SetNicknameOf. kept_steps. Qed.
#[local] Hint Resolve kept_SetNicknameOf : core_safe.

Lemma kept_adoptNickname ctx cl c : safe c (adoptNickname ctx cl).
Proof. unfold adoptNickname. kept_steps. Qed.
#[local] Hint Resolve kept_adoptNickname : core_safe.

Lemma kept_registered ctx cl url c : safe c (registered ctx cl url).
Proof. unfold registered, SetTokenOf. kept_steps. Qed.
#[local] Hint Resolve kept_registered : core_safe.

Lemma kept_new_client ctx url c : safe c (new_client ctx url).
Proof. unfold new_client. kept_steps. Qed.
#[local] Hint Resolve kept_new_client : core_safe.

Lemma kept_ensureClient ctx c : safe c (ensureClient ctx).
Proof. unfold ensureClient. kept_steps. Qed.
#[local] Hint Resolve kept_ensureClient : core_safe.

Lemma kept_withClient {A} ctx (call : bool → Client → st W (control_error + A)) c : safe c (withClient ctx call).
Proof. unfold withClient, made_call, failed_call, ClearToken. kept_steps. Qed.
#[local] Hint Resolve kept_withClient : core_safe.

(** ** Ending a session *)
Lemma sound_in_state_rows g : (∀ s, s_ServerURL (g s) = s_ServerURL s) → sound (λ c, (in_state g c) <| peers := ∅ |>).
Proof. intros Hg. apply (sound_rows _ (λ _, ∅)); [intros c; by cbn|done]. Qed.

Lemma sound_forget g : (∀ s, s_ServerURL (g s) = s_ServerURL s) →
  sound (λ c, (in_state g c) <| mesh := None |> <| device := None |> <| peers := ∅ |>).
Proof.
  intros Hg c [H1 H2 H3 H4 H5]. split; [|by intros ?]. split; try done. cbn. by rewrite Hg.
Qed.

Lemma sound_stopped ctx : sound (λ c, c <| stopped := {[ctx]} ∪ stopped c |>).
Proof. intros c [H1 H2 H3 H4 H5]. split; [by split|]. intros i. split; [done|]. cbn. set_solver. Qed.

Lemma kept_stop ctx c : safe c (stop ctx).
Proof. by apply kept_write, sound_stopped. Qed.
#[local] Hint Resolve kept_stop : core_safe.

Lemma kept_finishDisconnect ended reason c : safe c (finishDisconnect ended reason).
Proof.
  apply (kept_with (λ r _, screen_ok r.2)); [by apply yields_section, sound_forget|].
  intros [[m d] after] c1 _ Ha. cbn [fst snd]. kept_steps.
Qed.
#[local] Hint Resolve kept_finishDisconnect : core_safe.

Lemma kept_take_session f c : (∀ s, s_ServerURL (f s) = s_ServerURL s) → safe c (take_session f).
Proof.
  intros Hf. apply keeps_locked. intros c1 Hc _. unfold wp, mbind, prog_bind, gets. destruct (session c1); [|done].
  apply (aside_sound (λ c, (in_state f c) <| session := None |>)); [|done]. intros c2. by cbn.
Qed.

Lemma kept_dropSession reason c : safe c (dropSession reason).
Proof. apply kept_bind; [by apply kept_take_session|]. intros was c1 _. kept_steps. Qed.
#[local] Hint Resolve kept_dropSession : core_safe.

(** ** The rows *)
Lemma kept_renamePeer d n c : safe c (renamePeer d n).
Proof.
  apply (kept_with (λ r _, screen_ok r.2)); [by apply yields_section, sound_alter|].
  intros [ok after] c1 _ Ha. kept_steps.
Qed.
#[local] Hint Resolve kept_renamePeer : core_safe.

Lemma kept_loadMembers ctx g c : safe c (loadMembers ctx g).
Proof.
  apply kept_bind; [apply kept_withClient|]. intros [e|members] c1 _; [apply kept_ret|].
  apply (kept_with (λ r _, match r with Some s => screen_ok s | None => True end)).
  - apply yields_locked. intros c2 Hc _. unfold wp, mbind, prog_bind, gets. destruct (in_group g c2); cbn [negb]; [|done].
    destruct (sound_rows (λ c, c <| peers := members_only (id_DeviceID (identity c2)) members (peers c) |>)
      (members_only (id_DeviceID (identity c2)) members)) with (c := c2) as [Hw Hg]; [by intros ?|apply rows_ok_members|done|].
    split; [exact Hw|]. split; [exact Hg|]. by apply snapshot_ok.
  - intros [s|] c2 _ Hs; kept_steps.
Qed.
#[local] Hint Resolve kept_loadMembers : core_safe.

(** Calls through a pointer that was read. *)
Definition leads (m : option positive) (c : Core) : Prop := ∀ i, m = Some i → is_Some (links c !! i).
Lemma leads_stable m : stable grows (leads m).
Proof. intros c c' Hg Hm i Hi. by apply Hg, Hm. Qed.

Lemma kept_unlink m d c : leads m c → safe c (unlink m d).
Proof.
  intros Hm. destruct m as [i|]; [|apply kept_ret]. apply kept_with_links; [by apply Hm|]. intros. by apply remove_peer_good.
Qed.

Lemma kept_linkPeer p c : safe c (linkPeer p).
Proof.
  apply (kept_with leads); [apply yields_mesh|]. intros [i|] c1 _ Hm; [|apply kept_ret].
  destruct (ParseAddr _); [|apply kept_ret]. destruct (DecodeString _ _); [|apply kept_ret].
  apply kept_bind; [|intros; apply kept_ret]. apply kept_with_links; [by apply Hm|]. intros. by apply add_peer_good.
Qed.
#[local] Hint Resolve kept_linkPeer : core_safe.

Lemma kept_addPeer p c : safe c (addPeer p).
Proof.
  apply (kept_with (λ r _, screen_ok r.2)).
  - apply yields_locked. intros c1 Hc _.
    set (row := came_online p (default (fresh_row (pr_DeviceID p)) (peers c1 !! pr_DeviceID p))).
    destruct (sound_rows (λ c, c <| peers := <[pr_DeviceID p := row]> (peers c) |>) (<[pr_DeviceID p := row]>))
      with (c := c1) as [Hw Hg]; [by intros ?| |done|].
    + intros rows Hr. apply rows_ok_insert; [done|]. unfold row, came_online.
      assert (∀ v, pv_DeviceID v = pr_DeviceID p → pv_DeviceID (came_online p v) = pr_DeviceID p) as Hv
        by (intros v E; unfold came_online; by case_decide).
      apply Hv. destruct (peers c1 !! pr_DeviceID p) eqn:E; [by apply (cw_rows c1 Hc)|done].
    + split; [exact Hw|]. split; [exact Hg|]. by apply snapshot_ok.
  - intros [[known added] after] c1 _ Ha. kept_steps.
Qed.
#[local] Hint Resolve kept_addPeer : core_safe.

Lemma kept_peerWentOffline d c : safe c (peerWentOffline d).
Proof.
  apply (kept_with (λ r c', leads r.1.1.1 c' ∧ screen_ok r.2)).
  - apply yields_locked. intros c1 Hc _. destruct (sound_alter d went_away ltac:(done) c1 Hc) as [Hw Hg].
    split; [exact Hw|]. split; [exact Hg|]. split; [|by apply snapshot_ok]. intros i Hi. apply Hg. by apply (cw_mesh c1 Hc).
  - intros [[[m g] known] after] c1 _ [Hm Ha]. apply kept_bind; [by apply kept_unlink|]. intros _ c2 _. kept_steps.
Qed.
#[local] Hint Resolve kept_peerWentOffline : core_safe.

Lemma kept_removePeer d c : safe c (removePeer d).
Proof.
  apply (kept_with (λ r c', leads r.1 c' ∧ screen_ok r.2)).
  - apply yields_locked. intros c1 Hc _. destruct (sound_delete d c1 Hc) as [Hw Hg].
    split; [exact Hw|]. split; [exact Hg|]. split; [|by apply snapshot_ok]. intros i Hi. apply Hg. by apply (cw_mesh c1 Hc).
  - intros [m after] c1 _ [Hm Ha]. apply kept_bind; [by apply kept_unlink|]. intros _ c2 _. kept_steps.
Qed.
#[local] Hint Resolve kept_removePeer : core_safe.

Lemma kept_RetryPeer d c : safe c (RetryPeer d).
Proof.
  unfold RetryPeer. case_bool_decide; [apply kept_ret|].
  apply (kept_with (λ r c', leads r.1 c')).
  - apply yields_locked. intros c1 Hc _. split; [done|]. split; [by intros ?|]. intros i Hi. by apply (cw_mesh c1 Hc).
  - intros [[i|] [|]] c1 _ Hm; try apply kept_ret. apply kept_bind; [|intros; apply kept_ret].
    apply kept_with_links; [by apply Hm|]. intros. by apply retry_peer_good.
Qed.
#[local] Hint Resolve kept_RetryPeer : core_safe.

(** ** The loops of a session *)
Lemma kept_noteAddressProblem bad c : safe c (noteAddressProblem bad).
Proof.
  apply (kept_with (λ r _, match r with Some s => screen_ok s | None => True end)).
  - apply yields_locked. intros c1 Hc _. unfold wp, mbind, prog_bind, gets. destruct (eqb bad _); [done|].
    destruct (sound_in_state (λ s, s <| s_Message := if bad then addressProblem else [] |>) ltac:(done) c1 Hc) as [Hw Hg].
    split; [exact Hw|]. split; [exact Hg|]. by apply snapshot_ok.
  - intros [s|] c2 _ Hs; kept_steps.
Qed.
#[local] Hint Resolve kept_noteAddressProblem : core_safe.

Lemma kept_republishEndpoint ctx i id published c : is_Some (links c !! i) → safe c (republishEndpoint ctx i id published).
Proof.
  intros Hi. unfold republishEndpoint. apply kept_bind; [apply kept_read|]. intros servers c1 Hg1.
  apply kept_bind; [apply kept_over|]. intros [e|] c2 Hg2; [|by kept_steps].
  apply kept_bind; [apply kept_noteAddressProblem|]. intros _ c3 Hg3. case_bool_decide; [apply kept_ret|].
  apply kept_bind; [apply kept_withClient|]. intros [?|_] c4 Hg4; [apply kept_ret|].
  apply kept_bind; [|intros; apply kept_ret]. apply kept_when, kept_with_links; [by apply Hg4, Hg3, Hg2, Hg1|].
  apply restart_links_good.
Qed.

Lemma kept_publish_turns turns ctx i id first published c : is_Some (links c !! i) →
  safe c (publish_turns turns ctx i id first published).
Proof.
  revert first published c. induction turns as [|turns IH]; intros first published c Hi; cbn [publish_turns];
    (apply kept_bind; [apply kept_io|]); intros due c1 Hg1;
    (apply kept_bind; [destruct (first || due); [by apply kept_republishEndpoint, Hg1|apply kept_ret]|]);
    intros published' c2 Hg2; [exact Logic.I|]. apply kept_bind; [apply kept_read|]. intros on c3 Hg3.
  destruct (negb on); [apply kept_ret|]. by apply IH, Hg3, Hg2, Hg1.
Qed.

Lemma kept_publishEndpoint turns ctx i id c : is_Some (links c !! i) → safe c (publishEndpoint turns ctx i id).
Proof.
  intros Hi. unfold publishEndpoint. apply kept_bind; [apply kept_read|]. intros servers c1 Hg1.
  case_bool_decide; [apply kept_ret|]. by apply kept_publish_turns, Hg1.
Qed.

Lemma yields_readTraffic i c : is_Some (links c !! i) →
  yields core_wf grows (λ r _, match r with Some s => screen_ok s | None => True end) c (readTraffic i).
Proof.
  intros Hi. apply (yields_bind core_wf grows (λ _ _, True)); [by apply yields_locked|]. intros counts c1 Hg1 _.
  apply yields_locked. intros c2 Hc2 Hg2. unfold readTraffic.
  set (g := λ s, s <| s_PacketsSent := counts.1 |> <| s_PacketsReceived := counts.2 |>).
  destruct (sound_in_state g ltac:(done) c2 Hc2) as [Hw Hg]. apply wp_bind, wp_gets, wp_bind, wp_modify, wp_bind.
  eapply wp_mono; [apply wp_on_mesh; [exact Hw|by apply Hg, Hg2, Hg1|apply traffic_good]|].
  intros all c3 [Hc3 Hg3]. apply wp_bind, wp_modify.
  destruct (sound_rows (λ c, c <| peers := foldl count_row (peers c) all |>) (λ rows, foldl count_row rows all)) with (c := c3)
    as [Hw4 Hg4]; [by intros ?|intros rows Hr; by apply rows_ok_count|done|].
  apply wp_bind, wp_gets, wp_bind, wp_gets, wp_ret. split; [exact Hw4|]. split.
  - transitivity (in_state g c2); [done|]. by transitivity c3.
  - destruct (negb _); [by apply snapshot_ok|done].
Qed.

Lemma kept_watchTraffic turns ctx i c : is_Some (links c !! i) → safe c (watchTraffic turns ctx i).
Proof.
  revert c. induction turns as [|turns IH]; intros c Hi; [exact Logic.I|]. cbn [watchTraffic].
  apply kept_bind; [apply kept_read|]. intros on c1 Hg1. destruct (negb on); [apply kept_ret|].
  apply (kept_with _ _ _ _ (yields_readTraffic i c1 (proj1 (Hg1 _) Hi))). intros r c2 Hg2 Hr.
  apply kept_bind; [destruct r; kept_steps|]. intros _ c3 Hg3. by apply IH, Hg3, Hg2, Hg1.
Qed.

Lemma kept_dispatch step c : safe c (dispatch step realtimeHandler).
Proof.
  destruct step as [|status| |e| |]; [..|destruct e| |]; cbn [dispatch realtimeHandler rh_PeerOnline rh_PeerOffline rh_PeerEndpointUpdated rh_PeerRenamed rh_GroupDeleted rh_MembershipRevoked
    rh_SessionInvalidated]; try by kept_steps.
  destruct (parseEndpoint _); [|apply kept_ret].
  apply (kept_with leads); [apply yields_mesh|]. intros [i|] c1 _ Hm; [|apply kept_ret].
  apply kept_with_links; [by apply Hm|]. intros. by apply set_peer_endpoint_good.
Qed.
#[local] Hint Resolve kept_dispatch : core_safe.

Lemma kept_Realtime turns ctx id listening c : safe c (Realtime turns ctx id realtimeHandler listening).
Proof.
  revert listening c. induction turns as [|turns IH]; intros listening c; [exact Logic.I|].
  cbn [Realtime realtimeHandler rh_Connected rh_SessionInvalidated]. kept_steps.
Qed.
#[local] Hint Resolve kept_Realtime : core_safe.

Lemma kept_watchGroup turns ctx was c : safe c (watchGroup turns ctx was).
Proof. unfold watchGroup. kept_steps. Qed.
#[local] Hint Resolve kept_watchGroup : core_safe.

Lemma kept_runLinks turns ctx i c : is_Some (links c !! i) → safe c (runLinks turns ctx i).
Proof.
  revert c. induction turns as [|turns IH]; intros c Hi; [exact Logic.I|]. cbn [runLinks].
  apply kept_bind; [apply kept_read|]. intros on c1 Hg1. destruct (negb on); [apply kept_ret|].
  apply (kept_with (λ t _, turn_ok t)); [apply (yields_io _ turn_ok), next_turn_ok|]. intros t c2 Hg2 Ht.
  apply kept_bind; [|intros _ c3 Hg3; by apply IH, Hg3, Hg2, Hg1].
  apply kept_with_links; [by apply Hg2, Hg1|]. intros l Hl. by apply run_turn_good.
Qed.

(** ** The adapter and the socket *)
Lemma kept_preferForMulticast b c : safe c (preferForMulticast b).
Proof. unfold preferForMulticast. kept_steps. Qed.
#[local] Hint Resolve kept_preferForMulticast : core_safe.

Lemma kept_aside {A} (f : Core → Core) (h : Core → A) c : aside f → safe c (locked (modify f;; gets h)).
Proof. intros Hf. apply keeps_locked. intros c1 Hc _. by apply (aside_sound f). Qed.

Lemma kept_startAdapter ip subnet c : safe c (startAdapter ip subnet).
Proof.
  unfold startAdapter. destruct (adapterAddress _ _); [apply kept_ret|]. apply kept_bind; [apply kept_io|].
  intros [e|] c1 _; [apply kept_setMessage|]. apply kept_bind.
  { apply keeps_locked. intros c2 Hc _.
    exact (aside_sound (λ c, c <| next := Pos.succ (next c) |> <| adapters := {[next c]} ∪ adapters c |>)
      ltac:(by intros ?) c2 Hc). }
  intros i c2 _. apply kept_bind; [apply kept_aside; by intros ?|]. intros lan c3 _. apply kept_preferForMulticast.
Qed.
#[local] Hint Resolve kept_startAdapter : core_safe.

(** A mesh of its own for a session. *)
Lemma yields_new_links a c :
  yields core_wf grows (λ i c', is_Some (links c' !! i)) c
    (locked (i ← fresh; modify (λ c, c <| links := <[i := new_links (id_DeviceID (identity c)) a]> (links c) |>);; mret i)).
Proof.
  apply yields_locked. intros c1 [H1 H2 H3 H4 H5] _.
  set (l := new_links (id_DeviceID (identity c1)) a). assert (good l) as Hl by apply new_good.
  split.
  - split; try done; cbn.
    + intros i l0 [[<- <-]|[_ Hi]]%lookup_insert_Some; [done|by apply (H3 i)].
    + intros i Hi. apply lookup_insert_is_Some'. right. by apply H4.
  - split; [intros i; split; [intros Hi; apply lookup_insert_is_Some'; by right|done]|]. cbn. rewrite lookup_insert_eq. by eexists.
Qed.

Lemma kept_startNetwork turns ctx was online c : safe c (startNetwork turns ctx was online).
Proof.
  unfold startNetwork. cbv zeta. apply kept_bind; [apply kept_io|]. intros opened c1 _. destruct (negb opened); [apply kept_ret|].
  apply (kept_with _ _ _ _ (yields_new_links _ c1)). intros i c2 _ Hi.
  apply (kept_with (λ _ _, True)).
  { apply yields_locked. intros c3 [H1 H2 H3 H4 H5] Hg. split; [|split; [by intros ?|done]].
    split; try done. cbn. intros j [= <-]. by apply Hg. }
  intros _ c3 Hg3 _. assert (∀ c', grows c3 c' → is_Some (links c' !! i)) as Hi' by (intros c' Hg; by apply Hg, Hg3).
  apply kept_bind; [by apply keeps_go, kept_runLinks, Hi'|]. intros _ c4 Hg4.
  apply kept_bind; [apply kept_each; intros; apply kept_linkPeer|]. intros _ c5 Hg5.
  apply kept_bind; [apply keeps_go, kept_publishEndpoint, Hi'; by transitivity c4|]. intros _ c6 Hg6.
  apply kept_bind; [apply keeps_go, kept_watchGroup|]. intros _ c7 Hg7.
  apply kept_bind; [apply keeps_go, kept_watchTraffic, Hi'; transitivity c4; [done|]; transitivity c5; [done|]; by transitivity c6|].
  intros _ c8 _. apply keeps_go, kept_startAdapter.
Qed.
#[local] Hint Resolve kept_startNetwork : core_safe.

(** ** Connecting and disconnecting *)
Lemma kept_failConnect err c : safe c (failConnect err).
Proof. unfold failConnect. by apply kept_announce, sound_in_state_rows. Qed.
#[local] Hint Resolve kept_failConnect : core_safe.

Lemma kept_keepAlive turns ctx id c : safe c (keepAlive turns ctx id).
Proof.
  assert (∀ c, safe c (beat turns ctx id)) as Hb.
  { induction turns as [|turns IH]; intros c'; [exact Logic.I|]. cbn [beat]. kept_steps. }
  unfold keepAlive. kept_steps.
Qed.
#[local] Hint Resolve kept_keepAlive : core_safe.

Lemma kept_describeGroup ctx g c : safe c (describeGroup ctx g).
Proof. unfold describeGroup. kept_steps. Qed.
#[local] Hint Resolve kept_describeGroup : core_safe.

Lemma kept_fresh c : safe c (locked fresh).
Proof.
  apply keeps_locked. intros c1 Hc _.
  exact (aside_sound (λ c, c <| next := Pos.succ (next c) |>) ltac:(by intros ?) c1 Hc).
Qed.
#[local] Hint Resolve kept_fresh : core_safe.

Lemma kept_runConnect turns g c : safe c (runConnect turns g).
Proof.
  unfold runConnect. apply kept_bind; [kept_leaf|]. intros ctx c1 _. do 2 (kept_step; [kept_leaf|]).
  apply kept_bind; [kept_leaf|]. intros [err|[[id ip] online]] c4 _; [by kept_steps|].
  kept_step; [kept_leaf|]. cbv zeta. apply (kept_with (λ s _, screen_ok s)).
  - apply yields_changed. intros c5 [W1 W2 W3 W4 W5]. split; [|by intros ?]. split; try done. cbn. apply rows_ok_connecting.
  - intros s c5 _ Hs. kept_steps.
Qed.
#[local] Hint Resolve kept_runConnect : core_safe.

Lemma kept_await_heartbeat ctx c : ctx ∈ stopped c → safe c (await_heartbeat ctx).
Proof.
  intros Hin. apply keeps_await. intros c1 Hc Hg _.
  destruct (aside_sound meanwhile ltac:(by intros ?) c1 Hc) as [Hw Hg1]. split; [exact Hw|]. split; [exact Hg1|].
  apply bool_decide_eq_true. intros [Ha _]%elem_of_filter. apply bool_decide_unpack in Ha as [Ha _]. by apply Ha, Hg.
Qed.

Lemma kept_Disconnect c : safe c Disconnect.
Proof.
  apply kept_bind; [by apply kept_take_session|]. intros [was|] c1 _; [|apply kept_ret].
  apply (kept_with (λ _ c, as_ctx was ∈ stopped c)).
  { apply yields_locked. intros c2 Hc _. destruct (sound_stopped (as_ctx was) c2 Hc) as [Hw Hg]. split; [exact Hw|].
    split; [exact Hg|]. cbn. set_solver. }
  intros _ c2 _ Hin. apply kept_bind; [by apply kept_await_heartbeat|]. intros _ c3 _. kept_steps.
Qed.
#[local] Hint Resolve kept_Disconnect : core_safe.

Lemma kept_begin turns g c : safe c (begin turns g).
Proof. unfold begin. kept_steps. Qed.
#[local] Hint Resolve kept_begin : core_safe.

Lemma kept_Connect turns g c : safe c (Connect turns g).
Proof. unfold Connect. kept_steps. Qed.
#[local] Hint Resolve kept_Connect : core_safe.

(** ** What the app can ask for *)
Lemma kept_leave_first g c : safe c (leave_first g).
Proof. unfold leave_first. kept_steps. Qed.
#[local] Hint Resolve kept_leave_first : core_safe.

Lemma kept_when_in g f c : sound f → safe c (when_in g f).
Proof.
  intros Hf. apply kept_announce. intros c1 Hc. destruct (in_group g c1); [by apply Hf|]. split; [done|by intros ?].
Qed.

Lemma kept_RenameGroup g n c : safe c (RenameGroup g n).
Proof.
  unfold RenameGroup. cbv zeta. kept_step; [apply kept_ret|]. kept_step; [apply kept_withClient|].
  apply kept_bind; [|intros; apply kept_ret]. apply kept_when_in, aside_sound. intros c1. by cbn.
Qed.

Lemma kept_SetGroupAppearance g i k c : safe c (SetGroupAppearance g i k).
Proof.
  unfold SetGroupAppearance. kept_step; [apply kept_ret|]. kept_step; [apply kept_withClient|].
  apply kept_bind; [|intros; apply kept_ret]. by apply kept_when_in, sound_in_state.
Qed.

Lemma kept_TransferOwnership g d c : safe c (TransferOwnership g d).
Proof.
  unfold TransferOwnership. kept_step; [apply kept_ret|]. kept_step; [apply kept_withClient|].
  apply kept_bind; [by apply kept_when_in, sound_in_state|]. intros. kept_steps.
Qed.

Lemma yields_saving {A} (f : Core → Core) (h : Core → A) (Q : A → Prop) c : sound f → (∀ c, core_wf c → Q (h c)) →
  yields core_wf grows (λ r _, Q r.2) c (saving f h).
Proof.
  intros Hf HQ. apply yields_locked. intros c1 Hc _. destruct (Hf c1 Hc) as [Hw Hg].
  unfold wp, mbind, prog_bind, modify, save. destruct (save_settings (world (f c1))) as [ok w].
  destruct (aside_sound (λ c, c <| world := w |>) ltac:(by intros ?) (f c1) Hw) as [Hw2 Hg2].
  split; [exact Hw2|]. split; [by transitivity (f c1)|]. by apply HQ.
Qed.

Lemma kept_SetServer url c : safe c (SetServer url).
Proof.
  unfold SetServer. destruct (validateServerURL url); [apply kept_ret|]. apply kept_bind; [apply kept_read|].
  intros [|] c1 _; [apply kept_ret|]. apply kept_try; [apply kept_Disconnect|]. intros _ c2 _.
  apply (kept_with (λ r _, screen_ok r.2)).
  - apply yields_saving; [|apply snapshot_ok]. intros c3 [H1 H2 H3 H4 H5]. by split; [split|intros ?].
  - intros [saved s] c3 _ Hs. kept_steps.
Qed.
#[local] Hint Resolve kept_SetServer : core_safe.

Lemma kept_SetLanDiscovery b c : safe c (SetLanDiscovery b).
Proof.
  apply kept_bind; [|intros r c1 _; kept_steps]. apply keeps_locked. intros c1 Hc _.
  unfold wp, mbind, prog_bind, gets, modify, save. destruct (eqb _ b); [done|].
  destruct (save_settings _) as [ok w].
  exact (aside_sound (λ c, c <| prefs := (prefs c) <| LanDiscovery := b |> |> <| world := w |>) ltac:(by intros ?) c1 Hc).
Qed.
#[local] Hint Resolve kept_SetLanDiscovery : core_safe.

Lemma kept_switch b c : safe c (locked (switch_packet_log b)).
Proof.
  apply keeps_locked. intros c2 Hc _. unfold wp, switch_packet_log.
  match goal with |- context [let '(_, _) := ?x in _] => destruct x as [ok w] end.
  set (r := SetEnabled b (if (ok : bool) then None else Some tt) (packets c2)).
  exact (aside_sound (λ c, c <| packets := r.2 |> <| world := w |>) ltac:(by intros ?) c2 Hc).
Qed.
#[local] Hint Resolve kept_switch : core_safe.

Lemma kept_empty_packet_log c : safe c (locked empty_packet_log).
Proof.
  apply keeps_locked. intros c2 Hc _. unfold wp, empty_packet_log. destruct (packets c2) as [p|] eqn:Ep; [|done]. rewrite <-Ep.
  destruct (clear_packet_log (world c2)) as [ok w].
  set (r := Netlog.Clear (if (ok : bool) then None else Some tt) (packets c2)).
  exact (aside_sound (λ c, c <| packets := r.2 |> <| world := w |>) ltac:(by intros ?) c2 Hc).
Qed.
#[local] Hint Resolve kept_empty_packet_log : core_safe.

Lemma kept_SetPacketLog b c : safe c (SetPacketLog b).
Proof.
  apply kept_bind.
  - apply kept_switch.
  - intros [e|] c2 _; [apply kept_ret|]. apply (kept_with (λ _ _, True)); [|intros; apply kept_ret].
    apply (yields_saving _ _ (λ _, True)); [|done]. by apply aside_sound; intros ?.
Qed.

(** ** All of them *)
Inductive op : Type :=
  | OConnect (g : gostring) | ODisconnect
  | OGetState | OGetGroups
  | OCreateGroup (name icon color : gostring) | OJoinGroup (pasted : gostring) | OGetInvite (pasted : gostring)
  | OResetInvite (g : gostring) | OLeaveGroup (g : gostring) | ODeleteGroup (g : gostring)
  | ORenameGroup (g name : gostring) | OSetGroupAppearance (g icon color : gostring)
  | ORemoveMember (g d : gostring) | OTransferOwnership (g d : gostring) | ORetryPeer (d : gostring)
  | OSetNickname (n : gostring)
  | OGetServer | OSetServer (url : gostring) | OTestServer (url : gostring)
  | OGetLanDiscovery | OSetLanDiscovery (b : bool) | OGetPacketLog | OSetPacketLog (b : bool)
  | OClearLogs | OResetSettings
  (** What the process does with it. *)
  | OSetEvents | OSetLogs (main : bool) | OClose.

(** A request and its result, of which the loops it starts get [turns] turns. *)
Definition done_with {A} (t : T A) : T unit := _ ← t; Return tt.
Definition run_op (turns : nat) (o : op) : T unit :=
  match o with
  | OConnect g => done_with (Connect turns g)
  | ODisconnect => done_with Disconnect
  | OGetState => done_with GetState
  | OGetGroups => done_with GetGroups
  | OCreateGroup n i k => done_with (CreateGroup n i k)
  | OJoinGroup p => done_with (JoinGroup p)
  | OGetInvite p => done_with (GetInvite p)
  | OResetInvite g => done_with (ResetInvite g)
  | OLeaveGroup g => done_with (LeaveGroup g)
  | ODeleteGroup g => done_with (DeleteGroup g)
  | ORenameGroup g n => done_with (RenameGroup g n)
  | OSetGroupAppearance g i k => done_with (SetGroupAppearance g i k)
  | ORemoveMember g d => done_with (RemoveMember g d)
  | OTransferOwnership g d => done_with (TransferOwnership g d)
  | ORetryPeer d => done_with (RetryPeer d)
  | OSetNickname n => done_with (SetNickname n)
  | OGetServer => done_with GetServer
  | OSetServer url => done_with (SetServer url)
  | OTestServer url => done_with (TestServer url)
  | OGetLanDiscovery => done_with GetLanDiscovery
  | OSetLanDiscovery b => done_with (SetLanDiscovery b)
  | OGetPacketLog => done_with GetPacketLog
  | OSetPacketLog b => done_with (SetPacketLog b)
  | OClearLogs => done_with ClearLogs
  | OResetSettings => done_with ResetSettings
  | OSetEvents => done_with SetEvents
  | OSetLogs main => done_with (SetLogs main)
  | OClose => done_with Close
  end.

Lemma kept_run_op turns o c : safe c (run_op turns o).
Proof.
  destruct o; cbn [run_op]; unfold done_with; (apply kept_bind; [|intros; apply kept_ret]);
    first [apply kept_RenameGroup|apply kept_SetGroupAppearance|apply kept_TransferOwnership|apply kept_SetPacketLog|idtac];
    unfold GetState, GetGroups, CreateGroup, JoinGroup, one_group, GetInvite, ResetInvite, LeaveGroup, DeleteGroup, RemoveMember,
      SetNickname, GetServer, TestServer, GetLanDiscovery, GetPacketLog, ClearLogs, ResetSettings, SetEvents, SetLogs, Close; kept_steps.
Qed.

(** A request is answered without waiting for the end of any session. *)
Lemma returns_run_op turns o : returns (run_op turns o).
Proof.
  destruct o; cbn [run_op]; unfold done_with, GetState, GetGroups, CreateGroup, JoinGroup, one_group, GetInvite, ResetInvite, LeaveGroup,
    DeleteGroup, leave_first, RemoveMember, removePeer, unlink, RenameGroup, SetGroupAppearance, TransferOwnership, when_in, RetryPeer,
    SetNickname, SetNicknameOf, save_after, Connect, begin, GetServer, TestServer, GetLanDiscovery, GetPacketLog, SetPacketLog, saving,
    ClearLogs, ResetSettings, SetEvents, SetLogs, Close, stop; returns_steps.
Qed.

Lemma core_New_wf id set fallback recorder w : core_wf (New id set fallback recorder w).
Proof. by split. Qed.

(** C4: the daemon's brain survives its callers.  Any number of requests, of whatever
    kind and with whatever arguments, running at once and interleaved in any way with
    each other, with the goroutines of the sessions they open, with what the links
    report and with what the server announces, whatever the server answers or does not,
    whatever fails on the machine: no goroutine follows a nil pointer, every mesh stays
    in order, the server on screen is the one in the settings, every row is under its
    own device; and every list the app was ever sent shows each person once, those who
    are here before those who are away, each half by address. *)
Theorem the_core_survives_its_callers turns ops id set fallback recorder w ts c :
  rtc sched_step (run_op turns <$> ops, New id set fallback recorder w) (ts, c) →
  core_wf c ∧ (Fault : T unit) ∉ ts.
Proof.
  intros Hr. destruct (sched_keeps core_wf grows (run_op turns <$> ops) (New id set fallback recorder w) ts c) as (Hc & _ & Hts).
  - apply Forall_fmap, Forall_true. intros o. apply kept_run_op.
  - apply core_New_wf.
  - exact Hr.
  - split; [done|]. by apply (keeps_not_Fault core_wf grows ts c).
Qed.
End safe.
