(* ===== verification/CoreProps.v ===== *)
(** What disconnecting and connecting come to, and what a call to the server leaves alone. *)
From S2P Require Import Prelude Bytes NetAddr NetText Base64 Netlog Pump Invite Schema Auth ApiTypes Control Ipc Threads Core CoreNetwork CoreConnect CoreInv CoreSafe.

Section props.
Context {C : Ed25519} {N : Net} {K : Links} {H : Host} {G : LinksLaws K} {HL : HostLaws H}.
Abbreviation T := (thread Core).

(** ** What a call to the server leaves alone *)
Record same_session (c c' : Core) : Prop := mkSame {
  ss_session : session c' = session c;
  ss_peers : peers c' = peers c;
  ss_mesh : mesh c' = mesh c;
  ss_device : device c' = device c;
  ss_links : links c' = links c;
  ss_closed : closed c' = closed c;
  ss_adapters : adapters c' = adapters c;
  ss_stopped : stopped c' = stopped c;
  ss_beating : beating c' = beating c;
  ss_next : next c' = next c;
  ss_prefs : prefs c' = prefs c;
  (** Only whether the server answers and the name of this device. *)
  ss_state : state c' = (state c) <| s_ServerOnline := s_ServerOnline (state c') |> <| s_Nickname := s_Nickname (state c') |>;
  (** What the app was told it was told. *)
  ss_told : events c `prefix_of` events c';
}.
#[export] Instance same_session_preorder : PreOrder same_session.
Proof.
  split; [intros c; by destruct c as [? ? ? ? ? []]|].
  intros c1 c2 c3 [A1 A2 A3 A4 A5 A6 A7 A8 Ab A9 A10 A11 A12] [B1 B2 B3 B4 B5 B6 B7 B8 Bb B9 B10 B11 B12].
  split; try congruence; [rewrite B11, A11; by cbn|by transitivity (events c2)].
Qed.

Ltac same := let c := fresh in intros c; destruct c as [? ? ? ? ? []]; split; first [reflexivity|by eexists].

Lemma framed_io {A} (f : st W A) : frames same_session (io f).
Proof.
  intros c a ts c'. cbn. destruct (f (world c)) as [b w]. intros [= <- <- <-]. split; [|done]. by destruct c as [? ? ? ? ? []].
Qed.
Lemma framed_over {A} ctx (f : bool → st W A) : frames same_session (over ctx f).
Proof.
  intros c a ts c'. cbn. destruct (f _ (world c)) as [b w]. intros [= <- <- <-]. split; [|done]. by destruct c as [? ? ? ? ? []].
Qed.
Lemma framed_read {A} (f : Core → A) : frames same_session (read f).
Proof. apply framed_locked. intros c a c' [= <- <-]. done. Qed.
Lemma framed_write f : (∀ c, same_session c (f c)) → frames same_session (write f).
Proof. intros Hf. apply framed_locked. intros c a c' [= <- <-]. apply Hf. Qed.
Lemma framed_emit e : frames same_session (emit e).
Proof. apply framed_write. same. Qed.
Lemma framed_announce f : (∀ c, same_session c (f c)) → frames same_session (announce f).
Proof.
  intros Hf. apply framed_bind; [apply _|apply framed_locked; intros c a c' [= <- <-]; apply Hf|]. intros s. apply framed_emit.
Qed.

Ltac frame_step :=
  lazymatch goal with
  | |- frames _ (Return _) => apply framed_Return, _
  | |- frames _ (io _) => apply framed_io
  | |- frames _ (over _ _) => apply framed_over
  | |- frames _ (read _) => apply framed_read
  | |- frames _ (write _) => apply framed_write; same
  | |- frames _ (emit _) => apply framed_emit
  | |- frames _ (announce _) => apply framed_announce; same
  | |- frames _ (whenT _ _) => apply framed_when; [apply _|]
  | |- frames _ (try_thread _ _) => apply framed_try; [apply _| |intros ?]
  | |- frames _ (_ ≫= _) => apply framed_bind; [apply _| |intros ?]
  | |- frames _ (match ?x with _ => _ end) => destruct x
  | |- frames _ (let '_ := ?x in _) => destruct x
  | |- frames _ _ => solve [auto]
  end.
Ltac frame_steps := repeat (cbv zeta; frame_step).

Lemma framed_setServerOnline online : frames same_session (setServerOnline online).
Proof.
  unfold setServerOnline. apply framed_bind; [apply _|apply framed_locked|intros; frame_steps].
  intros c a c' [= <- <-]. by destruct c as [? ? ? ? ? []].
Qed.

Lemma framed_SetNicknameOf n : frames same_session (SetNicknameOf n).
Proof. unfold SetNicknameOf, save_after. frame_steps. Qed.

Lemma framed_withClient {A} ctx (call : bool → Client → st W (control_error + A)) : frames same_session (withClient ctx call).
Proof.
  pose proof framed_setServerOnline. pose proof framed_SetNicknameOf.
  unfold withClient, made_call, failed_call, ClearToken, ensureClient, new_client, registered, SetTokenOf, adoptNickname, save_after.
  frame_steps.
Qed.

Lemma withClient_alone {A} ctx (call : bool → Client → st W (control_error + A)) c : core_wf c →
  ∃ r c', alone (withClient ctx call) c = Some (r, [], c') ∧ core_wf c' ∧ same_session c c'.
Proof.
  intros Hc. destruct (keeps_alone core_wf grows (withClient ctx call) c Hc (returns_withClient ctx call) (kept_withClient ctx call c))
    as (r & ts & c' & E & Hc' & _). destruct (framed_withClient ctx call _ _ _ _ E) as [Hs ->]. by exists r, c'.
Qed.

(** ** Disconnecting *)

(** A heartbeat whose context has ended closes its [done] and does nothing else: this is
    what the others are taken to do while somebody waits. *)
Lemma keepAlive_ends turns ctx id c : alive (Some ctx) c = false →
  alone (keepAlive turns ctx id) c = Some (tt, [], c <| beating := beating c ∖ {[ctx]} |>).
Proof.
  intros Ha. unfold keepAlive. rewrite alone_bind. destruct turns as [|turns]; [cbn [beat until_ended alone]; by rewrite Ha|]. cbn [beat].
  change (alone (read (alive (Some ctx)) ≫= _) c) with (alone (if negb (alive (Some ctx) c) then Return tt else
    (answer ← withClient (Some ctx) (λ up cl, Control.Heartbeat up cl id); match answer with
      | inr _ => beat turns ctx id
      | inl err => on ← read (alive (Some ctx)); if negb on then Return tt else match err with
          | Failure code _ => if bool_decide (code = ErrSessionInvalid) then go_ (dropSession lost_connection) else beat turns ctx id
          | Internal => beat turns ctx id end end)) c).
  by rewrite Ha.
Qed.

Lemma await_alone ctx (c : Core) : ctx ∈ stopped c →
  alone (await_heartbeat ctx) c = Some (tt, [], if bool_decide (ctx ∉ beating c) then c else meanwhile c).
Proof.
  intros Hin. unfold await_heartbeat. cbn [alone]. case_bool_decide as Hb; [done|].
  exfalso. revert Hb. case_bool_decide as Hc; [done|]. intros [Ha _]%elem_of_filter. apply bool_decide_unpack in Ha as [Ha _]. by apply Ha.
Qed.

(** Nothing of a session is left: in the core, on the screen, on the machine. *)
Record gone (c c' : Core) : Prop := mkGone {
  gn_session : session c' = None;
  gn_mesh : mesh c' = None;
  gn_device : device c' = None;
  gn_peers : peers c' = ∅;
  gn_links : ∀ i, mesh c = Some i → i ∈ closed c';
  gn_adapter : ∀ i, device c = Some i → i ∉ adapters c';
}.

Lemma alone_write f (c : Core) : alone (write f) c = Some (tt, [], f c).
Proof. done. Qed.
Lemma alone_emit e (c : Core) : alone (emit e) c = Some (tt, [], c <| events := events c ++ [e] |>).
Proof. done. Qed.
Lemma alone_Return_then {A B} (a : A) (k : A → T B) (c : Core) : alone (Return a ≫= k) c = alone (k a) c.
Proof. done. Qed.

Lemma emits_alone a b (c : Core) : alone (emit a;; emit b) c = Some (tt, [], c <| events := events c ++ [a; b] |>).
Proof. rewrite (alone_then _ _ _ _ _ (alone_emit _ _)), alone_emit. unfold set_field; cbn [events]. by rewrite <-app_assoc. Qed.

(** [finishDisconnect] up to its events. *)
Definition torn_down (reason : gostring) (c : Core) : Core :=
  let c1 := (in_state (nothing_connected reason) c) <| mesh := None |> <| device := None |> <| peers := ∅ |> in
  let c2 := match mesh c with Some i => c1 <| closed := {[i]} ∪ closed c1 |> | None => c1 end in
  match device c with Some i => c2 <| adapters := adapters c2 ∖ {[i]} |> | None => c2 end.

Lemma torn_down_gone reason c : session c = None → gone c (torn_down reason c)
  ∧ state (torn_down reason c) = nothing_connected reason (state c)
  ∧ stopped (torn_down reason c) = stopped c ∧ beating (torn_down reason c) = beating c ∧ next (torn_down reason c) = next c
  ∧ events (torn_down reason c) = events c.
Proof.
  intros Hs. unfold torn_down. destruct (mesh c) as [i|] eqn:Em, (device c) as [j|] eqn:Ej; cbn; (split; [|done]);
    split; rewrite ?Em, ?Ej; cbn; try done; intros ? [= <-];
    first [by apply elem_of_union_l, elem_of_singleton_2|intros [_ Hn]%elem_of_difference; by apply Hn, elem_of_singleton_2].
Qed.

Lemma finishDisconnect_alone ended reason c : session c = None →
  ∃ c', alone (finishDisconnect ended reason) c = Some (tt, [], c') ∧ gone c c'
    ∧ state c' = nothing_connected reason (state c) ∧ stopped c' = stopped c ∧ beating c' = beating c ∧ next c' = next c
    ∧ events c' = events c ++ [GroupDisconnected (as_groupID ended) reason; StateChanged (snapshot c')].
Proof.
  intros Hs. destruct (torn_down_gone reason c Hs) as ([H1 H2 H3 H4 H5 H6] & Hst & Hsp & Hbt & Hnx & Hev).
  set (c1 := (in_state (nothing_connected reason) c) <| mesh := None |> <| device := None |> <| peers := ∅ |>).
  set (told := [GroupDisconnected (as_groupID ended) reason; StateChanged (snapshot c1)]).
  exists ((torn_down reason c) <| events := events c ++ told |>). split.
  - unfold finishDisconnect. erewrite alone_then by (by apply alone_locked). cbn [fst snd]. fold c1. rewrite <-Hev.
    pose proof (eq_refl (torn_down reason c)) as E2. unfold torn_down at 1 in E2. fold c1 in E2. revert E2. generalize (torn_down reason c). intros c2.
    destruct (mesh c) as [i|], (device c) as [j|]; cbv iota beta;
      intros <-; repeat first [rewrite (alone_then _ _ _ _ _ (alone_write _ _))|rewrite alone_Return_then]; rewrite emits_alone; reflexivity.
  - split; [by split|]. do 4 (split; [done|]). change (events c ++ told = events c ++ [GroupDisconnected (as_groupID ended) reason; StateChanged (snapshot ((torn_down reason c) <| events := events c ++ told |>))]).
    unfold told. do 4 f_equal. unfold snapshot, torn_down. destruct (mesh c), (device c); reflexivity.
Qed.

Lemma take_session_alone f s c : session c = Some s →
  alone (take_session f) c = Some (Some s, [], (in_state f c) <| session := None |>).
Proof. intros Hs. unfold take_session, locked. cbn [alone]. unfold mbind, prog_bind, gets. by rewrite Hs. Qed.

Lemma take_session_none f c : session c = None → alone (take_session f) c = Some (None, [], c).
Proof. intros Hs. unfold take_session, locked. cbn [alone]. unfold mbind, prog_bind, gets. by rewrite Hs. Qed.

Lemma Disconnect_alone s c : core_wf c → session c = Some s →
  ∃ c' told, alone Disconnect c = Some (inr tt, [], c') ∧ gone c c'
    ∧ stopped c' = {[as_ctx s]} ∪ stopped c ∧ (as_ctx s ∉ beating c') ∧ next c' = next c
    ∧ events c' = events c ++ told ++ [GroupDisconnected (as_groupID s) []; StateChanged (snapshot c')]
    ∧ ∃ now, state c' = nothing_connected [] now ∧ s_ServerURL now = s_ServerURL (state c).
Proof.
  intros Hc Hs. set (c1 := (in_state (λ s, s <| s_Connection := StateDisconnecting |>) c) <| session := None |>).
  set (c1' := c1 <| stopped := {[as_ctx s]} ∪ stopped c1 |>).
  set (c2 := if bool_decide (as_ctx s ∉ beating c1') then c1' else meanwhile c1').
  assert (alone (await_heartbeat (as_ctx s)) c1' = Some (tt, [], c2)) as Ew by (apply await_alone, elem_of_union_l, elem_of_singleton_2, eq_refl).
  assert (core_wf c2 ∧ mesh c2 = mesh c ∧ device c2 = device c ∧ session c2 = None ∧ stopped c2 = {[as_ctx s]} ∪ stopped c ∧ (as_ctx s ∉ beating c2) ∧ next c2 = next c
    ∧ events c2 = events c ∧ s_ServerURL (state c2) = s_ServerURL (state c)) as (Hc2 & Hm2 & Hd2 & Hn2 & Hst2 & Hb2 & Hx2 & He2 & Hu2).
  { unfold c2. case_bool_decide as Hb; (split; [by destruct Hc; split|]); (do 4 (split; [done|])); (split; [|done]); [done|].
    intros [Ha _]%elem_of_filter. apply bool_decide_unpack in Ha as [Ha _]. by apply Ha, elem_of_union_l, elem_of_singleton_2. }
  destruct (withClient_alone None (λ up cl, Control.Disconnect up cl (as_sessionID s)) c2 Hc2) as (r & c3 & E3 & Hc3 & Hs3).
  destruct (finishDisconnect_alone s [] c3) as (c4 & E4 & [H1 H2 H3 H4 H5 H6] & Hst & Hsp & Hbt & Hnx & Hev); [by rewrite (ss_session _ _ Hs3), Hn2|].
  destruct (ss_told _ _ Hs3) as [told Hl]. exists c4, told. split_and!.
  - unfold Disconnect. rewrite alone_bind, (take_session_alone _ s) by done. fold c1. rewrite alone_bind.
    change (alone (stop (as_ctx s)) c1) with (Some (tt, @nil (T unit), c1')). cbn iota. rewrite alone_bind, Ew. cbn iota. rewrite alone_bind, E3.
    cbn iota. rewrite alone_bind, E4. done.
  - split; [done..| |]; intros i Hi; [apply H5|apply H6]; [by rewrite (ss_mesh _ _ Hs3), Hm2|by rewrite (ss_device _ _ Hs3), Hd2].
  - by rewrite Hsp, (ss_stopped _ _ Hs3), Hst2.
  - by rewrite Hbt, (ss_beating _ _ Hs3).
  - by rewrite Hnx, (ss_next _ _ Hs3), Hx2.
  - by rewrite Hev, Hl, He2, <-app_assoc.
  - exists (state c3). split; [done|]. by rewrite (ss_state _ _ Hs3), <-Hu2.
Qed.

Lemma Disconnect_none c : session c = None → alone Disconnect c = Some (inr tt, [], c).
Proof. intros Hs. unfold Disconnect. by rewrite alone_bind, take_session_none. Qed.

Lemma Disconnect_succeeds : results (λ r : failure + unit, r = inr tt) Disconnect.
Proof.
  apply results_bind. intros [was|]; [|done]. apply results_bind. intros _. apply results_bind. intros _.
  apply results_bind. intros _. by apply results_bind.
Qed.

(** C6: disconnecting ends the session.  Asked for with a session open and left to itself
    until it returns, Disconnect ends in success whatever the server says to it and however
    unreachable it is: the session is gone, its context and its heartbeat have ended,
    the socket is closed and the adapter down, nobody is on the list, the screen says
    disconnected with no message and no group, and the last the app hears is that, after
    being told which group it left.  With no session open it does nothing at all: a socket
    or an adapter that a session left behind stays, and the app is told nothing.  And
    whatever else runs in between, from any state with a session or without, every step
    of it goes through and its answer is success, though what it tidies away may by then
    be another session's ([CoreRaces.two_callers_can_strand_a_session]). *)
Theorem disconnecting_ends_the_session c : core_wf c →
  yields core_wf grows (λ r _, r = inr tt) c Disconnect ∧
  match session c with
  | None => alone Disconnect c = Some (inr tt, [], c)
  | Some s => ∃ c', alone Disconnect c = Some (inr tt, [], c') ∧ gone c c' ∧ as_ctx s ∈ stopped c' ∧ (as_ctx s ∉ beating c')
      ∧ (∃ told, events c' = events c ++ told ++ [GroupDisconnected (as_groupID s) []; StateChanged (snapshot c')])
      ∧ s_Connection (state c') = StateDisconnected ∧ s_GroupID (state c') = [] ∧ s_Message (state c') = []
      ∧ s_MessageSeverity (state c') = MessageNone ∧ s_ServerURL (state c') = s_ServerURL (state c)
  end.
Proof.
  intros Hc. split; [apply yields_results; [apply kept_Disconnect|apply Disconnect_succeeds]|].
  destruct (session c) as [s|] eqn:Hs; [|by apply Disconnect_none].
  destruct (Disconnect_alone s c Hc Hs) as (c' & told & E & Hg & Hsp & Hbt & _ & Hev & now & Hst & Hurl). exists c'.
  split; [exact E|]. split; [exact Hg|]. split; [rewrite Hsp; by apply elem_of_union_l, elem_of_singleton_2|].
  split; [done|]. split; [by exists told|]. by rewrite Hst.
Qed.
End props.

Section opening.
Context {C : Ed25519} {N : Net} {K : Links} {H : Host} {G : LinksLaws K} {HL : HostLaws H}.
Abbreviation T := (thread Core).

(** ** Connecting *)

(** What bringing the links up does not touch. *)
Definition same_screen (c c' : Core) : Prop := session c' = session c ∧ stopped c' = stopped c ∧ state c' = state c.
#[export] Instance same_screen_preorder : PreOrder same_screen.
Proof. split; [done|]. intros c1 c2 c3 (A1 & A2 & A3) (B1 & B2 & B3). split_and!; congruence. Qed.

Lemma leaves_write f : (∀ c, same_screen c (f c)) → leaves same_screen (write f).
Proof. intros Hf. apply leaves_locked. intros c a c' [= <- <-]. apply Hf. Qed.
Lemma leaves_read {A} (f : Core → A) : leaves same_screen (read f).
Proof. apply leaves_locked. intros c a c' [= <- <-]. done. Qed.
Lemma leaves_emit e : leaves same_screen (emit e).
Proof. by apply leaves_write. Qed.
Lemma leaves_io {A} (f : st W A) : leaves same_screen (io f).
Proof. intros c a ts c'. cbn. destruct (f (world c)) as [b w]. by intros [= <- <- <-]. Qed.

Lemma on_mesh_screen {A} i (f : prog L A) c a c' : on_mesh i f c = Some (a, c') → same_screen c c'.
Proof.
  unfold on_mesh. destruct (links c !! i) as [l|]; [|done]. destruct (f l) as [[b l']|]; [|done]. by intros [= <- <-].
Qed.

Lemma leaves_called_back r : leaves same_screen (called_back r).
Proof.
  destruct r; cbn [called_back]; (apply leaves_bind; [apply _|apply leaves_locked; by intros c a c' [= <- <-]|]);
    intros [ok after]; apply leaves_when; try apply _; apply leaves_bind; try apply _; intros; apply leaves_emit.
Qed.

Lemma leaves_with_links {A} i (f : prog L A) : leaves same_screen (with_links i f).
Proof.
  apply leaves_bind; [apply _| |].
  - apply leaves_locked. intros c r c'. unfold mbind, prog_bind.
    destruct (on_mesh i f c) as [[a c1]|] eqn:E1; [|done]. destruct (on_mesh i reports c1) as [[rs c2]|] eqn:E2; [|done].
    intros [= <- <-]. transitivity c1; [by eapply on_mesh_screen|by eapply on_mesh_screen].
  - intros r. apply leaves_bind; [apply _| |intros; apply leaves_Return, _]. apply leaves_each; [apply _|]. intros. apply leaves_called_back.
Qed.

Lemma leaves_linkPeer p : leaves same_screen (linkPeer p).
Proof.
  apply leaves_bind; [apply _|apply leaves_read|]. intros [i|]; [|apply leaves_Return, _].
  destruct (ParseAddr _); [|apply leaves_Return, _]. destruct (DecodeString _ _); [|apply leaves_Return, _].
  apply leaves_bind; [apply _|apply leaves_with_links|intros; apply leaves_Return, _].
Qed.

Lemma leaves_startNetwork turns ctx was online : leaves same_screen (startNetwork turns ctx was online).
Proof.
  unfold startNetwork. cbv zeta. apply leaves_bind; [apply _|apply leaves_io|]. intros opened.
  destruct (negb opened); [apply leaves_Return, _|]. apply leaves_bind; [apply _|by apply leaves_locked; intros c a c' [= <- <-]|].
  intros i. apply leaves_bind; [apply _|by apply leaves_write|]. intros _.
  apply leaves_bind; [apply _|apply leaves_go, _|]. intros _.
  apply leaves_bind; [apply _|apply leaves_each; [apply _|intros; apply leaves_linkPeer]|]. intros _.
  repeat (apply leaves_bind; [apply _|apply leaves_go, _|intros _]). apply leaves_go, _.
Qed.

(** A session is open and the screen shows it. *)
Record showing (g : gostring) (c : Core) : Prop := mkShowing {
  sh_connection : s_Connection (state c) = StateConnected;
  sh_group : s_GroupID (state c) = g;
  sh_message : (s_Message (state c) = [] ∧ s_MessageSeverity (state c) = MessageNone);
  sh_session : (∃ s, session c = Some s ∧ as_groupID s = g ∧ (as_ctx s ∉ stopped c)
    ∧ s_GroupName (state c) = as_groupName s ∧ s_VirtualIP (state c) = as_virtualIP s);
}.

(** None is, and the screen says why. *)
Record nothing_open (message : gostring) (c : Core) : Prop := mkNothingOpen {
  no_screen : state c = nothing_connected message (state c);
  no_session_left : session c = None;
  no_rows : peers c = ∅;
}.

Lemma describeGroup_alone ctx g c : core_wf c →
  ∃ m c', alone (describeGroup ctx g) c = Some (m, [], c') ∧ core_wf c' ∧ same_session c c'.
Proof.
  intros Hc. destruct (withClient_alone ctx (λ up cl, Control.Groups up cl) c Hc) as (r & c' & E & Hc' & Hs).
  eexists _, c'. split; [|done]. unfold describeGroup. rewrite (alone_then _ _ _ _ _ E). reflexivity.
Qed.

Lemma failConnect_alone err c : session c = None →
  ∃ c', alone (failConnect err) c = Some (tt, [], c') ∧ stopped c' = stopped c
    ∧ nothing_open (match err with Failure _ message => message | Internal => str "Could not connect to that group." end) c'.
Proof. intros Hs. eexists. split; [reflexivity|]. split; [done|]. by split. Qed.

Lemma runConnect_alone turns g c : core_wf c → session c = None → next c ∉ stopped c →
  ∃ children c', alone (runConnect turns g) c = Some (tt, children, c') ∧
    (showing g c' ∨ (children = [] ∧ next c ∈ stopped c' ∧ (∃ message, nothing_open message c'))).
Proof.
  intros Hc Hs Hn. unfold runConnect. set (ctx := next c).
  set (c1 := c <| next := Pos.succ (next c) |> <| packetsOut := 0 |> <| packetsIn := 0 |>).
  assert (core_wf c1) as Hc1 by (by destruct Hc; split).
  destruct (withClient_alone (Some ctx) (λ up cl, Control.Connect up cl g) c1 Hc1) as (r & c2 & E2 & Hc2 & Hs2).
  assert (stopped c2 = stopped c) as Hst2 by exact (ss_stopped _ _ Hs2).
  assert (session c2 = None) as Hse2 by (rewrite (ss_session _ _ Hs2); exact Hs).
  rewrite (alone_then (locked fresh) _ c ctx (c <| next := Pos.succ (next c) |>)) by done.
  rewrite !(alone_then _ _ _ _ _ (alone_write _ _)). fold c1. rewrite (alone_then _ _ _ _ _ E2).
  destruct r as [err|[[id ip] online]].
  - set (c2' := c2 <| stopped := {[ctx]} ∪ stopped c2 |>).
    rewrite (alone_then (stop ctx) _ c2 tt c2') by done.
    destruct (failConnect_alone err c2' Hse2) as (c3 & E3 & Hst & Ho).
    exists [], c3. split; [exact E3|]. right. split; [done|]. split; [rewrite Hst; by apply elem_of_union_l, elem_of_singleton_2|]. by eexists.
  - destruct (describeGroup_alone (Some ctx) g c2 Hc2) as (m & c3 & E3 & Hc3 & Hs3).
    rewrite (alone_then _ _ _ _ _ E3). cbv zeta.
    set (active := mkActiveSession id g (GroupName m) ip (Subnet m) ctx).
    set (c4 := (in_state (connected g ip m) c3) <| session := Some active |> <| beating := {[ctx]} ∪ beating c3 |> <| peers := connecting_rows online |>).
    assert (core_wf c4) as Hc4.
    { destruct Hc3 as [W1 W2 W3 W4 W5]. split; try done. cbn. apply rows_ok_connecting. }
    rewrite (alone_then (changed_to _) _ c3 (snapshot c4) c4) by done. rewrite !(alone_then _ _ _ _ _ (alone_emit _ _)).
    set (c5 := (c4 <| events := events c4 ++ [GroupConnected g (GroupName m) ip] |>)
      <| events := (events c4 ++ [GroupConnected g (GroupName m) ip]) ++ [StateChanged (snapshot c4)] |>).
    assert (core_wf c5) as Hc5.
    { pose proof Hc4 as [W1 W2 W3 W4 W5]. split; try done. cbn [c5]. unfold set_field; cbn [events].
      apply Forall_app. split; [by apply Forall_app; split; [|constructor]|]. constructor; [by apply snapshot_ok|done]. }
    destruct (keeps_alone core_wf grows (startNetwork turns (Some ctx) active online) c5 Hc5 (returns_startNetwork _ _ _ _) (kept_startNetwork _ _ _ _ _))
      as ([] & ts & c6 & E6 & _). pose proof (leaves_startNetwork turns (Some ctx) active online _ _ _ _ E6) as (L1 & L2 & L3).
    exists ([keepAlive turns ctx id] ++ ts ++ [loadMembers (Some ctx) g]), c6. split.
    { change (alone (go_ (keepAlive turns ctx id);; startNetwork turns (Some ctx) active online;; go_ (loadMembers (Some ctx) g)) c5
        = Some (tt, [keepAlive turns ctx id] ++ ts ++ [loadMembers (Some ctx) g], c6)).
      by rewrite alone_bind; cbn [alone go_]; rewrite alone_bind, E6. }
    left. split.
    + by rewrite L3.
    + by rewrite L3.
    + by rewrite L3.
    + exists active. rewrite L1, L2, L3. split_and!; try done. change (ctx ∉ stopped c3). by rewrite (ss_stopped _ _ Hs3), Hst2.
Qed.
(** Contexts are handed out once. *)
Record contexts_once (c : Core) : Prop := mkContextsOnce {
  co_stopped : ∀ ctx, ctx ∈ stopped c → (ctx < next c)%positive;
  co_session : ∀ s, session c = Some s → (as_ctx s < next c)%positive;
}.

Lemma begin_alone turns g c : core_wf c → session c = None → next c ∉ stopped c →
  ∃ c1, alone (begin turns g) c = Some (inr tt, [runConnect turns g], c1) ∧ state c1 = connecting g (state c)
    ∧ ∃ children c2, alone (runConnect turns g) c1 = Some (tt, children, c2) ∧
      (showing g c2 ∨ (children = [] ∧ next c ∈ stopped c2 ∧ (∃ message, nothing_open message c2))).
Proof.
  intros Hc Hs Hn. set (c1 := in_state (connecting g) c). set (c1' := c1 <| events := events c ++ [StateChanged (snapshot c1)] |>).
  assert (core_wf c1') as Hc1.
  { assert (core_wf c1) as Hc1 by (by destruct Hc; split). pose proof Hc1 as [W1 W2 W3 W4 W5]. split; try done.
    unfold c1', set_field; cbn [events]. apply Forall_app. split; [exact W5|]. by constructor; [apply snapshot_ok|]. }
  exists c1'. split; [reflexivity|]. split; [done|]. exact (runConnect_alone turns g c1' Hc1 Hs Hn).
Qed.

(** C5: connecting ends one way or the other.  Asked for a group, the core left to itself
    turns down an empty name and a second attempt during a first, and says yes at once to
    the group that is active.  Otherwise it disconnects from the group it is in, if any,
    puts "connecting" and the group on the screen, and starts one goroutine; and that
    goroutine, whatever the server and the machine answer, comes to its end in one of two
    ways: a session for that group is open, its context running, and the screen shows it
    with no message; or nothing is open, its context has ended, it has started nothing,
    and the screen is the disconnected one with the reason on it. *)
Theorem connecting_ends_one_way_or_the_other turns g c : core_wf c → contexts_once c →
  if bool_decide (g = []) then alone (Connect turns g) c = Some (inl (bad_request "Choose a group to connect to."), [], c) else
  match look g c with
  | Busy => alone (Connect turns g) c = Some (inl (Failure "busy" (str "Already connecting. Give it a moment.")), [], c)
  | Already => alone (Connect turns g) c = Some (inr tt, [], c)
  | Another | Nothing =>
      ∃ c1, alone (Connect turns g) c = Some (inr tt, [runConnect turns g], c1)
        ∧ s_Connection (state c1) = StateConnecting ∧ s_GroupID (state c1) = g ∧ s_Message (state c1) = []
        ∧ ∃ children c2, alone (runConnect turns g) c1 = Some (tt, children, c2) ∧
          (showing g c2 ∨ (children = [] ∧ next c ∈ stopped c2 ∧ (∃ message, nothing_open message c2)))
  end.
Proof.
  intros Hc [Hco1 Hco2]. assert (next c ∉ stopped c) as Hn by (intros Hin; apply Hco1 in Hin; lia).
  unfold Connect. case_bool_decide as Hg; [done|].
  rewrite (alone_then (read (look g)) _ c (look g c) c) by done.
  destruct (look g c) eqn:El; [done|done| |].
  - unfold look in El. do 2 (case_match; [done|]). destruct (session c) as [s|] eqn:Es; [|done].
    destruct (Disconnect_alone s c Hc Es) as (c0 & told & E & [Hs0 _ _ _ _ _] & Hsp & _ & Hnx & _).
    destruct (keeps_alone core_wf grows Disconnect c Hc returns_Disconnect (kept_Disconnect c)) as (a & ts & c0' & E' & Hc0 & _).
    rewrite E in E'. injection E' as <- <- <-.
    destruct (begin_alone turns g c0) as (c1 & E1 & Hst & Hend); [done|done| |].
    { rewrite Hsp, Hnx. intros [Hin|Hin]%elem_of_union; [|done]. apply elem_of_singleton in Hin. specialize (Hco2 s eq_refl). lia. }
    exists c1. rewrite Hst. split; [|by rewrite <-Hnx]. unfold try_thread. rewrite (alone_then _ _ _ _ _ E). exact E1.
  - unfold look in El. do 2 (case_match; [done|]). destruct (session c) as [s|] eqn:Es; [done|].
    destruct (begin_alone turns g c) as (c1 & E1 & Hst & Hend); [done..|]. exists c1. by rewrite Hst.
Qed.
End opening.
