(* ===== verification/CoreLinks.v ===== *)
(** The mesh is what the core asks of its links: [Links] by [Mesh], and the laws from
    what is proved of it. *)
From S2P Require Import Prelude Bytes NetAddr Session Netlog Ipc Threads Core Peer Mesh Handle MeshWf MeshSafe MeshFrame MeshProps.

Section links.
Context {N : Noise} {E : Env} (k : Keypair).

Definition report_of (e : event) : Core.report :=
  match e with
  | PeerStateChanged d s reason => StateReport d s reason
  | PeerLatencyChanged d latency => LatencyReport d latency
  end.

Definition succeeded {E A} (f : prog Mesh (E + A)) : prog Mesh bool :=
  r ← f; mret (match r with inl _ => false | inr _ => true end).

(** [Traffic] of every link. *)
Fixpoint traffic_of (all : list ref) : prog Mesh (list (gostring * (Z * Z))) :=
  match all with
  | [] => mret []
  | r :: all => p ← deref r; rest ← traffic_of all; mret ((DeviceID p, Traffic p) :: rest)
  end.

(** The mesh here counts into no account: the one of the core is in [Pump]. *)
Definition mesh_links : Links := {|
  L := Mesh;
  new_links d a := New d a k true true None 0;
  add_peer d n a key e := succeeded (AddPeer d n a key e);
  set_peer_endpoint := SetPeerEndpoint;
  retry_peer := RetryPeer;
  remove_peer := RemovePeer;
  restart_links := RestartLinks;
  traffic := all ← Peers; traffic_of all;
  reports := rs ← gets events; modify (λ m, m <| events := [] |>);; mret (report_of <$> rs);
  turn := mesh_call;
  run_turn := run_call;
|}.

Context {NL : NoiseLaws N} {EL : EnvLaws E}.

Definition mesh_good (m : Mesh) : Prop := mesh_wf m ∧ indexed m.

Lemma steady_good {A} (f : prog Mesh A) m : steady f m → wp f (λ _ m', mesh_good m') m.
Proof. intros Hf. eapply wp_mono; [exact Hf|]. intros a m' (? & ? & _). by split. Qed.

Lemma traffic_of_reads all m : (∀ r, r ∈ all → live m r) → ∃ l, traffic_of all m = Some (l, m).
Proof.
  induction all as [|r all IH]; intros Hl; [by eexists|]. destruct (Hl r) as [p Hp]; [by left|].
  destruct IH as [l Hr]; [intros x Hx; apply Hl; by right|].
  exists ((DeviceID p, Traffic p) :: l). cbn [traffic_of]. unfold mbind, prog_bind, deref. by rewrite Hp, Hr.
Qed.

Lemma steady_traffic m : mesh_wf m → indexed m → steady (all ← Peers; traffic_of all) m.
Proof.
  intros Hm Hi. apply steady_safe; [done..|]. apply safe_bind; [by apply safe_Peers|].
  intros all m1 Hall Hm1 Hq. destruct (traffic_of_reads all m1) as [l Hr].
  { intros r Hr. by apply (Peers_live _ _ _ _ Hm Hall). }
  unfold safe, wp. rewrite Hr. split; [done|apply quiet_refl].
Qed.

#[export] Instance mesh_links_laws : LinksLaws mesh_links.
Proof.
  refine {| good := (mesh_good : @L mesh_links → Prop); turn_ok := (call_wf : @turn mesh_links → Prop) |}.
  - intros d a. by apply New_wf.
  - intros d n a key e m [Hm Hi]. apply steady_good. apply steady_bind; [by apply steady_AddPeer|].
    intros r m' _ ? ? _. by apply steady_ret.
  - intros d e m [Hm Hi]. by apply steady_good, steady_SetPeerEndpoint.
  - intros d m [Hm Hi]. by apply steady_good, steady_safe, safe_RetryPeer.
  - intros d m [Hm Hi]. by apply steady_good, steady_RemovePeer.
  - intros m [Hm Hi]. by apply steady_good, steady_safe, safe_RestartLinks.
  - intros m [Hm Hi]. by apply steady_good, steady_traffic.
  - intros m [Hm Hi]. apply steady_good, steady_gets. apply steady_bind; [by apply steady_modify_aux; try apply Hm|].
    intros [] m1 _ Hm1 Hi1 _. by apply steady_ret.
  - intros t m Ht [Hm Hi]. by apply steady_good, steady_run_call.
Defined.
End links.
