(* ===== verification/CoreDesk.v ===== *)
(** A daemon to evaluate with: the core on a real mesh, talking to the server of [Api].

    The server's machine, the signatures and the Noise of the two are the plain ones of
    the other files; the host lets everything succeed and plays the event channel from a
    script. *)
From S2P Require Import Prelude Bytes NetAddr NetText Schema Auth ApiTypes ServerConfig Hub Api StorageProps Session Netlog Ipc Peer Mesh MeshProps Control Threads Core CoreNetwork CoreConnect CoreInv CoreSafe CoreLinks.

Record world_with_server : Type := mkWorld { server : Server; script : list channel }.

Definition served (authorization : gostring) (r : Route) (w : world_with_server) : option response * world_with_server :=
  match @ServeHTTP Plain.machine Toy.scheme (mkRequest (str "192.0.2.7:4711") authorization r) (server w) with
  | Some (resp, s) => (Some resp, mkWorld s (script w))
  | None => (None, w)
  end.

#[export] Instance desk_net : Net := {|
  W := world_with_server;
  fetch _ := served [] GetDiscovery;
  round _ r := served (Authorization r) (route r);
  clock w := (1700000000, w);
  random16 w := (Some (be_encode 16 (Z.of_nat (ticks (srv_store (server w))))), w);
|}.

(** The mesh of a device with this key, and a host where everything succeeds. *)
Definition mesh_with (key : list Z) : Links := mesh_links (N := Plain.noise) (key : @Keypair Plain.noise).

Definition host_with (key : list Z) : Host (K := mesh_with key) := {|
  save_settings w := (true, w);
  save_identity w := (true, w);
  move_packet_log _ w := (true, w);
  clear_main_log w := (true, w);
  clear_packet_log w := (true, w);
  listen_udp w := (true, w);
  open_adapter _ w := (None, w);
  prefer_for_multicast _ w := ([], w);
  public_endpoint _ w := (Some (AddrPortFrom (Addr4 0xc0000207) 4711), w);
  recheck_due w := (false, w);
  next_event _ w := match script w with e :: rest => (e, mkWorld (server w) rest) | [] => (Lost, w) end;
  next_turn w := (CClock 0 : @turn (mesh_with key), w);
  url_parse url := inr (str "https", url, url);
|}.

#[export] Instance desk_links : Links := mesh_with (replicate 32 1).
#[export] Instance desk_host : Host := host_with (replicate 32 1).

Lemma host_with_laws key : HostLaws (G := mesh_links_laws (key : @Keypair Plain.noise)) (host_with key).
Proof. by split. Qed.
#[export] Instance desk_host_laws : HostLaws desk_host := host_with_laws _.

Definition ann : @Identity Toy.scheme :=
  @mkIdentity Toy.scheme (str "ann") (str "desktop") (str "desktop") true (replicate 32 1) (replicate 32 1) [] [].

Definition home : gostring := str "https://lan.example".
Definition config : Server.Config := Server.mkConfig (str ":8080") home [str "stun:stun.example:3478"] [] (str "1.0").
Definition at_start (script : list channel) : world_with_server := mkWorld (Api.New config (mkStore empty_tables 0)) script.
Definition daemon (script : list channel) : @Core Toy.scheme _ _ :=
  CoreConnect.New (C := Toy.scheme) ann (default_settings home) home None (at_start script).

Definition pool (turns : nat) (ops : list op) (script : list channel) :=
  (run_op (C := Toy.scheme) turns <$> ops, daemon script).
(** What a check says of the end of a run and of the goroutines that are left. *)
Definition ends (turns : nat) (ops : list op) (script : list channel) (order : list (nat * option nat))
    (check : list (thread (@Core Toy.scheme _ _) unit) → @Core Toy.scheme _ _ → bool) : bool :=
  match follow order (pool turns ops script) with Some (ts, c) => check ts c | None => false end.

Lemma ends_somewhere turns ops script order check : ends turns ops script order check = true →
  ∃ ts c, rtc sched_step (pool turns ops script) (ts, c) ∧ check ts c = true.
Proof.
  unfold ends. destruct (follow _ _) as [[ts c]|] eqn:E; [|done]. intros Hc. exists ts, c. split; [by eapply follow_steps|done].
Qed.

Example ann_makes_a_group :
  ends 1 [OCreateGroup (str "LAN") [] []] [] [(0%nat, None)]
    (λ _ c, bool_decide (is_Some (client c)) && (size (memberships (tables (srv_store (server (world c))))) =? 1)%nat) = true.
Proof. vm_compute. reflexivity. Qed.
