(* ===== verification/CoreRest.v ===== *)
(** The core comes to rest: nobody waits forever.

    What waits in the core is a disconnecting goroutine, for the heartbeat of the session
    it took, and every loop of a session, in its select, for the session's context.  Each
    lemma here says of a function that it is [honest]: it waits for the heartbeat only of a
    context it has ended, and the goroutine that opens a heartbeat owes its end. *)
From S2P Require Import Prelude Bytes NetAddr NetText Base64 Netlog Pump Invite Schema Auth ApiTypes Control Ipc Threads Core CoreNetwork CoreConnect CoreInv CoreSafe.

Create HintDb core_honest.
Create HintDb core_settled.

Ltac waits_not_step :=
  lazymatch goal with
  | |- waits_not (Return _) => exact Logic.I
  | |- waits_not (go_ _) => exact Logic.I
  | |- waits_not (whenT ?b _) => destruct b; cbn [whenT]
  | |- waits_not (try_thread _ _) => apply waits_not_bind; [|intros [?|?]]
  | |- waits_not (_ ≫= _) => apply waits_not_bind; [|intros ?]
  | |- waits_not (match ?x with _ => _ end) => destruct x
  | |- waits_not (let '_ := ?x in _) => destruct x
  | |- waits_not (locked _) => apply waits_not_locked
  | |- waits_not (read _) => apply waits_not_locked
  | |- waits_not (write _) => apply waits_not_locked
  | |- waits_not (emit _) => apply waits_not_locked
  | |- waits_not (announce _) => apply waits_not_bind; [apply waits_not_locked|intros ?]
  | |- waits_not _ => solve [auto with core_honest]
  end.
Ltac waits_not_steps := repeat (cbv zeta; waits_not_step).

Section rest.
Context {C : Ed25519} {N : Net} {K : Links} {H : Host} {G : LinksLaws K} {HL : HostLaws H}.
Abbreviation T := (thread Core).

(** Whether a context is over; one that is stays so. *)
Definition ended (c : Core) (i : positive) : bool := negb (alive (Some i) c).
Lemma ended_grows c c' i : stopped c ⊆ stopped c' → ended c i = true → ended c' i = true.
Proof.
  intros Hs Hi%negb_true_iff%bool_decide_eq_false. apply negb_true_iff, bool_decide_eq_false_2. intros [H1 H2].
  apply Hi. split; intros Hin; [apply H1|apply H2]; by apply Hs.
Qed.

Abbreviation honest := (honest beating stopped ended).
Abbreviation owes := (owes beating ended).

(** ** Steps *)

(** A section that opens nothing, and after which what was over is over. *)
Definition settled {A} (m : prog Core A) : Prop :=
  ∀ c a c', m c = Some (a, c') → beating c' ⊆ beating c ∧ stopped c ⊆ stopped c'.
Lemma settled_bind {A B} (m : prog Core A) (k : A → prog Core B) : settled m → (∀ a, settled (k a)) → settled (m ≫= k).
Proof.
  intros Hm Hk c b c2. unfold mbind, prog_bind. destruct (m c) as [[a c1]|] eqn:E; [|done]. intros E2.
  destruct (Hk a _ _ _ E2), (Hm _ _ _ E). split; by etransitivity.
Qed.
Lemma settled_ret {A} (a : A) : settled (mret a).
Proof. by intros c b c' [= <- <-]. Qed.
Lemma settled_gets {A} (f : Core → A) : settled (gets f).
Proof. by intros c b c' [= <- <-]. Qed.
Lemma settled_modify f : (∀ c, beating (f c) ⊆ beating c ∧ stopped c ⊆ stopped (f c)) → settled (modify f).
Proof. intros Hf c b c' [= <- <-]. apply Hf. Qed.
Lemma settled_on_mesh {A} i (f : prog L A) : settled (on_mesh i f).
Proof. intros c a c'. unfold on_mesh. repeat case_match; try done. by intros [= <- <-]. Qed.
Lemma settled_save : settled save.
Proof. intros c a c'. unfold save. destruct (save_settings _) as [ok w]. by intros [= <- <-]. Qed.
Lemma settled_switch b : settled (switch_packet_log b).
Proof. intros c a c'. unfold switch_packet_log.
  match goal with |- context [let '(_, _) := ?x in _] => destruct x as [ok w] end. by intros [= <- <-]. Qed.

Lemma settled_empty_packet_log : settled empty_packet_log.
Proof.
  intros c a c'. unfold empty_packet_log. destruct (packets c) as [p|]; [|by intros [= <- <-]].
  destruct (clear_packet_log (world c)) as [ok w]. by intros [= <- <-].
Qed.

Lemma honest_settled {A} c0 (m : prog Core A) : settled m → honest c0 (locked m).
Proof. intros Hm. by apply honest_locked. Qed.
Lemma honest_io {A} c0 (f : st W A) : honest c0 (io f).
Proof. intros c _. unfold io. destruct (f (world c)) as [a w]. split; [done|]. split; [|done]. intros i Hi. by left. Qed.
Lemma honest_over {A} c0 ctx (f : bool → st W A) : honest c0 (over ctx f).
Proof. intros c _. unfold over. destruct (f _ (world c)) as [a w]. split; [done|]. split; [|done]. intros i Hi. by left. Qed.
Lemma honest_until_ended c0 i : honest c0 (until_ended (Some i)).
Proof. split; [by exists i|done]. Qed.
Lemma waits_not_io {A} (f : st W A) : waits_not (io f).
Proof. intros c. by destruct (f (world c)). Qed.
Lemma waits_not_over {A} ctx (f : bool → st W A) : waits_not (over ctx f).
Proof. intros c. by destruct (f _ (world c)). Qed.
End rest.
#[export] Hint Resolve settled_save settled_switch settled_empty_packet_log settled_on_mesh : core_settled.
#[export] Hint Resolve honest_io honest_over honest_until_ended waits_not_io waits_not_over : core_honest.

Ltac settled_step :=
  lazymatch goal with
  | |- settled (mret _) => apply settled_ret
  | |- settled (gets _) => apply settled_gets
  | |- settled (modify _) => apply settled_modify; intros ?; split; [done|first [done | apply union_subseteq_r]]
  | |- settled (_ ≫= _) => apply settled_bind; [|intros ?]
  | |- settled (match ?x with _ => _ end) => destruct x
  | |- settled (let '_ := ?x in _) => destruct x
  | |- settled _ => solve [auto with core_settled]
  end.
Ltac settled_steps := repeat (cbv zeta; settled_step).

(** One step of a thread: the part it begins with, then the rest. *)
Ltac honest_step :=
  lazymatch goal with
  | |- honest _ _ _ _ (Return _) => exact Logic.I
  | |- honest _ _ _ _ (locked _) => apply honest_settled; solve [settled_steps]
  | |- honest _ _ _ _ (read _) => apply honest_settled; solve [settled_steps]
  | |- honest _ _ _ _ (write _) => apply honest_settled; solve [settled_steps]
  | |- honest _ _ _ _ (emit _) => apply honest_settled; solve [settled_steps]
  | |- honest _ _ _ _ (changed_to _) => apply honest_settled; solve [unfold changed_to; settled_steps]
  | |- honest _ _ _ _ (announce _) => apply (honest_bind _ _ _ ended_grows); [|intros ? ?]
  | |- honest _ _ _ _ (whenT _ _) => apply honest_when
  | |- honest _ _ _ _ (go_ _) => apply honest_go
  | |- honest _ _ _ _ (eachT _ _) => apply (honest_each _ _ _ ended_grows); intros ? ?
  | |- honest _ _ _ _ (try_thread _ _) => apply (honest_try _ _ _ ended_grows); [|intros ? ?]
  | |- honest _ _ _ _ (_ ≫= _) => apply (honest_bind _ _ _ ended_grows); [|intros ? ?]
  | |- honest _ _ _ _ (match ?x with _ => _ end) => destruct x
  | |- honest _ _ _ _ (let '_ := ?x in _) => destruct x
  | |- honest _ _ _ _ _ => solve [auto with core_honest]
  end.
Ltac honest_steps := repeat (cbv zeta; honest_step).

Section rest.
Context {C : Ed25519} {N : Net} {K : Links} {H : Host} {G : LinksLaws K} {HL : HostLaws H}.
Abbreviation T := (thread Core).
Abbreviation honest := (honest beating stopped ended).
Abbreviation owes := (owes beating ended).

Lemma honest_withClient {A} c0 ctx (call : bool → Client → st W (control_error + A)) : honest c0 (withClient ctx call).
Proof.
  unfold withClient, made_call, failed_call, ClearToken, ensureClient, new_client, registered, SetTokenOf, adoptNickname, SetNicknameOf,
    save_after, setServerOnline. honest_steps.
Qed.
Lemma waits_not_withClient {A} ctx (call : bool → Client → st W (control_error + A)) : waits_not (withClient ctx call).
Proof.
  unfold withClient, made_call, failed_call, ClearToken, ensureClient, new_client, registered, SetTokenOf, adoptNickname, SetNicknameOf,
    save_after, setServerOnline. waits_not_steps.
Qed.
#[local] Hint Resolve honest_withClient waits_not_withClient : core_honest.

Lemma honest_setServerOnline c0 online : honest c0 (setServerOnline online).
Proof. unfold setServerOnline. honest_steps. Qed.
#[local] Hint Resolve honest_setServerOnline : core_honest.

(** ** The links *)
Lemma honest_with_links {A} c0 i (f : prog L A) : honest c0 (with_links i f).
Proof. unfold with_links. honest_steps; unfold called_back, onPeerState, onPeerLatency; honest_steps. Qed.
#[local] Hint Resolve honest_with_links : core_honest.

Lemma honest_dropSession c0 reason : honest c0 (dropSession reason).
Proof. unfold dropSession, finishDisconnect, stop, take_session. honest_steps. Qed.
#[local] Hint Resolve honest_dropSession : core_honest.

Lemma honest_loadMembers c0 ctx g : honest c0 (loadMembers ctx g).
Proof. unfold loadMembers. honest_steps. Qed.
#[local] Hint Resolve honest_loadMembers : core_honest.

Lemma honest_removePeer c0 d : honest c0 (removePeer d).
Proof. unfold removePeer, unlink. honest_steps. Qed.
#[local] Hint Resolve honest_removePeer : core_honest.

Lemma honest_linkPeer c0 p : honest c0 (linkPeer p).
Proof. unfold linkPeer. honest_steps. Qed.
#[local] Hint Resolve honest_linkPeer : core_honest.

Lemma honest_dispatch c0 step : honest c0 (dispatch step realtimeHandler).
Proof.
  unfold dispatch, realtimeHandler, addPeer, peerWentOffline, unlink, renamePeer.
  cbn [rh_PeerOnline rh_PeerOffline rh_PeerEndpointUpdated rh_PeerRenamed rh_GroupDeleted rh_MembershipRevoked rh_SessionInvalidated].
  honest_steps.
Qed.
#[local] Hint Resolve honest_dispatch : core_honest.

Lemma honest_Realtime c0 turns ctx id listening : honest c0 (Realtime turns (Some ctx) id realtimeHandler listening).
Proof.
  revert c0 listening. induction turns as [|turns IH]; intros c0 listening; cbn [Realtime realtimeHandler rh_Connected rh_SessionInvalidated];
    honest_steps.
Qed.
#[local] Hint Resolve honest_Realtime : core_honest.

Lemma honest_runLinks c0 turns ctx i : honest c0 (runLinks turns (Some ctx) i).
Proof. revert c0. induction turns as [|turns IH]; intros c0; cbn [runLinks]; honest_steps. Qed.
Lemma honest_watchTraffic c0 turns ctx i : honest c0 (watchTraffic turns (Some ctx) i).
Proof. revert c0. induction turns as [|turns IH]; intros c0; cbn [watchTraffic]; unfold readTraffic; honest_steps. Qed.
#[local] Hint Resolve honest_runLinks honest_watchTraffic : core_honest.

Lemma honest_publish_turns c0 turns ctx i id first published : honest c0 (publish_turns turns (Some ctx) i id first published).
Proof.
  revert c0 first published. induction turns as [|turns IH]; intros c0 first published; cbn [publish_turns];
    unfold republishEndpoint, noteAddressProblem; honest_steps.
Qed.
#[local] Hint Resolve honest_publish_turns : core_honest.

Lemma honest_publishEndpoint c0 turns ctx i id : honest c0 (publishEndpoint turns (Some ctx) i id).
Proof. unfold publishEndpoint. honest_steps. Qed.
#[local] Hint Resolve honest_publishEndpoint : core_honest.

Lemma honest_startNetwork c0 turns ctx was online : honest c0 (startNetwork turns (Some ctx) was online).
Proof.
  unfold startNetwork, watchGroup, ensureClient, new_client, registered, SetTokenOf, adoptNickname, SetNicknameOf, save_after,
    startAdapter, preferForMulticast, setMessage, fresh. honest_steps.
Qed.
#[local] Hint Resolve honest_startNetwork : core_honest.

(** ** The heartbeat *)
(** Once its context is over, the heartbeat waits for nobody. *)
Lemma waits_for_beat turns ctx id : waits_for ended ctx (beat turns ctx id).
Proof.
  induction turns as [|turns IH]; [by split|]. cbn [beat].
  apply waits_for_bind; [apply waits_not_for, waits_not_locked|]. intros on. destruct (negb on); [exact Logic.I|].
  apply waits_for_bind; [apply waits_not_for, waits_not_withClient|]. intros [err|r]; [|exact IH].
  apply waits_for_bind; [apply waits_not_for, waits_not_locked|]. intros on'. destruct (negb on'); [exact Logic.I|].
  destruct err as [code message|]; [|exact IH]. destruct (bool_decide _); [exact Logic.I|exact IH].
Qed.

Lemma honest_beat c0 turns ctx id : honest c0 (beat turns ctx id).
Proof. revert c0. induction turns as [|turns IH]; intros c0; cbn [beat]; honest_steps. Qed.
#[local] Hint Resolve honest_beat : core_honest.

Lemma honest_keepAlive c0 turns ctx id : honest c0 (keepAlive turns ctx id).
Proof.
  apply (honest_bind _ _ _ ended_grows); [apply honest_beat|]. intros _ c1. apply honest_locked. intros c a c' [= <- <-].
  split; [by apply subseteq_difference_l|done].
Qed.
#[local] Hint Resolve honest_keepAlive : core_honest.

(** Whatever the server answers, the heartbeat of a context that is over closes its
    [done]. *)
Lemma owes_keepAlive turns ctx id : owes ctx (keepAlive turns ctx id).
Proof.
  apply owes_after; [apply waits_for_beat|]. intros _. apply owes_locked. intros c a c' [= <- <-]. cbn [beating]. intros [_ Hn]%elem_of_difference.
  by apply Hn, elem_of_singleton_2.
Qed.

(** A section that opens one, which the rest of the thread owes. *)
Lemma honest_opens {B} c0 ctx (f : Core → Core) (k : State → T B) :
  (∀ c, beating (f c) ⊆ {[ctx]} ∪ beating c ∧ stopped c ⊆ stopped (f c)) →
  (∀ c s, honest c (k s) ∧ owes ctx (k s)) → honest c0 (changed_to f ≫= k).
Proof.
  intros Hf Hk c _. cbn. destruct (Hf c) as [Hb Hs], (Hk (f c) (snapshot (f c))) as [Hh Ho]. split; [done|]. split; [|exact Hh].
  intros i Hi. apply Hb, elem_of_union in Hi as [->%elem_of_singleton_1|Hi']; [by right|by left].
Qed.

Lemma honest_runConnect c0 turns g : honest c0 (runConnect turns g).
Proof.
  unfold runConnect, failConnect, describeGroup, stop, fresh.
  honest_step; [honest_steps|]. do 2 (honest_step; [honest_steps|]).
  honest_step; [honest_steps|]. destruct a2 as [err|[[id ip] online]]; [honest_steps|].
  honest_step; [honest_steps|]. cbv zeta. apply honest_opens with a; [by intros ?|].
  intros c9 s9. split; [honest_steps|].
  do 2 (apply owes_after; [apply waits_not_for, waits_not_locked|]; intros _). left. apply owes_keepAlive.
Qed.
#[local] Hint Resolve honest_runConnect : core_honest.

(** The heartbeat it waits for is one whose context it has ended. *)
Lemma honest_Disconnect c0 : honest c0 Disconnect.
Proof.
  unfold Disconnect, take_session, finishDisconnect. honest_step; [honest_steps|]. destruct a as [was|]; [|done].
  apply (honest_bind_to _ _ _ ended_grows (λ _ c, ended c (as_ctx was) = true)).
  - apply honest_settled. unfold stop. settled_steps.
  - intros c _. cbn. apply negb_true_iff, bool_decide_eq_false_2. intros [Hn _]. apply Hn, elem_of_union_l, elem_of_singleton_2. done.
  - intros _ c _ He. honest_step; [|honest_steps]. split; [|done]. exists (as_ctx was). split; [exact He|].
    intros c1 Hc%bool_decide_eq_false. by apply dec_stable.
Qed.
#[local] Hint Resolve honest_Disconnect : core_honest.

Lemma honest_SetServer c0 url : honest c0 (SetServer url).
Proof. unfold SetServer, saving. honest_steps. Qed.
Lemma honest_SetLanDiscovery c0 b : honest c0 (SetLanDiscovery b).
Proof. unfold SetLanDiscovery, preferForMulticast, setMessage. honest_steps. Qed.
#[local] Hint Resolve honest_SetServer honest_SetLanDiscovery : core_honest.

Lemma honest_when_in c0 g f : (∀ c, beating (f c) = beating c ∧ stopped (f c) = stopped c) → honest c0 (when_in g f).
Proof.
  intros Hf. apply (honest_bind _ _ _ ended_grows); [|intros ? ?; honest_steps]. apply honest_settled. unfold changed_to.
  apply settled_bind; [|intros ?; settled_steps]. apply settled_modify. intros c. destruct (in_group g c); [|done].
  by destruct (Hf c) as [-> ->].
Qed.

Lemma honest_run_op c0 turns o : honest c0 (run_op turns o).
Proof.
  destruct o; cbn [run_op]; unfold done_with;
    unfold Connect, begin, GetState, GetGroups, CreateGroup, JoinGroup, one_group, GetInvite, ResetInvite, LeaveGroup, DeleteGroup, leave_first,
      RenameGroup, SetGroupAppearance,
      RemoveMember, TransferOwnership, RetryPeer, SetNickname, SetNicknameOf, save_after,
      GetServer, TestServer, GetLanDiscovery, GetPacketLog, SetPacketLog, saving, ClearLogs, ResetSettings, SetEvents, SetLogs, Close, stop;
    honest_steps; by apply honest_when_in; intros ?.
Qed.

(** What every run from the start keeps. *)
Lemma runs_covered turns ops id set fallback recorder w ts c :
  rtc sched_step (run_op turns <$> ops, New id set fallback recorder w) (ts, c) →
  covered beating stopped ended (ts, c) ∧ ∀ ts' c', rtc sched_step (ts, c) (ts', c') → (Fault : T unit) ∉ ts'.
Proof.
  intros Hr. split.
  - eapply covered_steps; [exact ended_grows| |exact Hr]. split; [apply Forall_fmap, Forall_true; intros o; apply honest_run_op|].
    intros i Hi. by apply not_elem_of_empty in Hi.
  - intros ts' c' Hr'. destruct (sched_keeps core_wf grows (run_op turns <$> ops) (New id set fallback recorder w) ts' c') as (_ & _ & Hts).
    + apply Forall_fmap, Forall_true. intros o. apply kept_run_op.
    + apply core_New_wf.
    + by etransitivity.
    + by apply (keeps_not_Fault core_wf grows ts' c').
Qed.

(** A session's loop in its select, its context not over. *)
Definition at_rest (c : Core) (t : T unit) : Prop :=
  ∃ i over rest, t = Idle over rest ∧ alive (Some i) c = true ∧ ∀ c, over c = negb (alive (Some i) c).
Lemma rests_at_rest c t : rests ended c t → at_rest c t.
Proof. intros (over & rest & i & -> & Ho & Hi%negb_false_iff). by exists i, over, rest. Qed.

(** C7: nobody waits forever.  A goroutine that disconnects ends the context of the session
    it took and waits for that session's heartbeat, another goroutine that may be anywhere,
    and holds the app's answer until then; a session's loops sit in their selects until its
    context is over.  Whatever requests run at once, the daemon's closing among them,
    however they and the goroutines they start have been interleaved and whatever the
    server and the machine have answered: some goroutine can move, or none is left but
    loops in their selects whose contexts go on, so that nobody is waiting for a heartbeat
    that does not end; and from there everybody can go on to where nothing else is
    left, and to where nothing is once the daemon is closed. *)
Theorem nobody_waits_forever turns ops id set fallback recorder w ts c :
  rtc sched_step (run_op turns <$> ops, New id set fallback recorder w) (ts, c) →
  ((∃ c', sched_step (ts, c) c') ∨ Forall (at_rest c) ts) ∧
  ∃ ts' c', rtc sched_step (ts, c) (ts', c') ∧ Forall (at_rest c') ts' ∧ (daemon_ctx ∈ stopped c' → ts' = []).
Proof.
  intros Hr. apply runs_covered in Hr as [Hc Hf]. split.
  - destruct (covered_moves _ _ _ ts c Hc) as [Hm|Hm]; [by apply (Hf ts c)|by left|right].
    apply (Forall_impl _ _ _ Hm), rests_at_rest.
  - destruct (covered_rests _ _ _ ended_grows ts c Hc Hf) as (ts' & c' & Hr & Hm). exists ts', c'. split; [done|].
    assert (Forall (at_rest c') ts') as Hm' by apply (Forall_impl _ _ _ Hm), rests_at_rest.
    split; [done|]. intros Hd. destruct Hm' as [|t ts1 (i & over & rest & _ & Ha & _)]; [done|].
    by apply bool_decide_eq_true in Ha as [_ Ha].
Qed.
End rest.
