(* ===== verification/CoreRaces.v ===== *)
(** Runs of the daemon of [CoreDesk]: what interleaving can do to a session, and the theorems
    of the core at a connected daemon. *)
From S2P Require Import Prelude Bytes NetAddr NetText Schema Auth ApiTypes Hub Api StorageProps Session Netlog Ipc Peer Mesh MeshProps Control Threads Core CoreNetwork CoreConnect CoreInv CoreSafe CoreProps CoreLinks CoreDesk CoreRest.

(** The group the daemon makes first. *)
Definition group_made (r : option (list (thread (@Core Toy.scheme _ _) unit) * @Core Toy.scheme _ _)) : gostring :=
  match r with
  | Some (_, c) => default [] (head ((map_to_list (Schema.groups (tables (srv_store (server (world c)))))).*1))
  | None => []
  end.
Definition lan : gostring := group_made (follow [(0%nat, None)] (pool 1 [OCreateGroup (str "LAN") [] []] [])).

Definition no_session (c : @Core Toy.scheme _ _) : bool := match session c with None => true | Some _ => false end.
Lemma no_session_None c : no_session c = true → session c = None.
Proof. unfold no_session. by destruct (session c). Qed.

(** To a session with all its goroutines waiting: the heartbeat, the links, the address,
    the group's events, the counts, the adapter, the members. *)
Definition open_up : list (nat * option nat) := [(0%nat, None); (0%nat, None)].

Example connected_screen :
  ends 2 [OCreateGroup (str "LAN") [] []; OConnect lan] [] (open_up ++ [(0%nat, None)])
    (λ _ c, bool_decide (s_Connection (state c) = StateConnected) && bool_decide (s_VirtualIP (state c) = str "10.69.0.1")
          && in_group lan c && bool_decide (is_Some (mesh c))) = true.
Proof. vm_compute. reflexivity. Qed.

(** C39: an adapter can outlive its session.  [startAdapter] opens the adapter and hands it
    to the core without asking whether its session is still there; the server ending the
    session meanwhile takes everything down that is there to be taken down.  This can
    end with no session, the screen saying disconnected, and the adapter up and routing:
    the core holds it, and nothing takes it down again until a later session ends. *)
Theorem an_adapter_can_outlive_its_session :
  ∃ turns ops script c, rtc sched_step (pool turns ops script) ([], c)
    ∧ session c = None ∧ s_Connection (state c) = StateDisconnected ∧ ∃ i, device c = Some i ∧ i ∈ adapters c.
Proof.
  set (check (ts : list (thread (@Core Toy.scheme _ _) unit)) (c : @Core Toy.scheme _ _) := (length ts =? 0)%nat && no_session c && bool_decide (s_Connection (state c) = StateDisconnected)
    && match device c with Some i => bool_decide (i ∈ adapters c) | None => false end).
  destruct (ends_somewhere 2 [OCreateGroup (str "LAN") [] []; OConnect lan] [Opened; GotSessionInvalidated]
    (open_up ++ [(0%nat, None); (3%nat, None); (7%nat, None); (5%nat, None)] ++ replicate 6 (0%nat, None)) check)
    as (ts & c & Hr & Hc); [vm_compute; reflexivity|].
  exists 2%nat, [OCreateGroup (str "LAN") [] []; OConnect lan], [Opened; GotSessionInvalidated], c.
  apply andb_prop in Hc as [[[Ht%Nat.eqb_eq Hs]%andb_prop Hd%bool_decide_eq_true]%andb_prop Ha].
  apply nil_length_inv in Ht as ->. split; [exact Hr|]. split; [by apply no_session_None|]. split; [exact Hd|].
  destruct (device c) as [i|]; [|done]. exists i. split; [done|]. by apply bool_decide_eq_true in Ha.
Qed.

(** Asking for the active group again is answered at once. *)
Lemma Connect_again turns g (c : @Core Toy.scheme _ _) : g ≠ [] → s_Connection (state c) ≠ StateConnecting → in_group g c = true →
  alone (Connect turns g) c = Some (inr tt, [], c).
Proof.
  intros Hg Hc Hi. unfold Connect. rewrite bool_decide_eq_false_2 by done. unfold mbind, thread_bind, read, locked, gets.
  cbn [thread_bind_fix alone]. unfold look. by rewrite (bool_decide_eq_false_2 _ Hc), Hi.
Qed.

(** Two callers can strand a session.  The app's window and its tray icon are two
    callers.  One disconnects; while the server is being told, the other connects, which
    the core allows because the session is already out of its hands; and when the first
    goes on it tidies away what is there now, which is the second's.  In the end nobody
    has a step left to take, there is a session, its group is the active one, the screen
    says disconnected, the core has no mesh, and asking to connect to that group is
    answered "done" and does nothing. *)
Theorem two_callers_can_strand_a_session :
  ∃ turns ops ts c, rtc sched_step (pool turns ops []) (ts, c) ∧ nf sched_step (ts, c)
    ∧ in_group lan c = true ∧ s_Connection (state c) = StateDisconnected ∧ mesh c = None
    ∧ alone (Connect turns lan) c = Some (inr tt, [], c).
Proof.
  set (ops := [OCreateGroup (str "LAN") [] []; OConnect lan; ODisconnect; OConnect lan]).
  set (check (ts : list (thread (@Core Toy.scheme _ _) unit)) (c : @Core Toy.scheme _ _) := bool_decide (Forall (λ t, can_move c t = false) ts)
    && in_group lan c && bool_decide (s_Connection (state c) = StateDisconnected) && bool_decide (mesh c = None)).
  destruct (ends_somewhere 0 ops []
    (open_up ++ [(2%nat, None); (0%nat, Some 2%nat); (2%nat, None); (0%nat, Some 4%nat); (1%nat, None); (7%nat, None)] ++ replicate 8 (0%nat, None)
       ++ [(2%nat, None); (3%nat, None); (5%nat, None); (5%nat, None)]) check)
    as (ts & c & Hr & Hc); [vm_compute; reflexivity|].
  exists 0%nat, ops, ts, c.
  apply andb_prop in Hc as [[[Ht%bool_decide_eq_true Hi]%andb_prop Hd%bool_decide_eq_true]%andb_prop Hm%bool_decide_eq_true].
  split; [exact Hr|]. split; [by apply no_step_left|]. split; [exact Hi|]. split; [exact Hd|]. split; [exact Hm|].
  apply Connect_again; [vm_compute; discriminate|by rewrite Hd|exact Hi].
Qed.

(** What the last list the app was sent says. *)
Definition last_told (c : @Core Toy.scheme _ _) : option State :=
  last (omap (λ e, match e with StateChanged s => Some s | _ => None end) (events c)).

(** The app can be left with an old state.  A state is taken under the lock and sent
    after it, so two that are taken one after the other can be sent the other way round;
    the app keeps what came last.  Here somebody is renamed twice at once, both renames
    succeed, everything comes to rest, and the app shows the first name while the core
    and its identity have the second. *)
Theorem the_app_can_be_left_with_an_old_state :
  ∃ turns ops c, rtc sched_step (pool turns ops []) ([], c)
    ∧ ∃ shown, last_told c = Some shown ∧ s_Nickname shown = str "ann" ∧ s_Nickname (snapshot c) = str "bob"
      ∧ id_Nickname (identity c) = str "bob".
Proof.
  set (ops := [OCreateGroup (str "LAN") [] []; OSetNickname (str "ann"); OSetNickname (str "bob")]).
  set (check (ts : list (thread (@Core Toy.scheme _ _) unit)) (c : @Core Toy.scheme _ _) := (length ts =? 0)%nat && bool_decide (s_Nickname <$> last_told c = Some (str "ann"))
    && bool_decide (s_Nickname (snapshot c) = str "bob") && bool_decide (id_Nickname (identity c) = str "bob")).
  destruct (ends_somewhere 0 ops [] [(0%nat, None); (0%nat, Some 7%nat); (1%nat, None); (0%nat, None)] check)
    as (ts & c & Hr & Hc); [vm_compute; reflexivity|].
  exists 0%nat, ops, c. apply andb_prop in Hc as [[[Ht%Nat.eqb_eq Hl%bool_decide_eq_true]%andb_prop Hs%bool_decide_eq_true]%andb_prop Hi%bool_decide_eq_true].
  apply nil_length_inv in Ht as ->. split; [exact Hr|]. apply fmap_Some in Hl as (shown & Hl & Hn).
  exists shown. split; [exact Hl|]. by split_and!.
Qed.

Lemma desk_runs_wf turns ops script ts c : rtc sched_step (pool turns ops script) (ts, c) → core_wf c.
Proof.
  intros Hr. eapply (sched_keeps core_wf grows) with (2 := core_New_wf _ _ _ _ _) in Hr as (Hc & _); [exact Hc|].
  apply Forall_fmap, Forall_true. intros o. apply kept_run_op.
Qed.

Definition in_order (c : @Core Toy.scheme _ _) : bool :=
  forallb (λ ctx, (ctx <? next c)%positive) (elements (stopped c))
  && match session c with Some s => (as_ctx s <? next c)%positive | None => true end.
Lemma in_order_once c : in_order c = true → contexts_once c.
Proof.
  unfold in_order. rewrite andb_true_iff, forallb_forall. intros [H1 H2]. split.
  - intros ctx Hin. by apply Pos.ltb_lt, H1, list_elem_of_In, elem_of_elements.
  - intros s Hs. rewrite Hs in H2. by apply Pos.ltb_lt.
Qed.

(** Connected to the group, with a link running. *)
Lemma a_connected_daemon : ∃ ts c, rtc sched_step (pool 2 [OCreateGroup (str "LAN") [] []; OConnect lan] []) (ts, c)
  ∧ session c ≠ None ∧ contexts_once c ∧ look (str "elsewhere") c = Another.
Proof.
  set (check (ts : list (thread (@Core Toy.scheme _ _) unit)) (c : @Core Toy.scheme _ _) := negb (no_session c) && in_order c
    && match look (str "elsewhere") c with Another => true | _ => false end).
  destruct (ends_somewhere 2 [OCreateGroup (str "LAN") [] []; OConnect lan] [] (open_up ++ [(0%nat, None)]) check)
    as (ts & c & Hr & Hc); [vm_compute; reflexivity|].
  exists ts, c. apply andb_prop in Hc as [[Hs Ho]%andb_prop Hl]. split; [exact Hr|]. split.
  { intros E. unfold no_session in Hs. by rewrite E in Hs. }
  split; [by apply in_order_once|]. by destruct (look _ c).
Qed.

Lemma the_core_survives_its_callers_witness :
  ∃ ts c, rtc sched_step (pool 2 [OCreateGroup (str "LAN") [] []; OConnect lan] []) (ts, c)
    ∧ session c ≠ None ∧ core_wf c ∧ Fault ∉ ts.
Proof.
  destruct a_connected_daemon as (ts & c & Hr & Hs & _). exists ts, c. split; [exact Hr|]. split; [exact Hs|].
  exact (the_core_survives_its_callers 2 _ _ _ _ _ _ ts c Hr).
Defined.

(** At a goroutine that waits for a heartbeat. *)
Lemma nobody_waits_forever_witness :
  ∃ ts c, rtc sched_step (pool 2 [OCreateGroup (str "LAN") [] []; OConnect lan; ODisconnect] []) (ts, c)
    ∧ s_Connection (state c) = StateDisconnecting ∧ beating c ≠ ∅
    ∧ ∃ ts' c', rtc sched_step (ts, c) (ts', c') ∧ Forall (at_rest c') ts' ∧ (daemon_ctx ∈ stopped c' → ts' = []).
Proof.
  set (check (ts : list (thread (@Core Toy.scheme _ _) unit)) (c : @Core Toy.scheme _ _) :=
    bool_decide (s_Connection (state c) = StateDisconnecting) && bool_decide (beating c ≠ ∅)).
  destruct (ends_somewhere 2 [OCreateGroup (str "LAN") [] []; OConnect lan; ODisconnect] [] (open_up ++ [(1%nat, None); (0%nat, Some 2%nat)]) check)
    as (ts & c & Hr & Hc); [vm_compute; reflexivity|].
  exists ts, c. apply andb_prop in Hc as [Hd%bool_decide_eq_true Hb%bool_decide_eq_true]. split; [exact Hr|]. split; [exact Hd|].
  split; [exact Hb|]. exact (proj2 (nobody_waits_forever 2 _ _ _ _ _ _ ts c Hr)).
Defined.

Lemma disconnecting_ends_the_session_witness :
  ∃ (c : @Core Toy.scheme desk_net desk_links) s c', core_wf c ∧ session c = Some s ∧ alone Disconnect c = Some (inr tt, [], c') ∧ gone c c'.
Proof.
  destruct a_connected_daemon as (ts & c & Hr & Hs & _). pose proof (desk_runs_wf _ _ _ _ _ Hr) as Hc.
  pose proof (disconnecting_ends_the_session c Hc) as Hd. destruct (session c) as [s|] eqn:E; [|done].
  destruct Hd as (_ & c' & Ha & Hg & _). exists c, s, c'. done.
Defined.

Lemma connecting_ends_one_way_or_the_other_witness :
  ∃ (c : @Core Toy.scheme desk_net desk_links) c1, core_wf c ∧ look (str "elsewhere") c = Another
    ∧ alone (Connect 1 (str "elsewhere")) c = Some (inr tt, [runConnect 1 (str "elsewhere")], c1).
Proof.
  destruct a_connected_daemon as (ts & c & Hr & _ & Ho & Hl). pose proof (desk_runs_wf _ _ _ _ _ Hr) as Hc.
  pose proof (connecting_ends_one_way_or_the_other 1 (str "elsewhere") c Hc Ho) as Hd. rewrite Hl in Hd.
  destruct Hd as (c1 & Ha & _). exists c, c1. done.
Defined.
