(* ===== verification/Config.v ===== *)
(** What the daemon is told by its environment, daemon/config/config.go; what a server that
    starts is good for; and how the server's process ends, server/cmd/192168-server/main.go.
    The server's own configuration is in [ServerConfig].

    The paths of the operating system are parameters. *)
From S2P Require Import Prelude Bytes NetText Durable Migrations Invite Auth ApiTypes ServerConfig Hub Api Control Netlog Ipc Threads Core CoreDesk.

(** ** The daemon *)
Module Daemon.
Definition DefaultServerURL : gostring := str "https://192168.lol".
Definition Name : gostring := str "192168".

Record Config : Type := mkConfig { ServerURL : gostring; DataDir : gostring }.
Inductive config_error : Type := NoProgramData | NoConfigDir | BadServerURL (why : gostring).

Definition envOr (getenv : environment) (key : string) (fallback : gostring) : gostring :=
  if negb (bool_decide (getenv key = [])) then getenv key else fallback.

Inductive Level : Type := LevelDebug | LevelInfo | LevelWarn | LevelError.
(** No letter of these words is the lower case of anything outside ASCII. *)
Definition LogLevel (getenv : environment) : Level :=
  let level := fold_case (getenv "NET192168_LOG_LEVEL"%string) in
  if bool_decide (level = str "debug") then LevelDebug else
  if bool_decide (level = str "warn") then LevelWarn else
  if bool_decide (level = str "error") then LevelError else LevelInfo.

Section load.
Context (join : gostring → gostring → gostring) (UserConfigDir : option gostring).

Definition defaultDataDir (getenv : environment) (asService : bool) : config_error + gostring :=
  if asService then
    let base := getenv "ProgramData"%string in
    if bool_decide (base = []) then inl NoProgramData else inr (join base Name)
  else match UserConfigDir with None => inl NoConfigDir | Some base => inr (join base Name) end.

Definition DataDir_ (getenv : environment) (asService : bool) : config_error + gostring :=
  let dir := getenv "NET192168_DATA_DIR"%string in
  if negb (bool_decide (dir = [])) then inr dir else defaultDataDir getenv asService.

Definition Load `{Host} (getenv : environment) (asService : bool) : config_error + Config :=
  match DataDir_ getenv asService with
  | inl e => inl e
  | inr dir =>
      let url := TrimRightSlash (envOr getenv "NET192168_SERVER_URL" DefaultServerURL) in
      match ValidateServerURL url with
      | Some why => inl (BadServerURL why)
      | None => inr (mkConfig url dir)
      end
  end.
End load.
End Daemon.

(** ** What trimming leaves *)
Lemma trim_left_head p s r s' : trim_left p s = r :: s' → p r = false.
Proof. induction s as [|x s IH]; [done|]. cbn. destruct (p x) eqn:E; [done|]. by intros [= <- _]. Qed.
Lemma trim_right_last p s r s' : trim_right p s = s' ++ [r] → p r = false.
Proof.
  intros H. apply (trim_left_head p (reverse s) r (reverse s')). unfold trim_right in H. apply (f_equal reverse) in H.
  by rewrite reverse_involutive, reverse_app in H.
Qed.
Lemma trim_right_twice p s : trim_right p (trim_right p s) = trim_right p s.
Proof. apply trim_right_id. intros r s'. apply trim_right_last. Qed.
Lemma TrimSpace_head s r s' : TrimSpace s = r :: s' → isSpace r = false.
Proof. intros H. apply trim_right_head in H as [t H]. by apply trim_left_head in H. Qed.
Lemma TrimRightSlash_slashes s n : TrimRightSlash (s ++ replicate n 47) = TrimRightSlash s.
Proof.
  induction n as [|n IH]; [by rewrite app_nil_r|]. rewrite replicate_S_end, (assoc_L (++)). unfold TrimRightSlash. by rewrite trim_right_snoc.
Qed.
Lemma CutPrefix_app prefix rest : Server.CutPrefix (prefix ++ rest) prefix = Some rest.
Proof. unfold Server.CutPrefix. rewrite take_app_length. rewrite bool_decide_eq_true_2 by done. by rewrite drop_app_length. Qed.

(** What [Load] leaves of the public address. *)
Lemma server_Load_url url_parse getenv c : Server.Load url_parse getenv = inr c →
  Server.PublicURL c ≠ [] ∧ TrimRightSlash (Server.PublicURL c) = Server.PublicURL c
  ∧ (∀ r s, Server.PublicURL c = r :: s → isSpace r = false) ∧ Server.checkPublicURL url_parse (Server.PublicURL c) = None.
Proof.
  unfold Server.Load. cbv zeta. cbn [Server.PublicURL]. set (url := TrimRightSlash _). case_bool_decide as Hne; [done|].
  destruct (Server.checkPublicURL url_parse url) eqn:Ec; [done|]. intros [= <-]. cbn. split_and!; [done| | |done].
  - apply trim_right_twice.
  - intros r s H. apply trim_right_head in H as [t H]. by apply TrimSpace_head in H.
Qed.

(** A server that starts can be used as it describes itself.  Whatever its environment
    says, when the server accepts it: the daemon it is typed into, with any number of
    slashes after it, asks at the right place and takes the document it is given; the
    links to its groups are that address, the path the server answers at and the code,
    and read back as the code; the address passes the daemon's own check exactly when its
    scheme is https or http; and of one that is written with such a scheme the realtime
    address is the same with wss or ws. *)
Theorem a_server_that_starts_can_be_used `{Host} (getenv : environment) c :
  Server.Load url_parse getenv = inr c →
  let url := Server.PublicURL c in let doc := Server.document c in
  (∀ n w w', fetch (url ++ WellKnownPath) w = (Some (mkResponse 200 (DiscoveryBody doc)), w') →
     Discover true (url ++ replicate n 47) w = (inr (mkClient doc url []), w'))
  ∧ (∀ code, is_code code → code ≠ [] → Link (d_Invite doc) code = url ++ Path ++ code ∧ Parse (Link (d_Invite doc) code) = code)
  ∧ (∀ scheme host hostname, url_parse url = inr (scheme, host, hostname) →
       (ValidateServerURL url = None ↔ scheme = str "https" ∨ scheme = str "http"))
  ∧ (∀ rest, (url = str "https://" ++ rest → d_Realtime doc = str "wss://" ++ rest ++ str "/realtime")
       ∧ (url = str "http://" ++ rest → d_Realtime doc = str "ws://" ++ rest ++ str "/realtime")).
Proof.
  intros Hload. destruct (server_Load_url _ _ _ Hload) as (Hne & Hslash & Hsp & Hcheck). cbv zeta. split_and!.
  - intros n w w' Hf. unfold Discover. rewrite TrimRightSlash_slashes, Hslash, Hf. cbn [status payload as_discovery d_Version Server.document Z.eqb Z.leb Z.compare negb].
    change (negb (DiscoveryVersion =? DiscoveryVersion)) with false. cbn iota. cbn [d_API d_Realtime].
    rewrite !bool_decide_eq_false_2; [done|..].
    + unfold Server.document, Server.RealtimeURL. cbn [d_Realtime]. by case_match.
    + unfold Server.document, Server.APIURL. cbn [d_API]. by destruct (Server.PublicURL c).
  - intros code Hc Hn. unfold Server.document. cbn [d_Invite].
    assert (trim_right is_slash (Server.PublicURL c ++ Path) = Server.PublicURL c ++ str "/join") as Ht.
    { change Path with (str "/join" ++ [47]). rewrite (assoc_L (++)), trim_right_snoc by done. apply trim_right_id.
      intros r s E. change (str "/join") with (str "/joi" ++ [110]) in E. rewrite (assoc_L (++)) in E. by apply app_inj_tail in E as [_ <-]. }
    assert (Link (Server.PublicURL c ++ Path) code = Server.PublicURL c ++ Path ++ code) as ->.
    { rewrite Link_shape, Ht; [|by destruct (Server.PublicURL c)|done]. by rewrite <-!(assoc_L (++)). }
    split; [done|]. rewrite (assoc_L (++)). apply Parse_suffix; [done|done| |].
    + intros r s E. destruct (Server.PublicURL c) as [|x url]; [done|]. injection E as <- _. by eapply Hsp.
    + right. exists (Server.PublicURL c ++ str "/join"). by rewrite <-(assoc_L (++)).
  - intros scheme host hostname Hp. unfold Server.checkPublicURL in Hcheck. unfold ValidateServerURL. rewrite Hp in Hcheck |- *.
    case_bool_decide; [done|]. case_bool_decide as Hs; [split; [intros _; by left|done]|]. destruct (isLoopback hostname) eqn:El; [|done]. cbn in Hcheck.
    unfold isLoopback in El. rewrite El. destruct (bool_decide_reflect (scheme = str "http")) as [Hh|Hh]; [split; [intros _; by right|done]|]. split; [done|]. intros [|]; contradiction.
  - intros rest. unfold Server.document, Server.RealtimeURL. cbn [d_Realtime]. split; intros E; rewrite E, CutPrefix_app; done.
Qed.

(** With the scheme in capitals, which [url.Parse] reads as the same, the address is
    accepted and the realtime address is no address. *)
Lemma a_scheme_in_capitals_has_no_realtime (url_parse : url_parser) (getenv : environment) hostname :
  getenv "NET192168_PUBLIC_URL"%string = str "HTTPS://lan.test" → url_parse (str "HTTPS://lan.test") = inr (str "https", str "lan.test", hostname) →
  ∃ c, Server.Load url_parse getenv = inr c ∧ Server.RealtimeURL c = str "ws://HTTPS://lan.test/realtime".
Proof.
  intros He Hp. eexists. split.
  - unfold Server.Load. rewrite He. change (TrimRightSlash (TrimSpace (str "HTTPS://lan.test"))) with (str "HTTPS://lan.test").
    cbn [Server.PublicURL]. unfold Server.checkPublicURL. rewrite Hp. done.
  - vm_compute. done.
Qed.

(** The daemon starts with an address it would accept, or not at all. *)
Lemma daemon_Load_valid `{Host} join dir getenv service c : Daemon.Load join dir getenv service = inr c →
  ValidateServerURL (Daemon.ServerURL c) = None ∧ TrimRightSlash (Daemon.ServerURL c) = Daemon.ServerURL c.
Proof.
  unfold Daemon.Load. destruct (Daemon.DataDir_ _ _ _ _); [done|]. cbv zeta. destruct (ValidateServerURL _) eqn:E; [done|].
  intros [= <-]. split; [done|]. apply trim_right_twice.
Qed.

(** An address with spaces and a slash around it. *)
Definition lan (key : string) : gostring :=
  if bool_decide (key = "NET192168_PUBLIC_URL"%string) then str " https://lan.test/ " else [].

Lemma a_server_that_starts_can_be_used_witness :
  let c := Server.mkConfig (str ":8080") (str "https://lan.test") Server.DefaultSTUN [] [] in
  let url := Server.PublicURL c in let doc := Server.document c in
  Server.Load url_parse lan = inr c
  ∧ (∀ n w w', fetch (url ++ WellKnownPath) w = (Some (mkResponse 200 (DiscoveryBody doc)), w') →
     Discover true (url ++ replicate n 47) w = (inr (mkClient doc url []), w'))
  ∧ (∀ code, is_code code → code ≠ [] → Link (d_Invite doc) code = url ++ Path ++ code ∧ Parse (Link (d_Invite doc) code) = code)
  ∧ (∀ scheme host hostname, url_parse url = inr (scheme, host, hostname) →
       (ValidateServerURL url = None ↔ scheme = str "https" ∨ scheme = str "http"))
  ∧ (∀ rest, (url = str "https://" ++ rest → d_Realtime doc = str "wss://" ++ rest ++ str "/realtime")
       ∧ (url = str "http://" ++ rest → d_Realtime doc = str "ws://" ++ rest ++ str "/realtime")).
Proof.
  assert (Server.Load url_parse lan = inr (Server.mkConfig (str ":8080") (str "https://lan.test") Server.DefaultSTUN [] [])) as Hload by (vm_compute; reflexivity).
  split; [exact Hload|]. exact (a_server_that_starts_can_be_used lan _ Hload).
Defined.

(** ** The server's process *)
Section process.
Context {D : Type} (empty : D) (references_hold : D → bool).

(** Why it stops: it was told to, or its socket could not be opened or served. *)
Inductive stopping : Type := Signalled | CouldNotServe.

(** How it ended, and whether the database was closed: [os.Exit] does not wait for what was
    deferred. *)
Inductive exited : Type := Exited (code : Z) (store_closed : bool) | Crashed | Killed.

(** [main].  Why it stops is logged; what remains is the same. *)
Definition main (url_parse : url_parser) (getenv : environment) (files : list (@Migrations.file D)) (why : stopping) (shut_down : bool)
    (d : @Disk D) : exited * @Disk D :=
  match Server.Load url_parse getenv with
  | inl _ => (Exited 1 true, d)
  | inr _ =>
      match Open references_hold files d with
      | (Done _, d) => (if negb shut_down then Exited 1 false else Exited 0 true, d)
      | (Error _, d) => (Exited 1 true, d)
      | (Panicked, d) => (Crashed, d)
      | (Dead, d) => (Killed, d)
      end
  end.

(** A server that could not listen ends as one that was told to: with nothing wrong. *)
Lemma a_server_that_could_not_serve_reports_success url_parse getenv files c d d' :
  Server.Load url_parse getenv = inr c → Open references_hold files d = (Done tt, d') →
  main url_parse getenv files CouldNotServe true d = (Exited 0 true, d').
Proof. unfold main. by intros -> ->. Qed.

(** A server that does not start says so, and has not harmed the database. *)
Lemma a_server_that_does_not_start_says_so all url_parse getenv files why ok d code closed d' : migrated empty all d → files `prefix_of` all →
  main url_parse getenv files why ok d = (Exited code closed, d') → migrated empty all d' ∧ (code = 0 ∨ code = 1)
  ∧ (code = 0 → ∃ c, Server.Load url_parse getenv = inr c ∧ Open references_hold files d = (Done tt, d')).
Proof.
  intros Hd Hf. unfold main. destruct (Server.Load url_parse getenv) as [e|c]; [intros [= <- <- <-]; split; [done|]; split; [by right|done]|].
  destruct (Open_advances empty references_hold all files Hf d Hd Logic.I) as (Hm & _). destruct (Open references_hold files d) as [[[]|e| |] d1] eqn:Eo; try done.
  - destruct ok; intros [= <- <- <-]; (split; [exact Hm|]).
    + split; [by left|]. intros _. by exists c.
    + split; [by right|done].
  - intros [= <- <- <-]. split; [exact Hm|]. split; [by right|done].
Qed.
End process.
