(* ===== verification/IdentityFile.v ===== *)
(** The files the daemon keeps for itself: daemon/identity/identity.go, and [loadSettings]
    and [save] of daemon/core/settings.go.

    A [Dir] is what the data directory holds of them.  JSON, the operating system's data
    protection and the curve are the class [Vault]; what the program draws at random, and what
    the machine is called, are arguments of [create].  A process may be gone at any call,
    and a file it was writing half there. *)
From S2P Require Import Prelude Bytes NetText Base64 Auth Invite Session ApiTypes Control Netlog Ipc Peer Mesh Threads Core CoreConnect Durable.

(** A [session.Keypair], both halves as they are. *)
Record keypair : Type := mkKeypair { kp_Private : list Z; kp_Public : list Z }.

Record storedIdentity : Type := mkStored {
  st_DeviceID : gostring;
  st_Name : gostring;
  st_Nickname : gostring;
  st_PublicKey : gostring;
  st_TransportKey : gostring;
  st_ServerURL : gostring;
  st_Secrets : gostring;
}.
Record protectedSecrets : Type := mkSecrets { sc_SigningSeed : gostring; sc_TransportKey : gostring; sc_Token : gostring }.

Class Vault (C : Ed25519) : Type := {
  Seed : PrivateKey → list Z;
  NewKeyFromSeed : list Z → PrivateKey;
  marshal_identity : storedIdentity → list Z;
  unmarshal_identity : list Z → option storedIdentity;
  marshal_secrets : protectedSecrets → list Z;
  unmarshal_secrets : list Z → option protectedSecrets;
  marshal_settings : settings → list Z;
  (** Into settings that are there already. *)
  unmarshal_settings : list Z → settings → option settings;
  (** Windows' data protection: what is sealed, with what besides the account's own key.  It
      is never the same twice. *)
  CryptProtectData : nat → list Z → list Z → option (list Z);
  CryptUnprotectData : list Z → list Z → option (list Z);
}.

(** ** The secret store: daemon/secret *)
Section secret.
Context `{Vault}.

Definition entropy : list Z := str "192168-local-secret-v1".

Definition Protect (n : nat) (plaintext : list Z) : option (list Z) :=
  if bool_decide (plaintext = []) then None else CryptProtectData n plaintext entropy.
Definition Unprotect (ciphertext : list Z) : option (list Z) :=
  if bool_decide (ciphertext = []) then None else CryptUnprotectData ciphertext entropy.
End secret.

Definition SeedSize : nat := 32.

Section identity.
Context {C : Ed25519} {A : Vault C}.

Record Identity : Type := mkIdentity {
  DeviceID : gostring;
  Name : gostring;
  Nickname : gostring;
  Signing : PrivateKey;
  Transport : keypair;
  Token : gostring;
  ServerURL : gostring;
}.
#[export] Instance eta_Identity : Settable Identity := λ i,
  mkIdentity (DeviceID i) (Name i) (Nickname i) (Signing i) (Transport i) (Token i) (ServerURL i).

(** identity.json, identity.json.new, settings.json; how often a secret was sealed. *)
Record Dir : Type := mkDir {
  identity_file : option (list Z);
  identity_new : option (list Z);
  settings_file : option (list Z);
  sealed : nat;
  to_come : list reply;
}.
#[export] Instance eta_Dir : Settable Dir := λ d, mkDir (identity_file d) (identity_new d) (settings_file d) (sealed d) (to_come d).
#[export] Program Instance dir_scripted : Scripted Dir := {| script := to_come; with_script l d := d <| to_come := l |> |}.
Solve Obligations with by intros [].

Inductive identity_error : Type :=
  | NoDir | NotRead | NotParsed | SecretsNotDecoded | NotUnprotected | SecretsNotParsed | SigningMalformed | TransportMalformed
  | PublicMalformed | NoDeviceID | NoSigningKey | NoTransportKey | NotProtected | NotWritten | NotReplaced.
Abbreviation act A := (Durable.act Dir identity_error A).

Definition PublicKey (i : Identity) : gostring := EncodePublicKey (public (Signing i)).
Definition TransportKey (i : Identity) : gostring := EncodeToString StdAlphabet (kp_Public (Transport i)).

(** The whole of a file, or as much of it as was written. *)
Definition part (o : option nat) (body : list Z) : list Z := match o with Some n => take n body | None => body end.

Definition secrets_of (i : Identity) : list Z :=
  marshal_secrets (mkSecrets (EncodeToString StdAlphabet (Seed (Signing i))) (EncodeToString StdAlphabet (kp_Private (Transport i))) (Token i)).
Definition body_of (i : Identity) (sealed : list Z) : list Z :=
  marshal_identity (mkStored (DeviceID i) (Name i) (Nickname i) (PublicKey i) (TransportKey i) (ServerURL i) (EncodeToString StdAlphabet sealed)).

(** Removing the temporary file, whether or not that works. *)
Definition remove_new : act unit := λ d,
  match call NotReplaced (λ d, d <| identity_new := None |>) d with
  | (Error _, d) => (Done tt, d)
  | r => r
  end.

Definition save (i : Identity) : act unit := λ d,
  let n := sealed d in
  let d := d <| sealed := S n |> in
  match Protect n (secrets_of i) with
  | None => (Error NotProtected, d)
  | Some s =>
      then_ (write_file NotWritten (λ o d, d <| identity_new := Some (part o (body_of i s)) |>)) (λ _ d,
      match call NotReplaced (λ d, d <| identity_file := identity_new d |> <| identity_new := None |>) d with
      | (Error e, d) => then_ remove_new (λ _, raise e) d
      | r => r
      end) d
  end.

(** The three that change an identity: what it is in memory afterwards, and the save. *)
Definition SetToken (serverURL token : gostring) (i : Identity) : Identity * act unit :=
  let i := i <| ServerURL := serverURL |> <| Token := token |> in (i, save i).
Definition SetNickname (nickname : gostring) (i : Identity) : Identity * act unit :=
  if bool_decide (nickname = Nickname i) then (i, give tt) else
  let i := i <| Nickname := nickname |> in (i, save i).
Definition ClearToken (i : Identity) : Identity * act unit :=
  let i := i <| Token := [] |> <| ServerURL := [] |> in (i, save i).
Definition RegisteredWith (serverURL : gostring) (i : Identity) : bool :=
  negb (bool_decide (Token i = [])) && bool_decide (ServerURL i = serverURL).

(** What [create] draws, each if it can, and what the machine is called. *)
Record drawn : Type := mkDrawn {
  dr_id : option (list Z);
  dr_signing : option PrivateKey;
  dr_transport : option keypair;
  dr_hostname : option gostring;
}.

Definition newDeviceID (raw : list Z) : gostring := str "dev_" ++ base32_quantum (take 5 raw) ++ base32_quantum (drop 5 raw).

Definition create (r : drawn) : act Identity := λ d,
  match dr_id r with
  | None => (Error NoDeviceID, d)
  | Some raw =>
      match dr_signing r with
      | None => (Error NoSigningKey, d)
      | Some signing =>
          match dr_transport r with
          | None => (Error NoTransportKey, d)
          | Some transport =>
              let name := match dr_hostname r with None | Some [] => str "unknown" | Some name => name end in
              let id := mkIdentity (newDeviceID raw) name name signing transport [] [] in
              then_ (save id) (λ _, give id) d
          end
      end
  end.

(** A key of the size it has to have. *)
Definition decode_key (size : nat) (text : gostring) : option (list Z) :=
  key ← DecodeString StdAlphabet text;
  if (length key =? size)%nat then Some key else None.

Definition parse_identity (raw : list Z) : identity_error + Identity :=
  match unmarshal_identity raw with
  | None => inl NotParsed
  | Some stored =>
      match DecodeString StdAlphabet (st_Secrets stored) with
      | None => inl SecretsNotDecoded
      | Some sealed =>
          match Unprotect sealed with
          | None => inl NotUnprotected
          | Some opened =>
              match unmarshal_secrets opened with
              | None => inl SecretsNotParsed
              | Some secrets =>
                  match decode_key SeedSize (sc_SigningSeed secrets) with
                  | None => inl SigningMalformed
                  | Some seed =>
                      match decode_key KeySize (sc_TransportKey secrets) with
                      | None => inl TransportMalformed
                      | Some private =>
                          match decode_key KeySize (st_TransportKey stored) with
                          | None => inl PublicMalformed
                          | Some public =>
                              inr (mkIdentity (st_DeviceID stored) (st_Name stored) (st_Nickname stored) (NewKeyFromSeed seed)
                                (mkKeypair private public) (sc_Token secrets) (st_ServerURL stored))
                          end
                      end
                  end
              end
          end
      end
  end.

Definition Load (r : drawn) : act Identity :=
  then_ (call NoDir id) (λ _,
  then_ (call NotRead id) (λ _ d,
  match identity_file d with
  | None => create r d
  | Some raw => (match parse_identity raw with inl e => Error e | inr i => Done i end, d)
  end)).

(** ** The settings *)
Definition loadSettings (defaultServer : gostring) : act settings :=
  then_ (call NotRead id) (λ _ d,
  match settings_file d with
  | None => (Done (default_settings defaultServer), d)
  | Some raw => (match unmarshal_settings raw (default_settings defaultServer) with None => Error NotParsed | Some s => Done s end, d)
  end).
Definition saveSettings (s : settings) : act unit :=
  write_file NotWritten (λ o d, d <| settings_file := Some (part o (marshal_settings s)) |>).
End identity.
