(* ===== verification/IdentityProps.v ===== *)
(** The theorems of the daemon's files. *)
From S2P Require Import Prelude Bytes NetText Base64 Auth Invite Session ApiTypes Control Netlog Ipc Peer Mesh Threads Core CoreConnect Durable IdentityFile.

(** What the libraries are documented to do.  JSON gives back what was written of text
    that is UTF-8, all of ASCII being so, and does not take an empty file; the secret
    store opens what it sealed; a key is made again from its seed. *)
Class Texts : Type := utf8 : gostring → Prop.
Class VaultLaws (C : Ed25519) (V : Vault C) {U : Texts} : Prop := {
  ascii_utf8 t : Forall (λ c, 0 ≤ c < 128) t → utf8 t;
  identity_again s : utf8 (st_DeviceID s) → utf8 (st_Name s) → utf8 (st_Nickname s) → utf8 (st_PublicKey s) → utf8 (st_TransportKey s) →
    utf8 (st_ServerURL s) → utf8 (st_Secrets s) → unmarshal_identity (marshal_identity s) = Some s;
  secrets_again s : utf8 (sc_SigningSeed s) → utf8 (sc_TransportKey s) → utf8 (sc_Token s) → unmarshal_secrets (marshal_secrets s) = Some s;
  settings_again s s0 : utf8 (Core.ServerURL s) → unmarshal_settings (marshal_settings s) s0 = Some s;
  nothing_is_no_settings s0 : unmarshal_settings [] s0 = None;
  unsealed n x e s : CryptProtectData n x e = Some s → CryptUnprotectData s e = Some x ∧ is_bytes s ∧ s ≠ [];
  key_again k : NewKeyFromSeed (Seed k) = k;
  seed_size k : is_bytes (Seed k) ∧ length (Seed k) = SeedSize;
}.

Section files.
Context {C : Ed25519} {V : Vault C} {U : Texts} {L : VaultLaws C V}.

(** What was protected is what is read, and nothing is neither. *)
Lemma unprotects n x s : Protect n x = Some s → Unprotect s = Some x ∧ is_bytes s.
Proof.
  unfold Protect, Unprotect. case_bool_decide; [done|]. intros (? & ? & ?)%unsealed. by rewrite bool_decide_eq_false_2.
Qed.
Lemma nothing_to_protect n : Protect n [] = None ∧ Unprotect [] = None.
Proof. done. Qed.

(** An identity whose names are text and whose keys are of their size. *)
Record proper (i : Identity) : Prop := mkProper {
  pr_id : utf8 (DeviceID i);
  pr_names : utf8 (Name i) ∧ utf8 (Nickname i);
  pr_server : utf8 (ServerURL i) ∧ utf8 (Token i);
  pr_private : is_bytes (kp_Private (Transport i)) ∧ length (kp_Private (Transport i)) = KeySize;
  pr_public : is_bytes (kp_Public (Transport i)) ∧ length (kp_Public (Transport i)) = KeySize;
}.

Lemma encoded_utf8 raw : utf8 (EncodeToString StdAlphabet raw).
Proof.
  apply ascii_utf8. unfold EncodeToString. apply Forall_fmap, Forall_true. intros d. unfold letter, compose.
  assert (Forall (λ c, 0 ≤ c < 128) StdAlphabet) as Ha by (apply (bool_decide_unpack _); vm_compute; exact I).
  destruct (StdAlphabet !! Z.to_nat d) as [c|] eqn:E; cbn; [|lia]. by apply (Forall_lookup_1 _ _ _ _ Ha E).
Qed.

Lemma decode_key_again size raw : is_bytes raw → length raw = size → decode_key size (EncodeToString StdAlphabet raw) = Some raw.
Proof.
  intros Hb Hl. unfold decode_key. rewrite DecodeString_Encode by (done || apply good_std). cbn. by rewrite Hl, Nat.eqb_refl.
Qed.

Lemma identity_parses i s : proper i → Unprotect s = Some (secrets_of i) → is_bytes s → parse_identity (body_of i s) = inr i.
Proof.
  intros [P1 [P2 P3] [P4 P5] [P6 P7] [P8 P9]] Hs Hb. unfold parse_identity, body_of.
  rewrite identity_again by (cbn; first [done|apply encoded_utf8]). cbn [st_Secrets st_TransportKey st_DeviceID st_Name st_Nickname st_ServerURL].
  rewrite DecodeString_Encode by (done || apply good_std). rewrite Hs. unfold secrets_of.
  rewrite secrets_again by (cbn; first [done|apply encoded_utf8]). cbn [sc_SigningSeed sc_TransportKey sc_Token].
  destruct (seed_size (Signing i)) as [S1 S2]. unfold TransportKey. rewrite !decode_key_again by done. rewrite key_again.
  by destruct i as [? ? ? ? [] ? ?].
Qed.

(** What the directory holds: an identity, or none yet. *)
Definition holds (o : option Identity) (d : Dir) : Prop :=
  match o with None => identity_file d = None | Some i => ∃ raw, identity_file d = Some raw ∧ parse_identity raw = inr i end.

Lemma holds_same o d d' : identity_file d' = identity_file d → holds o d → holds o d'.
Proof. unfold holds. by intros ->. Qed.

Lemma remove_new_leaves d : identity_file (remove_new d).2 = identity_file d ∧ (∀ e, (remove_new d).1 ≠ Error e) ∧ (remove_new d).1 ≠ Panicked.
Proof. unfold remove_new, call. by destruct (head (script d)) as [[]|]. Qed.

Lemma saves i d : proper i → let '(r, d') := save i d in
  match r with
  | Done _ => holds (Some i) d'
  | Error _ => identity_file d' = identity_file d
  | Dead => identity_file d' = identity_file d ∨ holds (Some i) d'
  | Panicked => False
  end.
Proof.
  intros Hi. unfold save. destruct (Protect (sealed d) (secrets_of i)) as [s|] eqn:Ep; [|done].
  destruct (unprotects _ _ _ Ep) as [Hu Hb]. pose proof (identity_parses i s Hi Hu Hb) as Hparse.
  set (d0 := d <| sealed := S (sealed d) |>). set (put := λ o d, d <| identity_new := Some (part o (body_of i s)) |>).
  unfold then_ at 1. destruct (write_file NotWritten put d0) as [r1 d1] eqn:Ew.
  assert (identity_file d1 = identity_file d ∧ (r1 = Done tt → identity_new d1 = Some (body_of i s)) ∧ r1 ≠ Panicked) as (H1 & H2 & H3).
  { unfold write_file in Ew. destruct (head (script d0)) as [[]|]; injection Ew as <- <-; by split_and!. }
  destruct r1 as [[]|e| |]; [|done|done|by left]. specialize (H2 eq_refl).
  destruct (call NotReplaced _ d1) as [r2 d2] eqn:Er.
  assert (match r2 with Done _ => identity_file d2 = Some (body_of i s) | Error _ => identity_file d2 = identity_file d
    | Dead => identity_file d2 = identity_file d ∨ identity_file d2 = Some (body_of i s) | Panicked => False end) as Hr.
  { unfold call in Er. destruct (head (script d1)) as [[]|]; injection Er as <- <-; cbn; rewrite ?H2; auto. }
  destruct r2 as [[]|e| |]; [by exists (body_of i s)| |done|destruct Hr as [Hr|Hr]; [by left|right; by exists (body_of i s)]].
  unfold then_. destruct (remove_new_leaves d2) as (R1 & R2 & R3). destruct (remove_new d2) as [[[]|e'| |] d3]; cbn in *; [congruence|by destruct (R2 e')|done|left; congruence].
Qed.

Lemma loads r d i : script d = [] → holds (Some i) d → Load r d = (Done i, d).
Proof. intros Hs (raw & Hf & Hp). unfold Load. rewrite then_works by done. cbn [id]. rewrite then_works by done. cbn [id]. by rewrite Hf, Hp. Qed.

(** C25: an identity is never half written.  However a save ends, with an error, with the
    process gone at any point or a file half there, what the next start loads is the whole
    of the identity that was saved before or of the one being saved: the new one when the
    save worked, the old one when it says it did not. *)
Theorem an_identity_is_never_half_written i0 i d luck r : holds (Some i0) d → proper i →
  let '(e, d') := save i (d <| to_come := luck |>) in
  ∃ now, Load r (d' <| to_come := [] |>) = (Done now, d' <| to_come := [] |>) ∧ (now = i0 ∨ now = i)
    ∧ (e = Done tt → now = i) ∧ (∀ err, e = Error err → now = i0).
Proof.
  intros H0 Hi. pose proof (saves i (d <| to_come := luck |>) Hi) as Hs. destruct (save i (d <| to_come := luck |>)) as [e d'].
  assert (identity_file d' = identity_file d → holds (Some i0) (d' <| to_come := [] |>)) as Hold by (intros E; by apply (holds_same (Some i0) d)).
  assert (holds (Some i) d' → holds (Some i) (d' <| to_come := [] |>)) as Hnew by done.
  destruct e as [[]|err| |]; [|..|].
  - exists i. split; [by apply loads, Hnew|]. by split_and!; [right| |].
  - exists i0. split; [by apply loads, Hold|]. by split_and!; [left| |].
  - done.
  - destruct Hs as [Hs|Hs].
    + exists i0. split; [by apply loads, Hold|]. by split_and!; [left| |].
    + exists i. split; [by apply loads, Hnew|]. by split_and!; [right| |].
Qed.

(** ** The settings *)

Lemma settings_load_again s def d : utf8 (Core.ServerURL s) → script d = [] →
  ∃ d', saveSettings s d = (Done tt, d') ∧ loadSettings def d' = (Done s, d').
Proof.
  intros Hu Hs. eexists. split; [by apply write_works|]. unfold loadSettings. rewrite then_works by done. cbn. by rewrite settings_again.
Qed.

(** A torn settings file stops the daemon.  The settings are written in place, unlike
    the identity.  When the process is gone after the file was emptied and before it was
    filled, the settings cannot be read, and the daemon does not start, whatever else
    works, however often it is tried. *)
Theorem a_torn_settings_file_stops_the_daemon s def d rest :
  let d' := (saveSettings s (d <| to_come := Torn 0 :: rest |>)).2 in
  (saveSettings s (d <| to_come := Torn 0 :: rest |>)).1 = Dead
  ∧ ∀ luck, let '(r, d'') := loadSettings def (d' <| to_come := luck |>) in (∀ s', r ≠ Done s') ∧ settings_file d'' = settings_file d'.
Proof.
  split; [done|]. intros luck. unfold loadSettings, then_, call. cbn. destruct (head luck) as [[]|]; cbn; rewrite ?nothing_is_no_settings; done.
Qed.
End files.

(** Libraries that keep the laws: texts and sealed bytes are written with their lengths. *)
Module Plain.
Definition put (l : list (list Z)) : list Z := l ≫= λ t, Z.of_nat (length t) :: t.
Fixpoint get (k : nat) (raw : list Z) : option (list (list Z)) :=
  match k, raw with
  | O, [] => Some []
  | S k, n :: raw => cons (take (Z.to_nat n) raw) <$> get k (drop (Z.to_nat n) raw)
  | _, _ => None
  end.
Lemma get_put l : get (length l) (put l) = Some l.
Proof.
  induction l as [|t l IH]; [done|]. cbn -[Z.of_nat Z.to_nat]. fold (put l). rewrite Nat2Z.id.
  by rewrite take_app_length, drop_app_length, IH.
Qed.

#[local] Instance vault : Vault Toy.scheme := {|
  Seed := λ k : @PrivateKey Toy.scheme, replicate SeedSize (if (k : bool) then 1 else 0);
  NewKeyFromSeed := λ s, bool_decide (head s = Some 1) : @PrivateKey Toy.scheme;
  marshal_identity := λ s, put [st_DeviceID s; st_Name s; st_Nickname s; st_PublicKey s; st_TransportKey s; st_ServerURL s; st_Secrets s];
  unmarshal_identity := λ raw, l ← get 7 raw; match l with [a; b; c; d; e; f; g] => Some (mkStored a b c d e f g) | _ => None end;
  marshal_secrets := λ s, put [sc_SigningSeed s; sc_TransportKey s; sc_Token s];
  unmarshal_secrets := λ raw, l ← get 3 raw; match l with [a; b; c] => Some (mkSecrets a b c) | _ => None end;
  marshal_settings := λ s, put [Core.ServerURL s; [Z.b2z (LanDiscovery s)]; [Z.b2z (PacketLog s)]];
  unmarshal_settings := λ raw _, l ← get 3 raw; match l with [a; [b]; [c]] => Some (mkSettings a (bool_decide (b = 1)) (bool_decide (c = 1))) | _ => None end;
  CryptProtectData _ x _ := if bool_decide (is_bytes x) then Some (1 :: x) else None;
  CryptUnprotectData s _ := Some (tail s);
|}.
#[local] Instance texts : Texts := λ _, True.
#[local] Instance vault_laws : VaultLaws Toy.scheme vault.
Proof.
  split.
  - done.
  - intros s _ _ _ _ _ _ _. unfold unmarshal_identity, marshal_identity, vault. rewrite (get_put [_; _; _; _; _; _; _]). by destruct s.
  - intros s _ _ _. unfold unmarshal_secrets, marshal_secrets, vault. rewrite (get_put [_; _; _]). by destruct s.
  - intros s s0 _. unfold unmarshal_settings, marshal_settings, vault. rewrite (get_put [_; _; _]). by destruct s as [? [] []].
  - done.
  - intros n x e s. cbn. case_bool_decide as Hx; [|done]. intros [= <-]. split; [done|]. split; [|done]. by constructor.
  - intros k. by destruct k.
  - intros k. split; [|done]. destruct k; apply (bool_decide_unpack _); by vm_compute.
Qed.

Definition me (name : gostring) : @Identity Toy.scheme :=
  @mkIdentity Toy.scheme (str "dev_aa") (str "pc") name true (mkKeypair (replicate 32 1) (replicate 32 2)) (str "token") (str "https://a.test").
Definition empty_dir : Dir := mkDir None None None 0 [].
Definition home : Dir := Eval vm_compute in (@save Toy.scheme vault (me (str "old")) empty_dir).2.
End Plain.

(** A torn write of the temporary file, and then a rename that the process does not see
    the end of. *)
Lemma an_identity_is_never_half_written_witness :
  let i := Plain.me (str "new") in
  @holds Toy.scheme Plain.vault (Some (Plain.me (str "old"))) Plain.home ∧ @proper Toy.scheme Plain.texts i
  ∧ let '(e, d') := @save Toy.scheme Plain.vault i (Plain.home <| to_come := [Works; DiesAfter] |>) in
    ∃ now, @Load Toy.scheme Plain.vault (mkDrawn None None None None) (d' <| to_come := [] |>) = (Done now, d' <| to_come := [] |>)
      ∧ (now = Plain.me (str "old") ∨ now = i) ∧ (e = Done tt → now = i) ∧ (∀ err, e = Error err → now = Plain.me (str "old")).
Proof.
  assert (@holds Toy.scheme Plain.vault (Some (Plain.me (str "old"))) Plain.home) as Hh.
  { exists (default [] (identity_file Plain.home)). split; [reflexivity|].
    exact (@eq_refl (identity_error + @Identity Toy.scheme)%type (inr (Plain.me (str "old"))) <: @parse_identity Toy.scheme Plain.vault (default [] (identity_file Plain.home)) = inr (Plain.me (str "old"))). }
  assert (@proper Toy.scheme Plain.texts (Plain.me (str "new"))) as Hp.
  { split; try (split; exact I); try exact I; (split; [apply (bool_decide_unpack _); vm_compute; exact I|reflexivity]). }
  split; [exact Hh|]. split; [exact Hp|].
  exact (@an_identity_is_never_half_written Toy.scheme Plain.vault Plain.texts Plain.vault_laws (Plain.me (str "old")) (Plain.me (str "new"))
    Plain.home [Works; DiesAfter] (mkDrawn None None None None) Hh Hp).
Defined.

Lemma a_torn_settings_file_stops_the_daemon_witness :
  let s := mkSettings (str "https://a.test") true false in
  let d' := (@saveSettings Toy.scheme Plain.vault s (Plain.home <| to_come := [Torn 0] |>)).2 in
  (@saveSettings Toy.scheme Plain.vault s (Plain.home <| to_come := [Torn 0] |>)).1 = Dead
  ∧ ∀ luck, let '(r, d'') := @loadSettings Toy.scheme Plain.vault (str "https://b.test") (d' <| to_come := luck |>) in
    (∀ s', r ≠ Done s') ∧ settings_file d'' = settings_file d'.
Proof.
  exact (@a_torn_settings_file_stops_the_daemon Toy.scheme Plain.vault Plain.texts Plain.vault_laws (mkSettings (str "https://a.test") true false)
    (str "https://b.test") Plain.home []).
Defined.
