(* ===== verification/Startup.v ===== *)
(** How the daemon comes up and goes down: [run] of daemon/cmd/192168-service/main.go and
    [core.New].

    The configuration is read, then the identity, then the settings; whichever of them
    fails ends it.  The data directory is a [Dir] of [IdentityFile].  Then there is a core,
    and the rest is a thread of it. *)
From S2P Require Import Prelude Bytes NetAddr NetText Base64 Invite Auth Session ApiTypes ServerConfig Control Netlog Ipc Peer Mesh Threads Core CoreNetwork CoreConnect CoreInv CoreSafe CoreProps CoreDesk Config Durable IdentityFile IdentityProps.

Inductive run_error : Type :=
  | InvalidConfiguration (e : Daemon.config_error)
  | NoIdentity (e : identity_error)
  | CannotStart (e : identity_error)
  | NoControlChannel
  | ControlChannelFailed.

(** ** The pipe: daemon/ipcserver/listen_windows.go *)

(** Who may open it, as a security descriptor: the system, the administrators and whoever
    is signed in at the machine; or the system and the one user. *)
Definition descriptor (user : option gostring) (asService : bool) : option gostring :=
  if asService then Some (str "D:P(A;;GA;;;SY)(A;;GA;;;BA)(A;;GA;;;IU)") else
  match user with
  | None => None
  | Some uid => Some (str "D:P(A;;GA;;;SY)(A;;GA;;;" ++ uid ++ str ")")
  end.
Definition Listen (user : option gostring) (listens : gostring → bool) (asService : bool) : bool :=
  match descriptor user asService with None => false | Some sddl => listens sddl end.

(** [fmt.Errorf(what + ": %w", err)] *)
Definition wrapped {S E E' A} (f : E → E') (m : act S E A) : act S E' A := λ d,
  match m d with
  | (Done a, d) => (Done a, d)
  | (Error e, d) => (Error (f e), d)
  | (Panicked, d) => (Panicked, d)
  | (Dead, d) => (Dead, d)
  end.

Section startup.
Context {C : Ed25519} {V : Vault C} {N : Net} {K : Links} {H : Host}.

(** What the core reads of an identity. *)
Definition core_identity (i : @IdentityFile.Identity C) : Core.Identity :=
  Core.mkIdentity (IdentityFile.DeviceID i) (IdentityFile.Name i) (IdentityFile.Nickname i) (IdentityFile.Signing i)
    (kp_Private (IdentityFile.Transport i)) (kp_Public (IdentityFile.Transport i)) (IdentityFile.Token i) (IdentityFile.ServerURL i).

(** [core.New]; a packet log that cannot be opened is left off. *)
Definition new_core (i : @IdentityFile.Identity C) (defaultServer : gostring) (w : W) : act Dir identity_error Core :=
  then_ (loadSettings defaultServer) (λ set,
  let '(recorder, w) :=
    if PacketLog set then
      let '(ok, w) := move_packet_log true w in
      ((SetEnabled true (if (ok : bool) then None else Some tt) (Some Netlog.New)).2, w)
    else (Some Netlog.New, w) in
  give (CoreConnect.New (core_identity i) set defaultServer recorder w)).

(** [run], up to the core. *)
Definition start (join : gostring → gostring → gostring) (UserConfigDir : option gostring) (getenv : environment) (asService : bool)
    (r : drawn) (w : W) : act Dir run_error Core :=
  match Daemon.Load join UserConfigDir getenv asService with
  | inl e => raise (InvalidConfiguration e)
  | inr cfg =>
      then_ (wrapped NoIdentity (IdentityFile.Load r)) (λ id,
      wrapped CannotStart (new_core id (Daemon.ServerURL cfg) w))
  end.

(** The rest of [run]: the core is told of its log and of the server, the pipe is opened
    and served until that ends, and the core is closed whichever way it went. *)
Definition serving (mainLog listening : bool) (serve : thread Core bool) : thread Core (run_error + unit) :=
  SetLogs mainLog;;
  SetEvents;;
  if negb listening then Close;; Return (inl NoControlChannel) else
  served ← serve;
  Close;;
  Return (if (served : bool) then inr tt else inl ControlChannelFailed).

Definition run (join : gostring → gostring → gostring) (UserConfigDir : option gostring) (getenv : environment) (asService : bool)
    (r : drawn) (w : W) (mainLog : bool) (user : option gostring) (listens : gostring → bool) (serve : thread Core bool)
    : act Dir run_error (Core * thread Core (run_error + unit)) :=
  then_ (start join UserConfigDir getenv asService r w) (λ c, give (c, serving mainLog (Listen user listens asService) serve)).

Context {U : Texts} {L : VaultLaws C V}.

(** Draws that make a proper identity, where they succeed. *)
Record proper_draws (r : drawn) : Prop := mkProperDraws {
  pd_hostname : ∀ name, dr_hostname r = Some name → utf8 name;
  pd_transport : ∀ k, dr_transport r = Some k →
    (is_bytes (kp_Private k) ∧ length (kp_Private k) = KeySize) ∧ (is_bytes (kp_Public k) ∧ length (kp_Public k) = KeySize);
}.

Lemma ascii_str (s : gostring) : bool_decide (Forall (λ c, 0 ≤ c < 128) s) = true → utf8 s.
Proof. intros Hs. by apply ascii_utf8, (bool_decide_eq_true_1 _). Qed.

Lemma newDeviceID_utf8 raw : utf8 (newDeviceID raw).
Proof.
  apply ascii_utf8. unfold newDeviceID. apply Forall_app. split; [by apply (bool_decide_eq_true_1 _)|].
  assert (∀ raw, Forall (λ c, 0 ≤ c < 128) (base32_quantum raw)) as Hq.
  { intros q. eapply Forall_impl; [apply base32_is_code|]. intros c Hc. unfold in_code in Hc.
    apply orb_true_iff in Hc as [Hc|Hc]; apply andb_true_iff in Hc as [H1 H2]; lia. }
  apply Forall_app. split; apply Hq.
Qed.

Lemma created_proper r signing transport raw : proper_draws r → dr_transport r = Some transport →
  let name := match dr_hostname r with None | Some [] => str "unknown" | Some name => name end in
  proper (mkIdentity (newDeviceID raw) name name signing transport [] []).
Proof.
  intros [Hn Ht] Htr name. destruct (Ht _ Htr) as [Hp Hq].
  assert (utf8 name) as Hname.
  { unfold name. destruct (dr_hostname r) as [[|c n]|]; [by apply ascii_str|by apply Hn|by apply ascii_str]. }
  assert (utf8 []) as Hnil by by apply ascii_str.
  split; cbn; [apply newDeviceID_utf8|done..].
Qed.

Lemma create_holds r d i d' : proper_draws r → create r d = (Done i, d') → holds (Some i) d'.
Proof.
  intros Hr. unfold create. destruct (dr_id r) as [raw|]; [|done]. destruct (dr_signing r) as [signing|]; [|done].
  destruct (dr_transport r) as [transport|] eqn:Et; [|done]. cbv zeta. set (id := mkIdentity _ _ _ _ _ _ _).
  pose proof (saves id d (created_proper r signing transport raw Hr Et)) as Hs. unfold then_.
  destruct (save id d) as [[[]|e| |] d1]; try done. by intros [= <- <-].
Qed.

Lemma Load_holds r d i d' : proper_draws r → IdentityFile.Load r d = (Done i, d') → holds (Some i) d'.
Proof.
  intros Hr. unfold IdentityFile.Load, then_ at 1. destruct (call NoDir id d) as [[[]|e| |] d1]; try done.
  unfold then_. destruct (call NotRead id d1) as [[[]|e| |] d2]; try done.
  destruct (identity_file d2) as [raw|] eqn:Ef; [|by apply create_holds].
  destruct (parse_identity raw) as [e|i'] eqn:Ep; [done|]. intros [= <- <-]. by exists raw.
Qed.

Lemma call_leaves e d : settings_file (call (E := identity_error) e id d).2 = settings_file d ∧ identity_file (call (E := identity_error) e id d).2 = identity_file d.
Proof. unfold call. by destruct (head (script d)) as [[]|]. Qed.

(** Reading the settings changes nothing and reads what there is. *)
Lemma loadSettings_reads def d s d' : loadSettings def d = (Done s, d') →
  settings_file d' = settings_file d ∧ identity_file d' = identity_file d
  ∧ ∀ d'', script d'' = [] → settings_file d'' = settings_file d → loadSettings def d'' = (Done s, d'').
Proof.
  unfold loadSettings, then_ at 1. pose proof (call_leaves NotRead d) as [H1 H2]. destruct (call NotRead id d) as [[[]|e| |] d1]; try done. cbn in H1, H2.
  intros Hs. assert (d1 = d') as <- by (destruct (settings_file d1); by injection Hs). split; [done|]. split; [done|].
  intros d'' Hsc Hf. rewrite then_works by done. cbn [id]. rewrite Hf, <-H1. destruct (settings_file d1) as [raw|].
  - by destruct (unmarshal_settings _ _); [injection Hs as ->|].
  - by injection Hs as ->.
Qed.
End startup.

(** ** Going down *)
Section down.
Context {C : Ed25519} {N : Net} {K : Links} {H : Host} {G : LinksLaws K} {HL : HostLaws H}.

(** Nothing of a session is left in the core, what ran for one finds its context over, and
    the packet log is put away. *)
Record closed_down (c : Core) : Prop := mkClosedDown {
  cl_session : session c = None;
  cl_contexts : ∀ ctx, alive (Some ctx) c = false;
  cl_packets : (packets c ≫= file) = None;
}.

Lemma switched_off c : ∃ r c', alone (locked (switch_packet_log false)) c = Some (r, [], c')
  ∧ session c' = session c ∧ stopped c' = stopped c ∧ mesh c' = mesh c ∧ device c' = device c ∧ adapters c' = adapters c
  ∧ (packets c' ≫= file) = None.
Proof.
  cbn. unfold switch_packet_log.
  match goal with |- context [let '(_, _) := ?x in Some (_, c <| packets := _ |> <| world := _ |>)] => destruct x as [ok w] end.
  eexists _, _. split; [reflexivity|]. do 5 (split; [done|]). cbn. unfold SetEnabled. destruct (packets c) as [r|]; [|done]. cbn.
  destruct (file r) eqn:Ef; [done|]. by cbn.
Qed.

Lemma Close_alone c : core_wf c → ∃ c', alone Close c = Some (tt, [], c') ∧ closed_down c'
  ∧ (session c ≠ None → mesh c' = None ∧ device c' = None ∧ (∀ i, device c = Some i → i ∉ adapters c')).
Proof.
  intros Hc. assert (∃ r c1, alone Disconnect c = Some (r, [], c1) ∧ session c1 = None
    ∧ (session c ≠ None → mesh c1 = None ∧ device c1 = None ∧ (∀ i, device c = Some i → i ∉ adapters c1))) as (r & c1 & E1 & Hs1 & Hgone).
  { destruct (session c) as [s|] eqn:Hs.
    - destruct (Disconnect_alone s c Hc Hs) as (c1 & told & E & [G1 G2 G3 G4 G5 G6] & _). by exists (inr tt), c1.
    - exists (inr tt), c. split; [by apply Disconnect_none|]. by split. }
  set (c2 := c1 <| stopped := {[daemon_ctx]} ∪ stopped c1 |>).
  destruct (switched_off c2) as (r3 & c3 & E3 & H1 & H2 & H3 & H4 & H5 & H6). exists c3. split.
  { unfold Close. rewrite (alone_then _ _ _ _ _ E1). rewrite (alone_then _ _ _ tt c2) by done.
    by rewrite (alone_then _ _ _ _ _ E3). }
  split; [split; [by rewrite H1|intros ctx; apply bool_decide_eq_false; rewrite H2; intros [_ Hn]; by apply Hn, elem_of_union_l, elem_of_singleton_2|done]|].
  rewrite H3, H4, H5. exact Hgone.
Qed.

(** The daemon closes what it opened.  Once there is a core, [run] comes to its end when
    serving the pipe does, whatever that did, and not before: the core is closed then, and
    also when the pipe cannot be opened, with the session it had and its links and its
    adapter; the error says which of the two it was. *)
Theorem the_daemon_closes_what_it_opened main listening serve c : core_wf c → returns serve → (∀ c', keeps core_wf grows c' serve) →
  ∃ served ts c1 c', alone (serving main listening serve) c = Some (match (listening, served) with
      | (false, _) => inl NoControlChannel | (true, false) => inl ControlChannelFailed | (true, true) => inr tt end, ts, c')
    ∧ (listening = true → ∃ c0, alone serve c0 = Some (served, ts, c1) ∧ prefs c0 = prefs c ∧ session c0 = session c)
    ∧ closed_down c'
    ∧ (session c1 ≠ None → mesh c' = None ∧ device c' = None ∧ (∀ i, device c1 = Some i → i ∉ adapters c')).
Proof.
  intros Hc Hret Hserve. set (c0 := c <| mainLog := main |> <| unheard := Some (length (events c)) |>).
  assert (core_wf c0) as Hc0 by (by destruct Hc; split).
  assert (∀ A (t : thread Core A), alone (SetLogs main;; SetEvents;; t) c = alone t c0) as Hstart.
  { intros A t. by rewrite (alone_then (SetLogs main) _ c tt (c <| mainLog := main |>)), (alone_then SetEvents _ _ tt c0). }
  unfold serving. rewrite Hstart. destruct listening; cbn [negb].
  - destruct (keeps_alone core_wf grows serve c0 Hc0 Hret (Hserve c0)) as (served & ts & c1 & E1 & Hc1 & _).
    destruct (Close_alone c1 Hc1) as (c' & E & Hd & Hg). exists served, ts, c1, c'.
    split; [rewrite alone_bind, E1, (alone_then _ _ _ _ _ E); cbn; by destruct served; rewrite app_nil_r|]. split; [by exists c0|done].
  - destruct (Close_alone c0 Hc0) as (c' & E & Hd & Hg). exists false, [], c0, c'.
    split; [by rewrite (alone_then _ _ _ _ _ E)|]. split; [done|]. split; [exact Hd|exact Hg].
Qed.
End down.

(** C26: the daemon is the same after a restart.  When it has once come up, whatever the data
    directory held before and though calls failed on the way that it could do without, the
    next start with the same environment, whatever it would draw, comes up too: as the
    same device with the same keys, token and name, and with the settings it had. *)
Theorem a_restart_is_the_same_device {C : Ed25519} {V : Vault C} {N : Net} {K : Links} {H : Host} {U : Texts} {L : VaultLaws C V}
    join dir getenv service r r' w w' d c d' :
  proper_draws r → start join dir getenv service r w d = (Done c, d') →
  ∃ c', start join dir getenv service r' w' (d' <| to_come := [] |>) = (Done c', d' <| to_come := [] |>)
    ∧ identity c' = identity c ∧ prefs c' = prefs c ∧ state c' = state c.
Proof.
  intros Hr. unfold start. destruct (Daemon.Load join dir getenv service) as [e|cfg]; [done|].
  unfold then_ at 1, wrapped at 1. destruct (IdentityFile.Load r d) as [[i|e| |] d1] eqn:El; try done.
  pose proof (Load_holds _ _ _ _ Hr El) as Hh. unfold wrapped, new_core, then_ at 1.
  destruct (loadSettings (Daemon.ServerURL cfg) d1) as [[s|e| |] d2] eqn:Es; try done.
  destruct (loadSettings_reads _ _ _ _ Es) as (H1 & H2 & Hagain). intros Hc.
  assert (d2 = d' ∧ identity c = core_identity i ∧ prefs c = s ∧ state c = state (CoreConnect.New (core_identity i) s (Daemon.ServerURL cfg) None w)) as (<- & E1 & E2 & E3).
  { destruct (PacketLog s); [destruct (move_packet_log true w) as [ok w1]|]; by injection Hc as <- <-. }
  unfold then_ at 1. rewrite (loads r' (d2 <| to_come := [] |>) i); [|done|by apply (holds_same (Some i) d1)].
  unfold then_. rewrite (Hagain (d2 <| to_come := [] |>)) by done.
  destruct (PacketLog s); [destruct (move_packet_log true w') as [ok w1]|]; eexists; (split; [done|]); cbn in *; by rewrite E1, E2, E3.
Qed.

Module FirstRun.
Definition draws : @drawn Toy.scheme := mkDrawn (Some (replicate 10 5)) (Some (true : @PrivateKey Toy.scheme)) (Some (mkKeypair (replicate 32 1) (replicate 32 2))) (Some []).
Definition join (a b : gostring) : gostring := a ++ 47 :: b.
Definition getenv (key : string) : gostring := [].
Definition first := @start Toy.scheme Plain.vault _ _ desk_host join (Some (str "/home")) getenv false draws (world (daemon [])) Plain.empty_dir.
End FirstRun.

Lemma a_restart_is_the_same_device_witness :
  ∃ c d', FirstRun.first = (Done c, d') ∧ id_Nickname (identity c) = str "unknown"
  ∧ ∃ c', @start Toy.scheme Plain.vault _ _ desk_host FirstRun.join (Some (str "/home")) FirstRun.getenv false (mkDrawn None None None None)
        (world (daemon [])) (d' <| to_come := [] |>) = (Done c', d' <| to_come := [] |>)
    ∧ identity c' = identity c ∧ prefs c' = prefs c ∧ state c' = state c.
Proof.
  assert (match FirstRun.first.1 with Done c => bool_decide (id_Nickname (identity c) = str "unknown") | _ => false end = true) as Hc by (vm_compute; reflexivity).
  destruct FirstRun.first as [[c|e| |] d'] eqn:E; try discriminate Hc. cbn [fst] in Hc. apply bool_decide_eq_true in Hc.
  exists c, d'. split; [reflexivity|]. split; [exact Hc|].
  refine (@a_restart_is_the_same_device Toy.scheme Plain.vault _ _ desk_host Plain.texts Plain.vault_laws FirstRun.join (Some (str "/home"))
    FirstRun.getenv false FirstRun.draws _ (world (daemon [])) _ Plain.empty_dir c d' _ E).
  split; [intros name _; exact I|]. intros k [= <-]. split; (split; [apply (bool_decide_unpack _); vm_compute; exact I|reflexivity]).
Defined.
