(* ===== verification/RollingLog.v ===== *)
(** The daemon's log files: daemon/config/log.go.

    A [RollingLog] is the handle and what it counts; [Disk] is the two files it goes to,
    by name.  What the operating system makes of the calls of one operation is its [luck],
    an argument.  [os.File.Close] leaves the handle closed even when it fails, and a call
    on a closed handle is an error. *)
From S2P Require Import Prelude Bytes.

Record Disk : Type := mkDisk { current : option (list Z); previous : option (list Z) }.
#[export] Instance eta_Disk : Settable Disk := λ d, mkDisk (current d) (previous d).

Record luck : Type := mkLuck {
  (** The directory is there, or can be made. *)
  makes : bool;
  closes : bool;
  renames : bool;
  removes : bool; removes_previous : bool;
  opens : bool;
  stats : bool;
  (** How many bytes of a write are taken. *)
  takes : nat;
}.
(** Nothing in the way of records this long. *)
Definition good_luck : luck := mkLuck true true true true true true true 64.

Record RollingLog : Type := mkRollingLog { limit : Z; open : bool; size : Z }.
#[export] Instance eta_RollingLog : Settable RollingLog := λ l, mkRollingLog (limit l) (open l) (size l).

Inductive log_error : Type :=
  | CannotMakeDirectory | CannotOpen | CannotMeasure | CannotCloseToRoll | CannotRoll | CannotCloseToEmpty | CannotEmpty | CannotWrite | CannotClose.

Definition logged : Type := RollingLog * Disk.

(** [openAppend], of which the size is the whole answer: the file is there afterwards. *)
Definition openAppend (k : luck) (d : Disk) : (log_error + Z) * Disk :=
  if negb (opens k) then (inl CannotOpen, d) else
  let text := default [] (current d) in
  let d := d <| current := Some text |> in
  if negb (stats k) then (inl CannotMeasure, d) else (inr (Z.of_nat (length text)), d).

(** Who may use the directory is set too, and not asked about. *)
Definition prepareLogDir (k : luck) : option log_error := if makes k then None else Some CannotMakeDirectory.

Definition OpenRolling (limit : Z) (k : luck) (d : Disk) : (log_error + RollingLog) * Disk :=
  match prepareLogDir k with Some err => (inl err, d) | None =>
  let '(r, d) := openAppend k d in
  (match r with inl err => inl err | inr size => inr (mkRollingLog limit true size) end, d)
  end.

(** Eight megabytes. *)
Definition logLimit : Z := Z.shiftl 8 20.
Definition detailLimit : Z := Z.shiftl 32 20.
Definition LogFile (join : gostring → gostring → gostring) (dataDir : gostring) : gostring :=
  join (join dataDir (str "logs")) (str "daemon.log").
Definition PacketLogFile (join : gostring → gostring → gostring) (dataDir : gostring) : gostring :=
  join (join dataDir (str "logs")) (str "packets.log").

(** [OpenLog], of which the directory is made twice. *)
Definition OpenLog (k : luck) (d : Disk) : (log_error + RollingLog) * Disk :=
  match prepareLogDir k with Some err => (inl err, d) | None => OpenRolling logLimit k d end.

Definition roll (k : luck) (s : logged) : option log_error * logged :=
  let '(l, d) := s in
  let shut := l <| open := false |> in
  if negb (open l && closes k) then (Some CannotCloseToRoll, (shut, d)) else
  let moved := match current d with
    | None => Some d
    | Some text => if renames k then Some (mkDisk None (Some text)) else None
    end in
  match moved with
  | None => (Some CannotRoll, (shut, d))
  | Some d =>
      let '(r, d) := openAppend k d in
      match r with
      | inl err => (Some err, (shut, d))
      | inr size => (None, (mkRollingLog (limit l) true size, d))
      end
  end.

(** [l.file.Write]: how many bytes went, and what is wrong if that is not all. *)
Definition write_file (k : luck) (record : list Z) (s : logged) : (Z * option log_error) * logged :=
  let '(l, d) := s in
  if negb (open l) then ((0, Some CannotWrite), s) else
  let part := take (takes k) record in
  let written := Z.of_nat (length part) in
  ((written, if (takes k <? length record)%nat then Some CannotWrite else None),
   (l <| size := size l + written |>, d <| current := Some (default [] (current d) ++ part) |>)).

Definition Write (k : luck) (record : list Z) (s : logged) : (Z * option log_error) * logged :=
  if limit s.1 <? size s.1 + Z.of_nat (length record) then
    match roll k s with
    | (Some err, s) => ((0, Some err), s)
    | (None, s) => write_file k record s
    end
  else write_file k record s.

(** [removeIfPresent] *)
Definition removeIfPresent (can : bool) (file : option (list Z)) : option log_error * option (list Z) :=
  match file with
  | None => (None, None)
  | Some text => if can then (None, None) else (Some CannotEmpty, Some text)
  end.

Definition Clear (k : luck) (s : logged) : option log_error * logged :=
  let '(l, d) := s in
  let shut := l <| open := false |> in
  if negb (open l && closes k) then (Some CannotCloseToEmpty, (shut, d)) else
  let '(e1, now) := removeIfPresent (removes k) (current d) in
  let '(e2, before) := removeIfPresent (removes_previous k) (previous d) in
  let removed := match e1 with None => e2 | Some _ => e1 end in
  let '(r, d) := openAppend k (mkDisk now before) in
  match r with
  | inl err => (Some err, (shut, d))
  | inr size => (removed, (mkRollingLog (limit l) true size, d))
  end.

Definition Close (k : luck) (s : logged) : option log_error * logged :=
  (if open s.1 && closes k then None else Some CannotClose, (s.1 <| open := false |>, s.2)).

Definition RemoveLog (k : luck) (d : Disk) : option log_error * Disk :=
  match removeIfPresent (removes k) (current d) with
  | (Some err, _) => (Some err, d)
  | (None, now) =>
      let '(e, before) := removeIfPresent (removes_previous k) (previous d) in
      (e, mkDisk now before)
  end.

(** ** A run *)
Inductive log_call : Type := WriteCall (record : list Z) | ClearCall | CloseCall.
Definition log_step (c : log_call) (k : luck) (s : logged) : option log_error * logged :=
  match c with
  | WriteCall r => let '((_, err), s) := Write k r s in (err, s)
  | ClearCall => Clear k s
  | CloseCall => Close k s
  end.
Fixpoint log_run (calls : list (log_call * luck)) (s : logged) : list (option log_error) * logged :=
  match calls with
  | [] => ([], s)
  | (c, k) :: calls => let '(err, s) := log_step c k s in let '(errs, s) := log_run calls s in (err :: errs, s)
  end.

(** ** What is kept *)

(** A call of a log that is not closed, in which nothing goes wrong. *)
Definition lucky (c : log_call) (k : luck) : Prop :=
  closes k = true ∧ renames k = true ∧ opens k = true ∧ stats k = true
  ∧ match c with
    | WriteCall r => (length r ≤ takes k)%nat
    | ClearCall => removes k = true ∧ removes_previous k = true
    | CloseCall => False
    end.

(** What a log is the end of: what was there when it was opened and every record since,
    or since the last time it was emptied, which leaves an empty file. *)
Fixpoint written (all : list (list Z)) (calls : list log_call) : list (list Z) :=
  match calls with
  | [] => all
  | WriteCall r :: calls => written (all ++ [r]) calls
  | ClearCall :: calls => written [[]] calls
  | CloseCall :: calls => written all calls
  end.

Definition bytes_in (rs : list (list Z)) : Z := Z.of_nat (length (concat rs)).
(** A file that was let grow: within the limit, or one record that is past it. *)
Definition grown (lim : Z) (rs : list (list Z)) : Prop := bytes_in rs ≤ lim ∨ (length rs ≤ 1)%nat.

(** The two files hold the end of [all], records whole; the rest was dropped only for
    more than [lim] bytes that came after it. *)
Record holds_end (lim : Z) (all : list (list Z)) (s : logged) : Prop := mkHoldsEnd {
  he_open : open s.1 = true ∧ limit s.1 = lim;
  he_files : ∃ dropped before first now,
    all = dropped ++ before ++ first :: now
    ∧ current s.2 = Some (concat (first :: now)) ∧ default [] (previous s.2) = concat before
    ∧ size s.1 = bytes_in (first :: now) ∧ grown lim (first :: now) ∧ grown lim before
    ∧ (dropped ≠ [] → lim < bytes_in before + Z.of_nat (length first));
}.

Lemma bytes_in_snoc rs r : bytes_in (rs ++ [r]) = bytes_in rs + Z.of_nat (length r).
Proof. unfold bytes_in. rewrite concat_app, length_app. cbn. rewrite app_nil_r. lia. Qed.

Lemma Write_holds_end lim all s r k : holds_end lim all s → lucky (WriteCall r) k →
  ∃ s', Write k r s = ((Z.of_nat (length r), None), s') ∧ holds_end lim (all ++ [r]) s'.
Proof.
  destruct s as [l d]. intros [[Ho Hl] (dropped & before & first & now & Ha & Hc & Hp & Hs & Hg & Hb & Hd)] (K1 & K2 & K3 & K4 & K5).
  cbn [fst snd] in *. assert (take (takes k) r = r) as Htake by (apply take_ge; lia).
  assert ((takes k <? length r)%nat = false) as Hfull by (apply Nat.ltb_ge; lia).
  unfold Write. cbn [fst snd]. rewrite Hl, Hs. destruct (Z.ltb_spec lim (bytes_in (first :: now) + Z.of_nat (length r))) as [Hlt|Hge].
  - unfold roll. rewrite Ho, K1. cbn [negb andb]. rewrite Hc, K2. unfold openAppend. rewrite K3, K4. cbn [negb current default from_option].
    unfold write_file. cbn [open negb]. rewrite Htake, Hfull. eexists. split; [reflexivity|]. split; [done|].
    exists (dropped ++ before), (first :: now), r, []. split; [by rewrite Ha, <-!app_assoc|]. cbn. rewrite app_nil_r.
    split_and!; try done; [by unfold bytes_in; cbn; rewrite app_nil_r|by right; cbn; lia].
  - unfold write_file. rewrite Ho, Htake, Hfull. cbn [negb]. eexists. split; [reflexivity|]. split; [done|].
    exists dropped, before, first, (now ++ [r]). rewrite app_comm_cons. split; [by rewrite Ha, <-!app_assoc|]. cbn [fst snd current previous size].
    split_and!; try done.
    + change (Some (default [] (current d) ++ r) = Some (concat ((first :: now) ++ [r]))).
      rewrite Hc, concat_app. cbn. by rewrite app_nil_r.
    + change (size l + Z.of_nat (length r) = bytes_in ((first :: now) ++ [r])). by rewrite bytes_in_snoc, Hs.
    + left. change (bytes_in ((first :: now) ++ [r]) ≤ lim). rewrite bytes_in_snoc. lia.
Qed.

Lemma OpenRolling_holds_end lim k d : makes k = true → opens k = true → stats k = true →
  ∃ l d', OpenRolling lim k d = (inr l, d') ∧ holds_end lim [default [] (previous d); default [] (current d)] (l, d').
Proof.
  intros K0 K1 K2. unfold OpenRolling, prepareLogDir, openAppend. rewrite K0, K1, K2. eexists _, _. split; [reflexivity|]. split; [done|].
  exists [], [default [] (previous d)], (default [] (current d)), []. cbn. rewrite !app_nil_r. unfold bytes_in. cbn. rewrite app_nil_r.
  split_and!; try done; right; cbn; lia.
Qed.

Lemma Clear_holds_end lim all s k : holds_end lim all s → lucky ClearCall k →
  ∃ s', Clear k s = (None, s') ∧ holds_end lim [[]] s'.
Proof.
  destruct s as [l d]. intros [[Ho Hl] _] (K1 & _ & K3 & K4 & K5 & K6). cbn [fst snd] in *.
  unfold Clear, openAppend. rewrite Ho, K1, K3, K4, K5, K6. cbn [negb andb].
  assert (∀ file, removeIfPresent true file = (None, None)) as Hr by (by intros []). rewrite !Hr. cbn.
  eexists. split; [reflexivity|]. split; [done|]. exists [], [], [], []. cbn.
  split_and!; try done; right; cbn; lia.
Qed.

Lemma log_step_holds_end lim all s c k : holds_end lim all s → lucky c k →
  ∃ s', log_step c k s = (None, s') ∧ holds_end lim (written all [c]) s'.
Proof.
  intros Hs Hk. destruct c as [r| |]; cbn [log_step written].
  - destruct (Write_holds_end lim all s r k Hs Hk) as (s' & -> & Hs'). by exists s'.
  - destruct (Clear_holds_end lim all s k Hs Hk) as (s' & -> & Hs'). by exists s'.
  - by destruct Hk as (_ & _ & _ & _ & []).
Qed.

Lemma log_run_holds_end lim calls : ∀ all s, holds_end lim all s → Forall (λ c, lucky c.1 c.2) calls →
  ∃ s', log_run calls s = (replicate (length calls) None, s') ∧ holds_end lim (written all calls.*1) s'.
Proof.
  induction calls as [|[c k] calls IH]; intros all s Hs Hk; [by exists s|]. apply Forall_cons in Hk as [Hc Hk].
  destruct (log_step_holds_end lim all s c k Hs Hc) as (s1 & E1 & H1). destruct (IH _ s1 H1 Hk) as (s' & E2 & H2).
  exists s'. cbn. rewrite E1, E2. split; [done|]. by destruct c.
Qed.

Lemma holds_end_small lim all s : holds_end lim all s → Forall (λ r, Z.of_nat (length r) ≤ lim) all →
  Z.of_nat (length (default [] (current s.2))) ≤ lim ∧ Z.of_nat (length (default [] (previous s.2))) ≤ lim.
Proof.
  intros [_ (dropped & before & first & now & -> & Hc & Hp & _ & Hg & Hb & _)] Hf. rewrite Hc, Hp.
  apply Forall_app in Hf as [_ Hf]. apply Forall_app in Hf as [Hfb Hfc].
  assert (0 ≤ lim) by (apply Forall_cons in Hfc as [? _]; lia).
  assert (∀ rs, Forall (λ r, Z.of_nat (length r) ≤ lim) rs → grown lim rs → bytes_in rs ≤ lim) as Hgrown.
  { intros [|r [|]] Hrs [Hle|Hle]; try done; [|cbn in Hle; lia]. apply Forall_cons in Hrs as [Hr _]. unfold bytes_in. cbn. by rewrite app_nil_r. }
  split; by apply Hgrown.
Qed.

(** C29: a log is the end of what was written to it.  A log opened on whatever is there,
    and written to and emptied in any order, takes every record; its file and the one
    behind it are together the end of what was written since it was last emptied, or of
    what there was and what was written if it never was: no record cut or split between the
    two, and what is gone from it went only for more than the limit of newer bytes.  If no
    record is past the limit neither file is. *)
Theorem a_log_is_the_end_of_what_was_written lim k0 d (calls : list (log_call * luck)) :
  makes k0 = true → opens k0 = true → stats k0 = true → Forall (λ c, lucky c.1 c.2) calls →
  ∃ l d1 s, OpenRolling lim k0 d = (inr l, d1)
    ∧ log_run calls (l, d1) = (replicate (length calls) None, s)
    ∧ let all := written [default [] (previous d); default [] (current d)] calls.*1 in
      holds_end lim all s
      ∧ (Forall (λ r, Z.of_nat (length r) ≤ lim) all →
          Z.of_nat (length (default [] (current s.2))) ≤ lim ∧ Z.of_nat (length (default [] (previous s.2))) ≤ lim).
Proof.
  intros K0 K1 K2 Hk. destruct (OpenRolling_holds_end lim k0 d K0 K1 K2) as (l & d1 & Eo & Hh).
  destruct (log_run_holds_end lim calls _ _ Hh Hk) as (s & Er & Hs). exists l, d1, s. split; [exact Eo|]. split; [exact Er|].
  cbv zeta. split; [exact Hs|]. by apply holds_end_small.
Qed.

Lemma a_log_is_the_end_of_what_was_written_witness :
  let calls := (λ c, (c, good_luck)) <$> [WriteCall [1; 2; 3]; WriteCall [4; 5]; ClearCall; WriteCall [6]; WriteCall [7; 8; 9]; WriteCall [1; 2]] in
  Forall (λ c, lucky c.1 c.2) calls
  ∧ ∃ l d1 s, OpenRolling 4 good_luck (mkDisk None None) = (inr l, d1)
      ∧ log_run calls (l, d1) = (replicate 6 None, s)
      ∧ holds_end 4 [[]; [6]; [7; 8; 9]; [1; 2]] s.
Proof.
  set (calls := (λ c, (c, good_luck)) <$> [WriteCall [1; 2; 3]; WriteCall [4; 5]; ClearCall; WriteCall [6]; WriteCall [7; 8; 9]; WriteCall [1; 2]]).
  assert (Forall (λ c, lucky c.1 c.2) calls) as Hw
    by (repeat constructor; apply Nat.leb_le; vm_compute; reflexivity).
  split; [exact Hw|].
  destruct (a_log_is_the_end_of_what_was_written 4 good_luck (mkDisk None None) _ eq_refl eq_refl eq_refl Hw) as (l & d1 & s & E1 & E2 & E3 & _).
  exists l, d1, s. split; [exact E1|]. split; [exact E2|exact E3].
Defined.

(** ** What goes wrong *)
Lemma shut_step c k s : open s.1 = false → is_Some (log_step c k s).1 ∧ open (log_step c k s).2.1 = false ∧ (log_step c k s).2.2 = s.2.
Proof.
  destruct s as [l d]. cbn [fst snd]. intros Ho. destruct c as [r| |]; cbn [log_step].
  - unfold Write, roll, write_file. rewrite Ho. cbn [andb negb fst snd]. destruct (_ <? _); cbn; rewrite ?Ho; cbn; by eauto.
  - unfold Clear. rewrite Ho. cbn. by eauto.
  - unfold Close. cbn [fst snd]. rewrite Ho. cbn. by eauto.
Qed.

(** One failed roll silences a log for good.  The handle is closed before the file is
    moved aside, and not opened again when that fails: from then on every write is an
    error, and so is emptying the log, which says that the log is reopened whatever
    happened; nothing is written any more, whatever the machine does, until the daemon
    is started again. *)
Theorem one_failed_roll_silences_a_log lim text before record k :
  0 ≤ lim < Z.of_nat (length text) + Z.of_nat (length record) → closes k = true → renames k = false →
  ∃ s, Write k record (mkRollingLog lim true (Z.of_nat (length text)), mkDisk (Some text) before) = ((0, Some CannotRoll), s)
    ∧ s.2 = mkDisk (Some text) before
    ∧ ∀ calls, Forall is_Some (log_run calls s).1 ∧ (log_run calls s).2.2 = s.2.
Proof.
  intros Hlim K1 K2. eexists. split; [|split].
  - unfold Write. cbn [fst snd limit size]. destruct (Z.ltb_spec lim (Z.of_nat (length text) + Z.of_nat (length record))); [|lia].
    unfold roll. cbn [open andb]. rewrite K1, K2. reflexivity.
  - done.
  - intros calls. match goal with |- context [log_run _ ?s] => assert (open s.1 = false) as Ho by done; generalize dependent s end.
    intros s Ho. revert s Ho. induction calls as [|[c k'] calls IH]; intros s Ho; cbn [log_run]; [done|].
    destruct (shut_step c k' s Ho) as (He & Ho' & Hd). destruct (log_step c k' s) as [err s1]. cbn in He, Ho', Hd.
    destruct (IH s1 Ho') as [Hf Hd']. destruct (log_run calls s1) as [errs s2]. cbn in *. split; [by constructor|congruence].
Qed.

Lemma one_failed_roll_silences_a_log_witness :
  ∃ s, Write (mkLuck true true false true true true true 9) [3] (mkRollingLog 2 true 2, mkDisk (Some [1; 2]) None) = ((0, Some CannotRoll), s)
    ∧ ∀ calls, Forall is_Some (log_run calls s).1.
Proof.
  destruct (one_failed_roll_silences_a_log 2 [1; 2] None [3] (mkLuck true true false true true true true 9)) as (s & E & _ & Hs);
    [cbn; lia|done|done|]. exists s. split; [exact E|]. intros calls. apply Hs.
Defined.
