(* ===== verification/Multicast.v ===== *)
(** The discovery route: daemon/tun/multicast_windows.go, and [PreferForMulticast] of
    daemon/tun/tun_windows.go.

    Windows sends multicast out of the interface whose route for it and whose own metric
    add up to the least.  What winipcfg reads and sets of it is the class [Windows]; what
    its documentation says of that is [WindowsLaws], over two tables nobody sees but
    through it.  What the code warns of in the log is kept, in [warned]. *)
From S2P Require Import Prelude Bytes NetAddr NetText.

Definition multicastRoute : Prefix := PrefixFrom (Addr4 0xe0000000) 4.
Definition internetRoute : Prefix := PrefixFrom (Addr4 0) 0.
Definition preferredMetric : Z := 1.

(** An interface is named by a number of 64 bits, its LUID. *)
Record interface : Type := mkInterface { Connected : bool; Metric : Z; UseAutomaticMetric : bool }.
#[export] Instance eta_interface : Settable interface := λ i, mkInterface (Connected i) (Metric i) (UseAutomaticMetric i).
Record route : Type := mkRoute { rt_LUID : Z; rt_Prefix : Prefix; rt_Metric : Z }.

Class Windows : Type := {
  WS : Type;
  GetIPInterfaceTable : st WS (option (list (Z * interface)));
  GetIPForwardTable2 : st WS (option (list route));
  IPInterface : Z → st WS (option interface);
  (** [iface.Set()]: whether it worked. *)
  SetInterface : Z → interface → st WS bool;
  Alias : Z → st WS (option gostring);
}.

Record claim : Type := mkClaim {
  c_luid : Z;
  c_name : gostring;
  c_route : Z;
  c_metric : Z;
  c_auto : bool;
  c_internet : bool;
}.
Definition total (c : claim) : Z := u32 (c_route c + c_metric c).

Record yielded_metric : Type := mkYielded { y_luid : Z; y_name : gostring; y_metric : Z; y_auto : bool }.
Record move : Type := mkMove { rival : claim; mv_metric : Z }.

Inductive tun_error : Type := NoInterfaceTable | NoRouteTable | NoMulticastRoute | CannotRead | CannotSet.
Inductive warning : Type := CannotMove (name : gostring) | CannotGiveBack (name : gostring).

(** ** Who gives way *)

(** [live]: a later row of the table takes the place of an earlier one. *)
Definition live_rows (table : list (Z * interface)) : gmap Z interface :=
  foldl (λ m r, if Connected r.2 then <[r.1 := r.2]> m else m) ∅ table.

(** The interface with the best way out, and what it costs. *)
Definition way_out (live : gmap Z interface) (routes : list route) : Z * Z :=
  foldl (λ found r,
    match live !! rt_LUID r with
    | Some i =>
        if bool_decide (rt_Prefix r = internetRoute) then
          let t := u32 (rt_Metric r + Metric i) in
          if t <? found.2 then (rt_LUID r, t) else found
        else found
    | None => found
    end) (0, 2 ^ 32 - 1) routes.

(** The last claim of ours. *)
Definition claim_of (ours : Z) (claims : list claim) : option claim :=
  foldl (λ mine c, if c_luid c =? ours then Some c else mine) None claims.

Definition contest (claims : list claim) (ours : Z) : tun_error + list move * gostring :=
  match claim_of ours claims with
  | None => inl NoMulticastRoute
  | Some mine =>
      inr (foldl (λ found c,
        let '(moves, held) := found in
        if (c_luid c =? ours) || (total mine <? total c) then (moves, held) else
        if c_internet c then (moves, c_name c) else
        (moves ++ [mkMove c (u32 (total mine - c_route c + 1))], held)) ([], []) claims)
  end.

Section device.
Context {O : Windows}.

(** The machine, what an adapter took from others, and the log. *)
Record Device : Type := mkDevice { os : WS; yielded : list yielded_metric; warned : list warning }.
#[export] Instance eta_Device : Settable Device := λ d, mkDevice (os d) (yielded d) (warned d).

Definition ask {A} (m : st WS A) : st Device A := λ d, let '(a, w) := m (os d) in (a, d <| os := w |>).
Definition asked {A} (e : tun_error) (m : st WS (option A)) : st Device (tun_error + A) :=
  r ← ask m; mret (match r with Some a => inr a | None => inl e end).
Definition warn (w : warning) : st Device unit := st_modify (λ d, d <| warned := warned d ++ [w] |>).

Definition interfaceName (luid : Z) : st Device gostring :=
  r ← ask (Alias luid); mret (default (str "Another network adapter") r).

Definition setInterfaceMetric (luid metric : Z) (automatic : bool) : st Device (tun_error + unit) :=
  iface ←~ asked CannotRead (IPInterface luid);
  ok ← ask (SetInterface luid (iface <| UseAutomaticMetric := automatic |> <| Metric := metric |>));
  mret (if (ok : bool) then inr tt else inl CannotSet).

(** The claims of the routes for multicast, in their order. *)
Fixpoint claims_on (live : gmap Z interface) (internet : Z) (routes : list route) : st Device (list claim) :=
  match routes with
  | [] => mret []
  | r :: routes =>
      match live !! rt_LUID r with
      | Some i =>
          if bool_decide (rt_Prefix r = multicastRoute) then
            name ← interfaceName (rt_LUID r);
            rest ← claims_on live internet routes;
            mret (mkClaim (rt_LUID r) name (rt_Metric r) (Metric i) (UseAutomaticMetric i) (rt_LUID r =? internet) :: rest)
          else claims_on live internet routes
      | None => claims_on live internet routes
      end
  end.

Definition multicastClaims : st Device (tun_error + list claim) :=
  interfaces ←~ asked NoInterfaceTable GetIPInterfaceTable;
  let live := live_rows interfaces in
  routes ←~ asked NoRouteTable GetIPForwardTable2;
  claims ← claims_on live (way_out live routes).1 routes;
  mret (inr claims).

(** One rival is moved, and what it was is kept to be given back. *)
Definition move_rival (m : move) : st Device bool :=
  r ← setInterfaceMetric (c_luid (rival m)) (mv_metric m) false;
  match r with
  | inl _ => _ ← warn (CannotMove (c_name (rival m))); mret false
  | inr _ =>
      _ ← st_modify (λ d, d <| yielded := yielded d ++
        [mkYielded (c_luid (rival m)) (c_name (rival m)) (c_metric (rival m)) (c_auto (rival m))] |>);
      mret true
  end.
Fixpoint move_rivals (moves : list move) (held : gostring) : st Device gostring :=
  match moves with
  | [] => mret held
  | m :: moves => moved ← move_rival m; move_rivals moves (if (moved : bool) then held else c_name (rival m))
  end.

Definition takeMulticastRoute (ours : Z) : st Device (tun_error + gostring) :=
  claims ←~ multicastClaims;
  match contest claims ours with
  | inl err => mret (inl err)
  | inr (moves, held) => held ← move_rivals moves held; mret (inr held)
  end.

Definition give_back (was : yielded_metric) : st Device unit :=
  r ← setInterfaceMetric (y_luid was) (y_metric was) (y_auto was);
  match r with inl _ => warn (CannotGiveBack (y_name was)) | inr _ => mret tt end.
Definition yieldBack : st Device unit :=
  all ← st_gets yielded;
  _ ← st_for all give_back;
  st_modify (λ d, d <| yielded := [] |>).

Definition PreferForMulticast (ours : Z) (prefer : bool) : st Device (tun_error + gostring) :=
  _ ← yieldBack;
  if negb prefer then
    _ ←~ setInterfaceMetric ours 0 true;
    mret (inr [])
  else
    _ ←~ setInterfaceMetric ours preferredMetric false;
    held ←~ takeMulticastRoute ours;
    mret (inr held).
End device.
