(* ===== verification/MulticastRun.v ===== *)
(** What Windows is documented to do, the theorems of the discovery route on it, and a
    machine to evaluate them on. *)
From S2P Require Import Prelude Bytes NetAddr NetText Multicast.

(** The two tables, and a call that only looks. *)
Class View (O : Windows) : Type := { interfaces : WS → gmap Z interface; routes : WS → list route }.
Definition sees `{V : View} {A} (m : st WS A) : Prop := ∀ w, interfaces (m w).2 = interfaces w ∧ routes (m w).2 = routes w.

(** What winipcfg is documented to do.  Reading changes nothing and tells the truth; an
    interface has one row, metrics are 32 bits wide, and an alias is not blank.  Setting a
    row changes that row or nothing; of an automatic metric Windows makes what it likes. *)
Class WindowsLaws (O : Windows) {V : View O} : Prop := {
  sees_interfaces : sees GetIPInterfaceTable;
  sees_routes : sees GetIPForwardTable2;
  sees_interface i : sees (IPInterface i);
  sees_alias i : sees (Alias i);
  all_interfaces w l : (GetIPInterfaceTable w).1 = Some l → l ≡ₚ map_to_list (interfaces w);
  all_routes w l : (GetIPForwardTable2 w).1 = Some l → l = routes w;
  one_interface w i r : (IPInterface i w).1 = Some r → interfaces w !! i = Some r;
  an_alias w i a : (Alias i w).1 = Some a → a ≠ [];
  sets w i r : routes (SetInterface i r w).2 = routes w ∧
    if (SetInterface i r w).1
    then ∃ r', interfaces (SetInterface i r w).2 = <[i := r']> (interfaces w) ∧ UseAutomaticMetric r' = UseAutomaticMetric r
      ∧ Connected r' = Connected r ∧ (UseAutomaticMetric r = false → Metric r' = Metric r)
    else interfaces (SetInterface i r w).2 = interfaces w;
  interface_metric w i r : interfaces w !! i = Some r → is_u32 (Metric r);
  route_metric w r : r ∈ routes w → is_u32 (rt_Metric r);
}.

Section device.
Context {O : Windows} {V : View O} {L : WindowsLaws O}.

Definition rows (d : Device) : gmap Z interface := interfaces (os d).
Definition paths (d : Device) : list route := routes (os d).

(** What has been decided of an interface. *)
Definition setting (i : interface) : bool * bool * option Z :=
  (Connected i, UseAutomaticMetric i, if UseAutomaticMetric i then None else Some (Metric i)).

(** ** One call at a time *)

Lemma ask_sees {A} (m : st WS A) d : sees m → rows (ask m d).2 = rows d ∧ paths (ask m d).2 = paths d
  ∧ yielded (ask m d).2 = yielded d ∧ warned (ask m d).2 = warned d ∧ (ask m d).1 = (m (os d)).1.
Proof.
  intros Hm. specialize (Hm (os d)). unfold ask, rows, paths. destruct (m (os d)) as [a w]. cbn in *. destruct Hm. by split_and!.
Qed.

(** What an interface comes to when it is set. *)
Definition set_to (metric : Z) (automatic : bool) (old new : interface) : Prop :=
  Connected new = Connected old ∧ UseAutomaticMetric new = automatic ∧ (automatic = false → Metric new = metric).

Lemma set_metric i metric auto d r d' : setInterfaceMetric i metric auto d = (r, d') →
  paths d' = paths d ∧ yielded d' = yielded d ∧ warned d' = warned d
  ∧ match r with
    | inr _ => ∃ old new, rows d !! i = Some old ∧ rows d' = <[i := new]> (rows d) ∧ set_to metric auto old new
    | inl _ => rows d' = rows d
    end.
Proof.
  unfold setInterfaceMetric, st_try, asked, mbind, st_bind.
  pose proof (ask_sees (IPInterface i) d (sees_interface i)) as (R1 & R2 & R3 & R4 & R5).
  destruct (ask (IPInterface i) d) as [[old|] d1]; cbn in *; [|by intros [= <- <-]].
  pose proof (one_interface (os d) i old (eq_sym R5)) as Hold. unfold ask.
  match goal with |- context [SetInterface i ?x (os d1)] => set (row := x) end.
  pose proof (sets (os d1) i row) as Hs. destruct (SetInterface i row (os d1)) as [[] w]; cbn in *; destruct Hs as [S1 S2];
    intros [= <- <-]; unfold rows, paths in *; cbn; (split; [congruence|]); (split; [done|]); (split; [done|]).
  - destruct S2 as (new & Hn & Ha & Hc & Hm). exists old, new. rewrite R1 in Hn. by split_and!.
  - congruence.
Qed.

(** ** Giving back *)

Lemma give_back_does was d : paths (give_back was d).2 = paths d ∧ yielded (give_back was d).2 = yielded d
  ∧ ((rows (give_back was d).2 = rows d ∧ warned (give_back was d).2 = warned d ++ [CannotGiveBack (y_name was)])
     ∨ (∃ old new, rows d !! y_luid was = Some old ∧ rows (give_back was d).2 = <[y_luid was := new]> (rows d)
          ∧ set_to (y_metric was) (y_auto was) old new ∧ warned (give_back was d).2 = warned d)).
Proof.
  unfold give_back, mbind, st_bind.
  pose proof (set_metric (y_luid was) (y_metric was) (y_auto was) d) as Hs.
  destruct (setInterfaceMetric _ _ _ d) as [r d1]. specialize (Hs r d1 eq_refl). destruct Hs as (H1 & H2 & H3 & H4).
  destruct r as [e|[]]; cbn; (split; [exact H1|]); (split; [exact H2|]).
  - left. by rewrite H3.
  - right. destruct H4 as (old & new & Ho & Hn & Hs). by exists old, new.
Qed.
(** Who is not among [all] stays as it was; who is has one of its settings back, or a
    warning says that it has not. *)
Definition got_back (all : list yielded_metric) (i : Z) (d d' : Device) : Prop :=
  (∃ was, was ∈ all ∧ y_luid was = i ∧ CannotGiveBack (y_name was) ∈ warned d')
  ∨ ∃ given old new, given ∈ all ∧ y_luid given = i
      ∧ rows d !! i = Some old ∧ rows d' !! i = Some new ∧ set_to (y_metric given) (y_auto given) old new.
Record gave (all : list yielded_metric) (d d' : Device) : Prop := mkGave {
  gv_paths : paths d' = paths d;
  gv_yielded : yielded d' = yielded d;
  gv_warned : warned d `prefix_of` warned d';
  gv_others i : Forall (λ was, y_luid was ≠ i) all → rows d' !! i = rows d !! i;
  gv_back i : Exists (λ was, y_luid was = i) all → got_back all i d d';
}.

Lemma set_to_trans m1 a1 m2 a2 r1 r2 r3 : set_to m1 a1 r1 r2 → set_to m2 a2 r2 r3 → set_to m2 a2 r1 r3.
Proof. intros (A1 & _) (B1 & B2 & B3). split; [congruence|done]. Qed.

Lemma give_all_back all d : gave all d (st_for all give_back d).2.
Proof.
  revert d. induction all as [|x all IH]; intros d; cbn [st_for].
  { split; cbn; try done. by intros i H%Exists_nil. }
  unfold mbind, st_bind. destruct (give_back_does x d) as (P1 & P2 & P3). destruct (give_back x d) as [[] d1]. cbn [snd] in *.
  destruct (IH d1) as [Q1 Q2 Q3 Q4 Q5]. set (d2 := (st_for all give_back d1).2) in *.
  assert (warned d `prefix_of` warned d1) as P4 by (destruct P3 as [[_ ->]|(? & ? & _ & _ & _ & ->)]; [by eexists|done]).
  split; [congruence|congruence|by etransitivity| |].
  - intros i [Hx Hall]%Forall_cons. rewrite Q4 by done. destruct P3 as [[-> _]|(old & new & _ & -> & _)]; [done|by rewrite lookup_insert_ne].
  - intros i Hi. destruct (decide (Exists (λ was, y_luid was = i) all)) as [He|He].
    + destruct (Q5 i He) as [(w & H1 & H2 & H3)|(given & old & new & H1 & H2 & H3 & H4 & H5)]; [left; exists w; split_and!; [by right|done..]|].
      right. exists given. destruct P3 as [[P3 _]|(o & n & P3 & P5 & P6 & _)].
      { exists old, new. rewrite P3 in H3. split_and!; try done. by right. }
      destruct (decide (y_luid x = i)) as [<-|Hne].
      * rewrite P5, lookup_insert_eq in H3. injection H3 as ->. exists o, new. split_and!; try done; [by right|by eapply set_to_trans].
      * rewrite P5, lookup_insert_ne in H3 by done. exists old, new. split_and!; try done. by right.
    + apply Exists_cons in Hi as [Hi|Hi]; [|done]. apply not_Exists_Forall in He; [|solve_decision]. destruct P3 as [[_ P3]|(o & n & P3 & P5 & P6 & _)].
      * left. exists x. split_and!; [by left|done|]. destruct Q3 as [w ->]. rewrite P3, !elem_of_app, list_elem_of_singleton. auto.
      * right. exists x, o, n. subst i. split_and!; [by left|done|done| |done]. rewrite (Q4 _ He), P5. apply lookup_insert_eq.
Qed.

Lemma yields d : let d' := (yieldBack d).2 in
  paths d' = paths d ∧ yielded d' = [] ∧ gave (yielded d) d (d' <| yielded := yielded d |>).
Proof.
  unfold yieldBack, st_gets, mbind, st_bind. pose proof (give_all_back (yielded d) d) as Hg. pose proof (gv_yielded _ _ _ Hg) as Hy.
  destruct (st_for (yielded d) give_back d) as [[] d1]. cbn in *. split; [apply Hg|]. split; [done|].
  match goal with |- gave _ _ ?x => replace x with d1; [done|] end. rewrite <-Hy. by destruct d1.
Qed.

(** ** Moving the others *)
Definition taken_from (c : claim) : yielded_metric := mkYielded (c_luid c) (c_name c) (c_metric c) (c_auto c).

Lemma moves_rival m d : let d' := (move_rival m d).2 in
  paths d' = paths d ∧ warned d `prefix_of` warned d'
  ∧ if (move_rival m d).1
    then yielded d' = yielded d ++ [taken_from (rival m)]
      ∧ ∃ old new, rows d !! c_luid (rival m) = Some old ∧ rows d' = <[c_luid (rival m) := new]> (rows d) ∧ set_to (mv_metric m) false old new
    else yielded d' = yielded d ∧ rows d' = rows d.
Proof.
  unfold move_rival, mbind, st_bind. pose proof (set_metric (c_luid (rival m)) (mv_metric m) false d) as Hs.
  destruct (setInterfaceMetric _ _ _ d) as [r d1]. specialize (Hs r d1 eq_refl). destruct Hs as (H1 & H2 & H3 & H4).
  destruct r as [e|[]]; cbn; (split; [exact H1|]); rewrite H3; (split; [first [done|by eexists]|]); [by split|]. split; [by rewrite H2|exact H4].
Qed.

Record moved (moves : list move) (d d' : Device) (l : list yielded_metric) : Prop := mkMoved {
  md_paths : paths d' = paths d;
  md_yielded : yielded d' = yielded d ++ l;
  md_warned : warned d `prefix_of` warned d';
  md_from y : y ∈ l → ∃ m, m ∈ moves ∧ y = taken_from (rival m);
  md_others i : Forall (λ y, y_luid y ≠ i) l → rows d' !! i = rows d !! i;
  md_rows i : Connected <$> rows d' !! i = Connected <$> rows d !! i;
  md_new i new : rows d' !! i = Some new → rows d !! i = Some new ∨ ∃ m, m ∈ moves ∧ c_luid (rival m) = i ∧ Metric new = mv_metric m;
}.

Lemma moves_rivals moves held d : ∃ l, moved moves d (move_rivals moves held d).2 l.
Proof.
  revert held d. induction moves as [|m moves IH]; intros held d; cbn [move_rivals].
  { exists []. split; cbn; [done|by rewrite app_nil_r|done|by intros y Hy%elem_of_nil|done|done|by left]. }
  unfold mbind, st_bind. pose proof (moves_rival m d) as (P1 & Pw & P2). destruct (move_rival m d) as [b d1]. cbn [fst snd] in *.
  destruct (IH (if b then held else c_name (rival m)) d1) as [l [Q1 Q2 Qw Q3 Q4 Q5 Q6]]. set (d2 := (move_rivals moves _ d1).2) in *.
  destruct b; [destruct P2 as (P2 & old & new & Ho & Hn & Hs)|destruct P2 as [P2 P3]].
  - exists (taken_from (rival m) :: l). split.
    + by rewrite Q1.
    + rewrite Q2, P2. by rewrite <-app_assoc.
    + by etransitivity.
    + intros y [->|Hy]%elem_of_cons; [exists m; by split; [left|]|]. destruct (Q3 y Hy) as (m' & ? & ?). exists m'. by split; [right|].
    + intros i [Hi Hl]%Forall_cons. rewrite Q4 by done. rewrite Hn, lookup_insert_ne; [done|]. exact Hi.
    + intros i. rewrite Q5, Hn. destruct (decide (i = c_luid (rival m))) as [->|?]; [|by rewrite lookup_insert_ne].
      rewrite lookup_insert_eq, Ho. cbn. by destruct Hs as [-> _].
    + intros i n Hi. destruct (Q6 i n Hi) as [H1|(m' & ? & ? & ?)]; [|right; exists m'; split_and!; [by right|done..]].
      rewrite Hn in H1. apply lookup_insert_Some in H1 as [[<- <-]|[_ H1]]; [|by left]. right. exists m. split; [by left|].
      split; [done|]. by apply (proj2 (proj2 Hs)).
  - exists l. split; [by rewrite Q1|by rewrite Q2, P2|by etransitivity| |intros i Hi; by rewrite Q4, P3|intros i; by rewrite Q5, P3|].
    2:{ intros i n Hi. destruct (Q6 i n Hi) as [H1|(m' & ? & ? & ?)]; [left; by rewrite <-P3|right; exists m'; split_and!; [by right|done..]]. }
    intros y Hy. destruct (Q3 y Hy) as (m' & ? & ?). exists m'. by split; [right|].
Qed.
(** With every rival named, an empty answer says that all of them moved. *)
Lemma moves_all moves held d : Forall (λ m, c_name (rival m) ≠ []) moves → NoDup ((λ m, c_luid (rival m)) <$> moves) →
  (move_rivals moves held d).1 = [] →
  held = [] ∧ ∀ m, m ∈ moves → ∃ new, rows (move_rivals moves held d).2 !! c_luid (rival m) = Some new ∧ Metric new = mv_metric m.
Proof.
  revert held d. induction moves as [|m moves IH]; intros held d Hnames Hd; cbn [move_rivals]; [by split; [|intros m Hm%elem_of_nil]|].
  apply Forall_cons in Hnames as [Hname Hnames]. rewrite fmap_cons in Hd. apply NoDup_cons in Hd as [Hnew Hd].
  unfold mbind, st_bind. pose proof (moves_rival m d) as (_ & _ & P2). destruct (move_rival m d) as [b d1]. cbn [fst snd] in *. intros He.
  destruct (IH _ d1 Hnames Hd He) as [Hheld Hall]. destruct b; [|done]. split; [done|].
  destruct P2 as (_ & old & new & _ & Hn & _ & _ & Hm). intros m' [->|Hin]%elem_of_cons; [|by apply Hall].
  destruct (moves_rivals moves held d1) as [l [_ _ _ Q3 Q4 _ _]]. exists new. rewrite Q4, Hn; [split; [apply lookup_insert_eq|by apply Hm]|].
  apply Forall_forall. intros y Hy Ey. destruct (Q3 y Hy) as (m1 & Hm1 & ->). cbn in Ey. apply Hnew. rewrite <-Ey.
  by apply (list_elem_of_fmap_2 (λ m, c_luid (rival m))).
Qed.

(** ** Who moves *)
Definition beats (ours : Z) (mine c : claim) : bool := negb ((c_luid c =? ours) || (total mine <? total c)).
Definition gives_way (mine c : claim) : move := mkMove c (u32 (total mine - c_route c + 1)).

Lemma contest_moves claims ours moves held : contest claims ours = inr (moves, held) →
  ∃ mine, claim_of ours claims = Some mine
    ∧ moves = gives_way mine <$> filter (λ c, beats ours mine c && negb (c_internet c)) claims
    ∧ (Forall (λ c, c_name c ≠ []) claims → held = [] → Forall (λ c, beats ours mine c = true → c_internet c = false) claims).
Proof.
  unfold contest. destruct (claim_of ours claims) as [mine|]; [|done]. intros [= E]. exists mine. split; [done|].
  match type of E with foldl ?f _ _ = _ => set (step := f) in E end.
  assert (∀ claims found, (foldl step found claims).1 = found.1 ++ (gives_way mine <$> filter (λ c, beats ours mine c && negb (c_internet c)) claims)
    ∧ (Forall (λ c, c_name c ≠ []) claims → (foldl step found claims).2 = [] →
        found.2 = [] ∧ Forall (λ c, beats ours mine c = true → c_internet c = false) claims)) as Hall.
  { clear. induction claims as [|c claims IH]; intros [moves held]; cbn [foldl]; [by rewrite app_nil_r|].
    destruct (IH (step (moves, held) c)) as [I1 I2]. rewrite I1, filter_cons. rewrite Forall_cons.
    split.
    - unfold step, beats. destruct ((c_luid c =? ours) || (total mine <? total c)), (c_internet c); cbn; try done. by rewrite <-app_assoc.
    - intros [Hn Hns] He. destruct (I2 Hns He) as [Hh Hf]. rewrite Forall_cons. revert Hh. unfold step, beats.
      destruct ((c_luid c =? ours) || (total mine <? total c)), (c_internet c); cbn; done. }
  destruct (Hall claims ([], [])) as [H1 H2]. rewrite E in H1, H2. split; [exact H1|]. intros Hn Hh. by apply (H2 Hn Hh).
Qed.

Lemma claim_of_in ours claims mine : claim_of ours claims = Some mine → mine ∈ claims ∧ c_luid mine = ours.
Proof.
  unfold claim_of. induction claims as [|c claims IH] using rev_ind; [done|]. rewrite foldl_app. cbn.
  destruct (Z.eqb_spec (c_luid c) ours) as [E|_].
  - intros [= <-]. split; [|done]. apply elem_of_app. right. by apply list_elem_of_singleton.
  - intros H. destruct (IH H) as [Hin E]. split; [|done]. apply elem_of_app. by left.
Qed.

(** ** What is read *)
Definition live (m : gmap Z interface) : gmap Z interface := filter (λ r, Connected r.2 = true) m.

Lemma live_rows_filter l m : l ≡ₚ map_to_list m → live_rows l = live m.
Proof.
  intros Hl. assert (NoDup l.*1) as Hd by (rewrite Hl; apply NoDup_fst_map_to_list).
  assert (∀ i r, live_rows l !! i = Some r ↔ (i, r) ∈ l ∧ Connected r = true) as Hs.
  { clear Hl. unfold live_rows. revert Hd. induction l as [|[k x] l IH] using rev_ind; intros Hd i r.
    { cbn. rewrite lookup_empty. split; [done|]. by intros [?%elem_of_nil _]. }
    rewrite fmap_app, NoDup_app in Hd. destruct Hd as (Hd & Hk & _). rewrite foldl_app, elem_of_app, list_elem_of_singleton. cbn.
    specialize (IH Hd). destruct (Connected x) eqn:Ex.
    - rewrite lookup_insert_Some, IH. split; [intros [[-> ->]|[Hne [Hin Hr]]]; auto|].
      intros [[Hin|[= -> ->]] Hr]; [|by left]. right. split; [|done]. intros ->. apply (Hk i); [by apply (list_elem_of_fmap_2 fst _ (i, r))|].
      by apply list_elem_of_singleton.
    - rewrite IH. split; [intros [? ?]; auto|]. intros [[Hin|[= -> ->]] Hr]; [done|congruence]. }
  apply map_eq. intros i. apply option_eq. intros r. rewrite Hs, Hl. unfold live. rewrite map_lookup_filter_Some. cbn.
  by rewrite elem_of_map_to_list.
Qed.

Definition quiet (d d' : Device) : Prop := rows d' = rows d ∧ paths d' = paths d ∧ yielded d' = yielded d ∧ warned d' = warned d.
#[local] Instance quiet_trans : Transitive quiet.
Proof. intros a b c (? & ? & ? & ?) (? & ? & ? & ?). repeat split; congruence. Qed.

Lemma ask_quiet {A} (m : st WS A) d : sees m → quiet d (ask m d).2.
Proof. intros Hm. by destruct (ask_sees m d Hm) as (? & ? & ? & ? & _). Qed.

Lemma a_name i d : quiet d (interfaceName i d).2 ∧ (interfaceName i d).1 ≠ [].
Proof.
  unfold interfaceName, mbind, st_bind. pose proof (ask_sees (Alias i) d (sees_alias i)) as (R1 & R2 & R3 & R4 & R5).
  destruct (ask (Alias i) d) as [r d1]. cbn in *. split; [done|]. destruct r as [a|]; [|done]. by apply (an_alias (os d) i).
Qed.

Definition claim_is (lv : gmap Z interface) (internet : Z) (c : claim) (r : route) : Prop :=
  c_luid c = rt_LUID r ∧ c_route c = rt_Metric r ∧ c_internet c = (rt_LUID r =? internet) ∧ c_name c ≠ []
  ∧ ∃ i, lv !! rt_LUID r = Some i ∧ c_metric c = Metric i ∧ c_auto c = UseAutomaticMetric i.
Definition for_multicast (lv : gmap Z interface) (r : route) : Prop := is_Some (lv !! rt_LUID r) ∧ rt_Prefix r = multicastRoute.
#[local] Instance for_multicast_dec lv r : Decision (for_multicast lv r).
Proof. unfold for_multicast. solve_decision. Defined.

Lemma claims_read lv internet rs d : quiet d (claims_on lv internet rs d).2
  ∧ Forall2 (claim_is lv internet) (claims_on lv internet rs d).1 (filter (for_multicast lv) rs).
Proof.
  revert d. induction rs as [|r rs IH]; intros d; cbn [claims_on]; [by split|]. rewrite filter_cons.
  destruct (lv !! rt_LUID r) as [i|] eqn:E.
  2:{ rewrite decide_False; [apply IH|]. intros [[? ?] _]. congruence. }
  case_bool_decide as Hp; [rewrite decide_True by (split; [by eexists|done])|rewrite decide_False by (by intros [_ ?]); apply IH].
  unfold mbind, st_bind. destruct (a_name (rt_LUID r) d) as [N1 N2]. destruct (interfaceName (rt_LUID r) d) as [name d1].
  destruct (IH d1) as [I1 I2]. destruct (claims_on lv internet rs d1) as [rest d2]. cbn in *.
  split; [by etransitivity|]. constructor; [|done]. split_and!; cbn; try done. by exists i.
Qed.

(** The way out of the machine. *)
Definition carries (d : Device) : Z * Z := way_out (live (rows d)) (paths d).

Lemma claims_measured d r d' : multicastClaims d = (r, d') → quiet d d'
  ∧ match r with
    | inr claims => Forall2 (claim_is (live (rows d)) (carries d).1) claims (filter (for_multicast (live (rows d))) (paths d))
    | inl _ => True
    end.
Proof.
  unfold multicastClaims, st_try, asked, mbind, st_bind.
  pose proof (ask_sees GetIPInterfaceTable d sees_interfaces) as (R1 & R2 & R3 & R4 & R5).
  destruct (ask GetIPInterfaceTable d) as [[l|] d1]; cbn in *; [|by intros [= <- <-]].
  pose proof (all_interfaces (os d) l (eq_sym R5)) as Hl. rewrite (live_rows_filter l (rows d) Hl).
  pose proof (ask_sees GetIPForwardTable2 d1 sees_routes) as (S1 & S2 & S3 & S4 & S5).
  destruct (ask GetIPForwardTable2 d1) as [[rs|] d2]; cbn in *; [|intros [= <- <-]; by split; [repeat split; congruence|]].
  pose proof (all_routes (os d1) rs (eq_sym S5)) as ->. change (routes (os d1)) with (paths d1). rewrite R2.
  destruct (claims_read (live (rows d)) (way_out (live (rows d)) (paths d)).1 (paths d) d2) as [C1 C2].
  destruct (claims_on _ _ _ d2) as [claims d3]. cbn in *. intros [= <- <-]. split; [|done].
  etransitivity; [|exact C1]. repeat split; congruence.
Qed.
Lemma moved_quiet moves d d1 d' l : quiet d d1 → moved moves d1 d' l → moved moves d d' l.
Proof.
  intros (R1 & R2 & R3 & R4) [M1 M2 Mw M3 M4 M5 M6].
  split; [congruence|congruence|by rewrite <-R4|done|by intros i Hi; rewrite M4, R1|by intros i; rewrite M5, R1|by rewrite <-R1].
Qed.

Definition measured (d : Device) (claims : list claim) : Prop :=
  Forall2 (claim_is (live (rows d)) (carries d).1) claims (filter (for_multicast (live (rows d))) (paths d)).
Definition those_beating (ours : Z) (mine : claim) (claims : list claim) : list move :=
  gives_way mine <$> filter (λ c, beats ours mine c && negb (c_internet c)) claims.

Lemma beating_from ours mine claims m : m ∈ those_beating ours mine claims →
  ∃ c, m = gives_way mine c ∧ c ∈ claims ∧ beats ours mine c = true ∧ c_internet c = false.
Proof.
  unfold those_beating. intros (c & -> & [Hb Hc]%list_elem_of_filter)%list_elem_of_fmap. apply Is_true_true, andb_prop in Hb as [H1 H2%negb_true_iff].
  by exists c.
Qed.

Lemma measured_claim d claims c : measured d claims → c ∈ claims → ∃ r i, r ∈ paths d ∧ rt_Prefix r = multicastRoute ∧ c_luid c = rt_LUID r
  ∧ c_route c = rt_Metric r ∧ c_internet c = (rt_LUID r =? (carries d).1) ∧ rows d !! rt_LUID r = Some i ∧ Connected i = true
  ∧ c_metric c = Metric i ∧ c_auto c = UseAutomaticMetric i.
Proof.
  intros Hm Hc. apply list_elem_of_lookup in Hc as [k Hk]. destruct (Forall2_lookup_l _ _ _ _ _ Hm Hk) as (r & Hr & H1 & H2 & H3 & _ & i & H4 & H5 & H6).
  apply list_elem_of_lookup_2, list_elem_of_filter in Hr as [[_ Hp] Hr]. unfold live in H4. apply map_lookup_filter_Some in H4 as [H4 Hcn].
  by exists r, i.
Qed.

Lemma measured_route d claims r i : measured d claims → r ∈ paths d → rt_Prefix r = multicastRoute → rows d !! rt_LUID r = Some i →
  Connected i = true → ∃ c, c ∈ claims ∧ claim_is (live (rows d)) (carries d).1 c r ∧ c_metric c = Metric i.
Proof.
  intros Hm Hr Hp Hi Hc. assert (live (rows d) !! rt_LUID r = Some i) as Hl by (apply map_lookup_filter_Some; by split).
  assert (r ∈ filter (for_multicast (live (rows d))) (paths d)) as Hin by (apply list_elem_of_filter; split; [split; [by eexists|done]|done]).
  apply list_elem_of_lookup in Hin as [k Hk]. destruct (Forall2_lookup_r _ _ _ _ _ Hm Hk) as (c & Hck & Hcl).
  exists c. split; [by eapply list_elem_of_lookup_2|]. split; [done|]. destruct Hcl as (_ & _ & _ & _ & j & Hj & Hmj & _). congruence.
Qed.

Lemma measured_named d claims : measured d claims → Forall (λ c, c_name c ≠ []) claims.
Proof.
  intros Hm. apply Forall_forall. intros c Hc. apply list_elem_of_lookup in Hc as [k Hk].
  by destruct (Forall2_lookup_l _ _ _ _ _ Hm Hk) as (r & _ & _ & _ & _ & Hn & _).
Qed.

Lemma measured_once d claims : measured d claims → NoDup (rt_LUID <$> filter (for_multicast (live (rows d))) (paths d)) →
  NoDup (c_luid <$> claims).
Proof.
  intros Hm Hd. replace (c_luid <$> claims) with (rt_LUID <$> filter (for_multicast (live (rows d))) (paths d)); [done|].
  symmetry. apply list_eq_Forall2, Forall2_fmap. eapply Forall2_impl; [exact Hm|]. by intros c r (H & _).
Qed.

(** What [takeMulticastRoute] comes to. *)
Lemma takes ours d r d' : takeMulticastRoute ours d = (r, d') →
  match r with
  | inl _ => quiet d d'
  | inr held => ∃ claims mine l, measured d claims ∧ claim_of ours claims = Some mine ∧ moved (those_beating ours mine claims) d d' l
      ∧ (held = [] → NoDup (c_luid <$> claims) → Forall (λ c, beats ours mine c = true → c_internet c = false
          ∧ ∃ new, rows d' !! c_luid c = Some new ∧ Metric new = u32 (total mine - c_route c + 1)) claims)
  end.
Proof.
  unfold takeMulticastRoute, st_try, mbind, st_bind. destruct (multicastClaims d) as [rc d1] eqn:Ec.
  destruct (claims_measured d rc d1 Ec) as [Hq Hm]. destruct rc as [e|claims]; [by intros [= <- <-]|].
  destruct (contest claims ours) as [e|[moves held]] eqn:Et; [by intros [= <- <-]|].
  destruct (contest_moves claims ours moves held Et) as (mine & Hmine & Hmoves & Hheld). fold (those_beating ours mine claims) in Hmoves. subst moves.
  destruct (moves_rivals (those_beating ours mine claims) held d1) as [l Hl].
  pose proof (moves_all (those_beating ours mine claims) held d1) as Hall.
  destruct (move_rivals (those_beating ours mine claims) held d1) as [held' d2]. cbn in *. intros [= <- <-].
  exists claims, mine, l. split; [done|]. split; [done|]. split; [by eapply moved_quiet|]. intros -> Hd.
  pose proof (measured_named d claims Hm) as Hn. destruct Hall as [-> Hall]; [| |done|].
  - apply Forall_forall. intros m (c & -> & Hc & _)%beating_from. cbn. by apply (proj1 (Forall_forall _ _) Hn).
  - unfold those_beating. rewrite <-list_fmap_compose. change (NoDup (c_luid <$> filter (λ c, beats ours mine c && negb (c_internet c)) claims)).
    eapply sublist_NoDup; [exact Hd|]. apply fmap_sublist, sublist_filter.
  - specialize (Hheld Hn eq_refl). apply Forall_forall. intros c Hc Hb.
    pose proof (proj1 (Forall_forall _ _) Hheld c Hc Hb) as Hi. split; [done|]. apply (Hall (gives_way mine c)).
    unfold those_beating. apply list_elem_of_fmap_2, list_elem_of_filter. rewrite Hb, Hi. by split.
Qed.

(** [PreferForMulticast] gives back what it has, sets its own metric, and takes. *)
Lemma prefers ours d r d' : PreferForMulticast ours true d = (r, d') →
  ∃ d1, paths d1 = paths d
    ∧ (rows d1 = rows (yieldBack d).2 ∨ ∃ old new, rows (yieldBack d).2 !! ours = Some old ∧ rows d1 = <[ours := new]> (rows (yieldBack d).2)
        ∧ set_to preferredMetric false old new)
    ∧ yielded d1 = []
    ∧ ((∃ e, r = inl e ∧ rows d' = rows d1 ∧ yielded d' = yielded d1)
       ∨ (takeMulticastRoute ours d1 = (r, d') ∧ ∃ new, rows d1 !! ours = Some new ∧ UseAutomaticMetric new = false ∧ Metric new = 1)).
Proof.
  unfold PreferForMulticast, st_try, mbind, st_bind. destruct (yields d) as (Y1 & Y2 & _). destruct (yieldBack d) as [[] d0]. cbn [negb snd] in *.
  pose proof (set_metric ours preferredMetric false d0) as Hs. destruct (setInterfaceMetric ours preferredMetric false d0) as [ro d1].
  destruct (Hs ro d1 eq_refl) as (S1 & S2 & S3 & S4). destruct ro as [e|[]].
  - intros [= <- <-]. exists d1. split; [congruence|]. split; [by left|]. split; [congruence|]. left. by exists e.
  - destruct (takeMulticastRoute ours d1) as [rt d2] eqn:Et. intros Hr. exists d1. split; [congruence|]. split; [by right|]. split; [congruence|].
    right. split; [destruct rt as [e|held]; cbn in Hr; by injection Hr as <- <-|].
    destruct S4 as (old & new & _ & -> & _ & S5 & S6). exists new. rewrite lookup_insert_eq. split_and!; [done..|by apply S6].
Qed.

Lemma beating_not_ours ours mine c : beats ours mine c = true → c_luid c ≠ ours ∧ total c ≤ total mine.
Proof. unfold beats. rewrite negb_true_iff, orb_false_iff, Z.eqb_neq, Z.ltb_ge. done. Qed.

(** Who is taken from is a rival. *)
Lemma taken_not_ours ours mine claims d d' l i : moved (those_beating ours mine claims) d d' l →
  (∀ c, c ∈ claims → beats ours mine c = true → c_internet c = false → c_luid c ≠ i) → rows d' !! i = rows d !! i.
Proof.
  intros [_ _ _ M3 M4 _ _] Hi. apply M4, Forall_forall. intros y Hy Ey. destruct (M3 y Hy) as (m & Hm & ->).
  apply beating_from in Hm as (c & -> & Hc & Hb & Hn). by apply (Hi c).
Qed.

Lemma same_multicast d d' : (∀ i, Connected <$> rows d' !! i = Connected <$> rows d !! i) →
  paths d' = paths d → filter (for_multicast (live (rows d'))) (paths d') = filter (for_multicast (live (rows d))) (paths d).
Proof.
  intros Hc ->. apply list_filter_iff. intros r. unfold for_multicast. enough (is_Some (live (rows d') !! rt_LUID r) ↔ is_Some (live (rows d) !! rt_LUID r)) by tauto.
  specialize (Hc (rt_LUID r)). unfold is_Some, live. setoid_rewrite map_lookup_filter_Some. cbn.
  destruct (rows d' !! rt_LUID r), (rows d !! rt_LUID r); cbn in Hc; simplify_eq; naive_solver.
Qed.

(** Nothing an interface and a route of it add up to is as much as 32 bits hold. *)
Definition adds_up (d : Device) : Prop := ∀ r i, r ∈ paths d → rows d !! rt_LUID r = Some i → Connected i = true →
  rt_Metric r + Metric i < 2 ^ 32 - 1.
(** An interface has one route for multicast. *)
Definition one_route (d : Device) : Prop := NoDup (rt_LUID <$> filter (for_multicast (live (rows d))) (paths d)).

Lemma metric_range d i r : rows d !! i = Some r → 0 ≤ Metric r < 2 ^ 32.
Proof. apply interface_metric. Qed.
Lemma path_range d r : r ∈ paths d → 0 ≤ rt_Metric r < 2 ^ 32.
Proof. apply route_metric. Qed.

Lemma still_connected d d' i r' : (∀ i, Connected <$> rows d' !! i = Connected <$> rows d !! i) → rows d' !! i = Some r' →
  ∃ r, rows d !! i = Some r ∧ Connected r = Connected r'.
Proof. intros Hc Hi. specialize (Hc i). rewrite Hi in Hc. destruct (rows d !! i) as [r|]; cbn in Hc; [|done]. exists r. by simplify_eq. Qed.

(** C33: the discovery route is taken.  When the adapter is preferred and nobody is named
    as holding the route, Windows sends multicast to the adapter and to nothing else: it
    has a route for it, its own metric is pinned to the floor, and every other interface
    that is connected and has one costs more, a tie being a loss. *)
Theorem the_discovery_route_is_taken ours d d' : PreferForMulticast ours true d = (inr [], d') → one_route d' → adds_up d' →
  ∃ mine own, mine ∈ paths d' ∧ rt_Prefix mine = multicastRoute ∧ rt_LUID mine = ours ∧ rows d' !! ours = Some own
    ∧ Connected own = true ∧ UseAutomaticMetric own = false ∧ Metric own = preferredMetric
    ∧ ∀ r i, r ∈ paths d' → rt_Prefix r = multicastRoute → rt_LUID r ≠ ours → rows d' !! rt_LUID r = Some i → Connected i = true →
        rt_Metric mine + Metric own < rt_Metric r + Metric i.
Proof.
  intros Hp H1 Ha. destruct (prefers ours d (inr []) d' Hp) as (d1 & _ & _ & _ & [(e & ? & _)|(Ht & own & Ho & Hoa & Hom)]); [done|].
  destruct (takes ours d1 _ d' Ht) as (claims & mine & l & Hm & Hmine & Hmoved & Hall).
  pose proof (md_paths _ _ _ _ Hmoved) as Hpaths. pose proof (md_rows _ _ _ _ Hmoved) as Hrows.
  unfold one_route in H1. rewrite (same_multicast d1 d' Hrows Hpaths) in H1. specialize (Hall eq_refl (measured_once d1 claims Hm H1)).
  rewrite Forall_forall in Hall. apply claim_of_in in Hmine as [Hmine Eours].
  destruct (measured_claim d1 claims mine Hm Hmine) as (rm & im & M1 & M2 & M3 & M4 & _ & M6 & M7 & M8 & _).
  rewrite <-M3, Eours, Ho in M6. injection M6 as <-.
  assert (rows d' !! ours = Some own) as Ho'.
  { rewrite (taken_not_ours ours mine claims d1 d' l ours Hmoved); [done|]. intros c _ Hb _. by apply (beating_not_ours ours mine c). }
  pose proof (Ha rm own) as Hsmall. rewrite Hpaths, <-M3, Eours, Hom in Hsmall. specialize (Hsmall M1 Ho' M7).
  pose proof (path_range d1 rm M1) as Hrm. assert (total mine = rt_Metric rm + 1) as Et by (unfold total; rewrite M4, M8, Hom; apply u32_id; split; lia).
  exists rm, own. rewrite Hpaths. split_and!; [done|done|congruence|done..|]. intros r i Hr Hmc Hne Hi Hci. rewrite Hom.
  pose proof (Ha r i) as Hai. rewrite Hpaths in Hai. specialize (Hai Hr Hi Hci). pose proof (path_range d1 r Hr) as Hrr.
  destruct (still_connected d1 d' (rt_LUID r) i Hrows Hi) as (i1 & Hi1 & Hc1). rewrite Hci in Hc1.
  destruct (measured_route d1 claims r i1 Hm Hr Hmc Hi1 Hc1) as (c & Hc & (C1 & C2 & _) & C5).
  pose proof (metric_range d' (rt_LUID r) i Hi) as Hri. destruct (beats ours mine c) eqn:Eb.
  - destruct (Hall c Hc Eb) as (_ & new & Hn & Hnm). rewrite C1, Hi in Hn. injection Hn as <-. rewrite C2, Et in Hnm.
    assert (u32 (rt_Metric r + Metric i) = u32 (rt_Metric rm + 2)) as Hu.
    { rewrite Hnm. unfold u32. rewrite Zplus_mod_idemp_r. f_equal. lia. }
    rewrite !u32_id in Hu by (split; lia). lia.
  - unfold beats in Eb. apply negb_false_iff, orb_true_iff in Eb as [Eb|Eb]; [apply Z.eqb_eq in Eb; congruence|apply Z.ltb_lt in Eb].
    assert (rows d' !! rt_LUID r = rows d1 !! rt_LUID r) as Hsame.
    { apply (taken_not_ours ours mine claims d1 d' l (rt_LUID r) Hmoved). intros c' Hc' Hb' _ E'.
      assert (c' = c) as ->; [|unfold beats in Hb'; apply negb_true_iff, orb_false_iff in Hb' as [_ Hb']; apply Z.ltb_ge in Hb'; lia].
      pose proof (measured_once d1 claims Hm H1) as Hd. apply list_elem_of_lookup in Hc as [k Hk], Hc' as [k' Hk'].
      assert (k' = k) as ->; [|congruence]. eapply NoDup_lookup; [exact Hd|rewrite list_lookup_fmap, Hk'; cbn; reflexivity|].
      rewrite list_lookup_fmap, Hk. cbn. congruence. }
    rewrite Hsame in Hi. rewrite Hi in Hi1. injection Hi1 as <-. rewrite Et in Eb. unfold total in Eb. rewrite C2, C5 in Eb.
    rewrite u32_id in Eb by (split; lia). lia.
Qed.
(** ** The way out *)

Lemma way_out_snoc lv rs r : way_out lv (rs ++ [r]) =
  match lv !! rt_LUID r with
  | Some i => if bool_decide (rt_Prefix r = internetRoute) && (u32 (rt_Metric r + Metric i) <? (way_out lv rs).2)
              then (rt_LUID r, u32 (rt_Metric r + Metric i)) else way_out lv rs
  | None => way_out lv rs
  end.
Proof. unfold way_out. rewrite foldl_app. cbn. destruct (lv !! rt_LUID r); [|done]. by case_bool_decide. Qed.

(** [lv'] costs no less than [lv] for [rs]. *)
Definition dearer (lv lv' : gmap Z interface) (r : route) : Prop :=
  match lv !! rt_LUID r, lv' !! rt_LUID r with
  | Some i, Some i' => u32 (rt_Metric r + Metric i) ≤ u32 (rt_Metric r + Metric i')
  | None, None => True
  | _, _ => False
  end.

Lemma way_out_dearer lv lv' rs : Forall (dearer lv lv') rs → (way_out lv rs).2 ≤ (way_out lv' rs).2.
Proof.
  induction rs as [|r rs IH] using rev_ind; [done|]. rewrite Forall_app, Forall_singleton. intros [Hrs Hr]. specialize (IH Hrs).
  rewrite !way_out_snoc. unfold dearer in Hr. destruct (lv !! rt_LUID r) as [i|], (lv' !! rt_LUID r) as [i'|]; try done.
  case_bool_decide; [|done]. cbn [andb]. destruct (Z.ltb_spec (u32 (rt_Metric r + Metric i)) (way_out lv rs).2),
    (Z.ltb_spec (u32 (rt_Metric r + Metric i')) (way_out lv' rs).2); cbn; lia.
Qed.

(** What costs more for others, and the same for the best, leaves the best. *)
Lemma way_out_stays lv lv' rs : Forall (dearer lv lv') rs → lv' !! (way_out lv rs).1 = lv !! (way_out lv rs).1 → way_out lv' rs = way_out lv rs.
Proof.
  induction rs as [|r rs IH] using rev_ind; [done|]. rewrite Forall_app, Forall_singleton. intros [Hrs Hr]. specialize (IH Hrs).
  pose proof (way_out_dearer lv lv' rs Hrs) as Hle. rewrite !way_out_snoc. unfold dearer in Hr.
  destruct (lv !! rt_LUID r) as [i|] eqn:E, (lv' !! rt_LUID r) as [i'|] eqn:E'; try done.
  case_bool_decide; [|done]. cbn [andb]. destruct (Z.ltb_spec (u32 (rt_Metric r + Metric i)) (way_out lv rs).2) as [Hlt|Hge]; cbn [fst].
  - rewrite E, E'. intros [= ->]. destruct (Z.ltb_spec (u32 (rt_Metric r + Metric i)) (way_out lv' rs).2); [done|lia].
  - intros Hs. rewrite (IH Hs). destruct (Z.ltb_spec (u32 (rt_Metric r + Metric i')) (way_out lv rs).2); [lia|done].
Qed.

Lemma live_connected d d' i : Connected <$> rows d' !! i = Connected <$> rows d !! i →
  live (rows d') !! i = match live (rows d) !! i with Some _ => rows d' !! i | None => None end.
Proof.
  intros Hc. unfold live. rewrite !map_lookup_filter. destruct (rows d' !! i) as [r'|], (rows d !! i) as [r|]; cbn in *; simplify_eq; try done.
  rewrite Hc. destruct (decide (Connected r = true)); [rewrite !option_guard_True by done|rewrite !option_guard_False by done]; done.
Qed.

(** The way out is left alone.  Whatever is moved to take the discovery route, and
    whether or not it all works, the interface that carries the machine's internet traffic
    keeps the metric it has and goes on carrying it. *)
Theorem the_way_out_is_left_alone ours d r d' : takeMulticastRoute ours d = (r, d') → adds_up d → adds_up d' →
  rows d' !! (carries d).1 = rows d !! (carries d).1 ∧ carries d' = carries d.
Proof.
  intros Ht Ha Ha'. pose proof (takes ours d r d' Ht) as Hs. destruct r as [e|held].
  { destruct Hs as (R1 & R2 & _). unfold carries. by rewrite R1, R2. }
  destruct Hs as (claims & mine & l & Hm & Hmine & Hmoved & _). apply claim_of_in in Hmine as [Hmine _].
  assert (rows d' !! (carries d).1 = rows d !! (carries d).1) as Hkept.
  { apply (taken_not_ours ours mine claims d d' l _ Hmoved). intros c Hc _ Hn E.
    destruct (measured_claim d claims c Hm Hc) as (rc & _ & _ & _ & C3 & _ & C5 & _). rewrite C5, <-C3, E in Hn. by rewrite Z.eqb_refl in Hn. }
  split; [exact Hkept|]. pose proof (md_rows _ _ _ _ Hmoved) as Hrows. unfold carries at 1. rewrite (md_paths _ _ _ _ Hmoved). apply way_out_stays.
  2:{ fold (carries d). rewrite (live_connected d d'), Hkept by apply Hrows. unfold live. rewrite map_lookup_filter.
      destruct (rows d !! _) as [i|]; [|done]. cbn. by case_guard. }
  apply Forall_forall. intros x Hx. unfold dearer. rewrite (live_connected d d') by apply Hrows.
  destruct (live (rows d) !! rt_LUID x) as [i|] eqn:Ei; [|done]. apply map_lookup_filter_Some in Ei as [Ei Ec]. cbn in Ec.
  pose proof (Hrows (rt_LUID x)) as Hr. rewrite Ei in Hr. destruct (rows d' !! rt_LUID x) as [i'|] eqn:Ei'; cbn in Hr; [|done].
  assert (Connected i' = true) as Ec' by congruence. pose proof (path_range d x Hx) as Hxr.
  pose proof (Ha x i Hx Ei Ec) as Hs. pose proof (Ha' x i') as Hs'. rewrite (md_paths _ _ _ _ Hmoved) in Hs'. specialize (Hs' Hx Ei' Ec').
  pose proof (metric_range d _ i Ei) as Hri. pose proof (metric_range d' _ i' Ei') as Hri'.
  rewrite !u32_id by (split; lia). destruct (md_new _ _ _ _ Hmoved _ _ Ei') as [E|(m & Hin & El & Enew)]; [rewrite Ei in E; injection E as <-; lia|].
  apply beating_from in Hin as (c & -> & Hc & Hb & _). cbn in El, Enew. apply beating_not_ours in Hb as [_ Hle].
  destruct (measured_claim d claims c Hm Hc) as (rc & ic & C1 & _ & C3 & C4 & _ & C6 & C7 & C8 & _).
  rewrite <-C3, El, Ei in C6. injection C6 as <-. pose proof (path_range d rc C1) as Hrc.
  pose proof (Ha rc i C1) as Hac. rewrite <-C3, El in Hac. specialize (Hac Ei Ec).
  destruct (measured_claim d claims mine Hm Hmine) as (rm & im & M1 & _ & _ & M4 & _ & M6 & M7 & M8 & _).
  pose proof (Ha rm im M1 M6 M7) as Ham. pose proof (path_range d rm M1). pose proof (metric_range d _ im M6).
  assert (total mine = rt_Metric rm + Metric im) as Em by (unfold total; rewrite M4, M8; apply u32_id; split; lia).
  assert (total c = rt_Metric rc + Metric i) as Ec1 by (unfold total; rewrite C4, C8; apply u32_id; split; lia).
  rewrite u32_id in Enew by (rewrite C4; split; lia). lia.
Qed.

(** ** Giving back *)

(** Turned on and off, in any order and as often as may be. *)
Definition switches (ours : Z) (ss : list bool) (d : Device) : Device :=
  foldl (λ d prefer, (PreferForMulticast ours prefer d).2) d ss.

Section kept.
Context (ours : Z) (d0 : Device).

(** How an interface that is not ours stands to what it was in [d0]: giving it back failed,
    of what [P] says was kept; or its settings are kept, or they are what they were. *)
Definition fails (P : yielded_metric → Prop) (d : Device) (i : Z) : Prop :=
  ∃ y, P y ∧ y_luid y = i ∧ CannotGiveBack (y_name y) ∈ warned d.
Definition kept_of (y : yielded_metric) (r : interface) : Prop :=
  y_auto y = UseAutomaticMetric r ∧ (UseAutomaticMetric r = false → y_metric y = Metric r).
Record held (d : Device) (i : Z) : Prop := mkHeld {
  hd_connected : Connected <$> rows d !! i = Connected <$> rows d0 !! i;
  hd_kept y : y ∈ yielded d → y_luid y = i → ∃ r, rows d0 !! i = Some r ∧ kept_of y r;
  hd_free : Forall (λ y, y_luid y ≠ i) (yielded d) → setting <$> rows d !! i = setting <$> rows d0 !! i;
}.
Definition fine (P : yielded_metric → Prop) (d : Device) (i : Z) : Prop := fails P d i ∨ held d i.

Lemma fails_later (P Q : yielded_metric → Prop) d d' i : (∀ y, P y → Q y) → warned d `prefix_of` warned d' → fails P d i → fails Q d' i.
Proof. intros Hpq [w Hw] (y & H1 & H2 & H3). exists y. split_and!; [auto|done|]. rewrite Hw. apply elem_of_app. by left. Qed.

(** What does not touch an interface, nor what is kept of it. *)
Lemma fine_quiet P d d' i : rows d' !! i = rows d !! i → yielded d' = yielded d → warned d `prefix_of` warned d' → fine P d i → fine P d' i.
Proof.
  intros Hr Hy Hw [Hf|[H1 H2 H3]]; [left; by apply (fails_later P P d)|right]. split; rewrite ?Hr, ?Hy; auto.
Qed.

Lemma setting_kept r old new given : kept_of given r → set_to (y_metric given) (y_auto given) old new → Connected old = Connected r →
  setting new = setting r.
Proof.
  intros [K1 K2] (S1 & S2 & S3) Hc. unfold setting. rewrite S1, Hc, S2, K1. destruct (UseAutomaticMetric r) eqn:E; [done|].
  rewrite S3, K2; [done|done|congruence].
Qed.

Lemma fine_yields (P : yielded_metric → Prop) d i : (∀ y, y ∈ yielded d → P y) → fine P d i →
  let d' := (yieldBack d).2 in fine P d' i ∧ yielded d' = [].
Proof.
  intros Hp Hf. destruct (yields d) as (_ & Hy & [_ _ G3 G4 G5]). cbv zeta. set (d' := (yieldBack d).2) in *. split; [|done].
  change (warned (d' <| yielded := yielded d |>)) with (warned d') in G3.
  destruct Hf as [Hf|[H1 H2 H3]]; [left; by apply (fails_later P P d)|].
  destruct (decide (Exists (λ was, y_luid was = i) (yielded d))) as [He|He].
  - destruct (G5 i He) as [(was & W1 & W2 & W3)|(given & old & new & W1 & W2 & W3 & W4 & W5)]; [left; exists was; by split_and!; [apply Hp|..]|].
    change (rows (d' <| yielded := yielded d |>)) with (rows d') in W4. destruct (H2 given W1 W2) as (r & Hr & Hk).
    rewrite W3, Hr in H1. injection H1 as H1. pose proof (setting_kept r old new given Hk W5 H1) as Hs. right.
    split; rewrite ?Hy, ?W4, ?Hr; cbn; [|by intros y Hin%elem_of_nil|by rewrite Hs]. destruct W5 as (W5 & _). congruence.
  - apply not_Exists_Forall in He; [|solve_decision]. specialize (G4 i He). change (rows (d' <| yielded := yielded d |>)) with (rows d') in G4.
    right. split; rewrite ?Hy, ?G4; [done|by intros y Hin%elem_of_nil|]. intros _. by apply H3.
Qed.

Lemma fine_takes P d i : i ≠ ours → yielded d = [] → fine P d i → fine P (takeMulticastRoute ours d).2 i.
Proof.
  intros Hi Hy Hf. destruct (takeMulticastRoute ours d) as [r d'] eqn:Et. pose proof (takes ours d r d' Et) as Hs. cbn [snd].
  destruct r as [e|h]; [destruct Hs as (R1 & _ & R3 & R4); eapply fine_quiet; [by rewrite R1|done|by rewrite R4|done]|].
  destruct Hs as (claims & mine & l & Hm & _ & [_ M2 Mw M3 M4 M5 _] & _). rewrite Hy in M2. cbn in M2.
  destruct Hf as [Hf|[H1 _ H3]]; [left; by apply (fails_later P P d)|right]. rewrite Hy in H3. specialize (H3 (List.Forall_nil _)).
  split; rewrite ?M2.
  - by rewrite M5.
  - intros y Hin <-. destruct (M3 y Hin) as (m & Hm' & ->). apply beating_from in Hm' as (c & -> & Hc & _ & _). cbn in *.
    destruct (measured_claim d claims c Hm Hc) as (rc & ic & _ & _ & C3 & _ & _ & C6 & _ & C8 & C9). rewrite C3 in *. rewrite C6 in H3.
    destruct (rows d0 !! rt_LUID rc) as [r|]; [|done]. exists r. split; [done|]. injection H3 as E1 E2 E3.
    unfold kept_of. cbn. rewrite C8, C9. split; [done|]. intros E. rewrite E2, E in E3. congruence.
  - intros Hn. by rewrite M4.
Qed.

Lemma fine_prefers (P : yielded_metric → Prop) b d i : i ≠ ours → (∀ y, y ∈ yielded d → P y) → fine P d i →
  let d' := (PreferForMulticast ours b d).2 in fine P d' i ∧ (b = false → yielded d' = []).
Proof.
  intros Hi Hp Hf. destruct (fine_yields P d i Hp Hf) as [Hf1 Hy1]. unfold PreferForMulticast, st_try, mbind, st_bind.
  destruct (yieldBack d) as [[] d1]. cbn [snd] in *.
  assert (∀ metric auto r d2, setInterfaceMetric ours metric auto d1 = (r, d2) → fine P d2 i ∧ yielded d2 = []) as Hown.
  { intros metric auto r d2 E. destruct (set_metric _ _ _ _ _ _ E) as (_ & S2 & S3 & S4). split; [|congruence].
    eapply fine_quiet; [|done|by rewrite S3|done]. destruct r; [by rewrite S4|]. destruct S4 as (old & new & _ & -> & _). by rewrite lookup_insert_ne. }
  destruct b; cbn [negb].
  - destruct (setInterfaceMetric ours preferredMetric false d1) as [[e|[]] d2] eqn:E; destruct (Hown _ _ _ _ E) as [Hf2 Hy2]; [done|].
    pose proof (fine_takes P d2 i Hi Hy2 Hf2) as Hf3. destruct (takeMulticastRoute ours d2) as [[e|h] d3]; done.
  - destruct (setInterfaceMetric ours 0 true d1) as [[e|[]] d2] eqn:E; destruct (Hown _ _ _ _ E) as [Hf2 Hy2]; done.
Qed.
End kept.

(** C34: what was taken is given back.  From the moment an adapter is opened, however often
    the preference is turned on and off and whatever fails of it, once it is turned off
    every other adapter is as it was: an automatic metric automatic, a fixed one at its
    value.  The one exception is an adapter of which giving back what was kept of it
    failed, which the log says by the name it was kept under. *)
Theorem what_was_taken_is_given_back ours w ss i : let d := mkDevice w [] [] in let d' := switches ours (ss ++ [false]) d in
  i ≠ ours →
  yielded d' = []
  ∧ (setting <$> rows d' !! i = setting <$> rows d !! i
     ∨ ∃ before y, before `prefix_of` ss ∧ y ∈ yielded (switches ours before d) ∧ y_luid y = i ∧ CannotGiveBack (y_name y) ∈ warned d').
Proof.
  intros d d' Hi. set (P ss y := ∃ before, before `prefix_of` ss ∧ y ∈ yielded (switches ours before d)).
  assert (∀ ss, fine d (P ss) (switches ours ss d) i) as Hfine.
  { clear d' ss. intros ss. induction ss as [|b ss IH] using rev_ind.
    - right. split; [done|by intros y Hy%elem_of_nil|done].
    - unfold switches. rewrite foldl_app. cbn. fold (switches ours ss d).
      destruct (fine_prefers ours d (P ss) b (switches ours ss d) i Hi) as [[Hf|Hh] _]; [by exists ss|done|left|by right].
      eapply fails_later; [|done|exact Hf]. intros y (before & Hb & Hy). exists before. split; [|done]. by apply prefix_app_r. }
  subst d'. unfold switches. rewrite foldl_app. cbn. fold (switches ours ss d).
  destruct (fine_prefers ours d (P ss) false (switches ours ss d) i Hi) as [Hf Hy]; [by exists ss|done|]. specialize (Hy eq_refl). split; [done|].
  destruct Hf as [(y & (before & Hb & Hin) & Hl & Hw)|[_ _ Hh]]; [right; by exists before, y|left]. apply Hh. by rewrite Hy.
Qed.
End device.

(** ** A machine

    Two tables, in which every call that makes sense succeeds; a metric past 32 bits is
    turned down, and a table with one reads as what fits. *)
Definition fits (i : interface) : interface := i <| Metric := u32 (Metric i) |>.
#[export] Instance machine : Windows := {|
  WS := gmap Z interface * list route;
  GetIPInterfaceTable w := (Some (map_to_list (fits <$> w.1)), w);
  GetIPForwardTable2 w := (Some ((λ r, mkRoute (rt_LUID r) (rt_Prefix r) (u32 (rt_Metric r))) <$> w.2), w);
  IPInterface i w := ((fits <$> w.1) !! i, w);
  SetInterface i r w := if bool_decide (0 ≤ Metric r < 2 ^ 32) then (true, (<[i := r]> w.1, w.2)) else (false, w);
  Alias i w := (Some (str "Ethernet " ++ FormatInt i), w);
|}.
#[export] Instance machine_view : View machine := {|
  interfaces w := fits <$> w.1;
  routes w := (λ r, mkRoute (rt_LUID r) (rt_Prefix r) (u32 (rt_Metric r))) <$> w.2;
|}.
#[export] Instance machine_laws : WindowsLaws machine.
Proof.
  split; try (intros; done); cbn.
  - by intros w l [= <-].
  - by intros w l [= <-].
  - by intros w i a [= <-].
  - intros w i r. case_bool_decide as Hr; cbn; [|done]. split; [done|]. exists r. rewrite fmap_insert. split_and!; [|done..].
    f_equal. destruct r as [c m a]. unfold fits. cbn in *. by rewrite u32_id.
  - intros w i r. rewrite lookup_fmap. intros (x & _ & ->)%fmap_Some. apply u32_range.
  - intros w r (x & -> & _)%list_elem_of_fmap. apply u32_range.
Qed.

(** The card that carries the internet, another virtual network on the floor, and ours. *)
Definition desktop : Device (O := machine) := mkDevice
  (list_to_map [(1, mkInterface true 25 true); (2, mkInterface true 1 false); (3, mkInterface true 5 true)],
   [mkRoute 1 internetRoute 10; mkRoute 2 multicastRoute 256; mkRoute 1 multicastRoute 256; mkRoute 3 multicastRoute 256]) [] [].
Definition preferred : Device (O := machine) := (PreferForMulticast 3 true desktop).2.

Definition adds_up_bool (d : Device) : bool :=
  forallb (λ r, match rows d !! rt_LUID r with Some i => rt_Metric r + Metric i <? 2 ^ 32 - 1 | None => true end) (paths d).
Lemma adds_up_check d : adds_up_bool d = true → adds_up d.
Proof.
  intros Hb r i Hr Hi _. unfold adds_up_bool in Hb. rewrite forallb_forall in Hb. specialize (Hb r). rewrite Hi in Hb.
  apply Z.ltb_lt, Hb. by apply list_elem_of_In.
Qed.

Lemma ends_in {S A} (m : st S A) s a : (m s).1 = a → m s = (a, (m s).2).
Proof. intros <-. by destruct (m s). Qed.

Lemma rival_moved : PreferForMulticast 3 true desktop = (inr [], preferred)
  ∧ Metric <$> rows preferred !! 2 = Some 2 ∧ one_route preferred ∧ adds_up preferred.
Proof.
  split; [apply ends_in; vm_compute; reflexivity|]. split; [vm_compute; reflexivity|]. split.
  - unfold one_route. apply (bool_decide_unpack _). vm_compute. exact I.
  - apply adds_up_check. vm_compute. reflexivity.
Qed.

Lemma the_discovery_route_is_taken_witness : ∃ mine own, rt_LUID mine = 3 ∧ rows preferred !! 3 = Some own ∧ Metric own = preferredMetric
  ∧ PreferForMulticast 3 true desktop = (inr [], preferred).
Proof.
  destruct rival_moved as (H1 & _ & H2 & H3).
  destruct (the_discovery_route_is_taken 3 desktop preferred H1 H2 H3) as (mine & own & _ & _ & P3 & P4 & _ & _ & P7 & _).
  exists mine, own. split; [exact P3|]. split; [exact P4|]. split; [exact P7|exact H1].
Defined.

Definition discovering : Device (O := machine) := (takeMulticastRoute 3 desktop).2.
Lemma the_way_out_is_left_alone_witness : takeMulticastRoute 3 desktop = (inr [], discovering) ∧ (carries desktop).1 = 1
  ∧ carries discovering = carries desktop.
Proof.
  assert (takeMulticastRoute 3 desktop = (inr [], discovering)) as Ht by (apply ends_in; vm_compute; reflexivity).
  split; [exact Ht|]. split; [vm_compute; reflexivity|].
  apply (the_way_out_is_left_alone 3 desktop (inr []) discovering Ht); apply adds_up_check; vm_compute; reflexivity.
Defined.

(** Two rounds of it; the rival is moved each time. *)
Lemma what_was_taken_is_given_back_witness : Metric <$> rows (switches 3 [true; false; true] desktop) !! 2 = Some 2
  ∧ yielded (switches 3 ([true; false; true] ++ [false]) desktop) = []
  ∧ (setting <$> rows (switches 3 ([true; false; true] ++ [false]) desktop) !! 2 = setting <$> rows desktop !! 2
     ∨ ∃ before y, before `prefix_of` [true; false; true] ∧ y ∈ yielded (switches 3 before desktop) ∧ y_luid y = 2
         ∧ CannotGiveBack (y_name y) ∈ warned (switches 3 ([true; false; true] ++ [false]) desktop)).
Proof. split; [vm_compute; reflexivity|]. exact (what_was_taken_is_given_back 3 (os desktop) [true; false; true] 2 ltac:(lia)). Defined.
