(* ===== verification/Adapter.v ===== *)
(** The virtual adapter: daemon/tun/tun_windows.go.

    [Open] as a function of what Windows makes of its calls.  Then an open adapter and the
    goroutines that are inside [Read], [Write] and [Close] on it, as a machine that moves
    one of them at a time: [move] with what the driver answers.  A call into the driver
    whose session has ended, and ending one twice, fault the process.

    A [sync.RWMutex] is who reads and whether a writer waits or holds it; a waiting writer
    keeps new readers out.  [PreferForMulticast] and giving back are in [Multicast]. *)
From S2P Require Import Prelude Bytes NetAddr.

(** ** Opening *)

Inductive open_error : Type := ErrNeedsAdmin | ErrMissingDriver | CreateFailed | AssignFailed | StartFailed.
Inductive created : Type := Created | AccessDenied | ModNotFound | FileNotFound | CreateOther.

(** What Windows answers. *)
Record answers : Type := mkAnswers {
  (** Closing an adapter that was left over, if one was. *)
  on_leftover : bool;
  on_create : created;
  on_assign : bool;
  on_interface : bool;  on_mtu : bool;
  on_start : bool;
}.

(** The adapter of our name, if there is one: its address, its MTU if that was set, and
    whether a session is running on it. *)
Record adapter : Type := mkAdapter { a_address : option Prefix; a_mtu : option Z; a_session : bool }.

(** [device.Close] on a device that has no session yet removes the adapter.  With the
    result, the adapters there are then. *)
Definition Open (address : Prefix) (mtu : Z) (k : answers) (existing : option adapter) : (open_error + adapter) * list adapter :=
  let left := if on_leftover k then [] else option_list existing in
  match on_create k with
  | AccessDenied => (inl ErrNeedsAdmin, left)
  | ModNotFound | FileNotFound => (inl ErrMissingDriver, left)
  | CreateOther => (inl CreateFailed, left)
  | Created =>
      if negb (on_assign k) then (inl AssignFailed, left) else
      let set_mtu := on_interface k && on_mtu k in
      if negb (on_start k) then (inl StartFailed, left) else
      let a := mkAdapter (Some address) (if set_mtu then Some (u32 mtu) else None) true in
      (inr a, left ++ [a])
  end.

(** [Remove]: an error only when the adapter there is cannot be closed. *)
Definition Remove (closes : bool) (existing : option adapter) : bool * option adapter :=
  match existing with
  | None => (true, None)
  | Some a => if closes then (true, None) else (false, Some a)
  end.

(** ** An open adapter *)

Inductive outcome : Type := Packet (p : list Z) | Written | ErrClosed | ErrDropped | ErrContext | ErrOther | Closed.

(** Where a goroutine is. *)
Inductive call : Type :=
  (** At [d.mu.RLock()] of [Read], or of [Write] with its packet; then at [d.closing.Load()]. *)
  | Entering (packet : option (list Z))
  | Looking (packet : option (list Z))
  (** In [ReceivePacket]; in [wait] at [closing], at [ctx.Err()], inside the wait. *)
  | Receiving | Waiting | Asking | Sleeping
  (** In [AllocateSendPacket], in [SendPacket]. *)
  | Allocating (packet : list Z) | Sending (packet : list Z)
  | Leaving (o : outcome)
  | Returned (o : outcome)
  (** [Close]: at [closeOnce.Do], and in it. *)
  | AtOnce | Yielding | Marking | Locking | Acquiring | Ending | Removing | Unlocking | Finishing.

Inductive lock : Type := Free | Pending | Held.
Inductive once : Type := NotYet | Running | Over.

Record Device : Type := mkDevice {
  mu : lock;
  readers : nat;
  closing : bool;
  closeOnce : once;
  (** The session in the driver, and the adapter. *)
  live : bool;
  present : bool;
  (** What was handed to Windows. *)
  handed : list (list Z);
}.
#[export] Instance eta_Device : Settable Device := λ d,
  mkDevice (mu d) (readers d) (closing d) (closeOnce d) (live d) (present d) (handed d).

(** What [Open] returns. *)
Definition opened : Device := mkDevice Free 0 false NotYet true true [].

(** What the driver, or the context, answers. *)
Inductive answer : Type :=
  | Got (p : list Z) | NoMoreItems | HandleEOF | Failed
  | Signalled | TimedOut
  | Room | RingFull
  | Cancelled | Going.

Inductive moving : Type := Moved (d : Device) (c : call) | Blocked | Fault.

(** A call into the driver. *)
Definition in_driver (d : Device) (m : moving) : moving := if live d then m else Fault.

Definition step (a : answer) (c : call) (d : Device) : moving :=
  match c with
  | Entering w => match mu d with Free => Moved (d <| readers := S (readers d) |>) (Looking w) | _ => Blocked end
  | Looking w =>
      if closing d then Moved d (Leaving ErrClosed) else
      Moved d (match w with None => Receiving | Some p => Allocating p end)
  | Receiving => in_driver d
      match a with
      | Got p => Moved d (Leaving (Packet p))
      | NoMoreItems => Moved d Waiting
      | HandleEOF => Moved d (Leaving ErrClosed)
      | _ => Moved d (Leaving ErrOther)
      end
  | Waiting => if closing d then Moved d (Leaving ErrClosed) else Moved d Asking
  | Asking => match a with Cancelled => Moved d (Leaving ErrContext) | _ => Moved d Sleeping end
  | Sleeping => in_driver d
      match a with
      | Signalled => Moved d (Looking None)
      | TimedOut => Moved d Waiting
      | _ => Moved d (Leaving ErrOther)
      end
  | Allocating p => in_driver d
      match a with
      | Room => Moved d (Sending p)
      | RingFull => Moved d (Leaving ErrDropped)
      | _ => Moved d (Leaving ErrOther)
      end
  | Sending p => in_driver d (Moved (d <| handed := handed d ++ [p] |>) (Leaving Written))
  | Leaving o => match readers d with O => Fault | S n => Moved (d <| readers := n |>) (Returned o) end
  | Returned _ => Blocked
  | AtOnce =>
      match closeOnce d with
      | NotYet => Moved (d <| closeOnce := Running |>) Yielding
      | Running => Blocked
      | Over => Moved d (Returned Closed)
      end
  | Yielding => Moved d Marking
  | Marking => Moved (d <| closing := true |>) Locking
  | Locking => match mu d with Free => Moved (d <| mu := Pending |>) Acquiring | _ => Blocked end
  | Acquiring => if (readers d =? 0)%nat then Moved (d <| mu := Held |>) Ending else Blocked
  | Ending => in_driver d (Moved (d <| live := false |>) Removing)
  | Removing => if present d then Moved (d <| present := false |>) Unlocking else Fault
  | Unlocking => Moved (d <| mu := Free |>) Finishing
  | Finishing => Moved (d <| closeOnce := Over |>) (Returned Closed)
  end.

(** The pumps, and whoever writes or closes: any number of calls at once. *)
Record Adapter : Type := mkAdapterState { device : Device; calls : list call }.
#[export] Instance eta_Adapter : Settable Adapter := λ s, mkAdapterState (device s) (calls s).

Inductive act : Type :=
  | Reads | Writes (p : list Z) | Closes
  | Goes (i : nat) (a : answer).

Definition begins (c : call) (s : Adapter) : Adapter := s <| calls := calls s ++ [c] |>.
Definition act_on (x : act) (s : Adapter) : option Adapter :=
  match x with
  | Reads => Some (begins (Entering None) s)
  | Writes p => Some (begins (Entering (Some p)) s)
  | Closes => Some (begins AtOnce s)
  | Goes i a =>
      match calls s !! i with
      | None => Some s
      | Some c =>
          match step a c (device s) with
          | Moved d c => Some (mkAdapterState d (<[i := c]> (calls s)))
          | Blocked => Some s
          | Fault => None
          end
      end
  end.
Fixpoint run (acts : list act) (s : Adapter) : option Adapter :=
  match acts with
  | [] => Some s
  | x :: acts => match act_on x s with Some s => run acts s | None => None end
  end.
Definition start : Adapter := mkAdapterState opened [].
