(* ===== verification/AdapterProps.v ===== *)
(** The theorems of the virtual adapter: opening it, and that closing it waits for whoever
    is inside the driver and comes to its end. *)
From S2P Require Import Prelude Bytes NetAddr Adapter.

(** ** Opening *)

(** Opening leaves an adapter or nothing.  Whatever Windows answers, [Open] ends with the
    adapter up, at its address and with a session, or with an error and no adapter of its
    making; what was left over is gone if it could be closed.  Only a failure to set the
    MTU is passed over. *)
Theorem opening_leaves_an_adapter_or_nothing address mtu k existing : is_u32 mtu →
  let left := if on_leftover k then [] else option_list existing in
  match Open address mtu k existing with
  | (inr a, now) => now = left ++ [a] ∧ a_address a = Some address ∧ a_session a = true
      ∧ on_create k = Created ∧ on_assign k = true ∧ on_start k = true
      ∧ a_mtu a = (if on_interface k && on_mtu k then Some mtu else None)
  | (inl err, now) => now = left ∧ (on_create k ≠ Created ∨ on_assign k = false ∨ on_start k = false)
      ∧ (err = ErrNeedsAdmin ↔ on_create k = AccessDenied)
  end.
Proof.
  intros Hm. cbv zeta. unfold Open. rewrite (u32_id mtu Hm). destruct (on_create k) eqn:Ec; cbn; try (split_and!; [done|by left|by split]).
  destruct (on_assign k) eqn:Ea; cbn; [|split_and!; [done|by right; left|by split]].
  destruct (on_start k) eqn:Es; cbn; [by split_and!|split_and!; [done|by right; right|by split]].
Qed.

(** ** Who is where *)

(** Inside the read lock; inside the driver, or between two calls of it; inside the once. *)
Definition holding (c : call) : bool :=
  match c with Looking _ | Receiving | Waiting | Asking | Sleeping | Allocating _ | Sending _ | Leaving _ => true | _ => false end.
Definition driving (c : call) : bool :=
  match c with Receiving | Waiting | Asking | Sleeping | Allocating _ | Sending _ => true | _ => false end.
Definition inside (c : call) : bool :=
  match c with Yielding | Marking | Locking | Acquiring | Ending | Removing | Unlocking | Finishing => true | _ => false end.

(** What the closing goroutine has done when it is at [c]. *)
Definition done_by (c : call) (d : Device) : Prop :=
  match c with
  | Yielding | Marking => mu d = Free ∧ closing d = false ∧ live d = true ∧ present d = true
  | Locking => mu d = Free ∧ closing d = true ∧ live d = true ∧ present d = true
  | Acquiring => mu d = Pending ∧ closing d = true ∧ live d = true ∧ present d = true
  | Ending => mu d = Held ∧ closing d = true ∧ live d = true ∧ present d = true
  | Removing => mu d = Held ∧ closing d = true ∧ live d = false ∧ present d = true
  | Unlocking => mu d = Held ∧ closing d = true ∧ live d = false ∧ present d = false
  | Finishing => mu d = Free ∧ closing d = true ∧ live d = false ∧ present d = false
  | _ => False
  end.
Definition closers_ok (d : Device) (closers : list call) : Prop :=
  match closeOnce d, closers with
  | NotYet, [] => mu d = Free ∧ closing d = false ∧ live d = true ∧ present d = true
  | Running, [c] => done_by c d
  | Over, [] => mu d = Free ∧ closing d = true ∧ live d = false ∧ present d = false
  | _, _ => False
  end.

Record adapter_wf (d : Device) (l : list call) : Prop := mkAdapterWf {
  aw_readers : readers d = length (filter holding l);
  aw_closers : closers_ok d (filter inside l);
  aw_held : mu d = Held → readers d = 0%nat;
  aw_gone : live d = false → filter driving l = [];
}.

Lemma closers_ok_perm d l l' : l ≡ₚ l' → closers_ok d l → closers_ok d l'.
Proof.
  unfold closers_ok. intros Hp. destruct (closeOnce d), l as [|c [|? ?]]; try done.
  - apply Permutation_nil in Hp as ->. done.
  - apply Permutation_length_1_inv in Hp as ->. done.
  - apply Permutation_nil in Hp as ->. done.
Qed.

Lemma adapter_wf_perm d l l' : l ≡ₚ l' → adapter_wf d l → adapter_wf d l'.
Proof.
  intros Hp [H1 H2 H3 H4]. split; [by rewrite H1, Hp|eapply closers_ok_perm; [|exact H2]; by rewrite Hp|done|].
  intros Hl. specialize (H4 Hl). apply Permutation_nil. by rewrite <-H4, Hp.
Qed.

Lemma filter_bool {A} (p : A → bool) x l : filter p (x :: l) = if p x then x :: filter p l else filter p l.
Proof. rewrite filter_cons. case_decide as H; destruct (p x); first [done|by destruct H|by destruct (H I)]. Qed.

Lemma nobody_holds d l : adapter_wf d l → readers d = 0%nat → filter driving l = [].
Proof.
  intros [H1 _ _ _] H0. rewrite H0 in H1. symmetry in H1. apply length_zero_iff_nil in H1.
  induction l as [|c l IH]; [done|]. rewrite filter_bool in *. destruct c; cbn in *; try done; by apply IH.
Qed.

Lemma calls_at s i c : calls s !! i = Some c → ∃ rest, calls s ≡ₚ c :: rest ∧ ∀ c', <[i := c']> (calls s) ≡ₚ c' :: rest.
Proof.
  intros Hi. exists (delete i (calls s)). split; [by apply delete_Permutation|]. intros c'.
  rewrite insert_take_drop by (by eapply lookup_lt_Some). rewrite delete_take_drop. symmetry. by apply Permutation_middle.
Qed.

(** ** One step *)

Lemma step_ok a c rest d : adapter_wf d (c :: rest) →
  match step a c d with Moved d' c' => adapter_wf d' (c' :: rest) | Blocked => True | Fault => False end.
Proof.
  intros Hwf. pose proof (nobody_holds d _ Hwf) as Hnone. destruct Hwf as [H1 H2 H3 H4]. rewrite !filter_bool in *.
  destruct d as [m n cl o lv pr hd]. unfold closers_ok in *. cbn in *.
  destruct c; cbn in *; unfold in_driver; cbn.
  all: try (destruct lv; cbn; [|by specialize (H4 eq_refl)]).
  all: try (destruct a; split; rewrite ?filter_bool; done).
  all: destruct o, (filter (λ x, inside x) rest) as [|x [|? ?]] eqn:Ei; try done; cbn in H2; destruct_and?; subst.
  all: repeat case_match; try done; simplify_eq; bool_lia; subst.
  all: try (split; unfold closers_ok; rewrite ?filter_bool; cbn; rewrite ?Ei; cbn; first [done|by auto|congruence|idtac]).
  1,2: intros ->; destruct x; cbn in H2; by destruct_and?.
  intros ->. by specialize (H3 eq_refl).
Qed.

Lemma adapter_step_wf s i a c : calls s !! i = Some c → adapter_wf (device s) (calls s) →
  match step a c (device s) with Moved d c' => adapter_wf d (<[i := c']> (calls s)) | Blocked => True | Fault => False end.
Proof.
  intros Hi Hwf. destruct (calls_at s i c Hi) as (rest & Hp & Hp'). apply (adapter_wf_perm _ _ _ Hp) in Hwf.
  pose proof (step_ok a c rest (device s) Hwf) as Hs. destruct (step a c (device s)) as [d c'| |]; [|done..].
  eapply adapter_wf_perm; [symmetry; apply Hp'|exact Hs].
Qed.

Lemma begins_wf c s : holding c = false → inside c = false → driving c = false → adapter_wf (device s) (calls s) →
  adapter_wf (device (begins c s)) (calls (begins c s)).
Proof.
  intros E1 E2 E3 [H1 H2 H3 H4]. eapply adapter_wf_perm; [cbn; apply Permutation_app_comm|]. cbn. split; rewrite ?filter_bool, ?E1, ?E2, ?E3; done.
Qed.

Lemma act_wf x s : adapter_wf (device s) (calls s) → ∃ s', act_on x s = Some s' ∧ adapter_wf (device s') (calls s').
Proof.
  intros Hs. destruct x as [|p| |i a]; cbn [act_on]; [eexists; split; [done|by apply begins_wf]..|].
  destruct (calls s !! i) as [c|] eqn:Ei; [|by exists s]. pose proof (adapter_step_wf s i a c Ei Hs) as Hw.
  destruct (step a c (device s)); [by eexists|by exists s|done].
Qed.
Lemma run_from_wf acts s : adapter_wf (device s) (calls s) → ∃ s', run acts s = Some s' ∧ adapter_wf (device s') (calls s').
Proof.
  revert s. induction acts as [|x acts IH]; intros s Hs; cbn [run]; [by exists s|].
  destruct (act_wf x s Hs) as (s1 & -> & Hs1). by apply IH.
Qed.
Lemma start_wf : adapter_wf (device start) (calls start).
Proof. by split. Qed.
Lemma ran_wf acts s : run acts start = Some s → adapter_wf (device s) (calls s).
Proof. intros Hr. destruct (run_from_wf acts start start_wf) as (s' & E & Hs). congruence. Qed.

(** C14: closing the adapter waits for whoever is inside the driver.  Any number of reads,
    writes and closes at once, whatever the driver answers them: none of them calls into a
    driver whose session has ended, the session is ended once and the adapter closed once,
    and nobody is inside the driver when that happens. *)
Theorem closing_waits_for_whoever_is_inside acts : ∃ s, run acts start = Some s ∧ adapter_wf (device s) (calls s)
  ∧ (live (device s) = false → filter driving (calls s) = []).
Proof.
  destruct (run_from_wf acts start start_wf) as (s & Hr & Hs). exists s. split; [done|]. split; [done|]. apply (aw_gone _ _ Hs).
Qed.

(** ** Coming to an end *)

(** What a call has left once the adapter is closing. *)
Definition left_of (c : call) : nat :=
  match c with
  | Locking => 6 | Acquiring => 5 | Ending => 4 | Removing => 3 | Unlocking => 2 | Finishing => 1
  | Asking => 4 | Receiving | Sleeping | Allocating _ | Entering _ => 3
  | Looking _ | Waiting | Sending _ => 2
  | Leaving _ | AtOnce => 1
  | Yielding | Marking => 8
  | Returned _ => 0
  end.
Definition left_to_do (s : Adapter) : nat := sum_list_with left_of (calls s).

(** One step that is taken. *)
Definition moves (x : nat * answer) (s : Adapter) : option Adapter :=
  c ← calls s !! x.1;
  match step x.2 c (device s) with Moved d c' => Some (mkAdapterState d (<[x.1 := c']> (calls s))) | _ => None end.

Lemma adapter_step_does a c rest d d' c' : adapter_wf d (c :: rest) → closing d = true → step a c d = Moved d' c' →
  closing d' = true ∧ (left_of c' < left_of c)%nat.
Proof.
  intros [_ H2 _ _] Hc. unfold closers_ok in H2. rewrite filter_bool in H2.
  destruct c; cbn [step]; unfold in_driver; rewrite ?Hc; repeat case_match; intros; simplify_eq/=; try (split; [done|lia]).
  all: exfalso; cbn in *; repeat case_match; try done; cbn in *; destruct_and?; congruence.
Qed.

Lemma sum_list_with_perm {A} (f : A → nat) l l' : l ≡ₚ l' → sum_list_with f l = sum_list_with f l'.
Proof. induction 1; cbn; lia. Qed.

Lemma moves_does x s s' : (adapter_wf (device s) (calls s) ∧ closing (device s) = true) → moves x s = Some s' →
  (adapter_wf (device s') (calls s') ∧ closing (device s') = true) ∧ (left_to_do s' < left_to_do s)%nat.
Proof.
  destruct x as [i a]. intros [Hwf Hc]. unfold moves. cbn [fst snd]. destruct (calls s !! i) as [c|] eqn:Ei; [cbn|done].
  pose proof (adapter_step_wf s i a c Ei Hwf) as Hw. destruct (step a c (device s)) as [d c'| |] eqn:Es; [|done..]. intros [= <-]. cbn.
  destruct (calls_at s i c Ei) as (rest & Hp & Hp'). pose proof (adapter_wf_perm _ _ _ Hp Hwf) as Hwf'.
  destruct (adapter_step_does a c rest _ d c' Hwf' Hc Es) as [Hc' Hlt]. split; [done|]. unfold left_to_do. cbn.
  rewrite (sum_list_with_perm _ _ _ Hp), (sum_list_with_perm _ _ _ (Hp' c')). cbn. lia.
Qed.

(** The adapter is down and every call has returned. *)
Definition down (s : Adapter) : Prop :=
  live (device s) = false ∧ present (device s) = false ∧ closeOnce (device s) = Over ∧ Forall (λ c, ∃ o, c = Returned o) (calls s).

Lemma can_move s i c : calls s !! i = Some c → (∃ a d c', step a c (device s) = Moved d c') → ∃ x s', moves x s = Some s'.
Proof. intros Hi (a & d & c' & Hs). exists (i, a). unfold moves. cbn. rewrite Hi. cbn. rewrite Hs. by eexists. Qed.

(** Who is inside the read lock never waits. *)
Lemma holder_moves d c rest : adapter_wf d (c :: rest) → holding c = true → ∃ a d' c', step a c d = Moved d' c'.
Proof.
  intros [H1 _ _ H4] Hh. rewrite filter_bool, Hh in H1. cbn in H1.
  assert (live d = false → driving c = false) as Hl by (intros E; specialize (H4 E); rewrite filter_bool in H4; by revert H4; destruct (driving c)).
  exists (match c with Allocating _ => RingFull | Sleeping => TimedOut | _ => NoMoreItems end).
  destruct c; try done; cbn in *; unfold in_driver; try (destruct (live d); [|by specialize (Hl eq_refl)]); try (by eauto);
    try (destruct (closing d); by eauto). rewrite H1. by eauto.
Qed.

Lemma closer_moves d c rest : adapter_wf d (c :: rest) → inside c = true → readers d = 0%nat → ∃ a d' c', step a c d = Moved d' c'.
Proof.
  intros [_ H2 _ _] Hi H0. unfold closers_ok in H2. rewrite filter_bool, Hi in H2. exists Failed.
  destruct (closeOnce d), (filter inside rest); try done. destruct c; try done; cbn in *; destruct_and?; unfold in_driver;
    repeat match goal with E : _ d = _ |- _ => rewrite E end; cbn; eauto.
Qed.

Lemma closing_moves s : adapter_wf (device s) (calls s) → closing (device s) = true → down s ∨ ∃ x s', moves x s = Some s'.
Proof.
  intros Hwf Hc. destruct (decide (Forall (λ c, holding c = false) (calls s))) as [Hh|Hh].
  2:{ right. apply not_Forall_Exists in Hh; [|solve_decision]. apply Exists_exists in Hh as (c & Hin & Hh). apply not_false_is_true in Hh.
      apply list_elem_of_lookup in Hin as [i Hi]. destruct (calls_at s i c Hi) as (rest & Hp & _). apply (can_move s i c Hi).
      eapply holder_moves; [by eapply adapter_wf_perm|done]. }
  assert (readers (device s) = 0%nat) as H0.
  { rewrite (aw_readers _ _ Hwf). clear -Hh. induction Hh as [|c l E _ IH]; [done|]. by rewrite filter_bool, E. }
  destruct (decide (Forall (λ c, inside c = false) (calls s))) as [Hi|Hi].
  2:{ right. apply not_Forall_Exists in Hi; [|solve_decision]. apply Exists_exists in Hi as (c & Hin & Hi). apply not_false_is_true in Hi.
      apply list_elem_of_lookup in Hin as [i Hl]. destruct (calls_at s i c Hl) as (rest & Hp & _). apply (can_move s i c Hl).
      eapply closer_moves; [by eapply adapter_wf_perm|done..]. }
  assert (filter inside (calls s) = []) as Hn by (clear -Hi; induction Hi as [|c l E _ IH]; [done|by rewrite filter_bool, E]).
  pose proof (aw_closers _ _ Hwf) as Hcl. unfold closers_ok in Hcl. rewrite Hn in Hcl.
  destruct (closeOnce (device s)) eqn:Eo; [by destruct Hcl as (_ & ? & _); congruence|done|]. destruct Hcl as (Em & _ & El & Ep).
  destruct (decide (Forall (λ c, left_of c = 0%nat) (calls s))) as [Hz|Hz].
  { left. split_and!; try done. eapply Forall_impl; [exact Hz|]. intros []; try done. by eexists. }
  right. apply not_Forall_Exists in Hz; [|solve_decision]. apply Exists_exists in Hz as (c & Hin & Hz).
  rewrite Forall_forall in Hh, Hi. pose proof (Hh c Hin). pose proof (Hi c Hin). apply list_elem_of_lookup in Hin as [i Hl].
  apply (can_move s i c Hl). exists Failed. destruct c; cbn in *; try done; rewrite ?Em, ?Eo; by eauto.
Qed.

(** C15: closing the adapter comes to its end.  Once a close has begun, and nobody calls
    any more, the goroutines on the adapter take no more than [left_to_do] steps, in
    whatever order they run and whatever the driver answers; and until all have returned
    and the session and the adapter are gone, one of them can go on. *)
Theorem closing_comes_to_its_end acts s steps s' : run acts start = Some s → closing (device s) = true → goes moves steps s = Some s' →
  (length steps ≤ left_to_do s)%nat ∧ (down s' ∨ ∃ x s'', moves x s' = Some s'').
Proof.
  intros Hr Hc Hg. pose proof (ran_wf acts s Hr) as Hwf.
  destruct (goes_bounded moves _ left_to_do moves_does steps s s' (conj Hwf Hc) Hg) as [[Hwf' Hc'] Hle].
  split; [lia|by apply closing_moves].
Qed.

(** A read inside the driver, a write on its way and two closes. *)
Definition busy : list act :=
  [Reads; Writes [7]; Closes; Closes; Goes 0 Room; Goes 0 Room; Goes 1 Room; Goes 2 Room; Goes 2 Room; Goes 2 Room; Goes 2 Room].
Definition last_steps : list (nat * answer) := [(0%nat, NoMoreItems); (0%nat, Going); (0%nat, Going); (1%nat, Room); (1%nat, Room)].
Lemma closing_comes_to_its_end_witness : ∃ s s', run busy start = Some s ∧ closing (device s) = true ∧ goes moves last_steps s = Some s'
  ∧ (length last_steps ≤ left_to_do s)%nat.
Proof.
  destruct (run busy start) as [s|] eqn:Er; [|discriminate Er]. destruct (goes moves last_steps s) as [s'|] eqn:Eg.
  2:{ exfalso. injection Er as <-. discriminate Eg. }
  assert (closing (device s) = true) as Hc by (injection Er as <-; reflexivity).
  exists s, s'. split; [reflexivity|]. split; [exact Hc|]. split; [exact Eg|].
  exact (proj1 (closing_comes_to_its_end busy s last_steps s' Er Hc Eg)).
Defined.
