(* ===== verification/Firewall.v ===== *)
(** The firewall rules of the virtual network: daemon/tun/firewall_windows.go.

    netsh is the class [Netsh]: a command line, and whether it worked.  [NetshLaws] is what
    it is documented to do to the machine's rules. *)
From S2P Require Import Prelude Bytes.

Definition firewallRule : gostring := str "192168 virtual network".

Class Netsh : Type := {
  Host : Type;
  netsh : list gostring → st Host bool;
}.

Inductive log_line : Type := Opened (subnet : gostring) | RulesRemoved | RulesNotRemoved.

Section firewall.
Context {F : Netsh}.

Definition runNetsh (args : list gostring) : st Host bool := netsh args.

Definition removeFirewallRules : st Host bool :=
  runNetsh [str "advfirewall"; str "firewall"; str "delete"; str "rule"; str "name=" ++ firewallRule].

Definition rule (subnet direction : gostring) : list gostring :=
  [str "advfirewall"; str "firewall"; str "add"; str "rule"; str "name=" ++ firewallRule; str "dir=" ++ direction;
   str "action=allow"; str "remoteip=" ++ subnet; str "profile=any"].

(** Which direction could not be allowed, or none. *)
Fixpoint allow_all (directions : list gostring) (subnet : gostring) : st Host (option gostring) :=
  match directions with
  | [] => mret None
  | direction :: directions =>
      ok ← runNetsh (rule subnet direction);
      if (ok : bool) then allow_all directions subnet else mret (Some direction)
  end.

Definition AllowSubnet (subnet : gostring) : st Host (option gostring * list log_line) :=
  _ ← removeFirewallRules;
  failed ← allow_all [str "in"; str "out"] subnet;
  mret (failed, match failed with None => [Opened subnet] | Some _ => [] end).

Definition BlockSubnet : st Host (list log_line) :=
  ok ← removeFirewallRules;
  mret [if (ok : bool) then RulesRemoved else RulesNotRemoved].
End firewall.

(** The rules there are: a name, and the rest of what added them. *)
Class NetshLaws (F : Netsh) : Type := {
  rules : Host → list (gostring * list gostring);
  add_rule h name rest : let '(ok, h') := netsh (str "advfirewall" :: str "firewall" :: str "add" :: str "rule" :: (str "name=" ++ name) :: rest) h in
    rules h' = if (ok : bool) then rules h ++ [(name, rest)] else rules h;
  delete_rule h name : let '(ok, h') := netsh [str "advfirewall"; str "firewall"; str "delete"; str "rule"; str "name=" ++ name] h in
    rules h' = if (ok : bool) then filter (λ r, r.1 ≠ name) (rules h) else rules h;
}.

Section laws.
Context {F : Netsh} {L : NetshLaws F}.

Definition ours (h : Host) : list (gostring * list gostring) := filter (λ r, r.1 = firewallRule) (rules h).
Definition others (h : Host) : list (gostring * list gostring) := filter (λ r, r.1 ≠ firewallRule) (rules h).
Definition allowing (subnet direction : gostring) : gostring * list gostring := (firewallRule, drop 5 (rule subnet direction)).

Lemma remove_rules h : let '(ok, h') := removeFirewallRules h in
  others h' = others h ∧ ours h' = if (ok : bool) then [] else ours h.
Proof.
  unfold removeFirewallRules, runNetsh. pose proof (delete_rule h firewallRule) as Hd. destruct (netsh _ h) as [ok h']. unfold others, ours. rewrite Hd.
  destruct ok; [|done]. clear Hd. split.
  - induction (rules h) as [|r l IH]; [done|]. destruct (decide (r.1 = firewallRule)) as [E|E].
    + rewrite (filter_cons_False _ r l) by tauto. exact IH.
    + rewrite (filter_cons_True _ r l), filter_cons_True by done. by rewrite IH.
  - induction (rules h) as [|r l IH]; [done|]. destruct (decide (r.1 = firewallRule)) as [E|E].
    + rewrite (filter_cons_False _ r l) by tauto. exact IH.
    + rewrite (filter_cons_True _ r l), filter_cons_False by done. exact IH.
Qed.

Lemma allow_one h subnet direction : let '(ok, h') := runNetsh (rule subnet direction) h in
  others h' = others h ∧ ours h' = if (ok : bool) then ours h ++ [allowing subnet direction] else ours h.
Proof.
  unfold runNetsh, rule. pose proof (add_rule h firewallRule (drop 5 (rule subnet direction))) as Ha. cbn [drop rule] in Ha.
  destruct (netsh _ h) as [ok h']. unfold others, ours. rewrite Ha. destruct ok; [|done]. rewrite !filter_app. split.
  - rewrite (filter_cons_False _ _ []), filter_nil, app_nil_r; [done|]. cbn. by intros [].
  - by rewrite (filter_cons_True _ _ []), filter_nil.
Qed.

(** The firewall is opened to the group and to nobody else.  Allowing a subnet touches
    no rule but the program's own; when it says it worked they allow that subnet in and
    out, after whatever rules could not be taken away before, and when the removal worked
    or there were none they are those two and no more.  Blocking leaves none of them, or
    says so. *)
Theorem the_firewall_is_opened_to_the_group_only subnet h :
  let '((failed, said), h') := AllowSubnet subnet h in
  others h' = others h
  ∧ (failed = None → said = [Opened subnet]
       ∧ (ours h' = [allowing subnet (str "in"); allowing subnet (str "out")]
          ∨ (removeFirewallRules h).1 = false ∧ ours h' = ours h ++ [allowing subnet (str "in"); allowing subnet (str "out")]))
  ∧ let '(said', h'') := BlockSubnet h' in
    others h'' = others h ∧ (said' = [RulesRemoved] ∧ ours h'' = [] ∨ said' = [RulesNotRemoved] ∧ ours h'' = ours h').
Proof.
  unfold AllowSubnet, BlockSubnet, allow_all, mbind, st_bind, mret, st_ret. generalize (str "in") (str "out"). intros din dout.
  pose proof (remove_rules h) as H0. destruct (removeFirewallRules h) as [ok0 h0]. destruct H0 as [H0 H0'].
  pose proof (allow_one h0 subnet din) as H1. destruct (runNetsh (rule subnet din) h0) as [ok1 h1]. destruct H1 as [H1 H1'].
  assert (∀ hb, others hb = others h → let '(said', h'') := (let '(a, s') := removeFirewallRules hb in ([if (a : bool) then RulesRemoved else RulesNotRemoved], s')) in
    others h'' = others h ∧ (said' = [RulesRemoved] ∧ ours h'' = [] ∨ said' = [RulesNotRemoved] ∧ ours h'' = ours hb)) as Hblock.
  { intros hb Hb. pose proof (remove_rules hb) as Hr. destruct (removeFirewallRules hb) as [ok h'']. destruct Hr as [Hr Hr'].
    split; [congruence|]. destruct ok; auto. }
  destruct ok1; cbn.
  2:{ split; [congruence|]. split; [done|]. apply Hblock. congruence. }
  pose proof (allow_one h1 subnet dout) as H2. destruct (runNetsh (rule subnet dout) h1) as [ok2 h2]. destruct H2 as [H2 H2'].
  destruct ok2; cbn; (split; [congruence|]); (split; [|apply Hblock; congruence]); [|done].
  intros _. split; [done|]. rewrite H2', H1', H0'. destruct ok0; [by left|right]. split; [done|]. by rewrite <-(assoc_L (++)).
Qed.
End laws.

(** A firewall that is the list of its rules; deleting fails when none has the name. *)
Module Wall.
Definition prefix : gostring := str "name=".
Definition step (args : list gostring) (h : list (gostring * list gostring)) : bool * list (gostring * list gostring) :=
  match args with
  | _ :: _ :: verb :: _ :: named :: rest =>
      let name := drop (length prefix) named in
      if bool_decide (verb = str "add") then (true, h ++ [(name, rest)]) else
      if existsb (λ r, bool_decide (r.1 = name)) h then (true, filter (λ r, r.1 ≠ name) h) else (false, h)
  | _ => (false, h)
  end.
#[local] Instance netsh : Netsh := {| Host := list (gostring * list gostring); Firewall.netsh := step |}.
#[local] Instance laws : NetshLaws netsh.
Proof.
  refine {| rules := λ h : @Host netsh, h |}.
  - intros h name rest. cbn [Firewall.netsh netsh step]. rewrite bool_decide_eq_true_2 by done. by rewrite drop_app_length.
  - intros h name. cbn [Firewall.netsh netsh step]. rewrite bool_decide_eq_false_2 by done. rewrite drop_app_length. by destruct (existsb _ h).
Defined.
End Wall.

Lemma the_firewall_is_opened_to_the_group_only_witness :
  let h : @Host Wall.netsh := [(str "another", [str "dir=in"]); (firewallRule, [str "dir=in"; str "remoteip=10.0.0.0/24"])] in
  let '((failed, said), h') := @AllowSubnet Wall.netsh (str "10.69.0.0/24") h in
  @others Wall.netsh Wall.laws h' = @others Wall.netsh Wall.laws h
  ∧ (failed = None → said = [Opened (str "10.69.0.0/24")]
       ∧ (@ours Wall.netsh Wall.laws h' = [allowing (str "10.69.0.0/24") (str "in"); allowing (str "10.69.0.0/24") (str "out")]
          ∨ (@removeFirewallRules Wall.netsh h).1 = false
            ∧ @ours Wall.netsh Wall.laws h' = @ours Wall.netsh Wall.laws h ++ [allowing (str "10.69.0.0/24") (str "in"); allowing (str "10.69.0.0/24") (str "out")]))
  ∧ let '(said', h'') := @BlockSubnet Wall.netsh h' in
    @others Wall.netsh Wall.laws h'' = @others Wall.netsh Wall.laws h
    ∧ (said' = [RulesRemoved] ∧ @ours Wall.netsh Wall.laws h'' = [] ∨ said' = [RulesNotRemoved] ∧ @ours Wall.netsh Wall.laws h'' = @ours Wall.netsh Wall.laws h').
Proof. intros h. exact (@the_firewall_is_opened_to_the_group_only Wall.netsh Wall.laws (str "10.69.0.0/24") h). Defined.
