(* ===== verification/Service.v ===== *)
(** The Windows service: daemon/service/service_windows.go.

    First [Execute], the loop between the Service Control Manager and the daemon, as a
    function of the events its select takes in turn.  Then the commands that register the
    service and start and stop it, over the class [Manager] of what the Windows packages
    do; a command keeps count of the handles it has open and of what it was told of the
    service. *)
From S2P Require Import Prelude.

Inductive svc_state : Type := Stopped | StartPending | StopPending | Running | ContinuePending | PausePending | Paused.
#[export] Instance svc_state_eq_dec : EqDecision svc_state.
Proof. solve_decision. Defined.

(** ** Being a service *)

Inductive command : Type := Interrogate (current : svc_state) | StopCmd | Shutdown | OtherCmd.

(** The next thing in one of the channels: a request, or that the work has returned. *)
Inductive incoming : Type := Request (c : command) | Finished (failed : bool).

(** What the manager has been told, whether the context was cancelled, and what was
    returned once it is over: the exit code. *)
Record executing : Type := mkExecuting { statuses : list svc_state; cancelled : bool; returned : option Z }.

Definition exit_code (failed : bool) : Z := if failed then 1 else 0.

(** [<-failed] after a stop: requests are not read any more. *)
Fixpoint await_work (said : list svc_state) (evs : list incoming) : executing :=
  match evs with
  | [] => mkExecuting said true None
  | Finished failed :: _ => mkExecuting said true (Some (exit_code failed))
  | Request _ :: evs => await_work said evs
  end.

Fixpoint execute_loop (said : list svc_state) (evs : list incoming) : executing :=
  match evs with
  | [] => mkExecuting said false None
  | Request (Interrogate current) :: evs => execute_loop (said ++ [current]) evs
  | Request StopCmd :: evs | Request Shutdown :: evs => await_work (said ++ [StopPending]) evs
  | Request OtherCmd :: evs => execute_loop said evs
  | Finished failed :: _ => mkExecuting (said ++ [StopPending]) true (Some (exit_code failed))
  end.

Definition Execute (evs : list incoming) : executing := execute_loop [StartPending; Running] evs.

(** ** Managing it *)

Inductive opening : Type := Opened | DoesNotExist | CannotOpen.

Class Manager : Type := {
  SCM : Type;
  Executable : st SCM bool;
  ConnectManager : st SCM bool;
  OpenService : st SCM opening;
  CreateService : st SCM bool;
  DeleteService : st SCM bool;
  QueryService : st SCM (option svc_state);
  StartService : st SCM bool;
  ControlStop : st SCM bool;
  (** Reading the string, the list in it, and setting it. *)
  ParseDescriptor : st SCM bool;
  ReadDACL : st SCM bool;
  SetSecurityInfo : st SCM bool;
  (** In milliseconds. *)
  Now : st SCM Z;
  Sleep : Z → st SCM unit;
}.

Inductive service_error : Type :=
  | NoExecutable | NoManager | AlreadyInstalled | NotCreated | NotApplied | NotOpened | NotThere | NotQueried | NotStarted
  | NotStopped | NotDeleted | NotRemoved | TooLate | OutOfFuel.

Inductive State : Type := StateAbsent | StateStopped | StateRunning | StatePending.

Section commands.
Context {W : Manager}.

Record Command : Type := mkCommand {
  scm : SCM;
  managers : Z;
  services : Z;
  (** The answers of the queries, the last first. *)
  told : list (option svc_state);
}.
#[export] Instance eta_Command : Settable Command := λ c, mkCommand (scm c) (managers c) (services c) (told c).
Abbreviation R A := (st Command (service_error + A)).

Definition ask {A} (m : st SCM A) : st Command A := λ c, let '(a, w) := m (scm c) in (a, c <| scm := w |>).
Definition must (e : service_error) (m : st SCM bool) : R unit :=
  ok ← ask m; mret (if (ok : bool) then inr tt else inl e).
Definition held (dm ds : Z) : st Command unit := st_modify (λ c, c <| managers := managers c + dm |> <| services := services c + ds |>).
(** [defer]: what is done when the rest has returned. *)
Definition afterwards {A} (m : st Command A) (f : st Command unit) : st Command A := a ← m; _ ← f; mret a.
Definition Query : R svc_state :=
  r ← ask QueryService;
  _ ← st_modify (λ c, c <| told := r :: told c |>);
  mret (match r with Some s => inr s | None => inl NotQueried end).

Definition applyAccessControl : R unit :=
  _ ←~ must NotApplied ParseDescriptor;
  _ ←~ must NotApplied ReadDACL;
  must NotApplied SetSecurityInfo.

Definition connected {A} (k : R A) : R A :=
  _ ←~ must NoManager ConnectManager;
  _ ← held 1 0;
  afterwards k (held (-1) 0).
Definition with_service {A} (k : R A) : R A :=
  _ ← held 0 1;
  afterwards k (held 0 (-1)).

Definition Install : R unit :=
  _ ←~ must NoExecutable Executable;
  connected (
    existing ← ask OpenService;
    match existing with
    | Opened => _ ← held 0 1; _ ← held 0 (-1); mret (inl AlreadyInstalled)
    | _ =>
        _ ←~ must NotCreated CreateService;
        with_service (
          applied ← applyAccessControl;
          match applied with
          | inl err => _ ← ask DeleteService; mret (inl err)
          | inr _ => mret (inr tt)
          end)
    end).

(** [wait] is its deadline of 30 seconds; a round takes 300 milliseconds or more. *)
Fixpoint await_until (fuel : nat) (deadline : Z) (want : svc_state) : R unit :=
  now ← ask Now;
  if negb (now <? deadline) then mret (inl TooLate) else
  match fuel with
  | O => mret (inl OutOfFuel)
  | S fuel =>
      s ←~ Query;
      if bool_decide (s = want) then mret (inr tt) else
      _ ← ask (Sleep 300);
      await_until fuel deadline want
  end.
Definition rounds : nat := 100.
Definition await (want : svc_state) : R unit :=
  now ← ask Now;
  await_until rounds (now + 30000) want.

Definition stop : R unit :=
  s ←~ Query;
  if bool_decide (s = Stopped) then mret (inr tt) else
  _ ←~ must NotStopped ControlStop;
  await Stopped.

(** [removeAdapter] is the caller's. *)
Definition Uninstall (removeAdapter : R unit) : R unit :=
  connected (
    existing ← ask OpenService;
    match existing with
    | Opened =>
        with_service (
          _ ←~ stop;
          _ ←~ removeAdapter;
          must NotDeleted DeleteService)
    | _ => removeAdapter
    end).

(** [open] gives both handles to the caller, which defers closing them. *)
Definition opened {A} (k : R A) : R A :=
  _ ←~ must NoManager ConnectManager;
  _ ← held 1 0;
  existing ← ask OpenService;
  match existing with
  | Opened => _ ← held 0 1; afterwards (afterwards k (held 0 (-1))) (held (-1) 0)
  | DoesNotExist => _ ← held (-1) 0; mret (inl NotThere)
  | CannotOpen => _ ← held (-1) 0; mret (inl NotOpened)
  end.

Definition Start : R unit :=
  opened (
    status ← Query;
    if (match status with inr s => bool_decide (s = Running) | inl _ => false end) then mret (inr tt) else
    _ ←~ must NotStarted StartService;
    await Running).

Definition Stop : R unit := opened stop.

Definition Status : R State :=
  r ← opened (
    s ←~ Query;
    mret (inr (match s with Running => StateRunning | Stopped => StateStopped | _ => StatePending end)));
  mret (match r with inl NotThere => inr StateAbsent | r => r end).
End commands.
