(* ===== verification/ServiceProps.v ===== *)
(** The theorems of the Windows service. *)
From S2P Require Import Prelude Service.

(** ** Being a service *)

(** What the work returned, if it did before the end of [evs]. *)
Fixpoint work_result (evs : list incoming) : option bool :=
  match evs with
  | [] => None
  | Finished failed :: _ => Some failed
  | Request _ :: evs => work_result evs
  end.
Fixpoint asked_to_stop (evs : list incoming) : bool :=
  match evs with
  | [] => false
  | Finished _ :: _ => false
  | Request StopCmd :: _ | Request Shutdown :: _ => true
  | Request _ :: evs => asked_to_stop evs
  end.

Lemma await_work_is said evs : await_work said evs = mkExecuting said true (exit_code <$> work_result evs).
Proof. by induction evs as [|[c|f] evs IH]; cbn. Qed.

(** The service is over when its work is.  It returns exactly when the daemon has,
    with 1 if that failed and 0 if not, whatever it was asked in the meantime; the daemon
    is told to stop exactly when it was asked to or has returned; and Windows hears that
    a stop is pending before the end and nothing after that. *)
Theorem the_service_is_over_when_its_work_is evs :
  let e := Execute evs in
  returned e = exit_code <$> work_result evs
  ∧ cancelled e = asked_to_stop evs || bool_decide (is_Some (work_result evs))
  ∧ ∃ heard, statuses e = StartPending :: Running :: heard ++ (if cancelled e then [StopPending] else []).
Proof.
  assert (∀ said, let e := execute_loop said evs in
    returned e = exit_code <$> work_result evs ∧ cancelled e = asked_to_stop evs || bool_decide (is_Some (work_result evs))
    ∧ ∃ heard, statuses e = said ++ heard ++ (if cancelled e then [StopPending] else [])) as Hl.
  { induction evs as [|[[c| | |]|f] evs IH]; intros said; cbn [execute_loop work_result asked_to_stop].
    - split; [done|]. split; [done|]. exists []. cbn. by rewrite app_nil_r.
    - destruct (IH (said ++ [c])) as (H1 & H2 & heard & H3). split; [done|]. split; [done|]. exists (c :: heard). by rewrite H3, <-app_assoc.
    - rewrite await_work_is. split; [done|]. split; [done|]. by exists [].
    - rewrite await_work_is. split; [done|]. split; [done|]. by exists [].
    - apply IH.
    - split; [done|]. split; [done|]. by exists []. }
  destruct (Hl [StartPending; Running]) as (H1 & H2 & heard & H3). split; [exact H1|]. split; [exact H2|]. exists heard. exact H3.
Qed.

(** ** Managing it *)
Section commands.
Context {W : Manager}.

(** The handles [m] leaves open are those it found. *)
Definition balanced {A} (m : st Command A) : Prop := ∀ c, managers (m c).2 = managers c ∧ services (m c).2 = services c.
Lemma balanced_ret {A} (a : A) : balanced (mret a).
Proof. done. Qed.
Lemma balanced_bind {A B} (m : st Command A) (f : A → st Command B) : balanced m → (∀ a, balanced (f a)) → balanced (m ≫= f).
Proof. intros Hm Hf c. rewrite st_bind_snd. destruct (Hm c), (Hf (m c).1 (m c).2). split; congruence. Qed.
Lemma balanced_try {A B} (m : st Command (service_error + A)) (f : A → st Command (service_error + B)) :
  balanced m → (∀ a, balanced (f a)) → balanced (st_try m f).
Proof. intros Hm Hf. apply balanced_bind; [done|]. intros [e|a]; [apply balanced_ret|apply Hf]. Qed.
Lemma balanced_ask {A} (m : st SCM A) : balanced (ask m).
Proof. intros c. unfold ask. by destruct (m (scm c)). Qed.
Lemma balanced_must e m : balanced (must e m).
Proof. apply balanced_bind; [apply balanced_ask|done]. Qed.
Lemma balanced_Query : balanced Query.
Proof. apply balanced_bind; [apply balanced_ask|]. intros r. apply balanced_bind; [done|]. by intros. Qed.
(** What is opened is closed, whatever [k] comes to. *)
Lemma balanced_around {A} dm ds (k : st Command A) : balanced k → balanced (_ ← held dm ds; afterwards k (held (- dm) (- ds))).
Proof.
  intros Hk c. unfold held, afterwards, st_modify, mbind, st_bind.
  match goal with |- context [k ?c1] => destruct (Hk c1) as [H1 H2]; destruct (k c1) as [a c2] end. cbn in *. split; lia.
Qed.
End commands.
#[export] Hint Resolve balanced_ret balanced_bind balanced_try balanced_ask balanced_must balanced_Query balanced_around : vlan.
Ltac balance := repeat (intros; first
  [ apply balanced_ask | apply balanced_must | apply balanced_Query | apply balanced_ret
  | apply balanced_try | apply balanced_bind | assumption | progress case_match ]).

Section handles.
Context {W : Manager}.
Lemma balanced_connected {A} (k : st Command (service_error + A)) : balanced k → balanced (connected k).
Proof. intros Hk. apply balanced_try; [apply balanced_must|]. intros _. by apply (balanced_around 1 0). Qed.
Lemma balanced_with_service {A} (k : st Command (service_error + A)) : balanced k → balanced (with_service k).
Proof. apply (balanced_around 0 1). Qed.
Lemma balanced_opened {A} (k : st Command (service_error + A)) : balanced k → balanced (opened k).
Proof.
  intros Hk. apply balanced_try; [apply balanced_must|]. intros _ c. unfold held, afterwards, st_modify, mbind, st_bind, ask.
  destruct (OpenService _) as [[] w]; cbn; try (split; lia).
  match goal with |- context [k ?c1] => destruct (Hk c1) as [H1 H2]; destruct (k c1) as [a c2] end. cbn in *. split; lia.
Qed.
Lemma balanced_await_until fuel deadline want : balanced (await_until fuel deadline want).
Proof. induction fuel as [|fuel IH]; cbn [await_until]; balance. Qed.
Lemma balanced_await want : balanced (await want).
Proof. apply balanced_bind; [apply balanced_ask|]. intros now. apply balanced_await_until. Qed.
Lemma balanced_stop : balanced stop.
Proof.
  apply balanced_try; [apply balanced_Query|]. intros s. case_match; [done|]. apply balanced_try; [apply balanced_must|].
  intros _. apply balanced_await.
Qed.

(** No command leaves a handle open.  Installing, uninstalling, starting, stopping and
    asking close every handle they open, on the manager and on the service, on each of
    their ways out. *)
Theorem no_handle_is_left_open (removeAdapter : st Command (service_error + unit)) : balanced removeAdapter →
  balanced Install ∧ balanced (Uninstall removeAdapter) ∧ balanced Start ∧ balanced Stop ∧ balanced Status.
Proof.
  intros Hr. split_and!.
  - apply balanced_try; [apply balanced_must|]. intros _. apply balanced_connected. apply balanced_bind; [apply balanced_ask|]. intros [].
    + intros c. unfold held, st_modify, mbind, st_bind. cbn. split; lia.
    + apply balanced_try; [apply balanced_must|]. intros _. apply balanced_with_service. unfold applyAccessControl. balance.
    + apply balanced_try; [apply balanced_must|]. intros _. apply balanced_with_service. unfold applyAccessControl. balance.
  - apply balanced_connected, balanced_bind; [apply balanced_ask|]. intros []; [|done..].
    apply balanced_with_service, balanced_try; [apply balanced_stop|]. intros _. balance.
  - apply balanced_opened, balanced_bind; [apply balanced_Query|]. intros status. destruct (match status with inr s => _ | _ => _ end); [done|].
    apply balanced_try; [apply balanced_must|]. intros _. apply balanced_await.
  - apply balanced_opened, balanced_stop.
  - apply balanced_bind; [apply balanced_opened; balance|]. balance.
Qed.
End handles.

(** ** Waiting *)

(** What the Windows packages are documented to do: time goes on, a sleep takes as long as
    it was asked to; opening a service says whether it is there, unless it cannot be
    opened; creating one registers one that was not there, deleting it takes it off, and
    nothing else does either. *)
Class ManagerView (W : Manager) : Type := { clock : SCM → Z; registered : SCM → bool }.
Definition passes `{V : ManagerView} {A} (m : st SCM A) : Prop := ∀ w, clock w ≤ clock (m w).2.
Definition leaves `{V : ManagerView} {A} (m : st SCM A) : Prop := ∀ w, registered (m w).2 = registered w.
Class ManagerLaws (W : Manager) {V : ManagerView W} : Prop := {
  now_is w : (Now w).1 = clock w;
  now_passes : passes Now;
  query_passes : passes QueryService;
  sleep_takes d w : clock w + d ≤ clock (Sleep d w).2;
  executable_leaves : leaves Executable;
  connect_leaves : leaves ConnectManager;
  open_leaves : leaves OpenService;
  open_says w : match (OpenService w).1 with
    | Opened => registered w = true
    | DoesNotExist => registered w = false
    | CannotOpen => True
    end;
  create_registers w : if (CreateService w).1 then registered w = false ∧ registered (CreateService w).2 = true
    else registered (CreateService w).2 = registered w;
  delete_removes w : registered (DeleteService w).2 = if (DeleteService w).1 then false else registered w;
  parse_leaves : leaves ParseDescriptor;
  read_leaves : leaves ReadDACL;
  set_leaves : leaves SetSecurityInfo;
}.

Section waiting.
Context {W : Manager} {V : ManagerView W} {L : ManagerLaws W}.

Lemma await_until_ends fuel deadline want c : deadline ≤ clock (scm c) + 300 * Z.of_nat fuel →
  let '(r, c') := await_until fuel deadline want c in
  r ≠ inl OutOfFuel ∧ (r = inr tt → head (told c') = Some (Some want)) ∧ (r = inl TooLate → deadline ≤ clock (scm c'))
  ∧ (length (told c') ≤ length (told c) + fuel)%nat.
Proof.
  revert c. induction fuel as [|fuel IH]; intros c Hd; cbn [await_until]; unfold st_try, Query, ask, mbind, st_bind;
    pose proof (now_is (scm c)) as Hn; pose proof (now_passes (scm c)) as Hp; destruct (Now (scm c)) as [now w1]; cbn in *; subst now;
    (destruct (Z.ltb_spec (clock (scm c)) deadline) as [Hlt|Hge]; cbn; [|split_and!; [done..|lia|lia]]); [lia|].
  pose proof (query_passes w1) as Hq. destruct (QueryService w1) as [[s|] w2]; cbn in *; [|split_and!; [done..|cbn; lia]].
  case_bool_decide as Es; cbn; [subst s; split_and!; [done..|cbn; lia]|].
  pose proof (sleep_takes 300 w2) as Hs. destruct (Sleep 300 w2) as [[] w3]. cbn in *.
  match goal with |- context [await_until fuel deadline want ?c3] => specialize (IH c3) end. cbn in IH.
  assert (deadline ≤ clock w3 + 300 * Z.of_nat fuel) as Hd' by lia. specialize (IH Hd').
  destruct (await_until _ _ _ _) as [r c']. destruct IH as (H1 & H2 & H3 & H4). split_and!; [done..|lia].
Qed.

Lemma await_ends want c : let '(r, c') := await want c in
  r ≠ inl OutOfFuel ∧ (r = inr tt → head (told c') = Some (Some want)) ∧ (r = inl TooLate → clock (scm c) + 30000 ≤ clock (scm c'))
  ∧ (length (told c') ≤ length (told c) + rounds)%nat.
Proof.
  unfold await, ask, mbind, st_bind. pose proof (now_is (scm c)) as Hn. pose proof (now_passes (scm c)) as Hp.
  destruct (Now (scm c)) as [now w1]. cbn [fst snd] in *. subst now.
  match goal with |- context [await_until rounds ?d want ?c1] => pose proof (await_until_ends rounds d want c1) as Hu; destruct (await_until rounds d want c1) as [r c'] end.
  apply Hu. change (clock (scm c) + 30000 ≤ clock w1 + 300 * Z.of_nat rounds). unfold rounds. lia.
Qed.

(** What [m] reports: it comes to an answer, and is content only when told [want]. *)
Definition reports (want : svc_state) (m : st Command (service_error + unit)) : Prop := ∀ c,
  (m c).1 ≠ inl OutOfFuel ∧ ((m c).1 = inr tt → head (told (m c).2) = Some (Some want)) ∧ (length (told (m c).2) ≤ S (length (told c) + rounds))%nat.

Ltac waiting :=
  lazymatch goal with |- context [await ?want ?c1] =>
    let Ha := fresh in pose proof (await_ends want c1) as Ha; destruct (await want c1); destruct_and? Ha; cbn in *; split_and!; [done..|lia]
  end.

Lemma reports_opened want k : reports want k → reports want (opened k).
Proof.
  intros Hk c. unfold opened, st_try, must, ask, held, afterwards, st_modify, mbind, st_bind.
  destruct (ConnectManager (scm c)) as [[] w1]; cbn; [|split_and!; [done..|lia]].
  destruct (OpenService w1) as [[] w2]; cbn; try (split_and!; [done..|lia]).
  match goal with |- context [k ?c1] => specialize (Hk c1); destruct (k c1) as [r c2] end. exact Hk.
Qed.

Lemma reports_stop : reports Stopped stop.
Proof.
  intros c. unfold stop, st_try, Query, must, ask, mbind, st_bind.
  destruct (QueryService (scm c)) as [[s|] w1]; cbn; [|split_and!; [done..|cbn; lia]].
  case_bool_decide as Es; cbn; [subst s; split_and!; [done..|cbn; lia]|].
  destruct (ControlStop w1) as [[] w2]; cbn; [|split_and!; [done..|cbn; lia]].
  waiting.
Qed.

(** Starting and stopping come to an answer.  Each waits for no more than its 30
    seconds, a hundred questions, and says that it worked only when the last answer was
    that the service runs, or has stopped. *)
Theorem starting_and_stopping_come_to_an_answer : reports Running Start ∧ reports Stopped Stop.
Proof.
  split; apply reports_opened; [|apply reports_stop].
  intros c. unfold st_try, Query, must, ask, mbind, st_bind. destruct (QueryService (scm c)) as [[s|] w1]; cbn.
  - case_bool_decide as Es; cbn; [subst s; split_and!; [done..|cbn; lia]|].
    destruct (StartService w1) as [[] w2]; cbn; [|split_and!; [done..|cbn; lia]].
    waiting.
  - destruct (StartService w1) as [[] w2]; cbn; [|split_and!; [done..|cbn; lia]].
    waiting.
Qed.

Ltac undone w :=
  let Hd := fresh in let E := fresh in let Hdel := fresh in
  pose proof (delete_removes w) as Hd; destruct (DeleteService w) eqn:E; cbn in *; split; [done|]; intros Hdel; specialize (Hdel w);
  rewrite E in Hdel; cbn in Hdel; subst; congruence.

(** An installation is whole or undone.  When [Install] succeeds the service is
    registered and was not before; when it fails nothing has changed, as long as the
    manager can take back what it made. *)
Theorem an_installation_is_whole_or_undone c : let '(r, c') := Install c in
  match r with
  | inr _ => registered (scm c) = false ∧ registered (scm c') = true
  | inl e => e ≠ OutOfFuel ∧ ((∀ w, (DeleteService w).1 = true) → registered (scm c') = registered (scm c))
  end.
Proof.
  unfold Install, connected, with_service, applyAccessControl, st_try, must, ask, held, afterwards, st_modify, mbind, st_bind.
  pose proof (executable_leaves (scm c)) as H1. destruct (Executable (scm c)) as [[] w1]; cbn in *; [|split; [done|congruence]].
  pose proof (connect_leaves w1) as H2. destruct (ConnectManager w1) as [[] w2]; cbn in *; [|split; [done|congruence]].
  pose proof (open_leaves w2) as H3. destruct (OpenService w2) as [o w3]; cbn in *. destruct o; cbn; [split; [done|congruence]|..].
  all: pose proof (create_registers w3) as H4; destruct (CreateService w3) as [[] w4]; cbn in *; [|split; [done|congruence]]; destruct H4 as [H4 H4'].
  all: pose proof (parse_leaves w4) as H5; destruct (ParseDescriptor w4) as [[] w5]; cbn in *; [|undone w5].
  all: pose proof (read_leaves w5) as H6; destruct (ReadDACL w5) as [[] w6]; cbn in *; [|undone w6].
  all: pose proof (set_leaves w6) as H7; destruct (SetSecurityInfo w6) as [[] w7]; cbn in *; [|undone w7].
  all: split; congruence.
Qed.
End waiting.

(** ** A machine

    A service that is there or not, and runs or not; starting and stopping take a second. *)
Record desk : Type := mkDesk { there : option svc_state; due : Z; time : Z }.
Definition settled (d : desk) : option svc_state :=
  if time d <? due d then there d else
  match there d with Some StartPending => Some Running | Some StopPending => Some Stopped | s => s end.
#[export] Instance desk_manager : Manager := {|
  SCM := desk;
  Executable d := (true, d);
  ConnectManager d := (true, d);
  OpenService d := (match there d with Some _ => Opened | None => DoesNotExist end, d);
  CreateService d := match there d with Some _ => (false, d) | None => (true, mkDesk (Some Stopped) 0 (time d)) end;
  DeleteService d := (true, mkDesk None 0 (time d));
  QueryService d := (settled d, d);
  StartService d := match settled d with Some Stopped => (true, mkDesk (Some StartPending) (time d + 1000) (time d)) | _ => (false, d) end;
  ControlStop d := match settled d with Some Running => (true, mkDesk (Some StopPending) (time d + 1000) (time d)) | _ => (false, d) end;
  ParseDescriptor d := (true, d);
  ReadDACL d := (true, d);
  SetSecurityInfo d := (false, d);
  Now d := (time d, d);
  Sleep ms d := (tt, mkDesk (there d) (due d) (time d + ms));
|}.
#[export] Instance desk_view : ManagerView desk_manager := {| clock := time; registered d := bool_decide (is_Some (there d)) |}.
#[export] Instance desk_laws : ManagerLaws desk_manager.
Proof. split; try by intros []. all: by intros [[] ? ?]. Qed.

Definition at_rest : Command (W := desk_manager) := mkCommand (mkDesk (Some Stopped) 0 5) 0 0 [].
Definition nothing_there : Command (W := desk_manager) := mkCommand (mkDesk None 0 5) 0 0 [].
(** What fails after the service was made takes it away again. *)
Example a_failed_installation : (Install nothing_there).1 = inl NotApplied ∧ registered (scm (Install nothing_there).2) = false.
Proof. by vm_compute. Qed.
