(* ===== verification/Commands.v ===== *)
(** The daemon's program: [main], [openLogger] and [serviceCommand] of
    daemon/cmd/192168-service/main.go, over [Service].

    What taking the adapter away does is the caller's [removeAdapter], as it is in
    [Service.Uninstall]. *)
From S2P Require Import Prelude Bytes Invite ServerConfig Config RollingLog Service ServiceProps.

Inductive message : Type := Usage | Installed | Removed | Running_ | Stopped_ | Is (s : State) | Complaint (e : service_error).

Section commands.
Context {W : Manager}.
Abbreviation R A := (st Command (service_error + A)).

(** What is said when it worked. *)
Definition said {A} (f : A → message) (m : R A) : R message :=
  a ←~ m; mret (inr (f a)).

(** The exit code, and what was printed: the usage and the errors to the standard error. *)
Definition serviceCommand (removeAdapter : R unit) (args : list string) : st Command (Z * message) :=
  let done (m : R message) : st Command (Z * message) :=
    r ← m; mret (match r with inl err => (1, Complaint err) | inr said => (0, said) end) in
  match args with
  | ["service"; "install"]%string => done (said (λ _, Installed) Install)
  | ["service"; "uninstall"]%string => done (said (λ _, Removed) (Uninstall removeAdapter))
  | ["service"; "start"]%string => done (said (λ _, Running_) Start)
  | ["service"; "stop"]%string => done (said (λ _, Stopped_) Stop)
  | ["service"; "status"]%string => done (said Is Status)
  | _ => mret (2, Usage)
  end.
End commands.

(** ** Without a command *)

(** [IsService] *)
Definition IsService (asked : option bool) : bool := default false asked.

(** Where the log goes, if it could be opened. *)
Inductive logging : Type := ToConsole | ToFile (l : RollingLog).
Definition openLogger (join : gostring → gostring → gostring) (UserConfigDir : option gostring) (getenv : environment) (asService : bool)
    (k : luck) (d : Disk) : option logging * Disk :=
  if negb asService then (Some ToConsole, d) else
  match Daemon.DataDir_ join UserConfigDir getenv asService with
  | inl _ => (None, d)
  | inr _ => let '(r, d) := OpenLog k d in (match r with inl _ => None | inr l => Some (ToFile l) end, d)
  end.

(** [slogWriter.Write]: what becomes of a line of the driver, and how much was taken. *)
Definition slogWriter_Write (line : gostring) : gostring * Z := (trim_right (Z.eqb 10) line, Z.of_nat (length line)).

(** The exit code of [main].  As a service it is whether Windows took the process over;
    what the work came to Windows is told by [Execute]. *)
Definition main (command : Z) (args : list string) (logger : option logging) (asService handed_over ran : bool) : Z :=
  match args with
  | _ :: _ => command
  | [] =>
      match logger with
      | None => 1
      | Some _ => if (if asService then handed_over else ran) then 0 else 1
      end
  end.

(** A service whose log cannot be opened does not start; a console needs no file. *)
Lemma openLogger_says join dir getenv asService k d :
  match (openLogger join dir getenv asService k d).1 with
  | Some ToConsole => asService = false
  | Some (ToFile l) => asService = true ∧ open l = true ∧ limit l = logLimit ∧ is_Some (current (openLogger join dir getenv asService k d).2)
  | None => asService = true ∧ ((∃ e, Daemon.DataDir_ join dir getenv true = inl e) ∨ makes k = false ∨ opens k = false ∨ stats k = false)
  end.
Proof.
  unfold openLogger. destruct asService; cbn [negb]; [|done]. destruct (Daemon.DataDir_ _ _ _ _) as [e|where_]; [cbn; eauto|].
  unfold OpenLog, OpenRolling, prepareLogDir, openAppend. destruct (makes k); [|cbn; auto]. cbn [negb].
  destruct (opens k); cbn; [|auto]. destruct (stats k); cbn; [|auto]. by eauto.
Qed.

Section laws.
Context {W : Manager} {V : ManagerView W} {L : ManagerLaws W}.





End laws.



(** A manager that will not open the service: it is said to be gone, and is there. *)
Example an_uninstall_that_was_refused :
  let refusing : Manager := {|
    SCM := desk; Executable := @Executable desk_manager; ConnectManager := @ConnectManager desk_manager;
    OpenService := λ d : desk, (CannotOpen, d); CreateService := @CreateService desk_manager; DeleteService := @DeleteService desk_manager;
    QueryService := @QueryService desk_manager; StartService := @StartService desk_manager; ControlStop := @ControlStop desk_manager;
    ParseDescriptor := @ParseDescriptor desk_manager; ReadDACL := @ReadDACL desk_manager; SetSecurityInfo := @SetSecurityInfo desk_manager;
    Now := @Now desk_manager; Sleep := @Sleep desk_manager |} in
  let c : @Command refusing := @mkCommand refusing (mkDesk (Some Stopped) 0 5) 0 0 [] in
  (@serviceCommand refusing (mret (inr tt)) ["service"; "uninstall"]%string c).1 = (0, Removed)
  ∧ there (@scm refusing (@serviceCommand refusing (mret (inr tt)) ["service"; "uninstall"]%string c).2) = Some Stopped.
Proof. by vm_compute. Qed.
