(* ===== verification/IpcServer.v ===== *)
(** The pipe between the app and the daemon: daemon/ipcserver/server.go and
    protocol/ipc.

    What one request comes to: [call] and [dispatch], threads of the core.  [IpcPipe] has
    the connection they answer on.

    JSON is in the class [Json]: reading a struct of strings, or of one switch, by its
    field names. *)
From S2P Require Import Prelude Bytes NetAddr Netlog Auth ApiTypes Control Ipc Threads Core CoreNetwork CoreConnect CoreInv CoreSafe.

(** ** The messages *)
Class Json : Type := {
  raw : Type;
  absent : raw → bool;
  (** What is wrong with the text, or the fields named, the empty string for one that is
      not there. *)
  strings_of : list string → raw → gostring + list gostring;
  bool_of : string → raw → gostring + bool;
}.

Section messages.
Context `{J : Json}.

Record Request : Type := mkRequest { rq_ID : gostring; rq_Method : string; rq_Params : raw }.

(** [UnmarshalParams], into a struct of strings or of one switch. *)
Definition params (names : list string) (r : Request) : gostring + list gostring :=
  if absent (rq_Params r) then inr (replicate (length names) []) else strings_of names (rq_Params r).
Definition switch (r : Request) : gostring + bool :=
  if absent (rq_Params r) then inr false else bool_of "enabled" (rq_Params r).
End messages.

(** What a method gives back, one constructor for each type of result. *)
Inductive result : Type :=
  | StateResult (s : State)
  | GetGroupsResult (groups : list Ipc.Group)
  | GroupResult (group : Ipc.Group)
  | InviteFound (i : InviteResult)
  | InviteCodeResult (code link : gostring)
  | GetServerResult (url : gostring)
  | TestServerResult (r : gostring + Z * Features)
  | LanDiscoveryResult (enabled : bool)
  | PacketLogResult (enabled : bool)
  | ClearLogsResult (cleared : list gostring).

Record Response : Type := mkResponse {
  rs_ID : gostring;
  rs_OK : bool;
  rs_Result : option result;
  rs_Err : option (string * gostring);
}.

Definition answer (id : gostring) (outcome : failure + option result) : Response :=
  match outcome with
  | inl (Failure code message) => mkResponse id false None (Some (code, message))
  | inl Internal => mkResponse id false None (Some ("internal"%string, str "Something went wrong. Check the logs for details."))
  | inr r => mkResponse id true r None
  end.

Definition badParams (err : gostring) : failure := Failure "bad_request" (str "The request could not be read: " ++ err).
Definition unknown_method (m : string) : failure :=
  Failure "unknown_method" (str "This version of the app does not support " ++ quoted (str m) ++ str ".").

(** ** One request *)
Section dispatch.
Context {C : Ed25519} {N : Net} {K : Links} {H : Host} `{J : Json}.
Abbreviation T := (thread Core).

(** [return x, nil] once the handler has returned, and [return nil, err]. *)
Definition gives {A} (f : A → result) (t : T (failure + A)) : T (failure + option result) :=
  a ←! t; Return (inr (Some (f a))).
Definition tells (t : T (failure + unit)) : T (failure + option result) :=
  _ ←! t; Return (inr None).
Definition always {A} (f : A → result) (t : T A) : T (failure + option result) :=
  a ← t; Return (inr (Some (f a))).

Definition with_params {B} (names : list string) (r : Request) (k : list gostring → T (failure + B)) : T (failure + B) :=
  match params names r with inl err => Return (inl (badParams err)) | inr fields => k fields end.
Definition with_switch {B} (r : Request) (k : bool → T (failure + B)) : T (failure + B) :=
  match switch r with inl err => Return (inl (badParams err)) | inr b => k b end.
Definition field (fields : list gostring) (i : nat) : gostring := default [] (fields !! i).

Inductive method : Type :=
  | MethodGetState | MethodGetGroups | MethodCreateGroup | MethodJoinGroup | MethodGetInvite | MethodLeaveGroup
  | MethodConnect | MethodDisconnect | MethodSetNickname | MethodRetryPeer | MethodRemoveMember | MethodRenameGroup
  | MethodSetGroupAppearance | MethodResetInvite | MethodTransferOwnership | MethodDeleteGroup | MethodGetServer
  | MethodSetServer | MethodTestServer | MethodGetLanDiscovery | MethodSetLanDiscovery | MethodGetPacketLog
  | MethodSetPacketLog | MethodClearLogs | MethodResetSettings.

Definition methods : list (string * method) := [
  ("GetState", MethodGetState); ("GetGroups", MethodGetGroups); ("CreateGroup", MethodCreateGroup);
  ("JoinGroup", MethodJoinGroup); ("GetInvite", MethodGetInvite); ("LeaveGroup", MethodLeaveGroup);
  ("ConnectGroup", MethodConnect); ("Disconnect", MethodDisconnect); ("SetNickname", MethodSetNickname);
  ("RetryPeer", MethodRetryPeer); ("RemoveMember", MethodRemoveMember); ("RenameGroup", MethodRenameGroup);
  ("SetGroupAppearance", MethodSetGroupAppearance); ("ResetInvite", MethodResetInvite);
  ("TransferOwnership", MethodTransferOwnership); ("DeleteGroup", MethodDeleteGroup); ("GetServer", MethodGetServer);
  ("SetServer", MethodSetServer); ("TestServer", MethodTestServer); ("GetLanDiscovery", MethodGetLanDiscovery);
  ("SetLanDiscovery", MethodSetLanDiscovery); ("GetPacketLog", MethodGetPacketLog); ("SetPacketLog", MethodSetPacketLog);
  ("ClearLogs", MethodClearLogs); ("ResetSettings", MethodResetSettings)]%string.

Definition method_named (name : string) : option method :=
  snd <$> head (filter (λ m, m.1 = name) methods).

(** What one method does with its parameters; the loops a handler starts get [turns]. *)
Definition handle (turns : nat) (m : method) (r : Request) : T (failure + option result) :=
  match m with
  | MethodGetState => always StateResult GetState
  | MethodGetGroups => gives GetGroupsResult GetGroups
  | MethodCreateGroup => with_params ["name"; "icon"; "color"]%string r (λ p, gives GroupResult (CreateGroup (field p 0) (field p 1) (field p 2)))
  | MethodJoinGroup => with_params ["code"]%string r (λ p, gives GroupResult (JoinGroup (field p 0)))
  | MethodLeaveGroup => with_params ["groupId"]%string r (λ p, tells (LeaveGroup (field p 0)))
  | MethodConnect => with_params ["groupId"]%string r (λ p, tells (CoreConnect.Connect turns (field p 0)))
  | MethodDisconnect => tells CoreConnect.Disconnect
  | MethodSetNickname => with_params ["nickname"]%string r (λ p, tells (SetNickname (field p 0)))
  | MethodRetryPeer => with_params ["deviceId"]%string r (λ p, tells (RetryPeer (field p 0)))
  | MethodRemoveMember => with_params ["groupId"; "deviceId"]%string r (λ p, tells (RemoveMember (field p 0) (field p 1)))
  | MethodRenameGroup => with_params ["groupId"; "name"]%string r (λ p, tells (RenameGroup (field p 0) (field p 1)))
  | MethodGetInvite => with_params ["code"]%string r (λ p, gives InviteFound (GetInvite (field p 0)))
  | MethodResetInvite =>
      with_params ["groupId"]%string r (λ p, gives (λ c, InviteCodeResult c.1 c.2) (ResetInvite (field p 0)))
  | MethodSetGroupAppearance =>
      with_params ["groupId"; "icon"; "color"]%string r (λ p, tells (SetGroupAppearance (field p 0) (field p 1) (field p 2)))
  | MethodTransferOwnership => with_params ["groupId"; "deviceId"]%string r (λ p, tells (TransferOwnership (field p 0) (field p 1)))
  | MethodDeleteGroup => with_params ["groupId"]%string r (λ p, tells (DeleteGroup (field p 0)))
  | MethodGetServer => always GetServerResult GetServer
  | MethodSetServer => with_params ["url"]%string r (λ p, tells (SetServer (field p 0)))
  | MethodTestServer => with_params ["url"]%string r (λ p, gives TestServerResult (TestServer (field p 0)))
  | MethodGetLanDiscovery => always LanDiscoveryResult GetLanDiscovery
  | MethodSetLanDiscovery =>
      with_switch r (λ on, _ ←! SetLanDiscovery on; Return (inr (Some (LanDiscoveryResult on))))
  | MethodGetPacketLog => always PacketLogResult GetPacketLog
  | MethodSetPacketLog => with_switch r (λ on, gives PacketLogResult (SetPacketLog on))
  | MethodClearLogs => gives ClearLogsResult ClearLogs
  | MethodResetSettings => gives GetServerResult ResetSettings
  end.

Definition call (turns : nat) (r : Request) : T (failure + option result) :=
  match method_named (rq_Method r) with
  | Some m => handle turns m r
  | None => Return (inl (unknown_method (rq_Method r)))
  end.

Definition dispatch (turns : nat) (r : Request) : T Response :=
  outcome ← call turns r;
  Return (answer (rq_ID r) outcome).
End dispatch.

(** ** Against the operations of the core *)
Section calls.
Context {C : Ed25519} {N : Net} {K : Links} {H : Host} {G : LinksLaws K} {HL : HostLaws H} `{J : Json}.
Abbreviation T := (thread Core).

(** The operation a request asks for, if it is one that can be read. *)
Definition with_fields (names : list string) (r : Request) (f : list gostring → op) : failure + op :=
  match params names r with inl err => inl (badParams err) | inr p => inr (f p) end.
Definition with_on (r : Request) (f : bool → op) : failure + op :=
  match switch r with inl err => inl (badParams err) | inr b => inr (f b) end.
Definition op_of (m : method) (r : Request) : failure + op :=
  match m with
  | MethodGetState => inr OGetState
  | MethodGetGroups => inr OGetGroups
  | MethodCreateGroup => with_fields ["name"; "icon"; "color"]%string r (λ p, OCreateGroup (field p 0) (field p 1) (field p 2))
  | MethodJoinGroup => with_fields ["code"]%string r (λ p, OJoinGroup (field p 0))
  | MethodGetInvite => with_fields ["code"]%string r (λ p, OGetInvite (field p 0))
  | MethodLeaveGroup => with_fields ["groupId"]%string r (λ p, OLeaveGroup (field p 0))
  | MethodConnect => with_fields ["groupId"]%string r (λ p, OConnect (field p 0))
  | MethodDisconnect => inr ODisconnect
  | MethodSetNickname => with_fields ["nickname"]%string r (λ p, OSetNickname (field p 0))
  | MethodRetryPeer => with_fields ["deviceId"]%string r (λ p, ORetryPeer (field p 0))
  | MethodRemoveMember => with_fields ["groupId"; "deviceId"]%string r (λ p, ORemoveMember (field p 0) (field p 1))
  | MethodRenameGroup => with_fields ["groupId"; "name"]%string r (λ p, ORenameGroup (field p 0) (field p 1))
  | MethodSetGroupAppearance =>
      with_fields ["groupId"; "icon"; "color"]%string r (λ p, OSetGroupAppearance (field p 0) (field p 1) (field p 2))
  | MethodResetInvite => with_fields ["groupId"]%string r (λ p, OResetInvite (field p 0))
  | MethodTransferOwnership => with_fields ["groupId"; "deviceId"]%string r (λ p, OTransferOwnership (field p 0) (field p 1))
  | MethodDeleteGroup => with_fields ["groupId"]%string r (λ p, ODeleteGroup (field p 0))
  | MethodGetServer => inr OGetServer
  | MethodSetServer => with_fields ["url"]%string r (λ p, OSetServer (field p 0))
  | MethodTestServer => with_fields ["url"]%string r (λ p, OTestServer (field p 0))
  | MethodGetLanDiscovery => inr OGetLanDiscovery
  | MethodSetLanDiscovery => with_on r OSetLanDiscovery
  | MethodGetPacketLog => inr OGetPacketLog
  | MethodSetPacketLog => with_on r OSetPacketLog
  | MethodClearLogs => inr OClearLogs
  | MethodResetSettings => inr OResetSettings
  end.
Definition request_op (r : Request) : failure + op :=
  match method_named (rq_Method r) with
  | Some m => op_of m r
  | None => inl (unknown_method (rq_Method r))
  end.

(** [t] does to the core what [u] does. *)
Definition does_as {A B} (t : T A) (u : T B) : Prop := ∀ c,
  match alone u c with
  | Some (_, ts, c') => ∃ a, alone t c = Some (a, ts, c')
  | None => True
  end.

Lemma done_as {A} (t : T A) c : alone (done_with t) c = match alone t c with Some (_, ts, c') => Some (tt, ts, c') | None => None end.
Proof. unfold done_with. rewrite alone_bind. destruct (alone t c) as [[[a ts] c']|]; [cbn; by rewrite app_nil_r|done]. Qed.

Lemma bind_as {A B} (t : T A) (f : A → B) : does_as (t ≫= λ a, Return (f a)) (done_with t).
Proof.
  intros c. rewrite done_as, alone_bind. destruct (alone t c) as [[[a ts] c']|]; [|done]. exists (f a). cbn. by rewrite app_nil_r.
Qed.
Lemma try_as {F A B} (t : T (F + A)) (f : A → B) : does_as (a ←! t; Return (inr (f a))) (done_with t).
Proof.
  intros c. unfold try_thread. rewrite done_as, alone_bind. destruct (alone t c) as [[[[e|a] ts] c']|]; [| |done];
    eexists; cbn; by rewrite app_nil_r.
Qed.

Lemma handle_as turns m r : match op_of m r with inr o => does_as (handle turns m r) (run_op turns o) | inl e => handle turns m r = Return (inl e) end.
Proof.
  destruct m; cbn [op_of handle]; unfold with_fields, with_on, with_params, with_switch; repeat case_match; try done; simplify_eq;
    cbn [run_op];
    first [reflexivity|apply bind_as|apply try_as].
Qed.

(** C11: every request gets one answer.  Whatever the method and the parameters, a request
    left to itself comes to an end in one response that carries its id, and either a
    result or a code and a message.  A method the daemon does not know and parameters it
    cannot read are turned down and change nothing; any other request does to the core,
    and starts, exactly what the operation it names does. *)
Theorem every_request_gets_one_answer turns r c : core_wf c →
  match request_op r with
  | inl refusal => alone (dispatch turns r) c = Some (answer (rq_ID r) (inl refusal), [], c)
  | inr o => ∃ reply started c', alone (dispatch turns r) c = Some (reply, started, c') ∧ alone (run_op turns o) c = Some (tt, started, c')
      ∧ core_wf c' ∧ rs_ID reply = rq_ID r
      ∧ (if rs_OK reply then rs_Err reply = None else rs_Result reply = None ∧ is_Some (rs_Err reply))
  end.
Proof.
  intros Hc. unfold request_op, dispatch, call. destruct (method_named (rq_Method r)) as [m|]; [|done].
  pose proof (handle_as turns m r) as Hh. destruct (op_of m r) as [refusal|o]; [by rewrite Hh|].
  destruct (keeps_alone core_wf grows (run_op turns o) c Hc (returns_run_op turns o) (kept_run_op turns o c)) as ([] & ts & c' & E & Hc' & _).
  specialize (Hh c). rewrite E in Hh. destruct Hh as [outcome Eh].
  exists (answer (rq_ID r) outcome), ts, c'. split; [rewrite alone_bind, Eh; cbn; by rewrite app_nil_r|]. split; [exact E|].
  split; [done|]. by destruct outcome as [[]|]; cbn.
Qed.
End calls.
