(* ===== verification/IpcPipe.v ===== *)
(** A connection of the app, and the events that are pushed to it: the goroutines of
    [handleConnection] and [Broadcast] of daemon/ipcserver/server.go.

    A channel is what is queued in it and whether it is closed; a line is written whole or
    not at all, and [line] is what it says.  [move] moves one goroutine, or the app at the
    other end, by one step.  A step that has to wait is [Blocked]; one the Go runtime stops
    (sending on a closed channel, closing one twice) is [Crash].  The last three fields of
    a [connection] are its history, which nothing reads. *)
From S2P Require Import Prelude Bytes Auth ApiTypes Control Ipc Threads Core CoreNetwork CoreConnect IpcServer.

Definition eventBuffer : nat := 32.

Section pipe.
Context `{J : Json}.

(** ** One connection *)

(** What the scanner finds: a request, a line that is none, or a line past its limit,
    after which it finds nothing more. *)
Inductive input : Type := Readable (r : Request) | Unreadable | TooLong.

(** A complete line, as the one writer sends it. *)
Inductive line : Type := Reply (r : Response) | Push (e : core_event).

(** Where each goroutine is. *)
Inductive reading : Type :=
  | Scanning
  | Answering (r : Request)
  | Replying (r : Response)
  | Joining     (** on [<-forwarding] *)
  | Finishing   (** in [writer.Wait()] *)
  | Deleting | Closing  (** in the deferred [s.remove(c)] *)
  | Leaving     (** at the deferred [conn.Close()] *)
  | Left.
Inductive forwarding : Type := Selecting | Holding (e : core_event) | Forwarded.
Inductive writing : Type := Receiving | Sending (l : line) | Done (failed : option line).

Record connection : Type := mkConnection {
  sent : list input;
  hung_up : bool;
  events : list core_event;
  events_closed : bool;
  closed : bool;
  writes : list line;
  writes_closed : bool;
  cancelled : bool;
  conn_closed : bool;
  reader : reading;
  forwarder : forwarding;
  writer : writing;
  (** What the app has been sent. *)
  received : list line;
  (** The requests taken up, what they were answered, the events delivered. *)
  asked : list Request;
  answered : list Response;
  told : list core_event;
}.
#[export] Instance eta_connection : Settable connection := λ c,
  mkConnection (sent c) (hung_up c) (events c) (events_closed c) (closed c) (writes c) (writes_closed c) (cancelled c)
    (conn_closed c) (reader c) (forwarder c) (writer c) (received c) (asked c) (answered c) (told c).

Definition connect (over : bool) : connection :=
  mkConnection [] false [] false false [] false over false Scanning Selecting Receiving [] [] [] [].

Inductive outcome (A : Type) : Type := Moved (a : A) | Blocked | Crash.
Arguments Moved {A} _.
Arguments Blocked {A}.
Arguments Crash {A}.

(** [select { case writes <- l: case <-ctx.Done(): }], of which [pick] says the case. *)
Definition hand_over (pick : bool) (l : line) (sent done : connection → connection) (c : connection) : outcome connection :=
  if pick then
    if writes_closed c then Crash else
    if (length (writes c) <? eventBuffer)%nat then Moved (sent (c <| writes := writes c ++ [l] |>)) else Blocked
  else if cancelled c then Moved (done c) else Blocked.

(** [client.close] *)
Definition close (c : connection) : outcome connection :=
  if closed c then Moved c else
  if events_closed c then Crash else Moved (c <| closed := true |> <| events_closed := true |>).

(** [client.deliver]: whether it was taken. *)
Definition deliver (e : core_event) (c : connection) : outcome (connection * bool) :=
  if closed c then Moved (c, false) else
  if events_closed c then Crash else
  if (length (events c) <? eventBuffer)%nat then Moved (c <| events := events c ++ [e] |> <| told := told c ++ [e] |>, true)
  else Moved (c, false).

(** The end of the loop. *)
Definition stop_reading (c : connection) : connection := c <| cancelled := true |> <| reader := Joining |>.

(** The goroutine of the connection.  A closed pipe may still give what the scanner had
    read of it; [pick] says whether it does. *)
Definition read_step (pick : bool) (o : failure + option result) (c : connection) : outcome connection :=
  match reader c with
  | Scanning =>
      match sent c with
      | l :: rest =>
          if conn_closed c && negb pick then Moved (stop_reading c) else
          match l with
          | Readable r => Moved (c <| sent := rest |> <| reader := Answering r |> <| asked := asked c ++ [r] |>)
          | Unreadable => Moved (c <| sent := rest |>)
          | TooLong => Moved (stop_reading (c <| sent := rest |>))
          end
      | [] => if hung_up c || conn_closed c then Moved (stop_reading c) else Blocked
      end
  | Answering r =>
      let reply := answer (rq_ID r) o in
      Moved (c <| reader := Replying reply |> <| answered := answered c ++ [reply] |>)
  | Replying r => hand_over pick (Reply r) (λ c, c <| reader := Scanning |>) (λ c, c <| reader := Scanning |>) c
  | Joining =>
      match forwarder c with
      | Forwarded => if writes_closed c then Crash else Moved (c <| writes_closed := true |> <| reader := Finishing |>)
      | _ => Blocked
      end
  | Finishing => match writer c with Done _ => Moved (c <| reader := Deleting |>) | _ => Blocked end
  | Deleting => Moved (c <| reader := Closing |>)
  | Closing => match close c with Moved c => Moved (c <| reader := Leaving |>) | Blocked => Blocked | Crash => Crash end
  | Leaving => Moved (c <| conn_closed := true |> <| reader := Left |>)
  | Left => Blocked
  end.

Definition forward_step (pick : bool) (c : connection) : outcome connection :=
  match forwarder c with
  | Selecting =>
      if pick then
        match events c with
        | e :: rest => Moved (c <| events := rest |> <| forwarder := Holding e |>)
        | [] => if events_closed c then Moved (c <| forwarder := Forwarded |>) else Blocked
        end
      else if cancelled c then Moved (c <| forwarder := Forwarded |>) else Blocked
  | Holding e => hand_over pick (Push e) (λ c, c <| forwarder := Selecting |>) (λ c, c <| forwarder := Forwarded |>) c
  | Forwarded => Blocked
  end.

(** [works] is whether the write does; one on a closed pipe does not. *)
Definition write_step (works : bool) (c : connection) : outcome connection :=
  match writer c with
  | Receiving =>
      match writes c with
      | l :: rest => Moved (c <| writes := rest |> <| writer := Sending l |>)
      | [] => if writes_closed c then Moved (c <| writer := Done None |> <| cancelled := true |>) else Blocked
      end
  | Sending l =>
      if negb works then Moved (c <| writer := Done (Some l) |> <| cancelled := true |>) else
      if conn_closed c then Blocked else Moved (c <| writer := Receiving |> <| received := received c ++ [l] |>)
  | Done _ => Blocked
  end.

(** [<-ctx.Done(); conn.Close()] *)
Definition interrupt_step (c : connection) : outcome connection :=
  if cancelled c && negb (conn_closed c) then Moved (c <| conn_closed := true |>) else Blocked.

Inductive goroutine : Type :=
  | Reader (pick : bool) (o : failure + option result)
  | Forwarder (pick : bool)
  | Writer (works : bool)
  | Interrupter.
Definition step (g : goroutine) : connection → outcome connection :=
  match g with
  | Reader pick o => read_step pick o
  | Forwarder pick => forward_step pick
  | Writer works => write_step works
  | Interrupter => interrupt_step
  end.

(** ** The server *)

(** Where a [Broadcast] is: with whom it has left to tell, or dropping one that fell
    behind. *)
Inductive announcing : Type :=
  | Telling (e : core_event) (others : list positive)
  | Removing (e : core_event) (i : positive) (others : list positive)
  | Dropping (e : core_event) (i : positive) (others : list positive).

Record Server : Type := mkServer {
  clients : gset positive;
  connections : gmap positive connection;
  announcements : list announcing;
  stopping : bool;
  latest : positive;
}.
#[export] Instance eta_Server : Settable Server := λ s,
  mkServer (clients s) (connections s) (announcements s) (stopping s) (latest s).

Definition New : Server := mkServer ∅ ∅ [] false 1.

Inductive act : Type :=
  (** The app: it connects, sends a line, hangs up. *)
  | Accept | Sends (i : positive) (l : input) | HangsUp (i : positive)
  | Goroutine (i : positive) (g : goroutine)
  (** [Broadcast] begins, its targets in the order the map is walked, and goes on. *)
  | Broadcast (e : core_event) (targets : list positive) | Announcer (k : nat)
  (** The daemon's context ends. *)
  | Stop.

Definition at_connection (i : positive) (f : connection → outcome connection) (s : Server) : outcome Server :=
  match connections s !! i with
  | None => Crash
  | Some c => match f c with Moved c => Moved (s <| connections := <[i := c]> (connections s) |>) | Blocked => Blocked | Crash => Crash end
  end.

(** [delete(s.clients, c)], when that is where the reader is. *)
Definition unlisted (i : positive) (s : Server) : Server :=
  match reader <$> connections s !! i with Some Deleting => s <| clients := clients s ∖ {[i]} |> | _ => s end.

Definition announce_step (a : announcing) (s : Server) : outcome (option announcing * Server) :=
  match a with
  | Telling e [] => Moved (None, s)
  | Telling e (i :: others) =>
      match connections s !! i with
      | None => Crash
      | Some c =>
          match deliver e c with
          | Moved (c, taken) =>
              Moved (Some (if (taken : bool) then Telling e others else Removing e i others), s <| connections := <[i := c]> (connections s) |>)
          | Blocked => Blocked
          | Crash => Crash
          end
      end
  | Removing e i others => Moved (Some (Dropping e i others), s <| clients := clients s ∖ {[i]} |>)
  | Dropping e i others =>
      match at_connection i close s with
      | Moved s => Moved (Some (Telling e others), s)
      | Blocked => Blocked
      | Crash => Crash
      end
  end.

Definition put_back (k : nat) (a : option announcing) (l : list announcing) : list announcing :=
  match a with Some a => <[k := a]> l | None => delete k l end.

Definition move (a : act) (s : Server) : outcome Server :=
  match a with
  | Accept =>
      Moved (s <| clients := {[latest s]} ∪ clients s |> <| connections := <[latest s := connect (stopping s)]> (connections s) |>
               <| latest := Pos.succ (latest s) |>)
  | Sends i l =>
      match connections s !! i with
      | Some c => if hung_up c then Blocked else Moved (s <| connections := <[i := c <| sent := sent c ++ [l] |>]> (connections s) |>)
      | None => Blocked
      end
  | HangsUp i =>
      match connections s !! i with
      | Some c => Moved (s <| connections := <[i := c <| hung_up := true |>]> (connections s) |>)
      | None => Blocked
      end
  | Goroutine i g =>
      match connections s !! i with
      | Some _ => at_connection i (step g) (match g with Reader _ _ => unlisted i s | _ => s end)
      | None => Blocked
      end
  | Broadcast e targets =>
      if bool_decide (NoDup targets) && bool_decide (list_to_set targets = clients s)
      then Moved (s <| announcements := announcements s ++ [Telling e targets] |>) else Blocked
  | Announcer k =>
      match announcements s !! k with
      | Some a =>
          match announce_step a s with
          | Moved (a, s) => Moved (s <| announcements := put_back k a (announcements s) |>)
          | Blocked => Blocked
          | Crash => Crash
          end
      | None => Blocked
      end
  | Stop => Moved (s <| stopping := true |> <| connections := (λ c, c <| cancelled := true |>) <$> connections s |>)
  end.

(** Any number of steps; one that has to wait is not taken. *)
Fixpoint run (acts : list act) (s : Server) : option Server :=
  match acts with
  | [] => Some s
  | a :: acts => match move a s with Moved s => run acts s | Blocked => run acts s | Crash => None end
  end.
End pipe.
Arguments Moved {A} _.
Arguments Blocked {A}.
Arguments Crash {A}.
