(* ===== verification/IpcPipeProps.v ===== *)
(** What holds of the pipe at every moment, and what follows for the app. *)
From S2P Require Import Prelude Bytes Auth ApiTypes Control Ipc Threads Core CoreNetwork CoreConnect IpcServer IpcPipe.

Section props.
Context `{J : Json}.

(** ** One connection *)
Definition replies (l : list line) : list Response := omap (λ x, match x with Reply r => Some r | Push _ => None end) l.
Definition pushes (l : list line) : list core_event := omap (λ x, match x with Push e => Some e | Reply _ => None end) l.

Definition in_hand (w : writing) : list line := match w with Sending l | Done (Some l) => [l] | _ => [] end.
(** Every line handed to the writer. *)
Definition handed (c : connection) : list line := received c ++ in_hand (writer c) ++ writes c.
Definition held (f : forwarding) : list core_event := match f with Holding e => [e] | _ => [] end.
Definition replying (r : reading) : list Response := match r with Replying r => [r] | _ => [] end.
Definition pending (r : reading) : list Request := match r with Answering r => [r] | _ => [] end.

(** The reader has closed the queue of the writer, and before that has stopped reading. *)
Definition past (r : reading) : bool := match r with Finishing | Deleting | Closing | Leaving | Left => true | _ => false end.
Definition stopped (r : reading) : bool := match r with Joining => true | _ => past r end.

Record conn_wf (c : connection) : Prop := mkConnWf {
  pw_closed : events_closed c = closed c;
  pw_writes : writes_closed c = past (reader c);
  pw_joined : past (reader c) = true → forwarder c = Forwarded;
  pw_stopped : stopped (reader c) = true → cancelled c = true;
  pw_failed : (∃ l, writer c = Done l) → cancelled c = true;
  pw_bounds : (length (events c) ≤ eventBuffer ∧ length (writes c) ≤ eventBuffer)%nat;
  (** One answer to each request, in order. *)
  pw_answered : ∃ rs, asked c = rs ++ pending (reader c) ∧ Forall2 (λ r a, ∃ o, a = answer (rq_ID r) o) rs (answered c);
  pw_replies : replies (handed c) ++ replying (reader c) `sublist_of` answered c;
  pw_all_replies : cancelled c = false → replies (handed c) ++ replying (reader c) = answered c;
  (** What was delivered, in order and without a gap. *)
  pw_pushes : ∃ lost, told c = pushes (handed c) ++ held (forwarder c) ++ lost
    ∧ (forwarder c ≠ Forwarded → lost = events c) ∧ (cancelled c = false → lost = events c);
  pw_deaf : forwarder c = Forwarded → cancelled c = false → closed c = true ∧ events c = [];
}.

Lemma connect_wf over : conn_wf (connect over).
Proof. split; try done; cbn; [by intros [? [=]]|lia|by exists []|by exists []]. Qed.

(** *** Every step keeps it *)
Definition keeps_wf (f : connection → outcome connection) : Prop :=
  ∀ c, conn_wf c → match f c with Moved c' => conn_wf c' | Blocked => True | Crash => False end.

Lemma replies_app l k : replies (l ++ k) = replies l ++ replies k.
Proof. apply omap_app. Qed.
Lemma pushes_app l k : pushes (l ++ k) = pushes l ++ pushes k.
Proof. apply omap_app. Qed.

Lemma omap_shorter {A B} (f : A → option B) l : (length (omap f l) ≤ length l)%nat.
Proof. induction l as [|x l IH]; [done|]. cbn. destruct (f x); cbn; lia. Qed.

(** A step of the writer, or of the context: the lines handed over stay what they are. *)
Lemma wf_writer c w ws got over : conn_wf c → received c ++ in_hand (writer c) ++ writes c = got ++ in_hand w ++ ws →
  (length ws ≤ length (writes c))%nat → (cancelled c = true → over = true) → ((∃ l, w = Done l) → over = true) →
  conn_wf (c <| writer := w |> <| writes := ws |> <| received := got |> <| cancelled := over |>).
Proof.
  intros [P1 P2 P3 P4 P5 P6 P7 P8 P9 (lost & P10 & P11 & P12) P13] E Hlen Hc Hd.
  set (c' := c <| writer := w |> <| writes := ws |> <| received := got |> <| cancelled := over |>).
  assert (handed c' = handed c) as Eh by (unfold handed; exact (eq_sym E)).
  assert (cancelled c' = false → cancelled c = false) as Hn.
  { change (over = false → cancelled c = false). destruct (cancelled c); [by rewrite Hc|done]. }
  split; try done; rewrite ?Eh; auto.
  - cbn. lia.
  - exists lost. split; [done|]. split; [done|]. intros Ho. by apply P12, Hn.
Qed.

Lemma cancel_wf c : conn_wf c → conn_wf (c <| cancelled := true |>).
Proof. intros Hc. by apply (wf_writer c (writer c) (writes c) (received c) true Hc). Qed.

Lemma closed_pipe_wf c : conn_wf c → conn_wf (c <| conn_closed := true |>).
Proof. intros [P1 P2 P3 P4 P5 P6 P7 P8 P9 P10 P11]. by split. Qed.

Lemma write_step_wf works : keeps_wf (write_step works).
Proof.
  intros c Hc. unfold write_step. destruct (writer c) as [|l|l] eqn:Ew; [|destruct works; cbn [negb]|done].
  - destruct (writes c) as [|l rest] eqn:El; [destruct (writes_closed c); [|done]|].
    + apply (wf_writer c (Done None) (writes c) (received c) true Hc); [by rewrite Ew|done..].
    + apply (wf_writer c (Sending l) rest (received c) (cancelled c) Hc); [by rewrite Ew, El|rewrite El; cbn; lia|done|by intros [? [=]]].
  - destruct (conn_closed c); [done|].
    apply (wf_writer c Receiving (writes c) (received c ++ [l]) (cancelled c) Hc); [by rewrite Ew, <-app_assoc|done|done|by intros [? [=]]].
  - apply (wf_writer c (Done (Some l)) (writes c) (received c) true Hc); [by rewrite Ew|done..].
Qed.

Lemma interrupt_step_wf : keeps_wf interrupt_step.
Proof. intros c Hc. unfold interrupt_step. destruct (_ && _); [by apply closed_pipe_wf|done]. Qed.

Lemma close_wf : keeps_wf close.
Proof.
  intros c [P1 P2 P3 P4 P5 P6 P7 P8 P9 P10 P11]. unfold close. destruct (closed c) eqn:E; [by split; rewrite ?E|]. rewrite P1.
  split; try done. intros Hf Hn. destruct (P11 Hf Hn). congruence.
Qed.

Lemma deliver_wf e c : conn_wf c → match deliver e c with Moved (c', _) => conn_wf c' | Blocked => True | Crash => False end.
Proof.
  intros Hc. pose proof Hc as [P1 P2 P3 P4 P5 P6 P7 P8 P9 (lost & P10 & P11 & P12) P13]. unfold deliver.
  destruct (closed c) eqn:Ec; [done|]. rewrite P1. destruct (Nat.ltb_spec (length (events c)) eventBuffer); [|done].
  split; try done.
  - cbn. by rewrite P1, Ec.
  - cbn. rewrite length_app; cbn; lia.
  - exists (lost ++ [e]). split; [|by split; [intros Hf; cbn; rewrite (P11 Hf)|intros Hn; cbn; rewrite (P12 Hn)]].
    change (told c ++ [e] = pushes (handed c) ++ held (forwarder c) ++ lost ++ [e]). by rewrite P10, <-!app_assoc.
  - intros Hf Hn. destruct (P13 Hf Hn). congruence.
Qed.

(** Handing a line to the writer. *)
Lemma hand_over_wf pick l sent done c : conn_wf c → (pick = true → writes_closed c = false) →
  (cancelled c = true → pick = false → conn_wf (done c)) →
  ((length (writes c) < eventBuffer)%nat → pick = true → conn_wf (sent (c <| writes := writes c ++ [l] |>))) →
  match hand_over pick l sent done c with Moved c' => conn_wf c' | Blocked => True | Crash => False end.
Proof.
  intros Hc Hw Hd Hs. unfold hand_over. destruct pick; [rewrite Hw by done|].
  - destruct (Nat.ltb_spec (length (writes c)) eventBuffer); [by apply Hs|done].
  - destruct (cancelled c); [by apply Hd|done].
Qed.

Lemma handed_snoc l c : handed (c <| writes := writes c ++ [l] |>) = handed c ++ [l].
Proof. unfold handed. cbn. by rewrite !app_assoc. Qed.

(** A step of the forwarder: the events queued, held and lost are together what they were. *)
Lemma wf_forwarder c f es lost' : conn_wf c → past (reader c) = false ∨ f = Forwarded →
  (∃ lost, told c = pushes (handed c) ++ held (forwarder c) ++ lost ∧ held (forwarder c) ++ lost = held f ++ lost'
    ∧ (f ≠ Forwarded → lost' = es) ∧ (cancelled c = false → lost' = es)) →
  (length es ≤ length (events c))%nat → (f = Forwarded → cancelled c = false → closed c = true ∧ es = []) →
  conn_wf (c <| events := es |> <| forwarder := f |>).
Proof.
  intros [P1 P2 P3 P4 P5 P6 P7 P8 P9 P10 P11] Hp (lost & E1 & E2 & H1 & H2) Hlen Hd. split; try done.
  - intros Hr. destruct Hp as [Hp|Hp]; [cbn in Hr; by rewrite Hp in Hr|done].
  - cbn. lia.
  - exists lost'. split; [|done]. change (told c = pushes (handed c) ++ held f ++ lost'). by rewrite E1, E2.
Qed.

Lemma forward_step_wf pick : keeps_wf (forward_step pick).
Proof.
  intros c Hc. pose proof Hc as [P1 P2 P3 P4 P5 P6 P7 P8 P9 (lost & P10 & P11 & P12) P13].
  assert (forwarder c ≠ Forwarded → past (reader c) = false) as Hp by (destruct (past (reader c)); [by rewrite P3|done]).
  unfold forward_step. destruct (forwarder c) as [|e|] eqn:Ef; [destruct pick| |done].
  - destruct (events c) as [|e rest] eqn:Ee; [destruct (events_closed c) eqn:Ec; [|done]|].
    + apply (wf_forwarder c Forwarded (events c) lost Hc); [by right| |done|by rewrite Ee, <-P1].
      exists lost. rewrite Ef, Ee. split; [done|]. split; [done|]. split; [done|]. intros _. by apply P11.
    + apply (wf_forwarder c (Holding e) rest rest Hc); [left; by apply Hp| |rewrite Ee; cbn; lia|done].
      exists lost. rewrite Ef. split; [done|]. by rewrite P11.
  - destruct (cancelled c) eqn:Eo; [|done].
    apply (wf_forwarder c Forwarded (events c) lost Hc); [by right| |done|by rewrite Eo].
    exists lost. rewrite Ef, Eo. done.
  - apply hand_over_wf; [done|intros _; rewrite P2; by apply Hp|intros Ho _|intros Hlen _].
    + apply (wf_forwarder c Forwarded (events c) (e :: lost) Hc); [by right| |done|by rewrite Ho].
      exists lost. rewrite Ef, Ho. done.
    + set (c1 := c <| writes := writes c ++ [Push e] |> <| forwarder := Selecting |>).
      assert (handed c1 = handed c ++ [Push e]) as Eh by apply (handed_snoc (Push e)).
      split; try done; rewrite ?Eh, ?replies_app, ?pushes_app, ?app_nil_r; try done.
      * cbn. intros Hr. by rewrite Hp in Hr.
      * cbn. rewrite length_app. cbn. lia.
      * exists lost. split; [|split; [intros _; by apply P11|done]].
        change (told c = (pushes (handed c) ++ [e]) ++ lost). by rewrite P10, <-app_assoc.
Qed.

(** A step of the reader that neither closes the writer's queue nor adds to it. *)
Lemma wf_reader c r ss ask ans over : conn_wf c → past r = past (reader c) →
  (stopped r = true → over = true) → (cancelled c = true → over = true) →
  (∃ rs, ask = rs ++ pending r ∧ Forall2 (λ r a, ∃ o, a = answer (rq_ID r) o) rs ans) →
  replies (handed c) ++ replying r `sublist_of` ans → (over = false → replies (handed c) ++ replying r = ans) →
  conn_wf (c <| sent := ss |> <| reader := r |> <| asked := ask |> <| answered := ans |> <| cancelled := over |>).
Proof.
  intros [P1 P2 P3 P4 P5 P6 P7 P8 P9 (lost & P10 & P11 & P12) P13] Hp Hs Hc Ha Hsub Hall.
  assert (over = false → cancelled c = false) as Hn by (destruct (cancelled c); [by intros ->; rewrite Hc|done]).
  split; try done.
  - by cbn; rewrite P2.
  - cbn. by rewrite Hp.
  - intros Hd. by apply Hc, P5.
  - exists lost. split; [done|]. split; [done|]. intros Ho. by apply P12, Hn.
  - intros Hf Ho. by apply P13, Hn.
Qed.

Lemma wf_past c r : conn_wf c → past (reader c) = true → past r = true → conn_wf (c <| reader := r |>).
Proof.
  intros Hc Hp Hr. pose proof Hc as [P1 P2 P3 P4 P5 P6 P7 P8 P9 _ _].
  assert (∀ r, past r = true → replying r = [] ∧ pending r = [] ∧ stopped r = true) as Hpast by (by intros []).
  destruct (Hpast _ Hp) as (E1 & E2 & E3), (Hpast _ Hr) as (F1 & F2 & F3). rewrite E1 in P8, P9. rewrite E2 in P7.
  apply (wf_reader c r (sent c) (asked c) (answered c) (cancelled c) Hc); rewrite ?F1, ?F2; try done; [by rewrite Hr|by rewrite P4].
Qed.

Lemma stop_reading_wf c ss : conn_wf c → past (reader c) = false → replying (reader c) = [] → pending (reader c) = [] →
  conn_wf (stop_reading (c <| sent := ss |>)).
Proof.
  intros Hc Hp Hr Hq. pose proof Hc as [P1 P2 P3 P4 P5 P6 (rs & Ea & Hf) P8 P9 _ _]. rewrite Hr, app_nil_r in P8. rewrite Hq in Ea.
  apply (wf_reader c Joining ss (asked c) (answered c) true Hc); [done..| | |done].
  - by exists rs.
  - by rewrite app_nil_r.
Qed.

Lemma read_step_wf pick o : keeps_wf (read_step pick o).
Proof.
  intros c Hc. pose proof Hc as [P1 P2 P3 P4 P5 P6 (rs & Ea & Hf) P8 P9 (lost & P10 & P11 & P12) P13].
  unfold read_step. destruct (reader c) as [|r|r| | | | | |] eqn:Er; cbn [pending replying past stopped] in *; rewrite ?app_nil_r in *.
  - assert (∀ ss, conn_wf (stop_reading (c <| sent := ss |>))) as Hstop by (intros ss; apply stop_reading_wf; by rewrite ?Er).
    destruct (sent c) as [|[r| |] rest] eqn:Es; [destruct (_ || _); [exact (Hstop (sent c))|done]|..];
      (destruct (conn_closed c && negb pick); [exact (Hstop (sent c))|]).
    + apply (wf_reader c (Answering r) rest (asked c ++ [r]) (answered c) (cancelled c) Hc); rewrite ?Er, ?app_nil_r; try done.
      exists rs. by rewrite Ea.
    + apply (wf_reader c (reader c) rest (asked c) (answered c) (cancelled c) Hc); rewrite ?Er, ?app_nil_r; try done.
      exists rs. by rewrite app_nil_r.
    + apply Hstop.
  - set (a := answer (rq_ID r) o).
    apply (wf_reader c (Replying a) (sent c) (asked c) (answered c ++ [a]) (cancelled c) Hc); rewrite ?Er; try done.
    + exists (rs ++ [r]). split; [by rewrite app_nil_r|]. apply Forall2_app; [done|]. constructor; [by exists o|constructor].
    + by apply sublist_app.
    + intros Ho. by rewrite P9.
  - apply hand_over_wf; [done|intros _; by rewrite P2|intros Ho _|intros Hlen _].
    + apply (wf_reader c Scanning (sent c) (asked c) (answered c) (cancelled c) Hc); rewrite ?Er, ?Ho, ?app_nil_r; try done.
      * exists rs. by rewrite app_nil_r.
      * etransitivity; [|exact P8]. by apply sublist_inserts_r.
    + set (c1 := c <| writes := writes c ++ [Reply r] |> <| reader := Scanning |>).
      assert (handed c1 = handed c ++ [Reply r]) as Eh by apply (handed_snoc (Reply r)).
      split; try done; rewrite ?Eh, ?replies_app, ?pushes_app; cbn [replying]; rewrite ?app_nil_r; try done.
      * cbn. rewrite length_app. cbn. lia.
      * exists rs. cbn. by rewrite app_nil_r.
      * by exists lost.
  - destruct (forwarder c) eqn:Ef; [done..|]. rewrite P2. split; try done; cbn [replying pending reader].
    + by exists rs; rewrite app_nil_r.
    + by rewrite app_nil_r.
    + by rewrite app_nil_r.
    + exists lost. split; [|done]. change (told c = pushes (handed c) ++ held (forwarder c) ++ lost). by rewrite Ef.
    + intros _. by apply P13.
  - destruct (writer c); [done..|]. apply wf_past; by rewrite ?Er.
  - apply wf_past; by rewrite ?Er.
  - pose proof (close_wf c Hc) as Hcl. destruct (close c) as [c'| |] eqn:Ec; [|done..].
    assert (reader c' = reader c) as E by (unfold close in Ec; repeat case_match; try done; by injection Ec as <-).
    apply wf_past; [done|by rewrite E, Er|done].
  - apply (wf_past (c <| conn_closed := true |>)); [by apply closed_pipe_wf|cbn; by rewrite Er|done].
  - done.
Qed.

Lemma step_wf g : keeps_wf (step g).
Proof. destruct g; [apply read_step_wf|apply forward_step_wf|apply write_step_wf|apply interrupt_step_wf]. Qed.

(** ** The server *)
Definition targets (a : announcing) : list positive :=
  match a with Telling _ l => l | Removing _ i l | Dropping _ i l => i :: l end.
(** The reader has taken its connection off the list. *)
Definition delisted (r : reading) : bool := match r with Closing | Leaving | Left => true | _ => false end.

Record server_wf (s : Server) : Prop := mkServerWf {
  sw_connections : map_Forall (λ _ c, conn_wf c) (connections s);
  sw_clients : ∀ i, i ∈ clients s → ∃ c, connections s !! i = Some c ∧ delisted (reader c) = false;
  sw_targets : Forall (λ a, Forall (λ i, is_Some (connections s !! i)) (targets a)) (announcements s);
  sw_latest : ∀ i, is_Some (connections s !! i) → (i < latest s)%positive;
  (** Everybody hears of the end. *)
  sw_stopping : stopping s = true → map_Forall (λ _ c, cancelled c = true) (connections s);
}.

Lemma New_server_wf : server_wf New.
Proof. split; try done; try apply map_Forall_empty; by intros i [? ?]. Qed.

Lemma put_wf s i c c' cl : server_wf s → connections s !! i = Some c → conn_wf c' → (cancelled c = true → cancelled c' = true) →
  cl ⊆ clients s → (delisted (reader c') = true → i ∉ cl) →
  server_wf (s <| connections := <[i := c']> (connections s) |> <| clients := cl |>).
Proof.
  intros [W1 W2 W3 W4 W5] Hi Hc Hn Hcl Hd. split.
  - by apply map_Forall_insert_2.
  - intros j Hj. cbn in Hj |- *. destruct (decide (i = j)) as [->|Hne].
    + exists c'. rewrite lookup_insert_eq. split; [done|]. destruct (delisted _); [by destruct Hd|done].
    + rewrite lookup_insert_ne by done. by apply W2, Hcl.
  - cbn. eapply Forall_impl; [exact W3|]. intros a Ha. eapply Forall_impl; [exact Ha|]. intros j Hj.
    apply lookup_insert_is_Some'. by right.
  - cbn. intros j [<-|[_ Hj]]%lookup_insert_is_Some; [apply W4; by eexists|by apply W4].
  - intros Hs. apply map_Forall_insert_2; [apply Hn; exact (W5 Hs i c Hi)|by apply W5].
Qed.

(** What no step undoes. *)
Lemma close_same c c' : close c = Moved c' → reader c' = reader c ∧ cancelled c' = cancelled c.
Proof. unfold close. repeat case_match; by intros [= <-]. Qed.

Lemma step_goes_on g c c' : step g c = Moved c' →
  (cancelled c = true → cancelled c' = true)
  ∧ (delisted (reader c') = true → delisted (reader c) = true ∨ (reader c = Deleting ∧ ∃ pick o, g = Reader pick o)).
Proof.
  destruct g; cbn [step].
  - unfold read_step. destruct (reader c) eqn:Er; unfold hand_over; try (repeat case_match; intros [= <-]; cbn; by rewrite ?Er).
    + intros [= <-]. cbn. split; [done|]. intros _. right. by eauto.
    + destruct (close c) as [c1| |] eqn:Ec; [|done..]. intros [= <-]. destruct (close_same c c1 Ec) as [Hr Hn]. cbn.
      split; [by rewrite Hn|by left].
    + intros [= <-]. split; [done|by left].
  - unfold forward_step, hand_over. repeat case_match; intros [= <-]; by auto.
  - unfold write_step. repeat case_match; intros [= <-]; by auto.
  - unfold interrupt_step. repeat case_match; intros [= <-]; by auto.
Qed.

Lemma step_hung_up g c c' : step g c = Moved c' → hung_up c' = hung_up c.
Proof.
  destruct g; cbn [step]; unfold read_step, forward_step, write_step, interrupt_step, hand_over; [|repeat case_match; by intros [= <-]..].
  destruct (reader c); try (repeat case_match; by intros [= <-]).
  unfold close. repeat case_match; intros; by simplify_eq/=.
Qed.

(** *** A step of a goroutine *)
Lemma unlisted_shape i s : ∃ cl, unlisted i s = s <| clients := cl |> ∧ cl ⊆ clients s
  ∧ (∀ c, connections s !! i = Some c → reader c = Deleting → i ∉ cl).
Proof.
  unfold unlisted. destruct (connections s !! i) as [c|] eqn:Ei; cbn.
  - destruct (reader c) eqn:Er; try (exists (clients s); split; [by destruct s|]; split; [done|]; intros c' [= <-]; congruence).
    exists (clients s ∖ {[i]}). split; [done|]. split; [set_solver|]. intros _ _ _. set_solver.
  - exists (clients s). split; [by destruct s|]. by split.
Qed.

Lemma goroutine_wf i g s : server_wf s →
  match move (Goroutine i g) s with Moved s' => server_wf s' | Blocked => True | Crash => False end.
Proof.
  intros Hs. cbn [move]. destruct (connections s !! i) as [c|] eqn:Ei; [|done].
  assert (conn_wf c) as Hc by exact (sw_connections s Hs i c Ei). pose proof (step_wf g c Hc) as Hw.
  set (s1 := match g with Reader _ _ => unlisted i s | _ => s end).
  assert (∃ cl, s1 = s <| clients := cl |> ∧ cl ⊆ clients s ∧ ((∃ pick o, g = Reader pick o) → reader c = Deleting → i ∉ cl)) as (cl & -> & Hcl & Hd).
  { destruct g; try (exists (clients s); split; [by destruct s|]; split; [done|]; by intros (? & ? & [=])).
    destruct (unlisted_shape i s) as (cl & E & Hcl & Hd). exists cl. split; [exact E|]. split; [done|]. intros _ Hr. by apply (Hd c). }
  unfold at_connection. cbn [connections]. change (connections (s <| clients := cl |>)) with (connections s). rewrite Ei.
  destruct (step g c) as [c'| |] eqn:Es; [|done|done]. destruct (step_goes_on g c c' Es) as [Hn Hr].
  apply (put_wf s i c c' cl Hs Ei Hw Hn Hcl). intros Hd'. destruct (Hr Hd') as [Ho|[Ho Hg]]; [|by apply Hd].
  intros Hin. destruct (sw_clients s Hs i) as (c0 & E0 & Hl); [by apply Hcl|]. congruence.
Qed.

(** *** A step of [Broadcast] *)
Lemma deliver_same e c c' taken : deliver e c = Moved (c', taken) → reader c' = reader c ∧ cancelled c' = cancelled c.
Proof. unfold deliver. repeat case_match; by intros [= <- <-]. Qed.

Lemma put_back_wf (P : announcing → Prop) k a l : Forall P l → from_option P True a → Forall P (put_back k a l).
Proof.
  intros Hl Ha. destruct a as [a|]; cbn; [by apply Forall_insert|]. rewrite delete_take_drop.
  apply Forall_app. split; [by apply Forall_take|by apply Forall_drop].
Qed.

Lemma same_clients s : s = s <| clients := clients s |>.
Proof. by destruct s. Qed.

Lemma fewer_clients_wf s cl : server_wf s → cl ⊆ clients s → server_wf (s <| clients := cl |>).
Proof. intros [W1 W2 W3 W4 W5] Hcl. split; try done. intros i Hi. by apply W2, Hcl. Qed.

Lemma announce_step_wf a s : server_wf s → Forall (λ i, is_Some (connections s !! i)) (targets a) →
  match announce_step a s with
  | Moved (a', s') => server_wf s' ∧ announcements s' = announcements s
      ∧ from_option (λ a, Forall (λ i, is_Some (connections s' !! i)) (targets a)) True a'
  | Blocked => True
  | Crash => False
  end.
Proof.
  intros Hs Ha.
  assert (∀ i c l, Forall (λ i, is_Some (connections s !! i)) l → Forall (λ j, is_Some (<[i := c]> (connections s) !! j)) l) as Hput.
  { intros i c l Hl. eapply Forall_impl; [exact Hl|]. intros j Hj. apply lookup_insert_is_Some'. by right. }
  destruct a as [e [|i others]|e i others|e i others]; cbn [announce_step targets] in *.
  - done.
  - apply Forall_cons in Ha as [[c Ei] Ha]. rewrite Ei. pose proof (sw_connections s Hs i c Ei) as Hc. pose proof (deliver_wf e c Hc) as Hw.
    destruct (deliver e c) as [[c' taken]| |] eqn:Ed; [|done|done]. destruct (deliver_same e c c' taken Ed) as [Hr Hn].
    split; [|split; [done|]].
    + rewrite (same_clients (s <| connections := _ |>)). apply (put_wf s i c c' (clients s) Hs Ei Hw); [by rewrite Hn|done|].
      rewrite Hr. intros Hd Hin. destruct (sw_clients s Hs i Hin) as (c0 & E0 & Hl). congruence.
    + destruct taken; cbn; [by apply Hput|]. constructor; [apply lookup_insert_is_Some'; by left|by apply Hput].
  - apply Forall_cons in Ha as [Hi Ha]. split; [apply fewer_clients_wf; [done|set_solver]|]. split; [done|]. by constructor.
  - apply Forall_cons in Ha as [[c Ei] Ha]. unfold at_connection. rewrite Ei. pose proof (sw_connections s Hs i c Ei) as Hc.
    pose proof (close_wf c Hc) as Hw. destruct (close c) as [c'| |] eqn:Ed; [|done|done]. destruct (close_same c c' Ed) as [Hr Hn].
    split; [|split; [done|by apply Hput]].
    rewrite (same_clients (s <| connections := _ |>)). apply (put_wf s i c c' (clients s) Hs Ei Hw); [by rewrite Hn|done|].
    rewrite Hr. intros Hd Hin. destruct (sw_clients s Hs i Hin) as (c0 & E0 & Hl). congruence.
Qed.

(** ** Any number of steps *)
Lemma sent_wf c ss h : conn_wf c → conn_wf (c <| sent := ss |> <| hung_up := h |>).
Proof. intros [P1 P2 P3 P4 P5 P6 P7 P8 P9 P10 P11]. by split. Qed.

Lemma app_wf i c c' s : server_wf s → connections s !! i = Some c → conn_wf c' → reader c' = reader c → cancelled c' = cancelled c →
  server_wf (s <| connections := <[i := c']> (connections s) |>).
Proof.
  intros Hs Ei Hc Hr Hn. rewrite (same_clients (s <| connections := _ |>)). apply (put_wf s i c c' (clients s) Hs Ei Hc); [by rewrite Hn|done|].
  rewrite Hr. intros Hd Hin. destruct (sw_clients s Hs i Hin) as (c0 & E0 & Hl). congruence.
Qed.

Lemma move_wf a s : server_wf s → match move a s with Moved s' => server_wf s' | Blocked => True | Crash => False end.
Proof.
  intros Hs. destruct a as [|i l|i|i g|e l|k|].
  - pose proof Hs as [W1 W2 W3 W4 W5]. cbn [move].
    assert (connections s !! latest s = None) as Hl.
    { apply eq_None_not_Some. intros Hi. apply W4 in Hi. lia. }
    split; cbn.
    + apply map_Forall_insert_2; [apply connect_wf|done].
    + intros i [->%elem_of_singleton|Hi]%elem_of_union; [rewrite lookup_insert_eq; by eexists|].
      destruct (W2 i Hi) as (c & Ei & Hd). exists c. rewrite lookup_insert_ne by congruence. done.
    + eapply Forall_impl; [exact W3|]. intros a Ha. eapply Forall_impl; [exact Ha|]. intros j Hj.
      apply lookup_insert_is_Some'. by right.
    + intros i [<-|[_ Hi]]%lookup_insert_is_Some; [lia|]. apply W4 in Hi. lia.
    + intros Ho. by apply map_Forall_insert_2; [|apply W5].
  - cbn [move]. destruct (connections s !! i) as [c|] eqn:Ei; [|done]. destruct (hung_up c); [done|].
    apply (app_wf i c); [done..| |done|done]. exact (sent_wf c _ (hung_up c) (sw_connections s Hs i c Ei)).
  - cbn [move]. destruct (connections s !! i) as [c|] eqn:Ei; [|done].
    apply (app_wf i c); [done..| |done|done]. exact (sent_wf c (sent c) true (sw_connections s Hs i c Ei)).
  - by apply goroutine_wf.
  - cbn [move]. destruct (_ && _) eqn:E; [|done]. apply andb_prop in E as [_ E%bool_decide_eq_true].
    pose proof Hs as [W1 W2 W3 W4 W5]. split; try done. cbn. apply Forall_app. split; [done|]. constructor; [|done].
    apply Forall_forall. intros i Hi. destruct (W2 i) as (c & Ei & _); [set_solver|by eexists].
  - cbn [move]. destruct (announcements s !! k) as [a|] eqn:Ek; [|done].
    assert (Forall (λ i, is_Some (connections s !! i)) (targets a)) as Ha
      by exact (proj1 (Forall_lookup _ _) (sw_targets s Hs) k a Ek).
    pose proof (announce_step_wf a s Hs Ha) as Hw. destruct (announce_step a s) as [[a' s']| |] eqn:E; [|done|done].
    destruct Hw as ([W1 W2 W3 W4 W5] & _ & Ha'). split; try done. cbn. by apply put_back_wf.
  - pose proof Hs as [W1 W2 W3 W4 W5]. cbn [move]. split; cbn.
    + intros i c. rewrite lookup_fmap, fmap_Some. intros (c0 & Ei & ->). apply cancel_wf. exact (W1 i c0 Ei).
    + intros i Hi. destruct (W2 i Hi) as (c & Ei & Hd). exists (c <| cancelled := true |>). by rewrite lookup_fmap, Ei.
    + eapply Forall_impl; [exact W3|]. intros a Ha. eapply Forall_impl; [exact Ha|]. intros j Hj. rewrite lookup_fmap. by apply fmap_is_Some.
    + intros i. rewrite lookup_fmap, fmap_is_Some. apply W4.
    + intros _ i c. rewrite lookup_fmap, fmap_Some. by intros (c0 & Ei & ->).
Qed.

Lemma run_wf acts s : server_wf s → ∃ s', run acts s = Some s' ∧ server_wf s'.
Proof.
  revert s. induction acts as [|a acts IH]; intros s Hs; cbn [run]; [by eexists|].
  pose proof (move_wf a s Hs) as Hw. destruct (move a s); [by apply IH|by apply IH|done].
Qed.
End props.
