(* ===== verification/IpcPipeRun.v ===== *)
(** The pipe over a run: what the app gets, that every connection comes to its end, and
    what becomes of an app that falls behind. *)
From S2P Require Import Prelude Bytes Auth ApiTypes Control Ipc Threads Core CoreNetwork CoreConnect IpcServer IpcPipe IpcPipeProps.

Section run.
Context `{J : Json}.

(** C8: nothing brings the pipe down.  Apps connect, send what they like and hang up;
    events are announced by any number of goroutines at once; handlers answer anything;
    the daemon may stop in the middle: in whatever order the goroutines run, none sends
    on a closed channel or closes one twice, no queue holds more than its 32, who is on
    the list is connected, and everybody hears of the end. *)
Theorem nothing_brings_the_pipe_down acts : ∃ s, run acts New = Some s ∧ server_wf s.
Proof. apply run_wf, New_server_wf. Qed.

Lemma reached_server_wf acts s : run acts New = Some s → server_wf s.
Proof. intros Hr. destruct (run_wf acts New New_server_wf) as (s' & Hr' & Hs). rewrite Hr in Hr'. by injection Hr' as <-. Qed.
Lemma reached_wf acts s i c : run acts New = Some s → connections s !! i = Some c → conn_wf c.
Proof. intros Hr Hi. exact (sw_connections s (reached_server_wf acts s Hr) i c Hi). Qed.

(** C9: an app gets its answers in order and every event.  At any moment of any run, each
    request the daemon has read has one answer, with its id, but for the one at work; the answers
    the app has received are among these in their order, and the events it has received
    are the first of those delivered to it.  As long as its connection stands none is
    missing: what it has not received is on its way, at most 34 answers and 66 events. *)
Theorem answers_come_in_order_and_events_in_full acts s i c : run acts New = Some s → connections s !! i = Some c →
  (∃ rs waiting, asked c = rs ++ waiting ∧ (length waiting ≤ 1)%nat ∧ Forall2 (λ r a, ∃ o, a = answer (rq_ID r) o) rs (answered c))
  ∧ replies (received c) `sublist_of` answered c ∧ pushes (received c) `prefix_of` told c
  ∧ (cancelled c = false → ∃ answers events,
      answered c = replies (received c) ++ answers ∧ (length answers ≤ eventBuffer + 2)%nat
      ∧ told c = pushes (received c) ++ events ∧ (length events ≤ 2 * eventBuffer + 2)%nat).
Proof.
  intros Hr Hi. destruct (reached_wf acts s i c Hr Hi) as [P1 P2 P3 P4 P5 [Pe Pw] (rs & Ea & Hf) P8 P9 (lost & P10 & P11 & P12) P13].
  unfold handed in *. rewrite replies_app, <-app_assoc in P8, P9. rewrite pushes_app, <-app_assoc in P10.
  assert (length (in_hand (writer c)) ≤ 1)%nat as Hw by (by destruct (writer c) as [| |[]]; cbn; lia).
  assert (∀ l, length (replies l) ≤ length l)%nat as Hlr by (intros l; apply omap_shorter).
  assert (∀ l, length (pushes l) ≤ length l)%nat as Hlp by (intros l; apply omap_shorter).
  split_and!.
  - exists rs, (pending (reader c)). split; [done|]. split; [by destruct (reader c); cbn; lia|done].
  - etransitivity; [|exact P8]. by apply sublist_inserts_r.
  - rewrite P10. by apply prefix_app_r.
  - intros Hn. eexists _, _. split; [by rewrite <-P9|]. split; [|split; [exact P10|]].
    + pose proof (Hlr (in_hand (writer c) ++ writes c)). rewrite !length_app in *.
      assert (length (replying (reader c)) ≤ 1)%nat by (by destruct (reader c); cbn; lia). lia.
    + pose proof (Hlp (in_hand (writer c) ++ writes c)). rewrite (P12 Hn), !length_app in *.
      assert (length (held (forwarder c)) ≤ 1)%nat by (by destruct (forwarder c); cbn; lia). lia.
Qed.

(** ** The end of a connection *)

(** All its goroutines have returned and the pipe is closed. *)
Definition gone (c : connection) : Prop :=
  reader c = Left ∧ forwarder c = Forwarded ∧ (∃ l, writer c = Done l) ∧ conn_closed c = true.

(** A step the app has no part in: a write waits for it until the pipe is closed or the
    app has gone. *)
Definition unaided (g : goroutine) (c : connection) : Prop :=
  match g, writer c with
  | Writer works, Sending _ => works = false ∧ (conn_closed c = true ∨ hung_up c = true)
  | _, _ => True
  end.

(** One step that is taken. *)
Definition goes_on (g : goroutine) (c : connection) : option connection :=
  match step g c with Moved c' => Some c' | _ => None end.

(** What there is still to do. *)
Definition reader_left (r : reading) : nat :=
  match r with
  | Answering _ => 11 | Replying _ => 10 | Scanning => 6 | Joining => 5 | Finishing => 4 | Deleting => 3 | Closing => 2
  | Leaving => 1 | Left => 0
  end.
Definition forwarder_left (f : forwarding) : nat := match f with Holding _ => 5 | Selecting => 1 | Forwarded => 0 end.
Definition writer_left (w : writing) : nat := match w with Sending _ => 3 | Receiving => 1 | Done _ => 0 end.
Definition pipe_left (shut : bool) : nat := if shut then 0 else 1.
Definition left_to_do (c : connection) : nat :=
  6 * length (sent c) + reader_left (reader c) + 5 * length (events c) + forwarder_left (forwarder c)
  + 3 * length (writes c) + writer_left (writer c) + pipe_left (conn_closed c).

Ltac where_it_is c := repeat match goal with
  | E : reader c = _ |- _ => rewrite E | E : forwarder c = _ |- _ => rewrite E | E : writer c = _ |- _ => rewrite E
  | E : sent c = _ |- _ => rewrite E | E : events c = _ |- _ => rewrite E | E : writes c = _ |- _ => rewrite E
  | E : conn_closed c = _ |- _ => rewrite E
  end.

Lemma step_does g c c' : step g c = Moved c' → (left_to_do c' < left_to_do c)%nat.
Proof.
  assert (∀ b, (pipe_left b ≤ 1)%nat) as Hb by (intros []; cbn; lia). pose proof (Hb (conn_closed c)) as Hc.
  destruct g; cbn [step]; unfold read_step, forward_step, write_step, interrupt_step, hand_over, close;
    repeat case_match; intros [= <-]; unfold left_to_do, stop_reading; cbn; rewrite ?length_app; where_it_is c; cbn;
    first [lia|simplify_eq/=; where_it_is c; cbn; lia|idtac].
  - match goal with E : _ = Moved ?a |- _ => repeat case_match; injection E as <- end; where_it_is c; cbn; lia.
  - match goal with E : _ && _ = true |- _ => apply andb_prop in E as [_ E]; destruct (conn_closed c); [done|] end. cbn. lia.
Qed.

Definition moves (c : connection) : Prop := ∃ g c', unaided g c ∧ step g c = Moved c'.

Lemma writer_moves c : cancelled c = true ∨ hung_up c = true → (∀ l, writer c ≠ Done l) →
  writes c ≠ [] ∨ writes_closed c = true ∨ (∃ l, writer c = Sending l) → moves c.
Proof.
  intros Ho Hd Hw. destruct (writer c) as [|l|l] eqn:Ew; [| |by destruct (Hd l)].
  - destruct (writes c) as [|l rest] eqn:El; [destruct Hw as [?|[Hw|[? ?]]]; [done| |done]|];
      eexists (Writer false), _; (split; [by unfold unaided; rewrite Ew|]); unfold step, write_step; rewrite Ew, El; [by rewrite Hw|done].
  - destruct (conn_closed c) eqn:Eo; [|destruct Ho as [Ho|Ho]].
    + eexists (Writer false), _. split; [unfold unaided; rewrite Ew; by auto|]. unfold step, write_step. by rewrite Ew.
    + eexists Interrupter, _. split; [done|]. unfold step, interrupt_step. by rewrite Ho, Eo.
    + eexists (Writer false), _. split; [unfold unaided; rewrite Ew; by auto|]. unfold step, write_step. by rewrite Ew.
Qed.

Lemma forwarder_moves c : cancelled c = true → forwarder c ≠ Forwarded → moves c.
Proof.
  intros Ho Hf. eexists (Forwarder false), _. split; [done|]. unfold step, forward_step, hand_over.
  destruct (forwarder c); rewrite ?Ho; done.
Qed.

Lemma interrupter_moves c : cancelled c = true → conn_closed c = false → moves c.
Proof. intros Ho Hc. eexists Interrupter, _. split; [done|]. unfold step, interrupt_step. by rewrite Ho, Hc. Qed.

Lemma reader_moves pick c : match read_step pick (inl Internal) c with Moved _ => True | _ => False end → moves c.
Proof. intros Hr. exists (Reader pick (inl Internal)). cbn [step]. destruct (read_step _ _ c) as [c'| |]; [by exists c'|done..]. Qed.

Lemma ends_moves c : conn_wf c → cancelled c = true ∨ hung_up c = true → gone c ∨ moves c.
Proof.
  intros Hc He. pose proof Hc as [P1 P2 P3 P4 P5 [_ Pw] _ _ _ _ _].
  assert (∀ l, writer c = Done l → cancelled c = true) as Hd by (intros l E; apply P5; by exists l).
  assert ((∀ l, writer c ≠ Done l) ∨ (∃ l, writer c = Done l)) as Hw by (destruct (writer c); [by left..|right; by eexists]).
  destruct (reader c) as [|r|r| | | | | |] eqn:Er; cbn [stopped past] in *.
  - right. destruct (sent c) as [|l rest] eqn:Es.
    + destruct (hung_up c || conn_closed c) eqn:Eh.
      * apply (reader_moves true). unfold read_step. by rewrite Er, Es, Eh.
      * apply orb_false_elim in Eh as [Eh Eo]. destruct He as [He|He]; [by apply interrupter_moves|congruence].
    + apply (reader_moves true). unfold read_step. rewrite Er, Es. by destruct (conn_closed c), l.
  - right. apply (reader_moves true). unfold read_step. by rewrite Er.
  - right. destruct (cancelled c) eqn:Eo; [apply (reader_moves false); unfold read_step, hand_over; by rewrite Er, Eo|].
    destruct (Nat.ltb_spec (length (writes c)) eventBuffer) as [Hlt|Hge].
    + apply (reader_moves true). unfold read_step, hand_over. rewrite Er, P2. by apply Nat.ltb_lt in Hlt as ->.
    + apply writer_moves; [by destruct He; [congruence|right]| |left; intros E; rewrite E in Hge; cbv in Hge; lia].
      intros l E. pose proof (Hd l E). congruence.
  - right. destruct (forwarder c) eqn:Ef; [apply forwarder_moves; [by apply P4|by rewrite Ef]..|].
    apply (reader_moves true). unfold read_step. by rewrite Er, Ef, P2.
  - right. destruct Hw as [Hw|[l Hl]]; [apply writer_moves; auto|].
    apply (reader_moves true). unfold read_step. by rewrite Er, Hl.
  - right. apply (reader_moves true). unfold read_step. by rewrite Er.
  - right. apply (reader_moves true). unfold read_step. rewrite Er. pose proof (close_wf c Hc) as Hcl.
    destruct (close c) eqn:Ec; [done| |done]. unfold close in Ec. by repeat case_match.
  - right. apply (reader_moves true). unfold read_step. by rewrite Er.
  - destruct Hw as [Hw|Hl]; [right; apply writer_moves; auto|].
    destruct (conn_closed c) eqn:Eo; [|right; by apply interrupter_moves; [apply P4|]]. left. by split_and!; [|apply P3| |].
Qed.

(** A connection whose end has come. *)
Definition ending (c : connection) : Prop := conn_wf c ∧ (cancelled c = true ∨ hung_up c = true).

Lemma goes_on_does g c c' : ending c → goes_on g c = Some c' → ending c' ∧ (left_to_do c' < left_to_do c)%nat.
Proof.
  intros [Hc He]. unfold goes_on. pose proof (step_wf g c Hc) as Hw. destruct (step g c) as [c1| |] eqn:E; [|done..]. intros [= <-].
  split; [split; [done|]|by apply (step_does g)].
  destruct He as [Ho|Ho]; [left; by apply (step_goes_on g c c1 E)|right; by rewrite (step_hung_up g c c1 E)].
Qed.

(** C10: every connection comes to its end.  Once an app has hung up or the context has
    ended, and nothing more is sent or announced to it, the goroutines of its connection
    take no more than [left_to_do] steps, in whatever order they run; and none of them
    waits for ever: until all have returned and the pipe is closed, one can go on without
    the app. *)
Theorem every_connection_comes_to_its_end acts s i c gs c' :
  run acts New = Some s → connections s !! i = Some c → goes goes_on gs c = Some c' → cancelled c = true ∨ hung_up c = true →
  (length gs ≤ left_to_do c)%nat ∧ (gone c' ∨ ∃ g c'', unaided g c' ∧ step g c' = Moved c'').
Proof.
  intros Hr Hi Hg He. pose proof (reached_wf acts s i c Hr Hi) as Hc.
  destruct (goes_bounded goes_on ending left_to_do goes_on_does gs c c' (conj Hc He) Hg) as [[Hc' He'] Hle].
  split; [lia|by apply ends_moves].
Qed.

(** ** An app that falls behind *)

(** What one connection keeps through any steps of the server that [ok] allows. *)
Section kept.
Context (i : positive) (P : connection → Prop) (ok : act → Prop).
Context (kept_sends : ∀ l c, ok (Sends i l) → P c → P (c <| sent := sent c ++ [l] |>)).
Context (kept_hangs_up : ∀ c, ok (HangsUp i) → P c → P (c <| hung_up := true |>)).
Context (kept_step : ∀ g c c', ok (Goroutine i g) → conn_wf c → P c → step g c = Moved c' → P c').
Context (kept_deliver : ∀ e c c' taken, P c → deliver e c = Moved (c', taken) → P c').
Context (kept_close : ∀ c c', P c → close c = Moved c' → P c').
Context (kept_stop : ∀ c, ok Stop → P c → P (c <| cancelled := true |>)).

Definition keeps_at (s : Server) : Prop := ∃ c, connections s !! i = Some c ∧ P c.

Lemma keeps_put j c c' s : keeps_at s → connections s !! j = Some c → (j = i → P c → P c') →
  keeps_at (s <| connections := <[j := c']> (connections s) |>).
Proof using Type.
  intros (ci & Ei & Hp) Ej Hc. unfold keeps_at. cbn. destruct (decide (j = i)) as [->|Hne].
  - exists c'. rewrite lookup_insert_eq. split; [done|]. rewrite Ei in Ej. injection Ej as <-. by apply Hc.
  - exists ci. by rewrite lookup_insert_ne.
Qed.

Lemma keeps_move a s s' : ok a → keeps_at s → server_wf s → move a s = Moved s' → keeps_at s'.
Proof.
  intros Hok Hd Hs. destruct a as [|j l|j|j g|e l|k|]; cbn [move].
  - intros [= <-]. destruct Hd as (c & Ei & Hd). exists c. split; [|done]. cbn. rewrite lookup_insert_ne; [done|].
    intros E. pose proof (sw_latest s Hs i) as Hl. rewrite Ei in Hl. assert (i < latest s)%positive by (apply Hl; by eexists). lia.
  - destruct (connections s !! j) as [c|] eqn:Ej; [|done]. destruct (hung_up c); [done|]. intros [= <-].
    apply (keeps_put j c); [done..|]. intros ->. by apply kept_sends.
  - destruct (connections s !! j) as [c|] eqn:Ej; [|done]. intros [= <-].
    apply (keeps_put j c); [done..|]. intros ->. by apply kept_hangs_up.
  - destruct (connections s !! j) as [c|] eqn:Ej; [|done]. unfold at_connection.
    set (s1 := match g with Reader _ _ => unlisted j s | _ => s end).
    assert (connections s1 = connections s) as E1 by (destruct g; [unfold s1, unlisted; repeat case_match; done|done..]).
    rewrite E1, Ej. destruct (step g c) as [c'| |] eqn:Es; [|done..]. intros [= <-].
    assert (keeps_at s1) as Hd1 by (destruct Hd as (ci & Ei & Hd); exists ci; by rewrite E1).
    rewrite <-E1. apply (keeps_put j c); [done|by rewrite E1|]. intros -> Hc. eapply kept_step; [done| |exact Hc|exact Es].
    exact (sw_connections s Hs i c Ej).
  - destruct (_ && _); [|done]. by intros [= <-].
  - destruct (announcements s !! k) as [a|]; [|done]. destruct (announce_step a s) as [[a' s1]| |] eqn:Ea; [|done..]. intros [= <-].
    change (keeps_at s1). destruct a as [e [|j others]|e j others|e j others]; cbn [announce_step] in Ea.
    + by injection Ea as <- <-.
    + destruct (connections s !! j) as [c|] eqn:Ej; [|done]. destruct (deliver e c) as [[c' taken]| |] eqn:Ed; [|done..].
      injection Ea as <- <-. apply (keeps_put j c); [done..|]. intros _ Hc. by eapply kept_deliver.
    + by injection Ea as <- <-.
    + unfold at_connection in Ea. destruct (connections s !! j) as [c|] eqn:Ej; [|done]. destruct (close c) as [c'| |] eqn:Ed; [|done..].
      injection Ea as <- <-. apply (keeps_put j c); [done..|]. intros _ Hc. by eapply kept_close.
  - intros [= <-]. destruct Hd as (c & Ei & Hc). exists (c <| cancelled := true |>). cbn. rewrite lookup_fmap, Ei. split; [done|]. by apply kept_stop.
Qed.

Lemma keeps_run acts s s' : Forall ok acts → keeps_at s → server_wf s → run acts s = Some s' → server_wf s' ∧ keeps_at s'.
Proof.
  intros Hacts. revert s. induction Hacts as [|a acts Ha _ IH]; intros s Hd Hs; cbn [run]; [by intros [= <-]|].
  pose proof (move_wf a s Hs) as Hw. destruct (move a s) as [s1| |] eqn:E; [|by apply IH|done].
  apply IH; [by eapply keeps_move|done].
Qed.
End kept.

(** A queue that was closed is given nothing more. *)
Definition shut (es : list core_event) (c : connection) : Prop := closed c = true ∧ told c = es.
Lemma close_shut es c c' : shut es c → close c = Moved c' → shut es c'.
Proof. intros [H1 H2]. unfold close. rewrite H1. by intros [= <-]. Qed.
Lemma step_shut es g c c' : shut es c → step g c = Moved c' → shut es c'.
Proof.
  intros Hd. pose proof Hd as [D1 D2]. destruct g; cbn [step].
  - unfold read_step, hand_over, stop_reading. destruct (reader c) eqn:Er; try (repeat case_match; intros [= <-]; by split).
    destruct (close c) as [c1| |] eqn:E; [|done..]. apply (close_shut es) in E; [|done]. intros [= <-]. exact E.
  - unfold forward_step, hand_over. repeat case_match; intros [= <-]; by split.
  - unfold write_step. repeat case_match; intros [= <-]; by split.
  - unfold interrupt_step. repeat case_match; intros [= <-]; by split.
Qed.
Lemma shut_run i es acts s s' : keeps_at i (shut es) s → server_wf s → run acts s = Some s' → server_wf s' ∧ keeps_at i (shut es) s'.
Proof.
  apply (keeps_run i (shut es) (λ _, True)); [done|done| | |intros c c'; apply close_shut|done|by apply Forall_true].
  - intros g c c' _ _. apply step_shut.
  - intros e c c' taken [H1 H2]. unfold deliver. rewrite H1. by intros [= <- _].
Qed.

(** Nothing ends a connection: no end of the context, no hanging up, no line past the
    limit, and every write works. *)
Definition undisturbed (i : positive) (a : act) : Prop :=
  match a with
  | Stop => False
  | HangsUp j | Sends j TooLong | Goroutine j (Writer false) => j ≠ i
  | _ => True
  end.
Record stays (c : connection) : Prop := mkStays {
  st_cancelled : cancelled c = false;
  st_open : conn_closed c = false;
  st_hung_up : hung_up c = false;
  st_lines : TooLong ∉ sent c;
}.
Lemma close_stays c c' : stays c → close c = Moved c' → stays c'.
Proof. intros [H1 H2 H3 H4]. unfold close. repeat case_match; intros [= <-]; by split. Qed.
Lemma step_stays g c c' : g ≠ Writer false → conn_wf c → stays c → step g c = Moved c' → stays c'.
Proof.
  intros Hg Hc [H1 H2 H3 H4]. assert (stopped (reader c) = false) as Hr.
  { destruct (stopped (reader c)) eqn:E; [|done]. apply (pw_stopped _ Hc) in E. congruence. }
  pose proof (pw_writes _ Hc) as Hw. destruct g as [pick o|pick|works|]; cbn [step].
  - unfold read_step. destruct (reader c) eqn:Er; try done.
    + destruct (sent c) as [|l rest] eqn:Es; [by rewrite H2, H3|]. rewrite H2. cbn [andb]. apply not_elem_of_cons in H4 as [H4 H5].
      destruct l; [| |done]; intros [= <-]; by split.
    + intros [= <-]. by split.
    + unfold hand_over. rewrite H1. repeat case_match; intros [= <-]; by split.
  - unfold forward_step, hand_over. rewrite H1. repeat case_match; intros [= <-]; by split.
  - unfold write_step. rewrite Hw. destruct works; [|done]. cbn [negb].
    assert (past (reader c) = false) as -> by (destruct (reader c); done). repeat case_match; intros [= <-]; by split.
  - unfold interrupt_step. by rewrite H1.
Qed.
Lemma stays_run i acts s s' : Forall (undisturbed i) acts → keeps_at i stays s → server_wf s → run acts s = Some s' → server_wf s' ∧ keeps_at i stays s'.
Proof.
  apply (keeps_run i stays (undisturbed i)).
  - intros l c Hok [H1 H2 H3 H4]. split; try done. cbn. rewrite elem_of_app, list_elem_of_singleton. intros [?|<-]; [done|]. by apply Hok.
  - intros c Hok. by destruct Hok.
  - intros g c c' Hok. apply step_stays. intros ->. by apply Hok.
  - intros e c c' taken [H1 H2 H3 H4]. unfold deliver. repeat case_match; intros [= <- _]; by split.
  - intros c c'. apply close_stays.
  - intros c [].
Qed.

(** With nothing else going on, an app asks and is answered. *)
Record idle (c : connection) : Prop := mkIdle {
  id_reader : reader c = Scanning;
  id_sent : sent c = [];
  id_writes : writes c = [];
  id_open : writes_closed c = false ∧ conn_closed c = false ∧ hung_up c = false;
  id_writer : writer c = Receiving;
}.
Definition asks (i : positive) (r : Request) (o : failure + option result) : list act :=
  Sends i (Readable r) :: (Goroutine i <$> [Reader true o; Reader true o; Reader true o; Writer true; Writer true]).

Lemma run_goroutine i g c c' acts s : connections s !! i = Some c → step g c = Moved c' → reader c ≠ Deleting →
  run (Goroutine i g :: acts) s = run acts (s <| connections := <[i := c']> (connections s) |>).
Proof.
  intros Ei Es Hr. cbn [run move]. rewrite Ei. unfold at_connection.
  assert ((match g with Reader _ _ => unlisted i s | _ => s end) = s) as ->.
  { destruct g; try done. unfold unlisted. rewrite Ei. cbn. by destruct (reader c). }
  by rewrite Ei, Es.
Qed.

Lemma run_sends i l c acts s : connections s !! i = Some c → hung_up c = false →
  run (Sends i l :: acts) s = run acts (s <| connections := <[i := c <| sent := sent c ++ [l] |>]> (connections s) |>).
Proof. intros Ei Eh. cbn [run move]. by rewrite Ei, Eh. Qed.

Lemma put_twice s i c c' : s <| connections := <[i := c]> (connections s) |>
  <| connections := <[i := c']> (connections (s <| connections := <[i := c]> (connections s) |>)) |>
  = s <| connections := <[i := c']> (connections s) |>.
Proof. unfold set_field. cbn. by rewrite insert_insert_eq. Qed.

Lemma idle_asks i r o c s : connections s !! i = Some c → idle c →
  ∃ s' c', run (asks i r o) s = Some s' ∧ connections s' !! i = Some c' ∧ received c' = received c ++ [Reply (answer (rq_ID r) o)]
    ∧ conn_closed c' = false.
Proof.
  intros Ei [I1 I2 I3 (I4 & I5 & I6) I7]. destruct c as [? ? ? ? ? ? ? ? ? ? ? ? ? ? ? ?]. cbn in I1, I2, I3, I4, I5, I6, I7. subst.
  unfold asks. cbn [fmap list_fmap]. erewrite run_sends; [|exact Ei|done].
  do 5 (erewrite run_goroutine; [|cbn; apply lookup_insert_eq|reflexivity|done]; rewrite put_twice).
  cbn [run]. eexists _, _. split; [reflexivity|]. cbn. rewrite lookup_insert_eq. done.
Qed.

(** Thirty-three announcements before the forwarder gets to run, and then it does. *)
Definition falling_behind (e : core_event) : list act :=
  Accept :: concat (replicate 33 (Broadcast e [1%positive] :: replicate 4 (Announcer 0)))
  ++ (Goroutine 1 <$> concat (replicate 32 [Forwarder true; Forwarder true; Writer true; Writer true]) ++ [Forwarder true]).

Definition cut_loose (s : Server) : bool :=
  match connections s !! 1%positive with
  | Some c =>
      match reader c, writer c, sent c, writes c with
      | Scanning, Receiving, [], [] =>
          closed c && negb (writes_closed c || conn_closed c || hung_up c || cancelled c) && bool_decide (1%positive ∉ clients s)
          && (length (pushes (received c)) =? 32)%nat
      | _, _, _, _ => false
      end
  | None => false
  end.
Definition ends_as (check : Server → bool) (o : option Server) : bool := match o with Some s => check s | None => false end.
Lemma ends_as_Some check o : ends_as check o = true → ∃ s, o = Some s ∧ check s = true.
Proof. destruct o as [s|]; [by exists s|done]. Qed.
Lemma falls_behind e : ∃ s, run (falling_behind e) New = Some s ∧ cut_loose s = true.
Proof. apply ends_as_Some. vm_compute. reflexivity. Qed.

Lemma cut_loose_says s : cut_loose s = true → ∃ c, connections s !! 1%positive = Some c ∧ idle c ∧ closed c = true ∧ stays c
  ∧ (1%positive ∉ clients s) ∧ length (pushes (received c)) = 32%nat.
Proof.
  intros Hf. unfold cut_loose in Hf. destruct (connections s !! 1%positive) as [c|] eqn:Ei; [|done].
  destruct (reader c) eqn:E1; try done. destruct (writer c) eqn:E3; try done.
  destruct (sent c) eqn:E4; try done. destruct (writes c) eqn:E5; try done.
  apply andb_prop in Hf as [[[Hc Ho%negb_true_iff]%andb_prop Hl%bool_decide_eq_true]%andb_prop Hn%Nat.eqb_eq].
  apply orb_false_elim in Ho as [[[Hw Hp]%orb_false_elim Hh]%orb_false_elim Hx].
  exists c. split; [done|]. split; [by split|]. split; [done|]. split; [|done]. split; try done. rewrite E4. apply not_elem_of_nil.
Qed.

(** C40: an app that is cut loose is not told.  An app that falls 32 events behind is taken
    off the list and its queue is closed, so that it reconnects and gets a whole state to
    draw, says the code.  But from then on, whatever happens: no event is queued for it any
    more, so that of all that is ever announced it gets at most what was in the queue by
    then; and its connection is not ended.  Unless it hangs up, sends a line past the
    limit, a write fails or the daemon stops, it stays open, and when it is at rest the
    next request is answered. *)
Theorem an_app_cut_loose_is_not_told acts s i c :
  run acts New = Some s → connections s !! i = Some c → closed c = true →
  (∀ acts' s', run acts' s = Some s' → ∃ c', connections s' !! i = Some c' ∧ told c' = told c ∧ pushes (received c') `prefix_of` told c)
  ∧ (stays c → ∀ acts' s', Forall (undisturbed i) acts' → run acts' s = Some s' → ∃ c', connections s' !! i = Some c' ∧ stays c'
      ∧ (idle c' → ∀ r o, ∃ s'' c'', run (asks i r o) s' = Some s'' ∧ connections s'' !! i = Some c''
          ∧ received c'' = received c' ++ [Reply (answer (rq_ID r) o)])).
Proof.
  intros Hr Ei Hcl. pose proof (reached_server_wf _ s Hr) as Hs. split.
  - intros acts' s' Hr'. destruct (shut_run i (told c) acts' s s') as (Hs' & c' & Ei' & _ & Ht); [by exists c|done|done|].
    exists c'. split; [done|]. split; [done|]. destruct (pw_pushes _ (sw_connections s' Hs' i c' Ei')) as (lost & Hp & _).
    rewrite <-Ht, Hp. unfold handed. rewrite pushes_app, <-app_assoc. by eexists.
  - intros Hst acts' s' Hacts Hr'. destruct (stays_run i acts' s s' Hacts) as (Hs' & c' & Ei' & Hst'); [by exists c|done|done|].
    exists c'. split; [done|]. split; [done|]. intros Hidle r o. destruct (idle_asks i r o c' s' Ei' Hidle) as (s'' & c'' & E1 & E2 & E3 & _). by exists s'', c''.
Qed.
End run.
