(* ===== verification/IpcDesk.v ===== *)
(** The theorems of the pipe at concrete runs. *)
From S2P Require Import Prelude Bytes NetAddr NetText Schema Auth ApiTypes Hub Api StorageProps Session Netlog Ipc Peer Mesh MeshProps Control Threads Core CoreNetwork CoreConnect CoreInv CoreSafe CoreLinks CoreDesk IpcServer IpcPipe IpcPipeProps IpcPipeRun.

(** Parameters that come as the list of the fields' values; a switch is on or off. *)
#[export] Instance desk_json : Json := {|
  raw := option (list gostring);
  absent p := bool_decide (p = None);
  strings_of names p :=
    match p with
    | Some fields => if bool_decide (length fields = length names) then inr fields else inl (str "unexpected end of JSON input")
    | None => inr []
    end;
  bool_of _ p := match p with Some [v] => inr (bool_decide (v = str "true")) | _ => inl (str "unexpected end of JSON input") end;
|}.

Definition get_server : Request := mkRequest (str "1") "GetServer" None.

(** A window and a tray icon: one asks and is answered and hears of an event, the other
    is there. *)
Definition two_apps : list act :=
  [Accept; Accept] ++ asks 1 get_server (inr (Some (GetServerResult home)))
  ++ [Broadcast (ServerConnectionChanged true) [1%positive; 2%positive]; Announcer 0; Announcer 0; Announcer 0]
  ++ (Goroutine 1 <$> [Forwarder true; Forwarder true; Writer true; Writer true]).

Definition first_app (check : connection → bool) (s : Server) : bool := if connections s !! 1%positive is Some c then check c else false.
Lemma first_app_is check o : ends_as (first_app check) o = true → ∃ s c, o = Some s ∧ connections s !! 1%positive = Some c ∧ check c = true.
Proof.
  intros (s & -> & H)%ends_as_Some. unfold first_app in H. exists s. destruct (connections s !! 1%positive) as [c|]; [|done]. by exists c.
Qed.

Lemma two_apps_run : ∃ s c, run two_apps New = Some s ∧ connections s !! 1%positive = Some c ∧ (length (received c) =? 2)%nat = true.
Proof. apply first_app_is. vm_compute. reflexivity. Qed.

Lemma answers_come_in_order_and_events_in_full_witness :
  ∃ s c, run two_apps New = Some s ∧ connections s !! 1%positive = Some c
    ∧ replies (received c) `sublist_of` answered c ∧ pushes (received c) `prefix_of` told c ∧ length (received c) = 2%nat.
Proof.
  destruct two_apps_run as (s & c & Hr & Hi & Hg).
  pose proof (answers_come_in_order_and_events_in_full two_apps s 1 c Hr Hi) as (_ & H1 & H2 & _).
  exists s, c. split; [exact Hr|]. split; [exact Hi|]. split; [exact H1|]. split; [exact H2|]. exact (proj1 (Nat.eqb_eq _ _) Hg).
Defined.

(** It hangs up, and three of its goroutines go on. *)
Definition last_steps : list goroutine := [Reader true (inl Internal); Interrupter; Forwarder false].
Definition hangs_up (c : connection) : bool := hung_up c && if goes goes_on last_steps c is Some _ then true else false.
Lemma hanging_up_run : ∃ s c, run (two_apps ++ [HangsUp 1]) New = Some s ∧ connections s !! 1%positive = Some c ∧ hangs_up c = true.
Proof. apply first_app_is. vm_compute. reflexivity. Qed.

Lemma every_connection_comes_to_its_end_witness :
  ∃ s c c', run (two_apps ++ [HangsUp 1]) New = Some s ∧ connections s !! 1%positive = Some c
    ∧ goes goes_on last_steps c = Some c' ∧ (length last_steps ≤ left_to_do c)%nat.
Proof.
  destruct hanging_up_run as (s & c & Hr & Hi & Hh). unfold hangs_up in Hh. apply andb_prop in Hh as [Hh Hg].
  destruct (goes goes_on last_steps c) as [c'|] eqn:E; [|discriminate Hg]. exists s, c, c'. split; [exact Hr|]. split; [exact Hi|]. split; [exact E|].
  exact (proj1 (every_connection_comes_to_its_end _ s 1 c last_steps c' Hr Hi E (or_intror Hh))).
Defined.

Definition connect_request : Request := mkRequest (str "7") "ConnectGroup" (Some [str "elsewhere"]).
Lemma every_request_gets_one_answer_witness :
  let r := connect_request in
  ∃ (c : @Core Toy.scheme desk_net desk_links) reply started c', core_wf c ∧ request_op r = inr (OConnect (str "elsewhere"))
    ∧ alone (dispatch 1 r) c = Some (reply, started, c') ∧ rs_ID reply = str "7".
Proof.
  set (r := connect_request).
  assert (core_wf (daemon [])) as Hc by apply core_New_wf.
  assert (request_op r = inr (OConnect (str "elsewhere"))) as E by (vm_compute; reflexivity).
  pose proof (every_request_gets_one_answer 1 r (daemon []) Hc) as Hd. rewrite E in Hd.
  destruct Hd as (reply & started & c' & Ha & _ & _ & Hid & _). exists (daemon []), reply, started, c'.
  split; [exact Hc|]. split; [exact E|]. split; [exact Ha|exact Hid].
Defined.

(** It has had 32 events, one was announced since it was last told; and then another. *)
Lemma an_app_cut_loose_is_not_told_witness :
  let e := ServerConnectionChanged true in
  ∃ s c, run (falling_behind e) New = Some s ∧ connections s !! 1%positive = Some c ∧ closed c = true ∧ length (pushes (received c)) = 32%nat
    ∧ (∀ acts' s', run acts' s = Some s' → ∃ c', connections s' !! 1%positive = Some c' ∧ told c' = told c ∧ pushes (received c') `prefix_of` told c)
    ∧ ∃ s', run [Broadcast e []; Announcer 0] s = Some s' ∧ ∃ c', connections s' !! 1%positive = Some c' ∧ stays c'.
Proof.
  intros e.
  destruct (falls_behind e) as (s & Hr & Hcut). destruct (cut_loose_says s Hcut) as (c & Ei & Hidle & Hc & Hst & Hl & Hn). exists s, c.
  destruct (an_app_cut_loose_is_not_told _ s 1 c Hr Ei Hc) as [H1 H2]. do 4 (split; [done|]). split; [exact H1|].
  destruct (run [Broadcast e []; Announcer 0] s) as [s'|] eqn:E; [|exfalso].
  - exists s'. split; [reflexivity|]. destruct (H2 Hst [Broadcast e []; Announcer 0] s' ltac:(by repeat constructor) E) as (c' & Ei' & Hst' & _).
    exists c'. exact (conj Ei' Hst').
  - destruct (run_wf [Broadcast e []; Announcer 0] s (reached_server_wf _ s Hr)) as (s' & E' & _). rewrite E in E'. discriminate E'.
Defined.
