(* ===== verification/MeshRelay.v ===== *)
(** Links carried by another peer: choosing a relay, and being one.

    [tryRelay] against the specification "the lowest device id among the peers that
    could carry the link and have not been asked", and [passOn] against "at most one
    datagram leaves, to the peer it is for, one hop spent". *)
From S2P Require Import Prelude Bytes NetAddr Wire Stun Replay Session Netlog Ipc Peer Mesh Handle MeshWf MeshSafe MeshProps.

Section relay.
Context {N : Noise} {E : Env}.

(** A peer that could be asked to carry [r]'s link. *)
Record candidate (m : Mesh) (r : ref) (p : Peer) (c : ref) (pc : Peer) : Prop := {
  ca_peer : ∃ d, peers m !! d = Some c;
  ca_at : store m !! c = Some pc;
  ca_other : c ≠ r;
  ca_direct : state pc = PeerDirect;
  ca_untried : DeviceID pc ∉ relaysTried p;
}.

(** What [tryRelay] does once it has its relay. *)
Definition ask_relay (r : ref) (p : Peer) (c : ref) (id : gostring) : prog Mesh bool :=
  logf (AskingRelay (DeviceID p) id);;
  update_peer r (relayThrough c id);;
  report r;;
  beginHandshake r;;
  mret true.

(** One hop spent. *)
Definition one_hop_less (f : Forward) : Forward :=
  mkForward (u8 (HopLimit f - 1)) (Source f) (Destination f) (Packet f).
End relay.

Section relay_lemmas.
Context {N : Noise} {E : Env} {L : NoiseLaws N} {EL : EnvLaws E}.

(** The search as a fold over the peers that could carry the link. *)
Definition offer (m : Mesh) (r : ref) (p : Peer) (c : ref) : option (ref * gostring) :=
  pc ← store m !! c;
  if bool_decide (c = r) || negb (bool_decide (state pc = PeerDirect)) || triedRelay (DeviceID pc) p
  then None else Some (c, DeviceID pc).
Definition better (best : option (ref * gostring)) (x : ref * gostring) : option (ref * gostring) :=
  match best with
  | None => Some x
  | Some (_, i) => if bytes_lt x.2 i then Some x else best
  end.

Lemma pick_relay_fold r p all relay m : (∀ c, c ∈ all → live m c) →
  pick_relay r p all relay m = Some (foldl better relay (omap (offer m r p) all), m).
Proof.
  revert relay; induction all as [|c all IH]; intros relay Hl; [done|].
  destruct (Hl c) as [pc Hc]; [by left|].
  assert (∀ relay, pick_relay r p all relay m = Some (foldl better relay (omap (offer m r p) all), m)) as IH'.
  { intros relay'. apply IH. intros c' Hc'. apply Hl. by right. }
  unfold pick_relay; fold (pick_relay r p). unfold mbind, prog_bind, deref. rewrite Hc.
  assert (offer m r p c = if bool_decide (c = r) || negb (bool_decide (state pc = PeerDirect)) || triedRelay (DeviceID pc) p
    then None else Some (c, DeviceID pc)) as Ho by (unfold offer; by rewrite Hc).
  cbn [omap list_omap]. rewrite Ho. destruct (_ || _); [apply IH'|]. cbn [foldl].
  destruct relay as [[b best]|]; [|apply IH'].
  change (better (Some (b, best)) (c, DeviceID pc))
    with (if bytes_lt (DeviceID pc) best then Some (c, DeviceID pc) else Some (b, best)).
  destruct (bytes_lt _ best); apply IH'.
Qed.

Lemma foldl_better relay xs :
  match foldl better relay xs with
  | None => relay = None ∧ xs = []
  | Some x => (relay = Some x ∨ x ∈ xs) ∧ ∀ y, relay = Some y ∨ y ∈ xs → bytes_lt y.2 x.2 = false
  end.
Proof.
  revert relay; induction xs as [|z xs IH]; intros relay; cbn [foldl].
  { destruct relay as [x|]; [|done]. split; [by left|]. intros y [[= ->]|Hy%elem_of_nil]; [apply bytes_lt_irrefl|done]. }
  specialize (IH (better relay z)). destruct (foldl _ _ xs) as [x|].
  - destruct IH as [Hx Hmin].
    assert (∀ y, relay = Some y → bytes_lt y.2 x.2 = false) as Hr.
    { intros [b i] ->. cbn [better snd] in *. destruct (bytes_lt z.2 i) eqn:Hz; [|apply (Hmin (b, i)); by left].
      specialize (Hmin z (or_introl eq_refl)). cbn [snd]. destruct (bytes_lt i x.2) eqn:Hi; [|done].
      by rewrite (bytes_lt_trans _ _ _ Hz Hi) in Hmin. }
    assert (bytes_lt z.2 x.2 = false) as Hz.
    { destruct relay as [[b i]|]; cbn [better snd] in *; [|apply Hmin; by left].
      destruct (bytes_lt z.2 i) eqn:Hz; [apply Hmin; by left|]. specialize (Hr _ eq_refl). cbn [snd] in Hr.
      destruct (bytes_lt z.2 x.2) eqn:Hzx; [|done]. destruct (bytes_lt x.2 i) eqn:Hxi.
      - by rewrite (bytes_lt_trans _ _ _ Hzx Hxi) in Hz.
      - by rewrite (bytes_lt_total _ _ Hr Hxi), Hzx in Hz. }
    split; [|intros y [?|[->|?]%elem_of_cons]; [by apply Hr|done|apply Hmin; by right]].
    destruct Hx as [Hx|Hx]; [|right; by right]. unfold better in Hx. destruct relay as [[b i]|].
    + destruct (bytes_lt z.2 i); simplify_eq; [right; by left|by left].
    + simplify_eq. right. by left.
  - destruct IH as [Hb _]. unfold better in Hb. destruct relay as [[b i]|]; [|done]. by destruct (bytes_lt _ _).
Qed.

Lemma offer_candidate m m1 r p all c i : Peers m = Some (all, m1) →
  (c, i) ∈ omap (offer m1 r p) all ↔ ∃ pc, candidate m r p c pc ∧ DeviceID pc = i.
Proof.
  intros HP. assert (store m1 = store m) as Es by (by injection HP as _ <-).
  rewrite list_elem_of_omap. unfold offer. rewrite Es. split.
  - intros (c' & Hc & Ho). apply (Peers_result _ _ _ _ HP) in Hc.
    destruct (store m !! c') as [pc|] eqn:Hpc; [|done]. cbn in Ho. destruct (_ || _) eqn:Eb; [done|].
    injection Ho as -> <-. apply orb_false_iff in Eb as [[E1 E2]%orb_false_iff E3].
    apply bool_decide_eq_false in E1, E3. apply negb_false_iff, bool_decide_eq_true in E2.
    exists pc. by split.
  - intros (pc & [H1 H2 H3 H4 H5] & <-). exists c. split; [by apply (Peers_result _ _ _ _ HP)|].
    rewrite H2. cbn. unfold triedRelay.
    by rewrite (bool_decide_eq_false_2 (c = r)), (bool_decide_eq_true_2 (state pc = PeerDirect)),
      (bool_decide_eq_false_2 (DeviceID pc ∈ relaysTried p)) by done.
Qed.

#[local] Arguments Encode : simpl never.
#[local] Arguments HeaderSize : simpl never.

(** A sealed packet, when the link has a session and its counter is not used up. *)
Lemma seal_packet_result r kind body m p s :
  store m !! r = Some p → session p = Some s → 0 ≤ counter p < 2 ^ 64 - 1 →
  let header := Encode (mkHeader TransportVersion kind (sender p) (counter p)) [] [] in
  ∃ m' p', seal_packet r kind body m =
    Some (inr (header ++ aead (cs_key (Session.send s)) (counter p) header body), m')
    ∧ wire m' = wire m ∧ packets m' = packets m ∧ tick m' = tick m ∧ inbound m' = inbound m
    ∧ store m' = <[r := p']> (store m) ∧ endpoint p' = endpoint p.
Proof.
  intros Hr Hs Hc header. unfold seal_packet, try_bind, mbind, prog_bind, with_peer, nextCounter.
  rewrite Hr, Hs. cbn. unfold deref. cbn. rewrite lookup_insert_eq. cbn. rewrite lookup_insert_eq.
  unfold seal. cbn. rewrite Hs. change (Encode _ [] []) with header.
  assert (take HeaderSize header = header) as Ht by (apply take_ge; subst header; by rewrite length_Encode).
  rewrite Ht. pose proof (Seal_out header header body (counter p) s Hc) as Ho.
  destruct (Seal header header body (counter p) s) as [out s']. cbn in Ho. subst out. cbn.
  do 2 eexists. split; [done|]. cbn. split_and!; [done..|by rewrite insert_insert_eq|done].
Qed.

Lemma Encode_append h ct : Encode h [] [] ++ ct = Encode h [] ct.
Proof. unfold Encode. rewrite <-!(assoc_L (++)). done. Qed.
End relay_lemmas.

(** ** Properties *)

(** The relay asked to carry a link is a matter of fact.  [tryRelay] reports
    failure and changes nothing exactly when no peer with an open direct link is left
    to ask; otherwise it asks the one with the lowest device id among them, whatever
    order the map is walked in, points the link through it, remembers it was asked,
    and starts the handshake over. *)
Theorem lowest_untried_relay_is_asked {N : Noise} {E : Env} {L : NoiseLaws N} {EL : EnvLaws E} m r p :
  mesh_wf m → store m !! r = Some p →
  let m1 := m <| tick := S (tick m) |> in
  ((∀ c pc, ¬ candidate m r p c pc) ∧ tryRelay r m = Some (false, m1))
  ∨ ∃ c pc, candidate m r p c pc
      ∧ (∀ c' pc', candidate m r p c' pc' → c' = c ∨ bytes_lt (DeviceID pc) (DeviceID pc') = true)
      ∧ tryRelay r m = ask_relay r p c (DeviceID pc) m1
      ∧ DeviceID pc ∈ relaysTried (relayThrough c (DeviceID pc) p)
      ∧ via (relayThrough c (DeviceID pc) p) = Some c.
Proof.
  intros Hm Hr m1. set (all := walk (tick m) (map_to_list (peers m)).*2).
  assert (Peers m = Some (all, m1)) as HP by done.
  assert (∀ c, c ∈ all → live m1 c) as Hl by (intros c; by apply (Peers_live m all m1 c Hm HP)).
  assert (tryRelay r m = match foldl better None (omap (offer m1 r p) all) with
    | None => Some (false, m1) | Some (c, id) => ask_relay r p c id m1 end) as Et.
  { unfold tryRelay, mbind, prog_bind. rewrite HP. unfold deref at 1. change (store m1) with (store m). rewrite Hr.
    rewrite pick_relay_fold by done. by destruct (foldl _ _ _) as [[c id]|]. }
  pose proof (foldl_better None (omap (offer m1 r p) all)) as Hf. rewrite Et.
  destruct (foldl better None _) as [[c id]|]; [right|left].
  - destruct Hf as [[?|Hin] Hmin]; [done|]. apply (offer_candidate _ _ _ _ _ _ _ HP) in Hin as (pc & Hc & <-).
    exists c, pc. split_and!; [done| |done|cbn; set_solver|done]. intros c' pc' Hc'.
    assert ((c', DeviceID pc') ∈ omap (offer m1 r p) all) as Hin by (apply (offer_candidate _ _ _ _ _ _ _ HP); by exists pc').
    specialize (Hmin _ (or_intror Hin)). cbn in Hmin. destruct (bytes_lt (DeviceID pc) (DeviceID pc')) eqn:Hlt; [by right|left].
    pose proof (bytes_lt_total _ _ Hmin Hlt) as Heq. destruct Hc as [[d Hd] Hat _ _ _], Hc' as [[d' Hd'] Hat' _ _ _].
    destruct (mw_peers _ Hm _ _ Hd) as (q & Hq & Hqd), (mw_peers _ Hm _ _ Hd') as (q' & Hq' & Hqd'). simplify_eq.
    congruence.
  - destruct Hf as [_ Hnil]. split; [|done]. intros c pc Hc.
    assert ((c, DeviceID pc) ∈ omap (offer m1 r p) all) as Hin by (apply (offer_candidate _ _ _ _ _ _ _ HP); by exists pc).
    rewrite Hnil in Hin. by apply elem_of_nil in Hin.
Qed.

Lemma lowest_untried_relay_is_asked_witness :
  ∃ (m : @Mesh Plain.noise) r p c pc, candidate m r p c pc ∧ tryRelay r m = ask_relay r p c (DeviceID pc) (m <| tick := S (tick m) |>).
Proof.
  destruct (plain_two_wf (λ m, bool_decide (is_Some (store m !! 2%positive))
    && match tryRelay 2%positive m with Some (true, _) => true | _ => false end)) as (m & Hm & Hc); [vm_compute; reflexivity|].
  apply andb_true_iff in Hc as [Hr Ht]. apply bool_decide_eq_true in Hr. destruct Hr as [p Hr].
  destruct (lowest_untried_relay_is_asked m 2%positive p Hm Hr) as [[_ E]|(c & pc & Hcand & _ & E & _)].
  - rewrite E in Ht. discriminate Ht.
  - exists m, 2%positive, p, c, pc. split; [exact Hcand|exact E].
Defined.

(** Carrying a packet spends one hop and reaches nobody but the peer it is for.
    Whatever a relay is asked to pass on, it sends nothing, or one datagram: to the
    peer that holds the destination address, over a direct link, never back to the
    peer it came from and never when the hop limit has run out; and what that
    datagram carries, sealed under that link's own key and counter, is the same
    packet with the hop limit one less. *)
Theorem a_carried_packet_spends_a_hop {N : Noise} {E : Env} {L : NoiseLaws N} {EL : EnvLaws E} carried from m :
  mesh_wf m → (∀ r p, store m !! r = Some p → counter p < 2 ^ 64 - 1) →
  ∃ m', passOn carried from m = Some (tt, m') ∧
    (wire m' = wire m ∨
     ∃ target p s body,
       byIP m !! Destination carried = Some target ∧ store m !! target = Some p
       ∧ target ≠ from ∧ state p = PeerDirect ∧ session p = Some s ∧ HopLimit carried ≠ 0
       ∧ Forward_Encode (one_hop_less carried) [] = Ret body
       ∧ let h := mkHeader TransportVersion MsgForward (sender p) (counter p) in
         wire m' = wire m ++ [(endpoint p,
           Encode h [] (aead (cs_key (Session.send s)) (counter p) (Encode h [] []) body))]).
Proof.
  intros Hm Hcount. unfold passOn. destruct (Z.eqb_spec (HopLimit carried) 0) as [|Hh]; [eexists; split; [done|by left]|].
  unfold mbind at 1, prog_bind, gets. destruct (byIP m !! Destination carried) as [target|] eqn:Ht;
    [|eexists; split; [done|by left]].
  destruct (mw_byIP _ Hm _ _ Ht) as [p Hp]. unfold deref at 1, mbind at 1, prog_bind. rewrite Hp.
  destruct (bool_decide (target = from) || negb (bool_decide (state p = PeerDirect))) eqn:Eb;
    [eexists; split; [done|by left]|].
  apply orb_false_iff in Eb as [Ef Ed]. apply bool_decide_eq_false in Ef. apply negb_false_iff, bool_decide_eq_true in Ed.
  pose proof (mw_links _ Hm _ _ Hp) as Hwf. pose proof (pw_state _ Hwf) as Hst. rewrite Ed in Hst.
  destruct Hst as [[s Hs] _]. change (mkForward _ _ _ _) with (one_hop_less carried).
  unfold forward. destruct (Forward_Encode (one_hop_less carried) []) as [body|e|] eqn:Ee;
    [|eexists; split; [done|by left]|unfold Forward_Encode in Ee; by destruct (_ || _)].
  destruct (seal_packet_result target MsgForward body m p s Hp Hs) as (m1 & p1 & Eseal & Ew & _ & _ & _ & Est & Eend).
  { pose proof (pw_counter _ Hwf) as [? _]. split; [done|by eapply Hcount]. }
  unfold try_bind, mbind, prog_bind, of_go, mret, prog_ret. rewrite Eseal. unfold deref. rewrite Est, lookup_insert_eq.
  destruct (ap_IsValid (endpoint p1)); cbn [negb]; [|eexists; split; [done|by left]].
  unfold WriteToUDPAddrPort, mbind, prog_bind, next_tick. destruct (writes (tick m1));
    (eexists; split; [done|]); [right|by left; cbn].
  exists target, p, s, body. split_and!; [done..|].
  by rewrite <-Eend, <-Ew, <-(Encode_append (mkHeader TransportVersion MsgForward (sender p) (counter p)) (aead _ _ _ _)).
Qed.

Lemma a_carried_packet_spends_a_hop_witness :
  ∃ m m' : @Mesh Plain.noise,
    passOn (mkForward 1 (Addr4 3) (Addr4 2) [9]) 2%positive m = Some (tt, m') ∧ length (wire m') = S (length (wire m)).
Proof.
  destruct (plain_two_wf (λ m, bool_decide (map_Forall (λ _ p, counter p < 2 ^ 64 - 1) (store m))
    && match passOn (mkForward 1 (Addr4 3) (Addr4 2) [9]) 2%positive m with
       | Some (_, m') => (length (wire m') =? S (length (wire m)))%nat | _ => false end)) as (m & Hm & Hc); [vm_compute; reflexivity|].
  apply andb_true_iff in Hc as [Hc Hw]. apply bool_decide_eq_true in Hc.
  destruct (a_carried_packet_spends_a_hop (mkForward 1 (Addr4 3) (Addr4 2) [9]) 2%positive m Hm) as (m' & E & _).
  - intros r p Hp. exact (Hc r p Hp).
  - exists m, m'. split; [exact E|]. rewrite E in Hw. by apply Nat.eqb_eq in Hw.
Defined.
