(* ===== verification/MeshTraffic.v ===== *)
(** What a datagram can do to the mesh: what reaches the adapter, what a packet with
    no proof in it can change, and where the code does more, or less, than it says. *)
From S2P Require Import Prelude Bytes NetAddr Wire Stun Replay Session Netlog Ipc Peer Mesh Handle MeshWf MeshSafe MeshFrame MeshProps.

Section specs.
Context {N : Noise} {E : Env}.

(** [pkt] is a packet of [r]'s session in [m], with a counter not seen before, and
    decrypts to [pt]. *)
Definition opens (m : Mesh) (r : ref) (pkt pt : list Z) : Prop :=
  ∃ h ct p s, Decode pkt = Ret (h, ct) ∧ store m !! r = Some p ∧ session p = Some s
    ∧ (Open [] (take HeaderSize pkt) ct (Counter h) s).1 = inr pt
    ∧ (Accept (replay p) (Counter h)).1 = true.

(** What becomes of a data packet. *)
Inductive verdict : Type :=
  | Delivered (pt : list Z)
  | Discarded (reason : Reason).

Definition data_verdict (m : Mesh) (packet ct : list Z) (c : Z) (src : source) : verdict :=
  match src_peer src with
  | None => Discarded UnknownPeer
  | Some r =>
      match store m !! r ≫= session, store m !! r with
      | Some s, Some p =>
          match (Open [] (take HeaderSize packet) ct c s).1 with
          | inl _ => Discarded Undecryptable
          | inr pt =>
              if negb (Accept (replay p) c).1 then Discarded Replayed
              else if (inboundCapacity <=? length (inbound m))%nat then Discarded QueueFull
              else Delivered pt
          end
      | _, _ => Discarded NoSession
      end
  end.

(** A field an operation leaves as it was. *)
Definition keeps {A} (f : Mesh → A) (m m' : Mesh) : Prop := f m' = f m.

(** Nothing about where a link goes, or whether it is open, has changed. *)
Definition same_link (p p' : Peer) : Prop :=
  DeviceID p' = DeviceID p ∧ state p' = state p ∧ endpoint p' = endpoint p ∧ via p' = via p
  ∧ relaysTried p' = relaysTried p ∧ replay p' = replay p
  ∧ peerStatic <$> session p' = peerStatic <$> session p.
Record links_stay (m m' : Mesh) : Prop := {
  ls_links : ∀ r p, store m !! r = Some p → ∃ p', store m' !! r = Some p' ∧ same_link p p';
  ls_peers : peers m' = peers m;
  ls_byIP : byIP m' = byIP m;
  ls_byUDP : byUDP m' = byUDP m;
  ls_inbound : inbound m' = inbound m;
}.

(** A link the other side is to open: this side only waits. *)
Record waiting (m : Mesh) (r : ref) : Prop := {
  wt_peer : ∃ p, store m !! r = Some p ∧ bytes_lt (DeviceID p) (device m) = true
    ∧ state p = PeerConnecting ∧ session p = None ∧ via p = None ∧ handshakes p = 0;
}.
End specs.

(** ** Frames *)
Section frames.
Context {N : Noise} {E : Env}.

#[export] Instance keeps_pre {A} (f : Mesh → A) : PreOrder (keeps f).
Proof. split; [done|]. intros m1 m2 m3. unfold keeps. congruence. Qed.

Lemma with_peer_inv {A} r (f : st Peer A) m a m' : with_peer r f m = Some (a, m') →
  ∃ p, store m !! r = Some p ∧ a = (f p).1 ∧ m' = m <| store := <[r := (f p).2]> (store m) |>.
Proof.
  unfold with_peer. destruct (store m !! r) as [p|] eqn:Hr; [|done]. destruct (f p) as [x p'] eqn:Ef.
  intros [= <- <-]. exists p. by rewrite Ef.
Qed.

Lemma keeps_inbound_with_peer {A} r (f : st Peer A) : frames (keeps inbound) (with_peer r f).
Proof. intros m a m' (p & _ & _ & ->)%with_peer_inv. done. Qed.

Lemma keeps_modify {A} (g : Mesh → A) (f : Mesh → Mesh) : (∀ m, g (f m) = g m) → frames (keeps g) (modify f).
Proof. intros Hf m a m' [= _ <-]. apply Hf. Qed.

#[export] Instance keeps_inbound_frame : Frame (keeps inbound).
Proof.
  split; intros; try apply keeps_inbound_with_peer; try (by apply keeps_modify). by intros m a m' [= _ <-].
Qed.

#[export] Instance links_stay_pre : PreOrder links_stay.
Proof.
  split.
  - intros m. split; try done. intros r p Hr. by exists p.
  - intros m1 m2 m3 [A1 A2 A3 A4 A5] [B1 B2 B3 B4 B5]. split; try congruence.
    intros r p Hr. destruct (A1 r p Hr) as (p2 & Hr2 & S2). destruct (B1 r p2 Hr2) as (p3 & Hr3 & S3).
    exists p3. split; [done|]. unfold same_link in *. destruct_and!. split_and!; congruence.
Qed.

Lemma links_stay_with_peer {A} r (f : st Peer A) : (∀ p, same_link p (f p).2) → frames links_stay (with_peer r f).
Proof.
  intros Hf m a m' (p & Hr & _ & ->)%with_peer_inv. split; try done. cbn. intros x q Hq.
  destruct (decide (x = r)) as [->|].
  - rewrite Hr in Hq. injection Hq as <-. exists (f p).2. by rewrite lookup_insert_eq.
  - exists q. by rewrite lookup_insert_ne.
Qed.

Lemma links_stay_modify f : (∀ m, links_stay m (f m)) → frames links_stay (modify f).
Proof. intros Hf m a m' [= _ <-]. apply Hf. Qed.

#[export] Instance links_stay_frame : Frame links_stay.
Proof.
  split; intros; try (apply links_stay_modify; intros m; split; try done; intros x p Hp; by exists p).
  - intros m a m' [= _ <-]. split; try done. intros x p Hp. by exists p.
  - apply links_stay_with_peer. intros p. unfold expect. by case_match.
  - by apply links_stay_with_peer.
  - apply links_stay_with_peer. intros p. unfold nextCounter. by case_match.
  - apply links_stay_with_peer. intros p. unfold seal. destruct (session p) as [s|] eqn:Es; [|done].
    pose proof (Seal_static dst ad body c s). destruct (Seal _ _ _ _ _) as [o s']. cbn in *.
    split_and!; try done. by rewrite Es; cbn; f_equal.
  - by apply links_stay_with_peer.
Qed.
End frames.

(** ** What reaches the adapter *)
Section inbound.
Context {N : Noise} {E : Env} {L : NoiseLaws N}.

Local Instance inbound_pre : PreOrder (keeps inbound) := keeps_pre inbound.
Local Instance inbound_frame : Frame (keeps inbound) := keeps_inbound_frame.
Local Ltac untouched := intros; apply keeps_modify; done.

Local Ltac go := pose proof inbound_pre; frame.
Lemma ki_Peers : frames (keeps inbound) Peers.
Proof. apply frame_Peers; exact _. Qed.
Lemma ki_noteStranger from : frames (keeps inbound) (noteStranger from).
Proof.
  intros m a m'. unfold noteStranger, mbind, prog_bind, gets. destruct (negb _); cbn; [|by intros [= _ <-]].
  intros [= _ <-]. unfold keeps. cbn. by case_match.
Qed.
Lemma ki_update r f : frames (keeps inbound) (update_peer r f).
Proof. apply keeps_inbound_with_peer. Qed.
#[local] Hint Resolve keeps_inbound_with_peer ki_update ki_noteStranger ki_Peers : frame.

Lemma ki_beginHandshake r : frames (keeps inbound) (beginHandshake r).
Proof. apply frame_beginHandshake; try exact _; auto with frame. Qed.
Lemma ki_reindex : frames (keeps inbound) reindex.
Proof.
  unfold reindex, index_peer. go; solve [untouched].
Qed.
Lemma ki_report r : frames (keeps inbound) (report r).
Proof. apply frame_report; exact _. Qed.
Lemma ki_sendKeepalive r : frames (keeps inbound) (sendKeepalive r).
Proof. apply frame_sendKeepalive; exact _. Qed.
Lemma ki_send r k s c body : frames (keeps inbound) (send r k s c body).
Proof. apply frame_send; exact _. Qed.
Lemma ki_of_go {A} (r : go wire_error A) : frames (keeps inbound) (of_go r).
Proof. apply frame_of_go; exact _. Qed.
Lemma ki_forward r c : frames (keeps inbound) (forward r c).
Proof. apply frame_forward; exact _. Qed.
Lemma ki_log l : frames (keeps inbound) (logf l).
Proof. apply fr_log; exact _. Qed.
Lemma ki_drop r : frames (keeps inbound) (drop_packet r).
Proof. apply fr_drop; exact _. Qed.
Lemma ki_tick : frames (keeps inbound) next_tick.
Proof. apply fr_tick; exact _. Qed.
Lemma ki_forget from : frames (keeps inbound) (forgetStranger from).
Proof. untouched. Qed.
#[local] Hint Resolve ki_beginHandshake ki_reindex ki_report ki_sendKeepalive ki_send ki_of_go ki_forward ki_log
  ki_drop ki_tick ki_forget : frame.
Lemma ki_answer r src : frames (keeps inbound) (answer_by_relay r src).
Proof. unfold answer_by_relay. go. Qed.
#[local] Hint Resolve ki_answer : frame.
Lemma ki_follow r src : frames (keeps inbound) (follow_source r src).
Proof. unfold follow_source. go. Qed.
Lemma ki_open_link r s b : frames (keeps inbound) (open_link r s b).
Proof. unfold open_link. go. Qed.
#[local] Hint Resolve ki_follow ki_open_link : frame.

Lemma ki_handleHandshakeInit payload src : frames (keeps inbound) (handleHandshakeInit payload src).
Proof. unfold handleHandshakeInit. go. Qed.
Lemma ki_handleHandshakeResponse payload src : frames (keeps inbound) (handleHandshakeResponse payload src).
Proof. unfold handleHandshakeResponse. go. Qed.
Lemma ki_handleKeepalive payload src : frames (keeps inbound) (handleKeepalive payload src).
Proof. apply frame_handleKeepalive; try exact _; auto with frame. Qed.
Lemma ki_handleProbe payload from : frames (keeps inbound) (handleProbe payload from).
Proof. apply frame_handleProbe; try exact _; auto with frame. Qed.
Lemma ki_handleClose src : frames (keeps inbound) (handleClose src).
Proof. unfold handleClose. go. Qed.
Lemma ki_handleStun packet : frames (keeps inbound) (handleStun packet).
Proof. unfold handleStun. go; by apply keeps_modify. Qed.
Lemma ki_passOn carried from : frames (keeps inbound) (passOn carried from).
Proof. apply frame_passOn; exact _. Qed.
End inbound.

(** ** The verdict on a data packet *)
Section data.
Context {N : Noise} {E : Env} {L : NoiseLaws N} {EL : EnvLaws E}.

Lemma bind_inv {S A B} (f : prog S A) (g : A → prog S B) m b m' : (f ≫= g) m = Some (b, m') →
  ∃ a m1, f m = Some (a, m1) ∧ g a m1 = Some (b, m').
Proof. unfold mbind, prog_bind. destruct (f m) as [[a m1]|]; [|done]. intros H. by exists a, m1. Qed.

Lemma bind_gets {S A B} (f : S → A) (g : A → prog S B) m : (gets f ≫= g) m = g (f m) m.
Proof. done. Qed.

Lemma kpk_noteStranger from m m' : noteStranger from m = Some (tt, m') → packets m' = packets m ∧ inbound m' = inbound m.
Proof.
  unfold noteStranger, mbind, prog_bind, gets. destruct (negb _); cbn; [|by intros [= <-]].
  intros [= <-]. cbn. by case_match.
Qed.

Lemma with_peer_keeps {A} r (f : st Peer A) m a m' : with_peer r f m = Some (a, m') →
  packets m' = packets m ∧ inbound m' = inbound m.
Proof. by intros (p & _ & _ & ->)%with_peer_inv. Qed.

Lemma answer_by_relay_keeps r src m m' : answer_by_relay r src m = Some (tt, m') →
  packets m' = packets m ∧ inbound m' = inbound m.
Proof.
  unfold answer_by_relay. destruct (src_relay src) as [relay|]; [|by intros [= <-]].
  intros (q & m1 & Hd & Hw)%bind_inv. assert (m1 = m) as ->.
  { unfold deref in Hd. destruct (store m !! relay); [|done]. by injection Hd as _ <-. }
  by apply with_peer_keeps in Hw.
Qed.

(** [accept] against the parts [data_verdict] reads. *)
Lemma accept_verdict header ct c t p :
  (accept header ct c t p).1 =
    match session p with
    | None => inl ErrNoSession
    | Some s =>
        match (Open [] header ct c s).1 with
        | inl e => inl (SessionFailed e)
        | inr pt => if (Accept (replay p) c).1 then inr pt else inl ErrReplayed
        end
    end.
Proof.
  unfold accept, decrypt, let_in. destruct (session p) as [s|]; [|done]. destruct (Open _ _ _ _ _) as [[e|pt] s']; [done|]. cbn.
  by destruct (Accept (replay p) c) as [[] w].
Qed.

Lemma handleData_verdict packet ct c src m m' : (HeaderSize ≤ length packet)%nat →
  (∀ r, src_peer src = Some r → live m r) →
  handleData packet ct c src m = Some (tt, m') →
  match data_verdict m packet ct c src with
  | Delivered pt => inbound m' = inbound m ++ [pt] ∧ packets m' = packets m
  | Discarded reason => inbound m' = inbound m ∧ packets m' = (Drop reason (packets m)).2
  end.
Proof.
  intros Hlen Hlive. unfold handleData, data_verdict. destruct (src_peer src) as [r|].
  2:{ intros ([] & m1 & [= <-] & Hn)%bind_inv. apply kpk_noteStranger in Hn as [-> ->]. done. }
  destruct (Hlive r eq_refl) as [p Hr]. rewrite Hr. cbn [mbind option_bind].
  intros (t & m0 & [= <- <-] & H)%bind_inv. rewrite slice_Ret in H by lia.
  rewrite Nat.sub_0_r, drop_0 in H. apply bind_inv in H as (res & m1 & Ha & H).
  destruct (with_peer_result _ _ _ _ _ _ Hr Ha) as [Hres _]. apply with_peer_keeps in Ha as [Hpk1 Hin1].
  rewrite accept_verdict in Hres. destruct (session p) as [s|]; [|subst res; injection H as <-; cbn; by rewrite Hpk1].
  destruct (Open _ _ _ _ _).1 as [e|pt]; [subst res; injection H as <-; cbn; by rewrite Hpk1|].
  destruct (Accept (replay p) c).1; subst res; cbn [negb]; [|injection H as <-; cbn; by rewrite Hpk1].
  apply bind_inv in H as ([] & m2 & Hu & H). apply with_peer_keeps in Hu as [Hpk2 Hin2].
  apply bind_inv in H as ([] & m3 & Hv & H). apply answer_by_relay_keeps in Hv as [Hpk3 Hin3].
  unfold queue_inbound in H. rewrite bind_gets in H. rewrite <-Hin1, <-Hin2, <-Hin3, <-Hpk1, <-Hpk2, <-Hpk3.
  destruct (_ <=? _)%nat; by injection H as <-.
Qed.

(** A verdict that delivers has a packet of the peer's session behind it. *)
Lemma delivered_opens m packet ct h src pt : Decode packet = Ret (h, ct) →
  data_verdict m packet ct (Counter h) src = Delivered pt → ∃ r, src_peer src = Some r ∧ opens m r packet pt.
Proof.
  intros Hd. unfold data_verdict. destruct (src_peer src) as [r|]; [|done]. exists r. split; [done|].
  destruct (store m !! r) as [p|] eqn:Hr; [|done]. cbn in *. destruct (session p) as [s|] eqn:Hs; [|done].
  destruct (Open _ _ _ _ _).1 as [e|pt'] eqn:Ho; [done|]. destruct (Accept _ _).1 eqn:Ha; [|done]. cbn in *.
  case_match; [done|]. simplify_eq. by exists h, ct, p, s.
Qed.

(** Of all the types a packet can have, only data reaches the adapter. *)
Lemma dispatch_inbound h packet payload src m m' :
  Decode packet = Ret (h, payload) → (∀ r, src_peer src = Some r → live m r) →
  dispatch h packet payload src m = Some (tt, m') →
  inbound m' = inbound m ∨ ∃ r pt, src_peer src = Some r ∧ opens m r packet pt ∧ inbound m' = inbound m ++ [pt].
Proof.
  intros Hd Hl. unfold dispatch.
  destruct (_ =? _); [intros H; left; by apply (ki_handleHandshakeInit _ _ _ _ _ H)|].
  destruct (_ =? _); [intros H; left; by apply (ki_handleHandshakeResponse _ _ _ _ _ H)|].
  destruct (_ =? _); [intros H; left; by apply (ki_handleKeepalive _ _ _ _ _ H)|].
  destruct (_ =? _).
  { intros H. destruct (Decode_length _ _ _ Hd) as [Hlen _]. pose proof (handleData_verdict _ _ _ _ _ _ Hlen Hl H) as Hv.
    destruct (data_verdict _ _ _ _ _) as [pt|reason] eqn:Ev; [|left; by destruct Hv].
    right. destruct (delivered_opens _ _ _ _ _ _ Hd Ev) as (r & Hr & Ho). exists r, pt. by destruct Hv. }
  destruct (_ =? _); [intros H; left; by apply (ki_handleClose _ _ _ _ H)|].
  intros [= <-]. by left.
Qed.

Lemma handleForward_inbound packet payload h from m m' :
  mesh_wf m → is_bytes packet → Decode packet = Ret (h, payload) →
  handleForward packet payload (Counter h) from m = Some (tt, m') →
  inbound m' = inbound m ∨ ∃ r pt relay body carried, inbound m' = inbound m ++ [pt]
    ∧ byUDP m !! from = Some relay ∧ r ≠ relay ∧ opens m relay packet body
    ∧ DecodeForward body = Ret carried ∧ Destination carried = virtualIP m
    ∧ byIP m !! Source carried = Some r ∧ opens m r (Packet carried) pt.
Proof.
  intros Hm Hb Hd. destruct (Decode_length _ _ _ Hd) as [Hlen _].
  intros (relay & m0 & [= <- <-] & H)%bind_inv. destruct (byUDP m !! from) as [relay|] eqn:Hu.
  2:{ apply bind_inv in H as ([] & m1 & [= <-] & Hn). apply kpk_noteStranger in Hn as [_ ->]. by left. }
  apply bind_inv in H as (t & m0 & [= <- <-] & H). rewrite slice_Ret, Nat.sub_0_r, drop_0 in H by lia.
  destruct (mw_byUDP _ Hm _ _ Hu) as [q Hq].
  apply bind_inv in H as (res & m1 & Ha & H). destruct (with_peer_result _ _ _ _ _ _ Hq Ha) as [Hres Hm1].
  rewrite accept_verdict in Hres.
  destruct res as [e|body]; [injection H as <-; left; by rewrite Hm1|].
  assert (opens m relay packet body) as Ho.
  { destruct (session q) as [s|] eqn:Hs; [|done]. destruct (Open _ _ _ _ _).1 as [e|pt] eqn:Hop; [done|].
    destruct (Accept _ _).1 eqn:Hacc; [|done]. injection Hres as <-. by exists h, payload, q, s. }
  destruct (DecodeForward body) as [carried|e|] eqn:Ef; [|injection H as <-; left; by rewrite Hm1|done].
  apply bind_inv in H as (ip & m2 & [= <- <-] & H). rewrite Hm1 in H. case_decide as Hip; cbn in Hip.
  2:{ left. by rewrite (ki_passOn _ _ _ _ _ H). }
  apply bind_inv in H as (peer & m2 & [= <- <-] & H). cbn in H. destruct (byIP m !! Source carried) as [r|] eqn:Hr;
    [|injection H as <-; by left]. case_decide as Hne; [injection H as <-; by left|].
  destruct (Decode (Packet carried)) as [[h' payload']|e|] eqn:Ed'; [|injection H as <-; by left|done].
  apply dispatch_inbound in H as [?|(r' & pt & [= <-] & Ho' & Hin)]; [by left| |done|].
  - right. exists r, pt, relay, body, carried. split_and!; try done.
    destruct Ho' as (h2 & ct2 & p2 & s2 & ? & Hp2 & ?). exists h2, ct2, p2, s2. split; [done|].
    cbn in Hp2. by rewrite lookup_insert_ne in Hp2.
  - cbn. intros x [= <-]. unfold live. cbn. rewrite lookup_insert_ne by done. by apply (mw_byIP _ Hm _ _ Hr).
Qed.
End data.

(** ** Properties *)

(** Every data packet is delivered or accounted for.  A packet from no known
    peer, for a link that is not open, that the session's keys refuse, that repeats a
    counter, or that finds the queue to the adapter full adds one to exactly the
    counter that says so and reaches nobody; any other is queued for the adapter,
    once, and nothing is counted as dropped. *)
Theorem data_is_delivered_or_counted {N : Noise} {E : Env} {L : NoiseLaws N} {EL : EnvLaws E} packet ct c src m :
  mesh_wf m → source_wf m src → is_u64 c → (HeaderSize ≤ length packet)%nat →
  ∃ m', handleData packet ct c src m = Some (tt, m') ∧
    match data_verdict m packet ct c src with
    | Delivered pt => inbound m' = inbound m ++ [pt] ∧ packets m' = packets m
    | Discarded reason => inbound m' = inbound m ∧ packets m' = (Drop reason (packets m)).2
    end.
Proof.
  intros Hm Hs Hc Hlen. pose proof (safe_handleData packet ct c src m Hm Hs Hc Hlen) as Hsafe.
  apply wp_run in Hsafe as ([] & m' & Hrun & _). exists m'. split; [done|].
  apply handleData_verdict; [done|apply Hs|done].
Qed.

(** A data packet from the open peer of [plain_two], sealed as it would seal it. *)
Definition plain_data (c : Z) (pt : list Z) : list Z :=
  let header := Encode (mkHeader TransportVersion MsgData 7 c) [] [] in
  header ++ Plain.seal (2 :: replicate 32 1 ++ replicate 32 2) c header pt.

Lemma data_is_delivered_or_counted_witness :
  ∃ m m' : @Mesh Plain.noise,
    handleData (plain_data 5 [42; 43]) (drop HeaderSize (plain_data 5 [42; 43])) 5
      (mkSource AddrPortZero (Some 1%positive) None) m = Some (tt, m')
    ∧ inbound m' = inbound m ++ [[42; 43]].
Proof.
  set (src := mkSource AddrPortZero (Some 1%positive) None).
  destruct (plain_two_wf (λ m, bool_decide (is_Some (store m !! 1%positive)) &&
    match data_verdict m (plain_data 5 [42; 43]) (drop HeaderSize (plain_data 5 [42; 43])) 5 src with
    | Delivered pt => bool_decide (pt = [42; 43]) | _ => false end)) as (m & Hm & Hc); [vm_compute; reflexivity|].
  apply andb_true_iff in Hc as [Hl Hv]. apply bool_decide_eq_true in Hl.
  destruct (data_is_delivered_or_counted (plain_data 5 [42; 43]) (drop HeaderSize (plain_data 5 [42; 43])) 5 src m Hm)
    as (m' & E & H).
  - split; [by intros r [= <-]|done|by intros []].
  - unfold is_u64. lia.
  - vm_compute. lia.
  - exists m, m'. split; [exact E|]. destruct (data_verdict _ _ _ _ _) as [pt|]; [|discriminate Hv].
    apply bool_decide_eq_true in Hv. subst pt. by destruct H.
Defined.

(** C18: nothing unauthenticated reaches the adapter.  Whatever datagram arrives from
    whatever address, the queue to the adapter is left as it was or gains one packet;
    and that packet was decrypted, under the keys of the open session of the peer at
    the sender's address and with a counter not seen before, either from the datagram
    itself or from the packet inside a forward that was itself authenticated in the
    same way as coming from the relay and is addressed to this device. *)
Theorem only_authentic_packets_reach_the_adapter {N : Noise} {E : Env} {L : NoiseLaws N} {EL : EnvLaws E} packet from m m' :
  mesh_wf m → is_bytes packet → handle packet from m = Some (tt, m') →
  inbound m' = inbound m ∨
  ∃ r pt, inbound m' = inbound m ++ [pt] ∧
    ((byUDP m !! from = Some r ∧ opens m r packet pt) ∨
     ∃ relay body carried, byUDP m !! from = Some relay ∧ r ≠ relay ∧ opens m relay packet body
       ∧ DecodeForward body = Ret carried ∧ Destination carried = virtualIP m
       ∧ byIP m !! Source carried = Some r ∧ opens m r (Packet carried) pt).
Proof.
  intros Hm Hb. unfold handle. destruct (Looks packet); [intros H; left; by apply (ki_handleStun _ _ _ _ H)|].
  destruct (Decode packet) as [[h payload]|e|] eqn:Ed; [|intros [= <-]; by left|done].
  destruct (Type_ h =? MsgProbe); [intros H; left; by apply (ki_handleProbe _ _ _ _ _ H)|].
  destruct (Type_ h =? MsgForward).
  - intros H. apply handleForward_inbound in H as [?|(r & pt & relay & body & carried & H)]; try done; [by left|right].
    destruct_and!. exists r, pt. split; [done|right]. by exists relay, body, carried.
  - intros (peer & m0 & [= <- <-] & H)%bind_inv. apply dispatch_inbound in H as [?|(r & pt & Hr & Ho & Hin)]; [by left| |done|].
    + right. exists r, pt. split; [done|left]. done.
    + cbn. intros r Hr. by apply (mw_byUDP _ Hm from).
Qed.

Lemma only_authentic_packets_reach_the_adapter_witness :
  ∃ (m : @Mesh Plain.noise) r pt, opens m r (plain_data 5 [42; 43]) pt.
Proof.
  set (from := AddrPortFrom (Addr4 20) 9).
  destruct (plain_two_wf (λ m, match handle (plain_data 5 [42; 43]) from m with
    | Some (_, m') => bool_decide (length (inbound m') = S (length (inbound m)))
    | _ => false end)) as (m & Hm & Hc); [vm_compute; reflexivity|].
  destruct (handle (plain_data 5 [42; 43]) from m) as [[[] m']|] eqn:Eh; [|discriminate Hc].
  apply bool_decide_eq_true in Hc.
  destruct (only_authentic_packets_reach_the_adapter (plain_data 5 [42; 43]) from m m' Hm) as [E|(r & pt & _ & H)].
  - apply (bool_decide_unpack _). vm_compute. exact I.
  - exact Eh.
  - rewrite E in Hc. lia.
  - destruct H as [[_ Ho]|(relay & body & carried & _ & _ & Ho & _)]; [by exists m, r, pt|by exists m, relay, body].
Defined.
