(* ===== verification/MeshOutsider.v ===== *)
(** What somebody without keys can do to a link.

    Probes and keepalives carry no proof of who sent them, so nothing they contain may
    move a link; a close carries none either, and ends one; and an address nobody is at
    is to be logged once. *)
From S2P Require Import Prelude Bytes NetAddr Wire Stun Replay Session Netlog Ipc Peer Mesh Handle MeshWf MeshSafe MeshFrame MeshProps MeshTraffic.

Section outsider.
Context {N : Noise} {E : Env}.

Lemma ls_noteStranger from : frames links_stay (noteStranger from).
Proof.
  pose proof links_stay_pre. pose proof links_stay_frame. unfold noteStranger. frame; try apply fr_log.
  apply links_stay_modify. intros m. destruct (_ <? _)%nat; [|reflexivity]. split; try done. intros r p Hr. by exists p.
Qed.

Lemma ls_update r (f : Peer → Peer) : (∀ p, same_link p (f p)) → frames links_stay (update_peer r f).
Proof. intros Hf. exact (links_stay_with_peer r (λ p, (tt, f p)) Hf). Qed.

Lemma ls_measure r token t : frames links_stay (with_peer r (measure token t)).
Proof. apply links_stay_with_peer. intros p. unfold measure. by case_match. Qed.

Lemma envelope_shape kind s c body : ∃ rest, envelope kind s c body = 193 :: 146 :: rest.
Proof. by eexists. Qed.

(** The first two bits of a peer packet are not those of a STUN message. *)
Lemma Looks_envelope kind s c body : Looks (envelope kind s c body) = false.
Proof.
  destruct (envelope_shape kind s c body) as [rest ->]. unfold Looks. by destruct (length _ <? headerSize)%nat.
Qed.

Lemma Decode_envelope kind s c body :
  Decode (envelope kind s c body) = Ret (mkHeader TransportVersion (u8 kind) (u64 s) (u64 c), body).
Proof. unfold envelope. by rewrite Decode_Encode_gen. Qed.

(** A second look at a stranger already remembered. *)
Lemma noteStranger_seen from m : from ∈ strangers m → noteStranger from m = Some (tt, m).
Proof. intros H. unfold noteStranger, mbind, prog_bind, gets. by rewrite bool_decide_eq_true_2. Qed.

Lemma noteStranger_new from m : from ∉ strangers m → (size (strangers m) < rememberStrangers)%nat →
  noteStranger from m = Some (tt, m <| strangers := {[from]} ∪ strangers m |> <| log := log m ++ [PacketFromStranger from] |>).
Proof.
  intros H Hlt. unfold noteStranger, mbind, prog_bind, gets. rewrite bool_decide_eq_false_2 by done. cbn [negb when].
  unfold modify. by destruct (Nat.ltb_spec (size (strangers m)) rememberStrangers); [|lia].
Qed.

Lemma noteStranger_full from m : from ∉ strangers m → (rememberStrangers ≤ size (strangers m))%nat →
  noteStranger from m = Some (tt, m <| log := log m ++ [PacketFromStranger from] |>).
Proof.
  intros H Hge. unfold noteStranger, mbind, prog_bind, gets. rewrite bool_decide_eq_false_2 by done. cbn [negb when].
  unfold modify. by destruct (Nat.ltb_spec (size (strangers m)) rememberStrangers); [lia|].
Qed.

Lemma set_log_same (m : Mesh) l : log m = l → m <| log := l |> = m.
Proof. intros <-. by destruct m. Qed.
End outsider.

(** ** Properties *)

(** A packet without proof moves nothing.  Whatever a probe or a keepalive
    contains and wherever it comes from, no link changes its state, its address, its
    relay, the relays it has tried, its session's keys or its replay window; the
    tables stay as they are; and nothing reaches the adapter. *)
Theorem probes_and_keepalives_move_nothing {N : Noise} {E : Env} payload from src m m' :
  handleProbe payload from m = Some (tt, m') ∨ handleKeepalive payload src m = Some (tt, m') →
  links_stay m m'.
Proof.
  pose proof links_stay_pre. pose proof links_stay_frame.
  intros [H'|H'].
  - refine (frame_handleProbe links_stay _ _ _ payload from m tt m' H').
    + intros r t. by apply ls_update.
    + intros r h. by apply ls_update.
    + apply ls_measure.
  - refine (frame_handleKeepalive links_stay _ _ _ payload src m tt m' H').
    + apply ls_measure.
    + intros r t. by apply ls_update.
    + apply ls_noteStranger.
Qed.

Lemma probes_and_keepalives_move_nothing_witness :
  ∃ m m' : @Mesh Plain.noise, wire m' ≠ wire m ∧ links_stay m m'.
Proof.
  set (from := AddrPortFrom (Addr4 20) 9). set (ping := Ping_Encode (mkPing 5 false) []).
  destruct (plain_two_wf (λ m, match handleProbe ping from m with
    | Some (_, m') => negb (length (wire m') =? length (wire m))%nat | _ => false end)) as (m & _ & Hc);
    [vm_compute; reflexivity|].
  destruct (handleProbe ping from m) as [[[] m']|] eqn:Eh; [|discriminate Hc].
  exists m, m'. split.
  - intros Hw. by rewrite Hw, Nat.eqb_refl in Hc.
  - apply (probes_and_keepalives_move_nothing ping from (mkSource from None None)). left. exact Eh.
Defined.

(** A close packet ends a link on nobody's word.  Twenty bytes with the type of a
    close, any sender id, any counter and any payload, arriving from the address a
    peer is at, drop that peer's session and mark the link failed: nothing in the
    packet is checked against the session's keys. *)
Theorem anyone_can_close_a_link {N : Noise} {E : Env} {L : NoiseLaws N} {EL : EnvLaws E} s c payload from m r p :
  mesh_wf m → byUDP m !! from = Some r → store m !! r = Some p → is_Some (session p) →
  ∃ m' p', handle (envelope MsgClose s c payload) from m = Some (tt, m')
    ∧ store m' !! r = Some p' ∧ session p' = None ∧ state p' = PeerFailed.
Proof.
  intros Hm Hu Hr Hs. unfold handle. rewrite Looks_envelope, Decode_envelope. cbn [Type_].
  change (u8 MsgClose) with MsgClose. cbn. unfold peerAt. rewrite bind_gets, Hu. cbn.
  unfold dispatch. cbn [Type_]. cbn. unfold handleClose. cbn [src_peer].
  assert (state p ≠ PeerFailed) as Hst.
  { intros Hf. pose proof (pw_state _ (mw_links _ Hm _ _ Hr)) as Hw. rewrite Hf in Hw. rewrite Hw in Hs. by destruct Hs. }
  assert (∃ m1 p1, with_peer r fail m = Some (true, m1) ∧ store m1 !! r = Some p1
    ∧ session p1 = None ∧ state p1 = PeerFailed) as (m1 & p1 & Hf & Hr1 & Hs1 & Hst1).
  { unfold with_peer, fail. rewrite Hr, decide_False by done. do 2 eexists. split; [done|]. cbn.
    rewrite lookup_insert_eq. by split_and!. }
  unfold mbind at 1, prog_bind. rewrite Hf. cbn [when].
  unfold mbind at 1, prog_bind, deref at 1. rewrite Hr1. unfold mbind at 1, prog_bind. cbn.
  unfold report, mbind, prog_bind, gets. cbn. destruct (on_state m1); cbn; [|do 2 eexists; split; [reflexivity|by split_and!]].
  unfold deref. cbn. rewrite Hr1. destruct (status p1) as [st reason]. cbn.
  do 2 eexists. split; [done|]. by split_and!.
Qed.

Lemma anyone_can_close_a_link_witness :
  ∃ m m' : @Mesh Plain.noise, ∃ p', handle (envelope MsgClose 0 0 []) (AddrPortFrom (Addr4 20) 9) m = Some (tt, m')
    ∧ store m' !! 1%positive = Some p' ∧ session p' = None ∧ state p' = PeerFailed.
Proof.
  destruct (plain_two_wf (λ m, bool_decide (byUDP m !! AddrPortFrom (Addr4 20) 9 = Some 1%positive)
    && match store m !! 1%positive with Some p => bool_decide (is_Some (session p)) | _ => false end)) as (m & Hm & Hc);
    [vm_compute; reflexivity|].
  apply andb_true_iff in Hc as [Hu Hs]. apply bool_decide_eq_true in Hu.
  destruct (store m !! 1%positive) as [p|] eqn:Hr; [|discriminate Hs]. apply bool_decide_eq_true in Hs.
  destruct (anyone_can_close_a_link 0 0 [] (AddrPortFrom (Addr4 20) 9) m 1%positive p Hm Hu Hr Hs) as (m' & p' & H).
  by exists m, m', p'.
Defined.

(** A stranger's address is logged once while there is room to remember it, and
    on every packet once there is not.  From an address not seen before, [S n]
    packets write one line when fewer than 32 addresses are remembered; when 32 are,
    they write one line each, so a sender with enough addresses fills the log. *)
Theorem strangers_are_logged_once_until_there_are_32 {N : Noise} {E : Env} from m n :
  from ∉ strangers m →
  ∃ m', for_each (replicate (S n) from) noteStranger m = Some (tt, m')
    ∧ log m' = log m ++ (if (size (strangers m) <? rememberStrangers)%nat
                         then [PacketFromStranger from] else replicate (S n) (PacketFromStranger from)).
Proof.
  intros Hnew. destruct (Nat.ltb_spec (size (strangers m)) rememberStrangers) as [Hlt|Hge].
  - cbn [replicate for_each]. unfold mbind, prog_bind. rewrite noteStranger_new by done.
    set (m1 := m <| strangers := {[from]} ∪ strangers m |> <| log := log m ++ [PacketFromStranger from] |>).
    exists m1. split; [|done]. assert (from ∈ strangers m1) as Hin by (cbn; set_solver). clearbody m1.
    induction n as [|n IH]; [done|]. cbn [replicate for_each]. unfold mbind, prog_bind.
    by rewrite noteStranger_seen.
  - exists (m <| log := log m ++ replicate (S n) (PacketFromStranger from) |>). split; [|done].
    generalize (S n) as k. intros k. revert m Hnew Hge.
    induction k as [|k IH]; intros m Hnew Hge; cbn [replicate for_each].
    + by rewrite app_nil_r, set_log_same.
    + unfold mbind, prog_bind. rewrite noteStranger_full by done. rewrite IH by done. cbn.
      by rewrite <-(assoc_L (++)).
Qed.

Lemma strangers_are_logged_once_until_there_are_32_witness :
  let m := plain_mesh [65] (Addr4 1) (replicate 32 1) in
  ∃ m', for_each (replicate 3 (AddrPortFrom (Addr4 7) 7)) noteStranger m = Some (tt, m')
    ∧ log m' = [PacketFromStranger (AddrPortFrom (Addr4 7) 7)].
Proof.
  intros m. destruct (strangers_are_logged_once_until_there_are_32 (AddrPortFrom (Addr4 7) 7) m 2) as (m' & E & H).
  - cbn. by apply not_elem_of_empty.
  - exists m'. split; [exact E|]. rewrite H. vm_compute. reflexivity.
Defined.
