(* ===== verification/MeshLink.v ===== *)
(** Two daemons and the datagrams between them.

    Everything else about the mesh is about one side.  Here the datagrams one mesh puts on
    the wire are handed to the other: a handshake and its answer open a link, and then
    every packet sealed on one side comes out on the other, in both directions. *)
From S2P Require Import Prelude Bytes NetAddr Wire Stun Replay Session Netlog Ipc Peer Mesh Handle MeshWf MeshSafe MeshFrame MeshProps MeshTraffic MeshRelay MeshOutsider.

(** ** One side *)
Section side.
Context {N : Noise} {E : Env} {L : NoiseLaws N}.

(** All that changed is one link, what left, and what nobody asks about. *)
Record only (r : ref) (p : Peer) (out : list (AddrPort * list Z)) (m m' : Mesh) : Prop := mkOnly {
  on_store : store m' = <[r := p]> (store m);
  on_wire : wire m' = wire m ++ out;
  on_keys : keys m' = keys m;
  on_device : device m' = device m;
  on_virtualIP : virtualIP m' = virtualIP m;
  on_peers : peers m' = peers m;
  on_byIP : byIP m' = byIP m;
  on_byUDP : byUDP m' = byUDP m;
  on_inbound : inbound m' = inbound m;
  on_now : now m' = now m;
}.

Lemma only_start r p m : store m !! r = Some p → only r p [] m m.
Proof. intros Hr. split; try done; [by rewrite insert_id|by rewrite app_nil_r]. Qed.

Lemma only_trans r p p' out out' m m1 m2 : only r p out m m1 → only r p' out' m1 m2 → only r p' (out ++ out') m m2.
Proof.
  intros [A1 A2 A3 A4 A5 A6 A7 A8 A9 A10] [B1 B2 B3 B4 B5 B6 B7 B8 B9 B10]. split; try congruence.
  - by rewrite B1, A1, insert_insert_eq.
  - by rewrite B2, A2, app_assoc.
Qed.

Lemma only_link r p out m m' : only r p out m m' → store m' !! r = Some p.
Proof. intros [-> _ _ _ _ _ _ _ _ _]. apply lookup_insert_eq. Qed.

(** A step after others, as seen from the start. *)
Lemma only_step {A} (f : prog Mesh A) (Q : A → Mesh → Prop) r p p' out out' m m1 :
  only r p out m m1 → wp f (λ a m2, only r p' out' m1 m2 ∧ (only r p' (out ++ out') m m2 → Q a m2)) m1 → wp f Q m1.
Proof.
  intros H1 H2. eapply wp_mono; [exact H2|]. intros a m2 [H3 HQ]. apply HQ. by eapply only_trans.
Qed.

Lemma wp_with {A} r (f : st Peer A) p a p' m (Q : A → Mesh → Prop) : store m !! r = Some p → f p = (a, p') →
  (∀ m', only r p' [] m m' → Q a m') → wp (with_peer r f) Q m.
Proof.
  intros Hr Ef HQ. unfold wp, with_peer. rewrite Hr, Ef. apply HQ. split; try done. cbn. by rewrite app_nil_r.
Qed.

Lemma wp_try_inr {X A B} (f : prog Mesh (X + A)) (g : A → prog Mesh (X + B)) m (Q : X + B → Mesh → Prop) :
  wp f (λ r m', ∃ a, r = inr a ∧ wp (g a) Q m') m → wp (try_bind f g) Q m.
Proof. intros H. apply wp_bind. eapply wp_mono; [exact H|]. by intros ? m' (a & -> & Ha). Qed.

Lemma wp_update r (f : Peer → Peer) p m (Q : unit → Mesh → Prop) : store m !! r = Some p →
  (∀ m', only r (f p) [] m m' → Q tt m') → wp (update_peer r f) Q m.
Proof.
  intros Hr HQ. unfold wp, update_peer, with_peer. rewrite Hr. apply HQ. split; try done. cbn. by rewrite app_nil_r.
Qed.

Lemma wp_deref r p m (Q : Peer → Mesh → Prop) : store m !! r = Some p → Q p m → wp (deref r) Q m.
Proof. intros Hr HQ. unfold wp, deref. by rewrite Hr. Qed.

Lemma wp_logf l r p m (Q : unit → Mesh → Prop) : store m !! r = Some p →
  (∀ m', only r p [] m m' → Q tt m') → wp (logf l) Q m.
Proof. intros Hr HQ. apply wp_modify, HQ. split; try done; cbn; [by rewrite insert_id|by rewrite app_nil_r]. Qed.

Lemma wp_next_tick r p m (Q : nat → Mesh → Prop) : store m !! r = Some p →
  (∀ n m', only r p [] m m' → Q n m') → wp next_tick Q m.
Proof. intros Hr HQ. apply (HQ (tick m)). split; try done; cbn; [by rewrite insert_id|by rewrite app_nil_r]. Qed.

Lemma wp_tick m (Q : nat → Mesh → Prop) : Q (tick m) (m <| tick := S (tick m) |>) → wp next_tick Q m.
Proof. done. Qed.

Lemma wp_report r p m (Q : unit → Mesh → Prop) : store m !! r = Some p →
  (∀ m', only r p [] m m' → Q tt m') → wp (report r) Q m.
Proof.
  intros Hr HQ. unfold report. apply wp_bind, wp_gets. destruct (Mesh.on_state m); [|by apply wp_ret, HQ, only_start].
  apply wp_bind, (wp_deref _ p); [done|]. destruct (status p) as [s reason]. apply wp_modify, HQ.
  split; try done; cbn; [by rewrite insert_id|by rewrite app_nil_r].
Qed.

Lemma wp_randomToken r p m (Q : Z → Mesh → Prop) : store m !! r = Some p →
  (∀ token m', only r p [] m m' → Q token m') → wp randomToken Q m.
Proof.
  intros Hr HQ. unfold randomToken, randomSender. apply wp_bind, wp_bind, (wp_next_tick r p); [done|].
  intros n m' H'. destruct (random64 n); apply wp_ret; [by apply wp_ret, HQ|by apply wp_gets, HQ].
Qed.

(** What is written goes out. *)
Context (Hw : ∀ n, writes n = true).

Lemma wp_write_out r p packet to m (Q : mesh_error + unit → Mesh → Prop) : store m !! r = Some p →
  (∀ m', only r p [(to, packet)] m m' → Q (inr tt) m') → wp (WriteToUDPAddrPort packet to) Q m.
Proof using Hw.
  intros Hr HQ. unfold WriteToUDPAddrPort. apply wp_bind, (wp_next_tick r p); [done|]. intros n m' H'. rewrite Hw.
  apply wp_bind, wp_modify, wp_ret, HQ. destruct H'. split; try done; cbn. by rewrite on_wire0, app_nil_r.
Qed.

Definition reachable (p : Peer) : Prop := via p = None ∧ ap_IsValid (endpoint p) = true.

Lemma wp_deliver_direct r p packet m (Q : mesh_error + unit → Mesh → Prop) : store m !! r = Some p → reachable p →
  (∀ m', only r p [(endpoint p, packet)] m m' → Q (inr tt) m') → wp (deliver r packet) Q m.
Proof using Hw.
  intros Hr [Hv He] HQ. unfold deliver. apply wp_bind, (wp_deref _ p); [done|]. rewrite Hv, He.
  by apply (wp_write_out r p).
Qed.

Lemma wp_send r p kind s c body m (Q : unit → Mesh → Prop) : store m !! r = Some p → reachable p →
  (∀ m', only r p [(endpoint p, envelope kind s c body)] m m' → Q tt m') → wp (send r kind s c body) Q m.
Proof using Hw.
  intros Hr Hp HQ. unfold send. apply wp_bind, (wp_deliver_direct r p); [done..|]. intros m' H'. by apply wp_ret, HQ.
Qed.

(** A keepalive only makes the link expect its echo. *)
Definition awaiting (p p' : Peer) : Prop := ∃ pending', p' = p <| pending := pending' |>.

Lemma wp_sendKeepalive r p m (Q : unit → Mesh → Prop) : store m !! r = Some p → reachable p →
  (∀ p' packet m', awaiting p p' → only r p' [(endpoint p, packet)] m m' → Q tt m') → wp (sendKeepalive r) Q m.
Proof using Hw.
  intros Hr Hp HQ. unfold sendKeepalive. apply wp_bind, (wp_randomToken r p); [done|]. intros token m1 H1.
  apply wp_bind, wp_gets, wp_bind, (wp_update r _ p); [by eapply only_link|]. intros m2 H2.
  assert (∃ pending', expect token (now m1) p = p <| pending := pending' |>) as [pd Hpd].
  { unfold expect. case_match; by eexists. }
  rewrite Hpd in H2. apply wp_bind, (wp_deref _ (p <| pending := pd |>)); [by eapply only_link|].
  apply (wp_send r (p <| pending := pd |>)); [by eapply only_link|by destruct Hp|].
  intros m3 H3. apply (HQ (p <| pending := pd |>) (envelope MsgKeepalive (sender p) 0 (Ping_Encode (mkPing token false) [])) m3);
    [by exists pd|].
  exact (only_trans _ _ _ _ _ _ _ _ H1 (only_trans _ _ _ _ _ _ _ _ H2 H3)).
Qed.

Lemma wp_open_link r p s responder m (Q : unit → Mesh → Prop) : store m !! r = Some p → reachable p →
  (∀ p' packet m', awaiting (open s (now m) p) p' → only r p' [(endpoint p, packet)] m m' → Q tt m') →
  wp (open_link r s responder) Q m.
Proof using Hw.
  intros Hr Hp HQ. unfold open_link. apply wp_bind, wp_gets, wp_bind, (wp_update r _ p); [done|]. intros m1 H1.
  set (q := open s (now m) p) in *.
  assert (reachable q ∧ endpoint q = endpoint p) as [Hq Heq].
  { destruct Hp as [Hv He]. unfold q, open, reachable. cbn. rewrite Hv. cbn. done. }
  apply wp_bind, (wp_deref _ q); [by eapply only_link|]. apply wp_bind, (wp_logf _ r q); [by eapply only_link|]. intros m2 H2.
  apply wp_bind, (wp_report r q); [by eapply only_link|]. intros m3 H3.
  apply (wp_sendKeepalive r q); [by eapply only_link|done|]. intros p' packet m4 Ha H4. rewrite Heq in H4.
  apply (HQ p' packet m4 Ha).
  exact (only_trans _ _ _ _ _ _ _ _ H1 (only_trans _ _ _ _ _ _ _ _ H2 (only_trans _ _ _ _ _ _ _ _ H3 H4))).
Qed.

(** ** Opening a link *)

(** The link of [m] that is to [them], who has this transport key. *)
Record introduced (m : Mesh) (r : ref) (p : Peer) (them : gostring) (key : Keypair) : Prop := mkIntroduced {
  in_peers : peers m !! them = Some r;
  in_store : store m !! r = Some p;
  in_device : DeviceID p = them;
  in_key : transportKey p = Public key;
  in_size : length (Public key) = KeySize;
}.

(** [beginHandshake], when it goes ahead: what it writes is the first message of IK. *)
Lemma begins r p them key m : introduced m r p them key → reachable p →
  bytes_lt them (device m) = false → may_begin (now m) p = true → (length (device m) ≤ 255)%nat →
  length (Public (keys m)) = KeySize →
  ∃ rI i0 m1 i1 body m' p',
    NewHandshakeState true prologue (keys m) (Some (Public key)) rI = inr i0
    ∧ WriteMessage i0 = (inr (m1, None, None), i1)
    ∧ HandshakeInit_Encode (mkHandshakeInit (device m) m1) [] = Ret body
    ∧ beginHandshake r m = Some (tt, m')
    ∧ only r p' [(endpoint p, envelope MsgHandshakeInit (sender p) 0 body)] m m'
    ∧ handshake p' = Some (mkHandshake i1 true) ∧ reachable p' ∧ endpoint p' = endpoint p ∧ VirtualIP p' = VirtualIP p.
Proof using L Hw.
  intros [_ Hr Hd Hk Hks] Hp Hlt Hb Hlen Hks'.
  set (p1 := p <| handshakes := handshakes p + 1 |> <| lastHandshake := Some (now m) |>).
  set (Q := λ rI i0 m1 i1 body m' p', NewHandshakeState true prologue (keys m) (Some (Public key)) rI = inr i0
    ∧ WriteMessage i0 = (inr (m1, None, None), i1)
    ∧ HandshakeInit_Encode (mkHandshakeInit (device m) m1) [] = Ret body
    ∧ only r p' [(endpoint p, envelope MsgHandshakeInit (sender p) 0 body)] m m'
    ∧ handshake p' = Some (mkHandshake i1 true) ∧ reachable p' ∧ endpoint p' = endpoint p ∧ VirtualIP p' = VirtualIP p).
  enough (wp (beginHandshake r) (λ _ m', ∃ rI i0 m1 i1 body p', Q rI i0 m1 i1 body m' p') m) as Hgo.
  { apply wp_run in Hgo as ([] & m' & E1 & rI & i0 & m1 & i1 & body & p' & H1 & H2 & H3 & H4 & H5 & H6 & H7 & H8).
    exists rI, i0, m1, i1, body, m', p'. done. }
  unfold beginHandshake. apply wp_bind, (wp_deref _ p); [done|]. apply wp_bind, wp_gets. rewrite Hd, Hlt.
  apply wp_bind, wp_gets. rewrite Hb. cbn [negb]. apply wp_bind, (wp_update r _ p); [done|]. fold p1. intros ma Ha.
  apply wp_bind, wp_gets, wp_bind, (wp_next_tick r p1); [by eapply only_link|]. intros n mb Hab.
  rewrite (on_keys _ _ _ _ _ Ha).
  destruct (IK_completes prologue (keys m) key (entropy n) (entropy n)) as
    (i0 & r0 & i1 & r1 & i2 & r2 & m1 & m2 & o1 & o2 & a1 & a2 & b1 & b2 & E1 & E2 & E3 & E4 & _).
  destruct (IK_short prologue (keys m) key (entropy n) (entropy n) i0 r0 m1 Hks' Hks E1 E2) as [Hs _].
  specialize (Hs m1 None None). rewrite E3 in Hs. specialize (Hs eq_refl).
  unfold NewInitiator. rewrite Hk, Hks. cbn [Nat.eqb KeySize negb]. rewrite E1. unfold WriteInit. cbn [initiator negb hs_state].
  rewrite E3. cbn iota beta zeta.
  assert (∃ body, HandshakeInit_Encode (mkHandshakeInit (device m) m1) [] = Ret body) as [body Hbody].
  { unfold HandshakeInit_Encode. cbn [Wire.DeviceID KeyExchange].
    destruct (Nat.ltb_spec 255 (length (device m))); [lia|]. destruct (Nat.ltb_spec (Z.to_nat 65535) (length m1)); [lia|]. by eexists. }
  rewrite Hbody. unfold of_go. apply wp_bind, wp_ret. set (p2 := p1 <| handshake := Some (mkHandshake i1 true) |>).
  apply wp_bind, (wp_update r _ p1); [by eapply only_link|]. fold p2. intros mc Hc.
  apply (wp_send r p2); [by eapply only_link|by destruct Hp|]. intros md Hmd.
  exists (entropy n), i0, m1, i1, body, p2. split_and!; try done.
  exact (only_trans _ _ _ _ _ _ _ _ Ha (only_trans _ _ _ _ _ _ _ _ Hab (only_trans _ _ _ _ _ _ _ _ Hc Hmd))).
Qed.

(** Rebuilding the tables touches nothing else. *)
Definition still (m m' : Mesh) : Prop :=
  store m' = store m ∧ wire m' = wire m ∧ keys m' = keys m ∧ device m' = device m ∧ virtualIP m' = virtualIP m
  ∧ peers m' = peers m ∧ inbound m' = inbound m ∧ now m' = now m.
#[local] Instance still_preorder : PreOrder still.
Proof. split; [done|]. intros m1 m2 m3 (? & ? & ? & ? & ? & ? & ? & ?) (? & ? & ? & ? & ? & ? & ? & ?). split_and!; congruence. Qed.

Lemma still_modify (f : Mesh → Mesh) : (∀ m, still m (f m)) → frames still (modify f).
Proof. intros Hf m a m' [= <- <-]. apply Hf. Qed.

Lemma still_reindex : frames still reindex.
Proof.
  pose proof still_preorder. unfold reindex, index_peer, Peers, next_tick.
  frame; try (by apply still_modify); by intros ? ? ? [= <- <-].
Qed.

Lemma wp_frames {A} (R : relation Mesh) (f : prog Mesh A) (Q : A → Mesh → Prop) m :
  frames R f → wp f Q m → wp f (λ a m', R m m' ∧ Q a m') m.
Proof. intros Hf HQ. unfold wp in *. destruct (f m) as [[a m']|] eqn:Ef; [|done]. split; [by eapply Hf|done]. Qed.

(** Nobody else [m] knows of is at this address, or has the address inside. *)
Definition sole (m : Mesh) (d : gostring) (v : Addr) (e : AddrPort) : Prop :=
  ∀ d' r p, peers m !! d' = Some r → store m !! r = Some p → endpoint p = e ∨ VirtualIP p = v → d' = d.

Lemma sole_found m d r p e : indexed m → sole m d (VirtualIP p) e → peers m !! d = Some r → store m !! r = Some p →
  endpoint p = e → ap_IsValid e = true → addr_IsValid (VirtualIP p) = true →
  byUDP m !! e = Some r ∧ byIP m !! VirtualIP p = Some r.
Proof.
  intros [I1 I2 I3 I4] Hs Hd Hr <- He Hv. split.
  - destruct (I4 _ _ _ Hd Hr He) as [r' Hr']. destruct (I2 _ _ Hr') as (d' & p' & Hd' & Hp' & Heq & _).
    rewrite (Hs d' r' p' Hd' Hp' (or_introl Heq)) in Hd'. congruence.
  - destruct (I3 _ _ _ Hd Hr Hv) as [r' Hr']. destruct (I1 _ _ Hr') as (d' & p' & Hd' & Hp' & Heq & _).
    rewrite (Hs d' r' p' Hd' Hp' (or_intror Heq)) in Hd'. congruence.
Qed.

(** The link after [follow_source] of a handshake that came directly. *)
Record followed (r : ref) (p : Peer) (e : AddrPort) (m m' : Mesh) (p' : Peer) : Prop := mkFollowed {
  fo_store : store m' !! r = Some p';
  fo_wire : wire m' = wire m;
  fo_rest : keys m' = keys m ∧ device m' = device m ∧ virtualIP m' = virtualIP m ∧ inbound m' = inbound m;
  fo_link : reachable p' ∧ endpoint p' = e ∧ VirtualIP p' = VirtualIP p ∧ sender p' = sender p;
  fo_byUDP : byUDP m' !! e = Some r;
  fo_byIP : byIP m' !! VirtualIP p = Some r;
}.

Lemma follows r p e sp m d {EL : EnvLaws E} : mesh_wf m → indexed m → peers m !! d = Some r → store m !! r = Some p →
  ap_IsValid e = true → addr_IsValid (VirtualIP p) = true → sole m d (VirtualIP p) e → (endpoint p = e → via p = None) →
  wp (follow_source r (mkSource e sp None)) (λ _ m', ∃ p', followed r p e m m' p') m.
Proof.
  intros Hm Hi Hd Hr He Hv Hs Hvia. unfold follow_source. cbn [src_relay src_addr]. apply wp_bind, (wp_deref _ p); [done|].
  case_bool_decide as Hmv; cbn [when].
  - apply wp_bind, wp_bind. set (p' := (setEndpoint e p).2).
    assert (p' = restart (p <| endpoint := e |>)) as Hp' by (unfold p', setEndpoint; by rewrite decide_False).
    apply (wp_with_peer _ _ _ p); [done..| |].
    + split; [by apply setEndpoint_wf, (mw_links _ Hm r)|by fold p'; rewrite Hp'|fold p'; rewrite Hp'; by left|].
      fold p'. rewrite Hp'. by intros [].
    + intros m1 Em Hm1 _ Hr1. fold p' in Em, Hr1.
      eapply wp_mono; [apply (wp_frames still); [exact still_reindex|by apply wp_reindex]|].
      intros [] m2 [(Z1 & Z2 & Z3 & Z4 & Z5 & Z6 & Z7 & Z8) (Hm2 & Hi2 & _)]. apply wp_modify. exists p'.
      assert (store m2 !! r = Some p') as Hr2 by congruence.
      assert (peers m2 !! d = Some r) as Hd2 by (rewrite Z6, Em; exact Hd).
      assert (VirtualIP p' = VirtualIP p) as Hvp by by rewrite Hp'.
      assert (endpoint p' = e) as Hep by by rewrite Hp'.
      assert (sole m2 d (VirtualIP p') e) as Hs2.
      { intros d' r' q Hd' Hq Hor. rewrite Z6, Em in Hd'. cbn in Hd'. rewrite Z1, Em in Hq. cbn in Hq.
        destruct (decide (r' = r)) as [->|Hne].
        - destruct (mw_peers _ Hm _ _ Hd') as (q1 & Hq1 & <-). destruct (mw_peers _ Hm _ _ Hd) as (q2 & Hq2 & <-). congruence.
        - rewrite lookup_insert_ne in Hq by done. rewrite Hvp in Hor. by apply (Hs d' r' q). }
      destruct (sole_found m2 d r p' e Hi2 Hs2 Hd2 Hr2 Hep He) as [H1 H2]; [by rewrite Hvp|].
      split; cbn; try done.
      * by rewrite Z2, Em.
      * by rewrite Z3, Z4, Z5, Z7, Em.
      * split_and!; [|done|done|by rewrite Hp']. split; [by rewrite Hp'|by rewrite Hep].
      * by rewrite <-Hvp.
  - apply wp_bind, wp_ret. apply wp_modify. exists p.
    assert (endpoint p = e) as Hep by (by destruct (decide (endpoint p = e))).
    destruct (sole_found m d r p e Hi Hs Hd Hr Hep He Hv) as [H1 H2]. split; cbn; try done.
    split_and!; [|done..]. split; [by apply Hvia|by rewrite Hep].
Qed.

(** A link that is open and direct, found under both its addresses. *)
Record open_to (m : Mesh) (r : ref) (p : Peer) (s : Session) (v : Addr) (e : AddrPort) : Prop := mkOpenTo {
  ot_store : store m !! r = Some p;
  ot_session : session p = Some s;
  ot_state : state p = PeerDirect;
  ot_reachable : reachable p;
  ot_endpoint : endpoint p = e;
  ot_byUDP : byUDP m !! e = Some r;
  ot_byIP : byIP m !! v = Some r;
}.

Definition unused (p : Peer) : Prop := counter p = 0 ∧ replay p = ReplayWindow_zero.

Lemma opened s t p p' : reachable p → awaiting (open s t p) p' →
  session p' = Some s ∧ state p' = PeerDirect ∧ reachable p' ∧ endpoint p' = endpoint p ∧ unused p'.
Proof.
  intros [Hv He] [pd ->]. unfold open, reachable, unused. cbn. rewrite Hv. cbn. by rewrite He.
Qed.

(** [handleHandshakeInit] of the first message of IK, come directly from [e]. *)
Lemma answers {EL : EnvLaws E} kI rI i0 m1 i1 body r p d sp e m :
  NewHandshakeState true prologue kI (Some (Public (keys m))) rI = inr i0 → WriteMessage i0 = (inr (m1, None, None), i1) →
  HandshakeInit_Encode (mkHandshakeInit d m1) [] = Ret body →
  introduced m r p d kI → length (Public (keys m)) = KeySize → mesh_wf m → indexed m →
  ap_IsValid e = true → addr_IsValid (VirtualIP p) = true → sole m d (VirtualIP p) e → (endpoint p = e → via p = None) →
  ∃ m2 i2 o2 b1 b2 sR ans m' p' c packet,
    ReadMessage i1 m2 = (inr (o2, Some b1, Some b2), i2)
    ∧ cs_key b1 = cs_key (recv sR) ∧ cs_key b2 = cs_key (Session.send sR)
    ∧ HandshakeResponse_Encode (mkHandshakeResponse m2) [] = Ret ans
    ∧ handleHandshakeInit body (mkSource e sp None) m = Some (tt, m')
    ∧ wire m' = wire m ++ [(e, envelope MsgHandshakeResponse c 0 ans); (e, packet)]
    ∧ inbound m' = inbound m ∧ open_to m' r p' sR (VirtualIP p) e ∧ unused p'.
Proof using L Hw.
  intros E1 E3 Hbody [Hd Hr _ Hk Hks] Hkm Hm Hi He Hv Hs Hvia.
  destruct (IK_completes prologue kI (keys m) rI (entropy (tick m))) as
    (i0' & r0 & i1' & r1 & i2 & r2 & m1' & m2 & o1 & o2 & a1 & a2 & b1 & b2 & E1' & E2 & E3' & E4 & E5 & E6 & E7 & E8 & E9 & K1 & K2).
  rewrite E1 in E1'. injection E1' as <-. rewrite E3 in E3'. injection E3' as <- <-.
  destruct (IK_short prologue kI (keys m) rI (entropy (tick m)) i0 r0 m1 Hks Hkm E1 E2) as [_ Hsh].
  rewrite E4 in Hsh. cbn [snd] in Hsh. specialize (Hsh m2 (Some a1) (Some a2)). rewrite E6 in Hsh. specialize (Hsh eq_refl).
  assert (∃ ans, HandshakeResponse_Encode (mkHandshakeResponse m2) [] = Ret ans) as [ans Hans].
  { unfold HandshakeResponse_Encode. cbn [RespKeyExchange]. destruct (Nat.ltb_spec (Z.to_nat 65535) (length m2)); [lia|]. by eexists. }
  set (sR := mkSession a2 a1 (Public kI)).
  enough (wp (handleHandshakeInit body (mkSource e sp None)) (λ _ m', ∃ p' c packet,
    wire m' = wire m ++ [(e, envelope MsgHandshakeResponse c 0 ans); (e, packet)]
    ∧ inbound m' = inbound m ∧ open_to m' r p' sR (VirtualIP p) e ∧ unused p') m) as Hgo.
  { apply wp_run in Hgo as ([] & m' & Erun & p' & c & packet & H1 & H2 & H3 & H4).
    exists m2, i2, o2, b1, b2, sR, ans, m', p', c, packet. done. }
  unfold handleHandshakeInit. rewrite (DecodeHandshakeInit_Encode _ _ Hbody). cbn [Wire.DeviceID KeyExchange].
  apply wp_bind, wp_gets. rewrite Hd. apply wp_bind, wp_gets, wp_bind, wp_tick. set (mt := m <| tick := S (tick m) |>).
  assert (mesh_wf mt ∧ indexed mt) as [Hmt Hit] by (by destruct Hm, Hi).
  unfold NewResponder. rewrite E2. unfold ReadInit. cbn [initiator hs_state]. rewrite E4. cbn iota beta zeta.
  apply wp_bind, (wp_deref _ p); [done|]. unfold PeerStatic. cbn [hs_state]. rewrite E5, Hk.
  rewrite (proj2 (equalKeys_spec _ _) eq_refl). cbn [negb]. unfold WriteResponse. cbn [initiator hs_state]. rewrite E6, E7. fold sR.
  cbn [fst]. apply wp_bind. eapply wp_mono; [by apply (follows r p e sp mt d)|].
  intros [] m3 (p3 & [F1 F2 (F3 & F4 & F5 & F6) (F7 & F8 & F9 & F10) F11 F12]).
  rewrite Hans. unfold of_go. apply wp_bind, wp_ret. apply wp_bind, (wp_send r p3); [done..|]. intros m4 H4.
  apply (wp_open_link r p3); [by eapply only_link|done|]. intros p5 packet m5 Ha H5.
  destruct (opened _ _ _ _ F7 Ha) as (O1 & O2 & O3 & O4 & O5).
  pose proof (only_trans _ _ _ _ _ _ _ _ H4 H5) as H6. exists p5, (sender p), packet. rewrite F8 in *. split_and!; [| | |done].
  - by rewrite (on_wire _ _ _ _ _ H6), F2.
  - by rewrite (on_inbound _ _ _ _ _ H6), F6.
  - split; [by eapply only_link|done..|by rewrite (on_byUDP _ _ _ _ _ H6)|by rewrite (on_byIP _ _ _ _ _ H6)].
Qed.

Lemma handle_init c body e m :
  handle (envelope MsgHandshakeInit c 0 body) e m = handleHandshakeInit body (mkSource e (byUDP m !! e) None) m.
Proof. unfold handle. rewrite Looks_envelope, Decode_envelope. reflexivity. Qed.

Lemma handle_response c body e m :
  handle (envelope MsgHandshakeResponse c 0 body) e m = handleHandshakeResponse body (mkSource e (byUDP m !! e) None) m.
Proof. unfold handle. rewrite Looks_envelope, Decode_envelope. reflexivity. Qed.

(** The answer, come back to where the handshake was begun. *)
Lemma completes i1 m2 i2 o2 b1 b2 c ans v r p m :
  ReadMessage i1 m2 = (inr (o2, Some b1, Some b2), i2) → HandshakeResponse_Encode (mkHandshakeResponse m2) [] = Ret ans →
  store m !! r = Some p → handshake p = Some (mkHandshake i1 true) → reachable p →
  byUDP m !! endpoint p = Some r → byIP m !! v = Some r →
  ∃ m' p' packet, handle (envelope MsgHandshakeResponse c 0 ans) (endpoint p) m = Some (tt, m')
    ∧ wire m' = wire m ++ [(endpoint p, packet)] ∧ inbound m' = inbound m
    ∧ open_to m' r p' (mkSession b1 b2 (hs_PeerStatic i2)) v (endpoint p) ∧ unused p'.
Proof using L Hw.
  intros Em Hans Hr Hh Hp Hu Hv. set (s := mkSession b1 b2 (hs_PeerStatic i2)). rewrite handle_response, Hu.
  enough (wp (handleHandshakeResponse ans (mkSource (endpoint p) (Some r) None)) (λ _ m', ∃ p' packet,
    wire m' = wire m ++ [(endpoint p, packet)] ∧ inbound m' = inbound m
    ∧ open_to m' r p' s v (endpoint p) ∧ unused p') m) as Hgo.
  { apply wp_run in Hgo as ([] & m' & E1 & p' & packet & H1). by exists m', p', packet. }
  unfold handleHandshakeResponse. rewrite (DecodeHandshakeResponse_Encode _ _ Hans). cbn [RespKeyExchange src_peer].
  set (q := p <| handshake := Some (mkHandshake i2 true) |>).
  assert (read_response m2 p = (Some (inr s), q)) as Er.
  { unfold read_response. rewrite Hh. unfold ReadResponse. cbn [initiator negb hs_state]. by rewrite Em. }
  apply wp_bind. unfold wp at 1, with_peer. rewrite Hr, Er. set (m3 := m <| store := <[r := q]> (store m) |>).
  assert (only r q [] m m3) as H3 by (split; try done; cbn; by rewrite app_nil_r).
  unfold answer_by_relay. cbn [src_relay]. apply wp_bind, wp_ret.
  apply (wp_open_link r q); [by eapply only_link|by destruct Hp|]. intros p' packet m4 Ha H4.
  assert (reachable q) as Hq by (by destruct Hp). destruct (opened _ _ _ _ Hq Ha) as (O1 & O2 & O3 & O4 & O5).
  pose proof (only_trans _ _ _ _ _ _ _ _ H3 H4) as H5. exists p', packet. split_and!; [| | |done].
  - by rewrite (on_wire _ _ _ _ _ H5).
  - by rewrite (on_inbound _ _ _ _ _ H5).
  - split; [by eapply only_link|done..|by rewrite (on_byUDP _ _ _ _ _ H5)|by rewrite (on_byIP _ _ _ _ _ H5)].
Qed.

(** ** Packets *)

(** What leaves for a packet on an open link, and what is left of the link. *)
Lemma sends v r p s e m packet : open_to m r p s v e → 0 ≤ counter p < 2 ^ 64 - 1 →
  let header := Encode (mkHeader TransportVersion MsgData (sender p) (counter p)) [] [] in
  ∃ m' p' s', Send v packet m = Some (inr tt, m')
    ∧ wire m' = wire m ++ [(e, Encode (mkHeader TransportVersion MsgData (sender p) (counter p)) []
        (aead (cs_key (Session.send s)) (counter p) header packet))]
    ∧ inbound m' = inbound m ∧ open_to m' r p' s' v e
    ∧ cs_key (Session.send s') = cs_key (Session.send s) ∧ cs_key (recv s') = cs_key (recv s)
    ∧ counter p' = counter p + 1 ∧ replay p' = replay p.
Proof using L Hw.
  intros [Hr Hs Hst [Hvia He] Hep Hu Hv] Hc header.
  enough (wp (Send v packet) (λ res m', ∃ p' s', res = inr tt
    ∧ wire m' = wire m ++ [(e, Encode (mkHeader TransportVersion MsgData (sender p) (counter p)) []
        (aead (cs_key (Session.send s)) (counter p) header packet))]
    ∧ inbound m' = inbound m ∧ open_to m' r p' s' v e
    ∧ cs_key (Session.send s') = cs_key (Session.send s) ∧ cs_key (recv s') = cs_key (recv s)
    ∧ counter p' = counter p + 1 ∧ replay p' = replay p) m) as Hgo.
  { apply wp_run in Hgo as (res & m' & E1 & p' & s' & -> & H1). by exists m', p', s'. }
  unfold Send. apply wp_bind, wp_gets. rewrite Hv. apply wp_bind.
  pose proof (Seal_out header header packet (counter p) s Hc) as Ho. destruct (Seal_keys header header packet (counter p) s) as (K1 & K2 & _).
  destruct (Seal header header packet (counter p) s) as [out s'] eqn:Es. cbn [fst snd] in Ho, K1, K2. subst out.
  set (p1 := p <| counter := u64 (counter p + 1) |>). set (p2 := p1 <| session := Some s' |>).
  set (p3 := p2 <| sent := u64 (sent p2 + 1) |>).
  apply wp_try_inr, wp_try_inr, (wp_with r _ p (inr (counter p)) p1); [done|by unfold nextCounter; rewrite Hs|].
  intros m1 H1. eexists. split; [done|]. apply wp_bind, (wp_deref _ p1); [by eapply only_link|].
  change (sender p1) with (sender p). fold header.
  assert (take HeaderSize header = header) as Ht by (apply take_ge; subst header; by rewrite length_Encode).
  apply (wp_with r _ p1 (inr (header ++ aead (cs_key (Session.send s)) (counter p) header packet)) p2);
    [by eapply only_link|by unfold seal; change (session p1) with (session p); rewrite Hs, Ht, Es|].
  intros m2 H2. eexists. split; [done|]. apply wp_try_inr, (wp_deliver_direct r p2); [by eapply only_link|done|].
  intros m3 H3. eexists. split; [done|]. apply wp_bind, (wp_update r _ p2); [by eapply only_link|]. fold p3. intros m4 H4.
  apply wp_ret, wp_ret. exists p3, s'.
  pose proof (only_trans _ _ _ _ _ _ _ _ H1 (only_trans _ _ _ _ _ _ _ _ H2 (only_trans _ _ _ _ _ _ _ _ H3 H4))) as H5.
  split_and!; [done| | | |done|by rewrite K2| |done].
  - rewrite (on_wire _ _ _ _ _ H5), <-(Encode_append _ (aead _ _ _ _)). cbn. by rewrite <-Hep.
  - by rewrite (on_inbound _ _ _ _ _ H5).
  - split; [by eapply only_link|done..|by rewrite (on_byUDP _ _ _ _ _ H5)|by rewrite (on_byIP _ _ _ _ _ H5)].
  - cbn. apply u64_id. unfold is_u64. lia.
Qed.

(** Every counter let through so far was below [n]. *)
Definition heard_below (p : Peer) (n : Z) : Prop := ∃ h, window_of (replay p) h ∧ Forall (λ c, c < n) h.

Lemma fresh_above h n : Forall is_u64 h → Forall (λ c, c < n) h → fresh h n = true.
Proof.
  intros Hu Hn. unfold fresh. destruct (decide (h = [])) as [->|Hne]; [done|].
  pose proof (top_in h Hne Hu) as Ht. rewrite Forall_forall in Hn. specialize (Hn _ Ht).
  by rewrite (proj2 (Z.ltb_lt _ _) Hn), orb_true_r.
Qed.

Lemma handle_data c n ct e m : 0 ≤ n < 2 ^ 64 →
  handle (envelope MsgData c n ct) e m = handleData (envelope MsgData c n ct) ct n (mkSource e (byUDP m !! e) None) m.
Proof.
  intros Hn. unfold handle. rewrite Looks_envelope, Decode_envelope, (u64_id n) by (unfold is_u64; lia). reflexivity.
Qed.

(** What comes in with such a packet. *)
Lemma receives v r p s e m c n key packet : open_to m r p s v e → key = cs_key (recv s) → 0 ≤ n < 2 ^ 64 - 1 →
  heard_below p n → (length (inbound m) < inboundCapacity)%nat →
  let header := Encode (mkHeader TransportVersion MsgData c n) [] [] in
  ∃ m' p' s', handle (Encode (mkHeader TransportVersion MsgData c n) [] (aead key n header packet)) e m = Some (tt, m')
    ∧ inbound m' = inbound m ++ [packet] ∧ wire m' = wire m ∧ open_to m' r p' s' v e
    ∧ cs_key (Session.send s') = cs_key (Session.send s) ∧ cs_key (recv s') = cs_key (recv s)
    ∧ counter p' = counter p ∧ heard_below p' (n + 1).
Proof using L.
  intros [Hr Hs Hst [Hvia He] Hep Hu Hv] -> Hn (h & Hh & Hlt) Hroom header. set (ct := aead (cs_key (recv s)) n header packet).
  change (Encode _ [] ct) with (envelope MsgData c n ct). rewrite handle_data, Hu by lia.
  enough (wp (handleData (envelope MsgData c n ct) ct n (mkSource e (Some r) None)) (λ _ m', ∃ p' s',
    inbound m' = inbound m ++ [packet] ∧ wire m' = wire m ∧ open_to m' r p' s' v e
    ∧ cs_key (Session.send s') = cs_key (Session.send s) ∧ cs_key (recv s') = cs_key (recv s)
    ∧ counter p' = counter p ∧ heard_below p' (n + 1)) m) as Hgo.
  { apply wp_run in Hgo as ([] & m' & E1 & p' & s' & H1). by exists m', p', s'. }
  unfold handleData. cbn [src_peer]. apply wp_bind, wp_gets.
  assert (slice (E := unit) (envelope MsgData c n ct) 0 HeaderSize = Ret header) as Hsl.
  { unfold envelope. rewrite <-Encode_append. fold header. rewrite slice_Ret by (subst header; rewrite length_app, length_Encode; cbn [length]; lia).
    rewrite Nat.sub_0_r, drop_0, take_app_le by (subst header; by rewrite length_Encode).
    reflexivity. }
  rewrite Hsl. pose proof (Open_out [] header packet n s Hn) as Ho. destruct (Open_keys [] header ct n s) as (K1 & K2 & _).
  fold ct in Ho. destruct (Open [] header ct n s) as [out s'] eqn:Es. cbn [fst snd app] in Ho, K1, K2. subst out.
  assert (is_u64 n) as Hn64 by (unfold is_u64; lia).
  destruct (Accept_spec (replay p) h n Hh Hn64) as [Ha Hw']. rewrite (fresh_above h n (wo_u64 _ _ Hh) Hlt) in Ha, Hw'.
  destruct (Accept (replay p) n) as [new w] eqn:Ew. cbn in Ha, Hw'. subst new.
  set (p1 := p <| session := Some s' |> <| replay := w |> <| lastHeard := Some (now m) |>).
  set (p2 := p1 <| received := u64 (received p1 + 1) |>).
  apply wp_bind, (wp_with r _ p (inr packet) p1); [done|unfold accept, decrypt, let_in; rewrite Hs, Es; cbn; by rewrite Ew|].
  intros m1 H1. cbn iota. apply wp_bind, (wp_update r _ p1); [by eapply only_link|]. fold p2. intros m2 H2.
  unfold answer_by_relay. cbn [src_relay]. apply wp_bind, wp_ret. unfold queue_inbound. apply wp_bind, wp_gets.
  pose proof (only_trans _ _ _ _ _ _ _ _ H1 H2) as H3. rewrite (on_inbound _ _ _ _ _ H3).
  destruct (Nat.leb_spec inboundCapacity (length (inbound m))); [lia|]. apply wp_modify. exists p2, s'. split_and!; try done.
  - cbn. by rewrite (on_inbound _ _ _ _ _ H3).
  - cbn. by rewrite (on_wire _ _ _ _ _ H3), app_nil_r.
  - split; [exact (only_link _ _ _ _ _ H3)|done..|by cbn; rewrite (on_byUDP _ _ _ _ _ H3)|by cbn; rewrite (on_byIP _ _ _ _ _ H3)].
  - by rewrite K2.
  - exists (n :: h). split; [done|]. constructor; [lia|]. eapply Forall_impl; [exact Hlt|]. cbn. lia.
Qed.
End side.

(** ** Two sides *)
Section two.
Context {N : Noise} {L : NoiseLaws N}.

(** One end of a link: the peer it is there, where the other side sees it, and the address
    it has inside. *)
Record link_end : Type := mkEnd { link : ref; seen_at : AddrPort; inside : Addr }.

(** The link of [A] with this end and that of [B] with the other are one link, open, with
    at least [k] packets to go before a counter is used up. *)
Definition paired (k : Z) (a b : link_end) (A B : Mesh) : Prop :=
  ∃ pA sA pB sB, open_to A (link a) pA sA (inside b) (seen_at b) ∧ open_to B (link b) pB sB (inside a) (seen_at a)
    ∧ cs_key (Session.send sA) = cs_key (recv sB) ∧ cs_key (Session.send sB) = cs_key (recv sA)
    ∧ (0 ≤ counter pA ∧ counter pA + k < 2 ^ 64) ∧ (0 ≤ counter pB ∧ counter pB + k < 2 ^ 64)
    ∧ heard_below pB (counter pA) ∧ heard_below pA (counter pB).

Lemma paired_sym k a b A B : paired k a b A B → paired k b a B A.
Proof. intros (pA & sA & pB & sB & ?). exists pB, sB, pA, sA. tauto. Qed.

Lemma heard_below_later p n n' : n ≤ n' → heard_below p n → heard_below p n'.
Proof. intros Hn (h & Hh & Hlt). exists h. split; [done|]. eapply Forall_impl; [exact Hlt|]. cbn. lia. Qed.

(** One packet from the first to the second, who hears it, if it arrives, from where the
    first is. *)
Definition pass (EA EB : Env) (a b : link_end) (arrives : bool) (packet : list Z) (A B : Mesh) : option (Mesh * Mesh) :=
  match Send (E := EA) (inside b) packet A with
  | Some (inr _, A') =>
      match last (wire A') with
      | Some (to, datagram) =>
          if bool_decide (to = seen_at b) && arrives then
            match handle (E := EB) datagram (seen_at a) B with Some (_, B') => Some (A', B') | None => None end
          else Some (A', B)
      | None => None
      end
  | _ => None
  end.

Lemma passes EA EB k a b arrives packet A B : (∀ n, writes (Env := EA) n = true) →
  paired (k + 1) a b A B → 0 ≤ k →
  (arrives = true → (length (inbound B) < inboundCapacity)%nat) →
  ∃ A' B', pass EA EB a b arrives packet A B = Some (A', B') ∧ paired k a b A' B'
    ∧ inbound A' = inbound A ∧ inbound B' = inbound B ++ (if arrives then [packet] else []).
Proof.
  intros Hw (pA & sA & pB & sB & OA & OB & KA & KB & [CA1 CA2] & [CB1 CB2] & HB & HA) Hk Hroom.
  destruct (sends (E := EA) Hw _ _ pA sA _ A packet OA) as (A' & pA' & sA' & E1 & W & I & OA' & K1 & K2 & Hc & Hrep); [lia|].
  assert (heard_below pA' (counter pB)) as HA' by (destruct HA as (h & Hh & Hlt); exists h; by rewrite Hrep).
  unfold pass. rewrite E1, W, last_snoc, bool_decide_eq_true_2 by done. destruct arrives; cbn [andb].
  - destruct (receives (E := EB) _ _ pB sB _ B (sender pA) (counter pA) _ packet OB KA) as
      (B' & pB' & sB' & E2 & I2 & _ & OB' & K3 & K4 & Hc2 & HB'); [lia|done|by apply Hroom|].
    rewrite E2. exists A', B'. split; [done|]. split; [|done].
    exists pA', sA', pB', sB'. rewrite Hc, Hc2. split_and!; try done; try lia; congruence.
  - exists A', B. split; [done|]. split; [|by rewrite app_nil_r].
    exists pA', sA', pB, sB. rewrite Hc. split_and!; try done; try lia; [congruence..|].
    apply (heard_below_later _ (counter pA)); [lia|done].
Qed.

(** What each of two daemons sends, in the order it is sent, and what gets there. *)
Record message : Type := mkMessage { from_first : bool; arrives : bool; body : list Z }.

Fixpoint talk (EA EB : Env) (a b : link_end) (l : list message) (A B : Mesh) : option (Mesh * Mesh) :=
  match l with
  | [] => Some (A, B)
  | x :: l =>
      if from_first x then
        match pass EA EB a b (arrives x) (body x) A B with
        | Some (A', B') => talk EA EB a b l A' B'
        | None => None
        end
      else
        match pass EB EA b a (arrives x) (body x) B A with
        | Some (B', A') => talk EA EB a b l A' B'
        | None => None
        end
  end.

Definition got (first : bool) (l : list message) : list (list Z) :=
  body <$> filter (λ x, from_first x = first ∧ arrives x = true) l.

Lemma got_cons first dir arr packet l :
  got first (mkMessage dir arr packet :: l) = (if decide (dir = first) then if arr then [packet] else [] else []) ++ got first l.
Proof. unfold got. rewrite filter_cons. cbn. destruct first, dir, arr; repeat case_decide; naive_solver. Qed.
End two.

(** C17: an open link carries what is sent on it.  Two daemons with a link open between
    them send each other any number of packets in any order, some of which are lost: every
    other one is decrypted and delivered to the adapter of the other side, unchanged and
    in the order they were sent, as long as the adapters keep up and fewer than 2^64
    packets are sent; and the link is open as before. *)
Theorem an_open_link_carries_what_is_sent {N : Noise} {L : NoiseLaws N} (EA EB : Env) a b l A B :
  (∀ n, writes (Env := EA) n = true) → (∀ n, writes (Env := EB) n = true) →
  paired (Z.of_nat (length l)) a b A B →
  (length (inbound B) + length (got true l) ≤ inboundCapacity)%nat →
  (length (inbound A) + length (got false l) ≤ inboundCapacity)%nat →
  ∃ A' B', talk EA EB a b l A B = Some (A', B')
    ∧ inbound B' = inbound B ++ got true l ∧ inbound A' = inbound A ++ got false l
    ∧ paired 0 a b A' B'.
Proof.
  intros HA HB. revert A B. induction l as [|[[] arr packet] l IH]; intros A B Hp HrB HrA; cbn [talk from_first arrives body].
  - exists A, B. by rewrite !app_nil_r.
  - rewrite !got_cons in *. rewrite decide_True, decide_False in * by done. cbn [app] in *. rewrite length_app in HrB.
    destruct (passes EA EB (Z.of_nat (length l)) a b arr packet A B HA) as (A1 & B1 & -> & Hp1 & IA & IB).
    { cbn [length] in Hp. by replace (Z.of_nat (length l) + 1) with (Z.of_nat (S (length l))) by lia. }
    { lia. }
    { intros ->. cbn in HrB. lia. }
    destruct (IH A1 B1 Hp1) as (A2 & B2 & -> & IB2 & IA2 & Hp2); [rewrite IB, length_app; lia|by rewrite IA|].
    exists A2, B2. by rewrite IB2, IA2, IA, IB, app_assoc.
  - rewrite !got_cons in *. rewrite decide_True, decide_False in * by done. cbn [app] in *. rewrite length_app in HrA.
    destruct (passes EB EA (Z.of_nat (length l)) b a arr packet B A HB) as (B1 & A1 & -> & Hp1 & IB & IA).
    { apply paired_sym. cbn [length] in Hp. by replace (Z.of_nat (length l) + 1) with (Z.of_nat (S (length l))) by lia. }
    { lia. }
    { intros ->. cbn in HrA. lia. }
    destruct (IH A1 B1 (paired_sym _ _ _ _ _ Hp1)) as (A2 & B2 & -> & IB2 & IA2 & Hp2); [by rewrite IB|rewrite IA, length_app; lia|].
    exists A2, B2. by rewrite IB2, IA2, IA, IB, app_assoc.
Qed.

(** Two daemons open a link.  When the one with the lower device id begins a handshake
    with the other, who knows it by the key it has, at an address where it hears the
    other and the other hears it: the datagram it sends and the answer the other sends to
    where it came from leave a link open on both sides, direct, under one pair of keys, in
    each the link there was for the other device. *)
Theorem two_daemons_open_a_link {N : Noise} {L : NoiseLaws N} (EA EB : Env) {ELB : EnvLaws EB} eA A rA pA B rB pB :
  (∀ n, writes (Env := EA) n = true) → (∀ n, writes (Env := EB) n = true) →
  introduced A rA pA (device B) (keys B) → introduced B rB pB (device A) (keys A) →
  bytes_lt (device B) (device A) = false → may_begin (now A) pA = true → (length (device A) ≤ 255)%nat →
  reachable pA → byUDP A !! endpoint pA = Some rA → byIP A !! VirtualIP pA = Some rA →
  mesh_wf B → indexed B → ap_IsValid eA = true → addr_IsValid (VirtualIP pB) = true →
  sole B (device A) (VirtualIP pB) eA → (endpoint pB = eA → via pB = None) →
  ∃ A1 hello B1 answer keepalive A2 keepalive',
    beginHandshake (E := EA) rA A = Some (tt, A1) ∧ wire A1 = wire A ++ [(endpoint pA, hello)]
    ∧ handle (E := EB) hello eA B = Some (tt, B1) ∧ wire B1 = wire B ++ [(eA, answer); (eA, keepalive)]
    ∧ handle (E := EA) answer (endpoint pA) A1 = Some (tt, A2) ∧ wire A2 = wire A1 ++ [(endpoint pA, keepalive')]
    ∧ inbound A2 = inbound A ∧ inbound B1 = inbound B
    ∧ paired (2 ^ 64 - 1) (mkEnd rA eA (VirtualIP pB)) (mkEnd rB (endpoint pA) (VirtualIP pA)) A2 B1.
Proof.
  intros HA HB IA IB Hlt Hmay Hlen Hreach Hu Hv HmB HiB HeA HvB Hsole Hvia.
  destruct (begins (E := EA) HA rA pA (device B) (keys B) A IA Hreach Hlt Hmay Hlen (in_size _ _ _ _ _ IB))
    as (rI & i0 & m1 & i1 & hi & A1 & pA1 & E0 & E1 & E2 & E3 & H1 & Hh1 & Hr1 & He1 & Hv1).
  destruct (answers (E := EB) HB (keys A) rI i0 m1 i1 hi rB pB (device A) (byUDP B !! eA) eA B E0 E1 E2 IB (in_size _ _ _ _ _ IA) HmB HiB
    HeA HvB Hsole Hvia) as (m2 & i2 & o2 & b1 & b2 & sB & ans & B1 & pB1 & c & kB & R1 & K1 & K2 & R2 & E4 & W4 & I4 & OB & UB1 & UB2).
  destruct (completes (E := EA) HA i1 m2 i2 o2 b1 b2 c ans (VirtualIP pA) rA pA1 A1 R1 R2) as (A2 & pA2 & kA & E5 & W5 & I5 & OA & UA1 & UA2).
  { by eapply only_link. }
  { done. }
  { done. }
  { by rewrite He1, (on_byUDP _ _ _ _ _ H1). }
  { by rewrite (on_byIP _ _ _ _ _ H1). }
  rewrite He1 in *. exists A1, (envelope MsgHandshakeInit (sender pA) 0 hi), B1, (envelope MsgHandshakeResponse c 0 ans), kB, A2, kA.
  split_and!; try done.
  - apply H1.
  - by rewrite handle_init.
  - by rewrite I5, (on_inbound _ _ _ _ _ H1).
  - exists pA2, (mkSession b1 b2 (hs_PeerStatic i2)), pB1, sB. rewrite UA1, UB1.
    split_and!; try done; try lia; [exists []; by rewrite UB2|exists []; by rewrite UA2].
Qed.

(** ** Two daemons to evaluate *)
Module Lan.
Definition ann_at : AddrPort := AddrPortFrom (Addr4 10) 9.
Definition bob_at : AddrPort := AddrPortFrom (Addr4 20) 9.
Definition ann_new : @Mesh Plain.noise := plain_mesh [65] (Addr4 1) (replicate 32 1).
Definition bob_new : @Mesh Plain.noise := plain_mesh [66] (Addr4 2) (replicate 32 2).
Definition ann_calls : list mesh_call := [CAddPeer [66] [] (Addr4 2) (replicate 32 2) bob_at].
Definition bob_calls : list mesh_call := [CAddPeer [65] [] (Addr4 1) (replicate 32 1) ann_at].

(** Each has heard of the other from the server. *)
Definition after (cs : list mesh_call) (m : @Mesh Plain.noise) : @Mesh Plain.noise :=
  match run_calls cs m with Some (_, m') => m' | None => m end.
Definition ann := after ann_calls ann_new.
Definition bob := after bob_calls bob_new.
Definition bob_at_ann : @Peer Plain.noise := default (newPeer [] [] (Addr4 0) [] AddrPortZero 0) (store ann !! 1%positive).
Definition ann_at_bob : @Peer Plain.noise := default (newPeer [] [] (Addr4 0) [] AddrPortZero 0) (store bob !! 1%positive).

Lemma default_Some {A} (d : A) (o : option A) : bool_decide (is_Some o) = true → o = Some (default d o).
Proof. intros [a ->]%bool_decide_eq_true. done. Qed.

Lemma bob_wf : mesh_wf bob ∧ indexed bob.
Proof.
  assert (run_calls bob_calls bob_new = Some (tt, bob)) as Hr.
  { unfold bob, after. destruct (run_calls bob_calls bob_new) as [[[] m]|] eqn:E; [done|]. exfalso. revert E.
    apply (bool_decide_unpack (run_calls bob_calls bob_new ≠ None)). vm_compute. exact I. }
  destruct (run_calls_wf bob_calls [66] (Addr4 2) (replicate 32 2 : @Keypair Plain.noise) true true None 0 bob I) as (? & ? & _);
    [by repeat constructor|exact Hr|done].
Qed.

Lemma bob_knows_ann_only : sole bob [65] (Addr4 1) ann_at.
Proof.
  intros d r p Hd _ _. assert (peers bob = {[ [65] := 1%positive ]}) as E by (vm_compute; reflexivity).
  rewrite E in Hd. by apply lookup_singleton_Some in Hd as [<- _].
Qed.
End Lan.

Lemma two_daemons_open_a_link_witness :
  ∃ A2 B1 : @Mesh Plain.noise, paired (2 ^ 64 - 1) (mkEnd 1 Lan.ann_at (Addr4 1)) (mkEnd 1 Lan.bob_at (Addr4 2)) A2 B1.
Proof.
  destruct Lan.bob_wf as [Hm Hi].
  destruct (two_daemons_open_a_link plain_env plain_env Lan.ann_at Lan.ann 1 Lan.bob_at_ann Lan.bob 1 Lan.ann_at_bob)
    as (_ & _ & B1 & _ & _ & A2 & _ & _ & _ & _ & _ & _ & _ & _ & _ & Hp).
  - reflexivity.
  - reflexivity.
  - split; [vm_compute; reflexivity|apply Lan.default_Some; vm_compute; reflexivity|vm_compute; reflexivity..].
  - split; [vm_compute; reflexivity|apply Lan.default_Some; vm_compute; reflexivity|vm_compute; reflexivity..].
  - vm_compute. reflexivity.
  - vm_compute. reflexivity.
  - apply (bool_decide_unpack _). vm_compute. exact I.
  - split; [apply (bool_decide_unpack _); vm_compute; exact I|vm_compute; reflexivity].
  - vm_compute. reflexivity.
  - vm_compute. reflexivity.
  - exact Hm.
  - exact Hi.
  - reflexivity.
  - vm_compute. reflexivity.
  - apply Lan.bob_knows_ann_only.
  - intros _. apply (bool_decide_unpack _). vm_compute. exact I.
  - exists A2, B1. exact Hp.
Defined.

(** Whether a link was just opened between two meshes. *)
Definition open_check (m : @Mesh Plain.noise) (r : ref) (v : Addr) (e : AddrPort) (p : @Peer Plain.noise) : bool :=
  bool_decide (state p = PeerDirect) && bool_decide (via p = None) && ap_IsValid (endpoint p) && bool_decide (endpoint p = e)
  && bool_decide (byUDP m !! e = Some r) && bool_decide (byIP m !! v = Some r)
  && bool_decide (counter p = 0) && bool_decide (highest (replay p) = 0) && bool_decide (seen (replay p) = 0) && negb (started (replay p)).
Definition paired_check (a b : link_end) (A B : @Mesh Plain.noise) : bool :=
  match store A !! link a, store B !! link b with
  | Some pA, Some pB =>
      match session pA, session pB with
      | Some sA, Some sB =>
          open_check A (link a) (inside b) (seen_at b) pA && open_check B (link b) (inside a) (seen_at a) pB
          && bool_decide ((Session.send sA).1 = (recv sB).1) && bool_decide ((Session.send sB).1 = (recv sA).1)
      | _, _ => false
      end
  | _, _ => false
  end.

Lemma open_checked m r v e p s : store m !! r = Some p → session p = Some s → open_check m r v e p = true →
  open_to m r p s v e ∧ unused p.
Proof.
  intros Hr Hs Hc. unfold open_check in Hc. rewrite !andb_true_iff, !bool_decide_eq_true, negb_true_iff in Hc.
  destruct Hc as (((((((((? & ?) & ?) & ?) & ?) & ?) & ?) & ?) & ?) & ?). split; [by split|]. split; [done|].
  destruct (replay p) as [h w st]. cbn in *. by subst.
Qed.

Lemma paired_checked a b A B k : 0 ≤ k < 2 ^ 64 → paired_check a b A B = true → paired k a b A B.
Proof.
  intros Hk. unfold paired_check. destruct (store A !! link a) as [pA|] eqn:HA; [|done].
  destruct (store B !! link b) as [pB|] eqn:HB; [|done]. destruct (session pA) as [sA|] eqn:SA; [|done].
  destruct (session pB) as [sB|] eqn:SB; [|done]. rewrite !andb_true_iff, !bool_decide_eq_true. intros (((CA & CB) & K1) & K2).
  destruct (open_checked _ _ _ _ _ _ HA SA CA) as [OA [UA1 UA2]]. destruct (open_checked _ _ _ _ _ _ HB SB CB) as [OB [UB1 UB2]].
  exists pA, sA, pB, sB. rewrite UA1, UB1. split_and!; try done; try lia; [exists []; by rewrite UB2|exists []; by rewrite UA2].
Qed.

Definition ann_end := mkEnd 1 Lan.ann_at (Addr4 1).
Definition bob_end := mkEnd 1 Lan.bob_at (Addr4 2).

(** The two of them after the handshake. *)
Definition met : option (@Mesh Plain.noise * @Mesh Plain.noise) :=
  match beginHandshake 1 Lan.ann with
  | Some (_, A1) =>
      match last (wire A1) with
      | Some (_, hello) =>
          match handle hello Lan.ann_at Lan.bob with
          | Some (_, B1) =>
              match wire B1 !! length (wire Lan.bob) with
              | Some (_, answer) => match handle answer Lan.bob_at A1 with Some (_, A2) => Some (A2, B1) | None => None end
              | None => None
              end
          | None => None
          end
      | None => None
      end
  | None => None
  end.

Lemma an_open_link_carries_what_is_sent_witness :
  ∃ (A B A' B' : @Mesh Plain.noise),
    talk plain_env plain_env ann_end bob_end [mkMessage true true [1; 2]; mkMessage false true [7]; mkMessage true false [3]; mkMessage true true [4]] A B
      = Some (A', B') ∧ inbound B' = inbound B ++ [[1; 2]; [4]] ∧ inbound A' = inbound A ++ [[7]].
Proof.
  assert (match met with Some (A, B) => paired_check ann_end bob_end A B && (length (inbound A) =? 0)%nat && (length (inbound B) =? 0)%nat
    | None => false end = true) as Hm by (vm_compute; reflexivity).
  destruct met as [[A B]|]; [|discriminate Hm]. rewrite !andb_true_iff, !Nat.eqb_eq in Hm. destruct Hm as [[Hp HA] HB].
  destruct (an_open_link_carries_what_is_sent plain_env plain_env ann_end bob_end
    [mkMessage true true [1; 2]; mkMessage false true [7]; mkMessage true false [3]; mkMessage true true [4]] A B)
    as (A' & B' & Ht & HB' & HA' & _).
  - reflexivity.
  - reflexivity.
  - apply paired_checked; [split; [by vm_compute|by vm_compute]|exact Hp].
  - rewrite HB. apply Nat.leb_le. reflexivity.
  - rewrite HA. apply Nat.leb_le. reflexivity.
  - exists A, B, A', B'. split; [exact Ht|]. split; [exact HB'|exact HA'].
Defined.
