(* ===== verification/Meeting.v ===== *)
(** Two daemons that have never met: what the server tells each of the other is enough for
    them to open a link.

    The announcement goes through the core ([CoreNetwork]) to its mesh ([CoreLinks]); then the
    two meshes exchange datagrams ([MeshLink]). *)
From S2P Require Import Prelude Bytes NetAddr NetText Base64 Schema Storage Auth ApiTypes Hub Api Wire Stun Replay Session Netlog Ipc Control Threads Core CoreNetwork CoreConnect CoreInv CoreSafe CoreProps Peer Mesh Handle MeshWf MeshSafe MeshFrame MeshProps CoreLinks MeshTraffic MeshRelay MeshOutsider MeshLink CoreDesk.

(** ** A peer the mesh is told of *)
Section added.
Context {N : Noise} {E : Env} {L : NoiseLaws N} {EL : EnvLaws E}.
Context (Hw : ∀ n, writes n = true) (Hr : ∀ n, random64 n ≠ None).

(** Nobody of the mesh has this device id, this address or this address inside. *)
Definition unknown (m : Mesh) (d : gostring) (v : Addr) (e : AddrPort) : Prop :=
  peers m !! d = None ∧ ∀ d' r p, peers m !! d' = Some r → store m !! r = Some p → endpoint p ≠ e ∧ VirtualIP p ≠ v.

Lemma wp_punch r p m (Q : unit → Mesh → Prop) : store m !! r = Some p → ap_IsValid (endpoint p) = true →
  (∀ p' out m', endpoint p' = endpoint p → transportKey p' = transportKey p → Peer.DeviceID p' = Peer.DeviceID p → VirtualIP p' = VirtualIP p
     → via p' = via p → handshake p' = handshake p → session p' = session p → handshakes p' = handshakes p
     → only r p' out m m' → Q tt m') → wp (punch r) Q m.
Proof using Hw.
  intros Hp He HQ. unfold punch. apply wp_bind, (wp_deref _ p); [done|]. rewrite He. cbn [when].
  apply wp_bind, (wp_randomToken r p); [done|]. intros token m1 H1. apply wp_bind, wp_gets.
  assert (∃ pending', expect token (now m1) p = p <| pending := pending' |>) as [pd Hpd] by (unfold expect; case_match; by eexists).
  apply wp_bind, (wp_update r _ p); [by eapply only_link|]. rewrite Hpd. intros m2 H2. set (q := p <| pending := pd |>) in *.
  apply wp_bind, (wp_update r _ q); [by eapply only_link|]. intros m3 H3. set (q' := q <| lastProbe := Some (now m1) |>) in *.
  unfold sendTo. apply wp_bind, (wp_write_out Hw r q'); [by eapply only_link|]. intros m4 H4. apply wp_ret.
  eapply (HQ q' _ m4); [done..|].
  exact (only_trans _ _ _ _ _ _ _ _ H1 (only_trans _ _ _ _ _ _ _ _ H2 (only_trans _ _ _ _ _ _ _ _ H3 H4))).
Qed.

(** A link to a device the mesh has been told of, ready to be opened. *)
Record told_of (m m' : Mesh) (r : ref) (p : Peer) (d : gostring) (key : Keypair) (v : Addr) (e : AddrPort) : Prop := mkToldOf {
  to_wf : mesh_wf m' ∧ indexed m';
  to_link : introduced m' r p d key;
  to_at : reachable p ∧ endpoint p = e ∧ VirtualIP p = v;
  to_begin : may_begin (now m') p = true;
  to_found : byUDP m' !! e = Some r ∧ byIP m' !! v = Some r;
  to_sole : sole m' d v e;
  to_mine : keys m' = keys m ∧ device m' = device m;
}.

Lemma adds d n v key e m : mesh_wf m → indexed m → unknown m d v e → length (Public key) = KeySize →
  ap_IsValid e = true → addr_IsValid v = true →
  wp (AddPeer d n v (Public key) e) (λ res m', res = inr tt ∧ ∃ r p, told_of m m' r p d key v e) m.
Proof using L EL Hw Hr.
  intros Hm Hi [Hd Hun] Hk He Hv. set (Q := λ (res : mesh_error + unit) m', res = inr tt ∧ ∃ r p, introduced m' r p d key
    ∧ (reachable p ∧ endpoint p = e ∧ VirtualIP p = v) ∧ may_begin (now m') p = true ∧ sole m' d v e ∧ keys m' = keys m ∧ device m' = device m).
  enough (wp (AddPeer d n v (Public key) e) Q m) as HQ.
  { eapply wp_mono; [apply (wp_and _ _ _ _ (steady_AddPeer d n v (Public key) e m Hm Hi) HQ)|].
    intros res m' [(Hm' & Hi' & _) [-> (r & p & H1 & H2 & H3 & H4 & H5 & H6)]]. split; [done|]. exists r, p. destruct H2 as (H2 & <- & <-).
    split; try done. apply (sole_found m' d r p); [done|done|apply H1|apply H1|done..]. }
  unfold AddPeer. rewrite Hk, Nat.eqb_refl. cbn [negb]. apply wp_try_inr. unfold randomSender. apply wp_bind, wp_tick.
  destruct (random64 (tick m)) as [z|] eqn:Ez; [|by destruct (Hr (tick m))]. apply wp_ret. exists z. split; [done|].
  apply wp_bind, wp_gets. cbn [peers set_field]. change (peers (m <| tick := S (tick m) |>)) with (peers m). rewrite Hd.
  set (m0 := m <| tick := S (tick m) |>). assert (mesh_wf m0) as Hm0 by (by destruct Hm; split).
  set (p := newPeer d n v (Public key) e z). set (r := next_ref m0).
  destruct (mesh_wf_alloc m0 p Hm0) as [Hm2 _]; [by apply peer_wf_newPeer|done|done|].
  set (m2 := m0 <| store := <[next_ref m0:=p]> (store m0) |> <| next_ref := Pos.succ (next_ref m0) |> <| peers := <[Peer.DeviceID p:=next_ref m0]> (peers m0) |>) in *.
  apply wp_bind. change (wp (alloc p) (λ a, wp (modify (λ m, m <| peers := <[d:=a]> (peers m) |>);; reindex;; logf (PeerAdded d);; report a;; punch a;; mret (inr tt)) Q) m0).
  change (wp (reindex;; logf (PeerAdded d);; report r;; punch r;; mret (inr tt)) Q m2).
  apply wp_bind. eapply wp_mono; [apply (wp_frames still); [exact still_reindex|by apply wp_reindex]|].
  intros [] m3 [(Z1 & Z2 & Z3 & Z4 & Z5 & Z6 & Z7 & Z8) _].
  assert (store m3 !! r = Some p) as Hr3 by (rewrite Z1; apply lookup_insert_eq).
  apply wp_bind, (wp_logf _ r p); [done|]. intros m4 H4. apply wp_bind, (wp_report r p); [by eapply only_link|]. intros m5 H5.
  apply wp_bind, (wp_punch r p); [by eapply only_link|done|]. intros p' out m6 P1 P2 P3 P4 P5 P6 P7 P8 H6. apply wp_ret.
  pose proof (only_trans _ _ _ _ _ _ _ _ H4 (only_trans _ _ _ _ _ _ _ _ H5 H6)) as [O1 _ O3 O4 _ O6 _ _ _ _].
  assert (peers m6 = <[d := r]> (peers m)) as Ep by (by rewrite O6, Z6).
  assert (∀ r0 q, store m !! r0 = Some q → store m6 !! r0 = Some q) as Est.
  { intros r0 q Hq. assert (r0 ≠ r) as Hne.
    { intros ->. pose proof (mw_next _ Hm _ (mk_is_Some _ _ Hq)) as Hlt. change (next_ref m < next_ref m)%positive in Hlt. lia. }
    rewrite O1, lookup_insert_ne, Z1 by done. change (<[r := p]> (store m) !! r0 = Some q). by rewrite lookup_insert_ne. }
  split; [done|]. exists r, p'. split; [split|].
  - rewrite Ep. apply lookup_insert_eq.
  - rewrite O1. apply lookup_insert_eq.
  - by rewrite P3.
  - by rewrite P2.
  - done.
  - split; [by unfold reachable; rewrite P5, P1|]. split.
    + unfold may_begin. rewrite P1, P5, P6, P7, P8. cbn. by rewrite He.
    + split; [|by rewrite O3, O4, Z3, Z4]. intros d' r0 q Hd' Hq Hsame. destruct (decide (d' = d)) as [->|Hne]; [done|].
      rewrite Ep, lookup_insert_ne in Hd' by done. destruct (mw_peers _ Hm _ _ Hd') as (q' & Hq' & _).
      rewrite (Est _ _ Hq') in Hq. injection Hq as <-. destruct (Hun _ _ _ Hd' Hq'). by destruct Hsame.
Qed.
End added.

(** ** From the server's announcement *)

(** What the server says of a device in a session that published this address. *)
Definition announced (d nick : gostring) (key : list Z) (v : Z) (e : AddrPort) : ApiTypes.Peer :=
  Api.toPeer (SessionPeer_ d nick (addr_String (Addr4 v)) (EncodeToString StdAlphabet key)
    (Some (Endpoint_ (addr_String (ap_addr e)) (ap_port e)))).

(** An address that can be written down and read again. *)
Definition speakable (e : AddrPort) : Prop := ∃ a port, e = AddrPortFrom (Addr4 a) port ∧ 0 ≤ a < 2 ^ 32 ∧ 0 < port < 2 ^ 16.

Lemma speakable_again e : speakable e → parseEndpoint (mkEndpoint (str "udp") (addr_String (ap_addr e)) (ap_port e)) = Some e.
Proof.
  intros (a & port & -> & Ha & Hp). unfold parseEndpoint. cbn [Address Port ap_addr ap_port]. rewrite ParseAddr_String by done.
  destruct (Z.leb_spec port 0); [lia|]. destruct (Z.ltb_spec 65535 port); [lia|]. cbn [orb].
  by rewrite u16_id by (unfold is_u16; lia).
Qed.

Section announced.
Context {C : Ed25519} {Nt : Net} {N : Noise} {E : Env} {L : NoiseLaws N} {EL : EnvLaws E} (k : Keypair).
#[local] Instance real_links : Links := mesh_links k.
#[local] Instance real_laws : LinksLaws real_links := mesh_links_laws k.
Context {H : Host} {HL : HostLaws H}.
Context (Hw : ∀ n, writes n = true) (Hr : ∀ n, random64 n ≠ None).
Abbreviation T := (thread Core).
Abbreviation mine := (@Core.L real_links).

(** What a report of the links leaves alone. *)
Definition on_links (c c' : Core) : Prop := Core.links c' = Core.links c ∧ Core.mesh c' = Core.mesh c.
#[local] Instance on_links_preorder : PreOrder on_links.
Proof. split; [done|]. intros c1 c2 c3 (? & ?) (? & ?). split; congruence. Qed.

Lemma leaves_links_emit e : leaves on_links (Core.emit e).
Proof. apply leaves_locked. intros c a c' [= <- <-]. done. Qed.

Lemma leaves_links_report r : leaves on_links (called_back r).
Proof.
  destruct r; cbn [called_back]; (apply leaves_bind; [apply _|apply leaves_locked; by intros c a c' [= <- <-]|]);
    intros [ok after]; apply leaves_when; try apply _; apply leaves_bind; try apply _; intros; apply leaves_links_emit.
Qed.

(** Where a thread that gets to its end by itself gets to. *)
Definition ends_as {A} (t : T A) (Q : A → Core → Prop) (c : Core) : Prop := ∀ a ts c', alone t c = Some (a, ts, c') → Q a c'.

Lemma ends_as_bind {A B} (t : T A) (f : A → T B) (Q : B → Core → Prop) c : ends_as t (λ a, ends_as (f a) Q) c → ends_as (t ≫= f) Q c.
Proof.
  intros Ht b ts c'. rewrite alone_bind. destruct (alone t c) as [[[a ts1] c1]|] eqn:E1; [|done].
  destruct (alone (f a) c1) as [[[b' ts2] c2]|] eqn:E2; [|done]. intros [= <- <- <-]. by eapply Ht.
Qed.

Lemma ends_as_leaves {A} (t : T A) (Q : A → Core → Prop) c : leaves on_links t → (∀ a c', on_links c c' → Q a c') → ends_as t Q c.
Proof. intros Ht HQ a ts c' E0. by eapply HQ, Ht. Qed.

Lemma told_of_heard m m' r p d key v e : told_of m m' r p d key v e → told_of m (m' <| events := [] |>) r p d key v e.
Proof.
  intros [[[] []] [] H3 H4 H5 H6 H7]. apply mkToldOf; [split; by split|by split|exact H3|exact H4|exact H5|exact H6|exact H7].
Qed.

(** A call on the links changes one mesh as the call does. *)
Lemma ends_as_with_links {A} i (f : prog Mesh A) (Q : Mesh → Prop) c (m : mine) : Core.links c !! i = Some m → wp f (λ _, Q) m →
  ends_as (with_links i f) (λ _ c', Core.mesh c' = Core.mesh c ∧ ∃ m' : Mesh, Core.links c' !! i = Some (m' <| events := [] |> : mine) ∧ Q m') c.
Proof.
  unfold wp. intros Hi Hf. destruct (f m) as [[a m1]|] eqn:Ef; [|done].
  set (c1 := c <| Core.links := <[i := (m1 : mine)]> (Core.links c) |>). set (c2 := c1 <| Core.links := <[i := (m1 <| events := [] |> : mine)]> (Core.links c1) |>).
  apply ends_as_bind. intros r ts c' Ec.
  assert (on_mesh i f c = Some (a, c1)) as E1 by (unfold on_mesh; by rewrite Hi, Ef).
  assert (on_mesh i reports c1 = Some (report_of <$> events m1, c2)) as E2.
  { unfold on_mesh. assert (Core.links c1 !! i = Some (m1 : mine)) as -> by apply lookup_insert_eq. done. }
  assert (alone (locked (a ← on_mesh i f; rs ← on_mesh i reports; mret (a, rs))) c = Some ((a, report_of <$> events m1), [], c2)) as E3.
  { apply alone_locked. unfold mbind, prog_bind. by rewrite E1, E2. }
  rewrite E3 in Ec. injection Ec as <- <- <-.
  apply ends_as_bind, ends_as_leaves; [apply leaves_each; [apply _|]; intros; apply leaves_links_report|].
  intros _ c3 [Hl Hms]. intros a' ts' c4 [= <- <- <-]. split; [exact Hms|].
  exists m1. rewrite Hl. split; [apply lookup_insert_eq|done].
Qed.

(** A daemon in order, with these links. *)
Definition linked (c : Core) (m : mine) : Prop := core_wf c ∧ ∃ i, Core.mesh c = Some i ∧ Core.links c !! i = Some m.

(** The server's event, through to its end. *)
Definition hears_of (peer : ApiTypes.Peer) (c : Core) : option Core :=
  match alone (CoreNetwork.dispatch (Got (EventPeerOnline peer)) realtimeHandler) c with Some (_, _, c') => Some c' | None => None end.

(** The announcement of a device nobody of the mesh is mistaken for gives the mesh a link to it. *)
Lemma online_tells c (m : mine) d nick key v e : linked c m → unknown m d (Addr4 v) e → 0 ≤ v < 2 ^ 32 →
  is_bytes (Public key) → length (Public key) = KeySize → speakable e →
  ∃ c' (m' : mine) r p, hears_of (announced d nick (Public key) v e) c = Some c' ∧ linked c' m' ∧ told_of m m' r p d key (Addr4 v) e.
Proof using Hw Hr HL L EL.
  intros (Hc & i & Hm & Hi) Hun Hv Hkb Hkl He. unfold hears_of.
  destruct (keeps_alone core_wf grows _ c Hc (returns_dispatch _) (kept_dispatch (Got (EventPeerOnline (announced d nick (Public key) v e))) c))
    as ([] & ts & c' & Ec & Hc' & _). rewrite Ec.
  enough (ends_as (addPeer (announced d nick (Public key) v e)) (λ _ c', Core.mesh c' = Core.mesh c ∧ ∃ m' : Mesh,
    Core.links c' !! i = Some (m' <| events := [] |> : mine) ∧ ∃ r p, told_of m m' r p d key (Addr4 v) e) c) as Hgo.
  { destruct (Hgo _ _ _ Ec) as (Hm' & m' & Hi' & r & p & Ht). exists c', (m' <| events := [] |>), r, p. split; [done|].
    split; [|by apply told_of_heard]. split; [done|]. exists i. by rewrite Hm'. }
  destruct (cw_links c Hc i m Hi) as [Hmw Hmi].
  unfold addPeer. apply ends_as_bind, ends_as_leaves; [apply leaves_locked; by intros c0 a c1 [= <- <-]|].
  intros [[known added] after] c1 [L1 M1]. apply ends_as_bind, ends_as_leaves; [apply leaves_when; [apply _|apply leaves_links_emit]|].
  intros _ c2 [L2 M2]. apply ends_as_bind, ends_as_leaves; [apply leaves_links_emit|]. intros _ c3 [L3 M3].
  apply ends_as_bind. intros o ts1 c4 [= <- <- <-]. rewrite M3, M2, M1, Hm. cbn [announced Api.toPeer p_DeviceID p_Nickname p_VirtualIP p_TransportKey p_Endpoint pr_VirtualIP pr_TransportKey pr_DeviceID pr_Nickname].
  rewrite ParseAddr_String, DecodeString_Encode by (done || apply good_std).
  change (endpointOf _) with (mkEndpoint (str "udp") (addr_String (ap_addr e)) (ap_port e)). rewrite speakable_again by done. cbn [default].
  apply ends_as_bind. intros a ts2 c5 E5 b ts6 c6 [= <- <- <-]. revert a ts2 c5 E5.
  assert (Core.mesh c3 = Some i) as <- by congruence.
  apply (ends_as_with_links _ _ (λ m', ∃ r p, told_of m m' r p d key (Addr4 v) e) c3 m); [congruence|].
  apply wp_bind. eapply wp_mono; [apply (adds Hw Hr d nick (Addr4 v) key e m); try done|].
  - destruct He as (x & port & -> & _). done.
  - intros res m' [_ Ht]. by apply wp_ret.
Qed.
End announced.

(** C16: the server brings two daemons together.  Two daemons in order, on one network and
    strangers to each other, are each told by the server of the other's device, key,
    address inside and public address; each ends with a link to the other, and when the
    one with the lower device id begins a handshake, the datagram it sends and the answer
    it gets leave that link open on both sides, direct, under one pair of keys. *)
Theorem the_server_brings_two_daemons_together {C : Ed25519} {Nt : Net} {N : Noise} {L : NoiseLaws N} (EA EB : Env) {ELA : EnvLaws EA} {ELB : EnvLaws EB}
    (kA kB : Keypair) {HA : Host (K := real_links (E := EA) kA)} {HB : Host (K := real_links (E := EB) kB)}
    {HLA : HostLaws (G := real_laws (EL := ELA) kA) HA} {HLB : HostLaws (G := real_laws (EL := ELB) kB) HB} vA vB eA eB nickA nickB
    (cA : Core (K := real_links (E := EA) kA)) (cB : Core (K := real_links (E := EB) kB)) A B :
  (∀ n, writes (Env := EA) n = true ∧ random64 (Env := EA) n ≠ None) → (∀ n, writes (Env := EB) n = true ∧ random64 (Env := EB) n ≠ None) →
  linked (E := EA) kA cA A → linked (E := EB) kB cB B →
  unknown A (device B) (Addr4 vB) eB → unknown B (device A) (Addr4 vA) eA →
  0 ≤ vA < 2 ^ 32 → 0 ≤ vB < 2 ^ 32 → speakable eA → speakable eB →
  is_bytes (Public (keys A)) → length (Public (keys A)) = KeySize → is_bytes (Public (keys B)) → length (Public (keys B)) = KeySize →
  bytes_lt (device B) (device A) = false → (length (device A) ≤ 255)%nat →
  ∃ cA' A' rA cB' B' rB A1 hello B1 answer keepalive A2 keepalive',
    hears_of (E := EA) kA (announced (device B) nickB (Public (keys B)) vB eB) cA = Some cA' ∧ linked (E := EA) kA cA' A'
    ∧ hears_of (E := EB) kB (announced (device A) nickA (Public (keys A)) vA eA) cB = Some cB' ∧ linked (E := EB) kB cB' B'
    ∧ beginHandshake (E := EA) rA A' = Some (tt, A1) ∧ wire A1 = wire A' ++ [(eB, hello)]
    ∧ handle (E := EB) hello eA B' = Some (tt, B1) ∧ wire B1 = wire B' ++ [(eA, answer); (eA, keepalive)]
    ∧ handle (E := EA) answer eB A1 = Some (tt, A2) ∧ wire A2 = wire A1 ++ [(eB, keepalive')]
    ∧ paired (2 ^ 64 - 1) (mkEnd rA eA (Addr4 vA)) (mkEnd rB eB (Addr4 vB)) A2 B1.
Proof.
  intros HwA HwB LA LB UA UB HvA HvB SA SB bA lA bB lB Hlt Hlen.
  destruct (online_tells (E := EA) kA (λ n, proj1 (HwA n)) (λ n, proj2 (HwA n)) cA A (device B) nickB (keys B) vB eB LA UA HvB bB lB SB)
    as (cA' & A' & rA & pA & EA1 & LA' & [[WA IA] TA (RA & XA & VA) MA FA SA' (KA & DA)]).
  destruct (online_tells (E := EB) kB (λ n, proj1 (HwB n)) (λ n, proj2 (HwB n)) cB B (device A) nickA (keys A) vA eA LB UB HvA bA lA SA)
    as (cB' & B' & rB & pB & EB1 & LB' & [[WB IB] TB (RB & XB & VB) MB FB SB' (KB & DB)]).
  rewrite <-KB, <-DB in TA. rewrite <-KA, <-DA in TB. rewrite <-DA in SB'.
  destruct (two_daemons_open_a_link EA EB eA A' rA pA B' rB pB) as (A1 & hello & B1 & answer & ka & A2 & ka' & H1 & H2 & H3 & H4 & H5 & H6 & _ & _ & H7);
    try done.
  - intros n. apply HwA.
  - intros n. apply HwB.
  - by rewrite DB, DA.
  - by rewrite DA.
  - rewrite XA. apply FA.
  - rewrite VA. apply FA.
  - destruct SA as (x & port & -> & _). done.
  - by rewrite VB.
  - by rewrite VB.
  - intros _. apply RB.
  - rewrite XA in *. rewrite VA, VB in *. exists cA', A', rA, cB', B', rB, A1, hello, B1, answer, ka, A2, ka'. by split_and!.
Qed.

(** A daemon fresh on the network, with this key. *)
Definition fresh_daemon (d : gostring) (v : Z) (key : list Z) : Core (C := Toy.scheme) (K := mesh_with key) :=
  let c := CoreConnect.New (C := Toy.scheme) (K := mesh_with key) ann (default_settings home) home None (at_start []) in
  c <| Core.mesh := Some 1%positive |> <| Core.links := {[1%positive := (plain_mesh d (Addr4 v) key : @Core.L (mesh_with key))]} |>.

Lemma fresh_linked d v key : linked (C := Toy.scheme) (key : @Keypair Plain.noise) (fresh_daemon d v key) (plain_mesh d (Addr4 v) key).
Proof.
  split; [|exists 1%positive; split; [done|apply lookup_singleton_eq]].
  destruct (core_New_wf (C := Toy.scheme) (N := desk_net) (K := mesh_with key) (G := mesh_links_laws (key : @Keypair Plain.noise)) ann (default_settings home) home None
    (at_start [])) as [H1 H2 _ _ H5].
  split; [exact H1|exact H2|..|exact H5].
  - intros i l Hl. change (({[1%positive := (plain_mesh d (Addr4 v) key : @Core.L (mesh_with key))]} : gmap positive (@Core.L (mesh_with key))) !! i = Some l) in Hl.
    apply lookup_singleton_Some in Hl as [_ <-]. by apply New_wf.
  - intros i [= <-]. eexists. apply lookup_singleton_eq.
Qed.

Lemma the_server_brings_two_daemons_together_witness :
  ∃ cA' rA rB (A2 B1 : @Mesh Plain.noise),
    hears_of (C := Toy.scheme) (H := host_with (replicate 32 1)) (replicate 32 1 : @Keypair Plain.noise)
      (announced [66] (str "Bob") (replicate 32 2) 2 Lan.bob_at) (fresh_daemon [65] 1 (replicate 32 1)) = Some cA'
    ∧ paired (2 ^ 64 - 1) (mkEnd rA Lan.ann_at (Addr4 1)) (mkEnd rB Lan.bob_at (Addr4 2)) A2 B1.
Proof.
  destruct (the_server_brings_two_daemons_together (C := Toy.scheme) plain_env plain_env (replicate 32 1 : @Keypair Plain.noise) (replicate 32 2 : @Keypair Plain.noise)
    (HA := host_with (replicate 32 1)) (HB := host_with (replicate 32 2)) (HLA := host_with_laws _) (HLB := host_with_laws _)
    1 2 Lan.ann_at Lan.bob_at (str "Ann") (str "Bob") (fresh_daemon [65] 1 (replicate 32 1)) (fresh_daemon [66] 2 (replicate 32 2))
    Lan.ann_new Lan.bob_new) as (cA & A' & rA & cB & B' & rB & A1 & hello & B1 & answer & ka & A2 & ka' & Hc & _ & _ & _ & _ & _ & _ & _ & _ & _ & Hp).
  - done.
  - done.
  - apply fresh_linked.
  - apply fresh_linked.
  - by split.
  - by split.
  - lia.
  - lia.
  - exists 10, 9. split; [done|lia].
  - exists 20, 9. split; [done|lia].
  - apply (bool_decide_unpack _). vm_compute. exact I.
  - done.
  - apply (bool_decide_unpack _). vm_compute. exact I.
  - done.
  - done.
  - apply (bool_decide_unpack _). vm_compute. exact I.
  - exists cA, rA, rB, A2, B1. split; [exact Hc|exact Hp].
Defined.
