(* ===== verification/MeshPatience.v ===== *)
(** How long a link is tried for: the side that opens the handshake gives up, and the
    side that waits for it does not. *)
From S2P Require Import Prelude Bytes NetAddr Wire Stun Replay Session Netlog Ipc Peer Mesh Handle MeshWf MeshSafe MeshFrame MeshProps MeshTraffic.

(** Calls that are the passing of time and nothing else. *)
Definition is_time (c : mesh_call) : bool :=
  match c with CClock _ | CMaintain _ => true | _ => false end.

Section patience.
Context {N : Noise} {E : Env}.

(** What a peer looks like while it is waited for. *)
Definition waits (d : gostring) (p : Peer) : Prop :=
  bytes_lt (DeviceID p) d = true ∧ state p = PeerConnecting ∧ session p = None ∧ via p = None ∧ handshakes p = 0.
Definition waited_for (r : ref) (m : Mesh) : Prop := ∃ p, store m !! r = Some p ∧ waits (device m) p.
Definition still_waits (r : ref) (m m' : Mesh) : Prop := waited_for r m → waited_for r m'.

#[export] Instance still_waits_pre r : PreOrder (still_waits r).
Proof. split; [intros m H; exact H|]. intros m1 m2 m3 H1 H2 H. by apply H2, H1. Qed.

Lemma sw_with_peer {A} r x (f : st Peer A) : (∀ d p, waits d p → waits d (f p).2) → frames (still_waits r) (with_peer x f).
Proof.
  intros Hf m a m' (p & Hx & _ & ->)%with_peer_inv (q & Hq & Hw). unfold waited_for. cbn.
  destruct (decide (r = x)) as [->|].
  - rewrite Hx in Hq. injection Hq as <-. exists (f p).2. rewrite lookup_insert_eq. by split; [|apply Hf].
  - exists q. by rewrite lookup_insert_ne.
Qed.

Lemma sw_with_other {A} r x (f : st Peer A) : x ≠ r → frames (still_waits r) (with_peer x f).
Proof.
  intros Hne m a m' (p & Hx & _ & ->)%with_peer_inv (q & Hq & Hw). exists q. cbn. by rewrite lookup_insert_ne.
Qed.

Lemma sw_modify r f : (∀ m, store (f m) = store m ∧ device (f m) = device m) → frames (still_waits r) (modify f).
Proof.
  intros Hf m a m' [= _ <-] (p & Hp & Hw). destruct (Hf m) as [Hs Hd]. exists p. by rewrite Hs, Hd.
Qed.

#[export] Instance still_waits_frame r : Frame (still_waits r).
Proof.
  split; intros; try (by apply sw_modify); try (by apply sw_with_peer).
  - intros m a m' [= _ <-] (q & Hq). by exists q.
  - apply (sw_with_peer r _ (λ p, (tt, expect token t p))). intros d p. unfold waits, expect. by case_match.
  - apply sw_with_peer. intros d p. unfold waits, nextCounter. intros (?&?&Hs&?). by rewrite Hs.
  - apply sw_with_peer. intros d p. unfold waits, seal. intros (?&?&Hs&?). by rewrite Hs.
Qed.

(** One peer's turn, whichever peer it is. *)
Lemma sw_other_turn r x k : x ≠ r → frames (still_waits r) (maintain_peer k x).
Proof.
  intros Hne. pose proof (still_waits_pre r). pose proof (still_waits_frame r).
  assert (∀ f, frames (still_waits r) (update_peer x f)) as Hu by (intros f; by apply (sw_with_other r x (λ p, (tt, f p)))).
  assert (∀ A (f : st Peer A), frames (still_waits r) (with_peer x f)) as Hwp by (intros; by apply sw_with_other).
  assert (∀ y, frames (still_waits r) (report y)) by (intros; by apply frame_report).
  assert (∀ y, frames (still_waits r) (punch y)) by (intros; by apply frame_punch).
  assert (∀ l, frames (still_waits r) (logf l)) by (intros; by apply fr_log).
  assert (∀ y, frames (still_waits r) (sendKeepalive y)) by (intros; by apply frame_sendKeepalive).
  assert (∀ y k s c b, frames (still_waits r) (send y k s c b)) by (intros; by apply frame_send).
  assert (frames (still_waits r) Peers) by by apply frame_Peers.
  assert (frames (still_waits r) next_tick) by by apply fr_tick.
  assert (∀ A (g : go wire_error A), frames (still_waits r) (of_go g)) by (intros; by apply frame_of_go).
  assert (∀ p all relay, frames (still_waits r) (pick_relay x p all relay)) by (intros; by apply frame_pick_relay).
  assert (frames (still_waits r) (beginHandshake x)) by (unfold beginHandshake; frame).
  assert (frames (still_waits r) (restart_link x)) by (unfold restart_link; frame).
  assert (frames (still_waits r) (tryRelay x)) by (unfold tryRelay; frame).
  unfold maintain_peer. frame.
Qed.

(** Its own turn only punches. *)
Lemma sw_own_turn r k : frames (still_waits r) (maintain_peer k r).
Proof.
  intros m a m' H Hwait. pose proof Hwait as (p & Hp & Hlt & Hst & Hs & Hv & Hh).
  unfold maintain_peer in H. apply bind_inv in H as (q & m0 & Hd & H). unfold deref in Hd. rewrite Hp in Hd.
  injection Hd as <- <-. rewrite bind_gets, Hs, Hst, Hv, Hh in H. cbn [bool_decide andb] in H.
  change (handshakeBudget None <=? 0) with false in H. cbn in H.
  apply bind_inv in H as ([] & m1 & Hpunch & Hbegin).
  pose proof (frame_punch (still_waits r) r m tt m1 Hpunch Hwait) as (p1 & Hp1 & Hw1).
  unfold beginHandshake in Hbegin. apply bind_inv in Hbegin as (q & m2 & Hd & H). unfold deref in Hd. rewrite Hp1 in Hd.
  injection Hd as <- <-. rewrite bind_gets, (proj1 Hw1) in H. injection H as _ <-. by exists p1.
Qed.

Lemma sw_time r c : is_time c = true → frames (still_waits r) (run_call c).
Proof.
  pose proof (still_waits_pre r). pose proof (still_waits_frame r). intros Hc. destruct c; try done; cbn [run_call].
  - assert (frames (still_waits r) Peers) by by apply frame_Peers.
    unfold ignore, maintain_tick. frame. destruct (decide (x = r)) as [->|]; [apply sw_own_turn|by apply sw_other_turn].
  - by apply sw_modify.
Qed.
End patience.

(** ** Properties *)

(** C37: the side that waits for a handshake waits for ever.  A link to a peer with a
    lower device id, that has no session and no relay, is reported as connecting
    after any amount of time and any number of the daemon's ticks: the limit on
    attempts is never reached, because attempts are only counted by the side that
    opens the handshake, so the link is never reported as failed. *)
Theorem the_waiting_side_never_gives_up {N : Noise} {E : Env} cs m m' r p :
  Forall (λ c, is_time c = true) cs → store m !! r = Some p → waits (device m) p →
  run_calls cs m = Some (tt, m') →
  ∃ p', store m' !! r = Some p' ∧ (status p').1 = PeerConnecting ∧ handshakes p' = 0.
Proof.
  intros Hcs Hp Hw Hrun.
  assert (waited_for r m') as (p' & Hp' & Hw').
  { assert (waited_for r m) as Hwait by by exists p. clear Hp Hw. revert m Hwait Hrun.
    induction Hcs as [|c cs Hc _ IH]; intros m Hwait; [by intros [= <-]|].
    intros ([] & m1 & Hc1 & Hrest)%bind_inv. apply (IH m1); [|done]. by apply (sw_time r c Hc _ _ _ Hc1). }
  exists p'. destruct Hw' as (_ & Hst & _ & _ & Hh). split_and!; [done| |done].
  unfold status. rewrite Hst. cbn. by destruct (_ && _).
Qed.

Lemma the_waiting_side_never_gives_up_witness :
  ∃ (m' : @Mesh Plain.noise) p', store m' !! 1%positive = Some p' ∧ (status p').1 = PeerConnecting.
Proof.
  set (setup := [CAddPeer [64] [] (Addr4 2) (replicate 32 2) (AddrPortFrom (Addr4 20) 9)]).
  set (cs := [CClock (60 * second); CMaintain 0; CClock (120 * second); CMaintain 0]).
  destruct (plain_run setup (plain_mesh [65] (Addr4 1) (replicate 32 1)) (λ m,
    match store m !! 1%positive, run_calls cs m with
    | Some p, Some _ => bool_decide (bytes_lt (DeviceID p) (device m) = true ∧ state p = PeerConnecting
        ∧ via p = None ∧ handshakes p = 0) && bool_decide (is_Some (session p) → False)
    | _, _ => false end)) as (m & _ & Hc); [vm_compute; reflexivity|].
  destruct (store m !! 1%positive) as [p|] eqn:Hp; [|discriminate Hc].
  destruct (run_calls cs m) as [[[] m']|] eqn:Hrun; [|discriminate Hc].
  apply andb_true_iff in Hc as [Hw Hs]. apply bool_decide_eq_true in Hw, Hs. destruct Hw as (H1 & H2 & H3 & H4).
  destruct (the_waiting_side_never_gives_up cs m m' 1%positive p) as (p' & Hp' & Hst & _).
  - by repeat constructor.
  - exact Hp.
  - split_and!; try assumption. destruct (session p); [|reflexivity]. destruct Hs. by eexists.
  - exact Hrun.
  - by exists m', p'.
Defined.
