(* ===== verification/MeshQuery.v ===== *)
(** Asking where this machine is: [Run], [PublicEndpoint], [queryStun] and [resolveStun] of
    daemon/mesh/mesh.go.

    The goroutine that asks waits in a select while the others go on: [Meanwhile] is any
    call of theirs, the arrival of a packet being one.  It goes on when it is woken and
    what woke it is still there: an answer in the channel, its timer, or the end of its
    context.  What the resolver says and what is drawn at random are parameters. *)
From S2P Require Import Prelude Bytes NetAddr NetText Wire Stun Replay Session Netlog Ipc Peer Mesh Handle MeshWf MeshSafe MeshFrame MeshProps.

(** [net.SplitHostPort] *)
Definition SplitHostPort (hostport : gostring) : option (gostring * gostring) :=
  '(before, port) ← cut_last 58 hostport;
  match hostport with
  | 91 :: inside =>
      match cut_at 93 inside with
      | (_, None) => None
      | (host, Some rest) =>
          if bool_decide (rest = 58 :: port) && negb (bool_decide (91 ∈ inside)) && negb (bool_decide (93 ∈ rest)) then Some (host, port) else None
      end
  | _ => if bool_decide (58 ∈ before) || bool_decide (91 ∈ hostport) || bool_decide (93 ∈ hostport) then None else Some (before, port)
  end.

Definition cutPrefix (s prefix : gostring) : gostring * bool :=
  if (length prefix <=? length s)%nat && bool_decide (take (length prefix) s = prefix) then (drop (length prefix) s, true) else (s, false).

Class Resolver : Type := {
  LookupHost : gostring → option (list gostring);
  LookupPort : gostring → option Z;
}.

Inductive query_error : Type :=
  | NotResolved | BadPort | NoIPv4 | NoTransaction | RequestNotSent | QueryCancelled | NoReply | NoServers.
#[export] Instance query_error_eq_dec : EqDecision query_error.
Proof. solve_decision. Defined.

Section resolve.
Context {R : Resolver}.

(** The loop over what a name stands for. *)
Fixpoint first_IPv4 (addrs : list gostring) (port : gostring) : query_error + AddrPort :=
  match addrs with
  | [] => inl NoIPv4
  | candidate :: addrs =>
      match ParseAddr candidate with
      | Some (Addr4 v) => match LookupPort port with None => inl BadPort | Some p => inr (AddrPortFrom (Addr4 v) (u16 p)) end
      | _ => first_IPv4 addrs port
      end
  end.

Definition resolveStun (server : gostring) : query_error + AddrPort :=
  let host := (cutPrefix server (str "stun:")).1 in
  let host := (cutPrefix host (str "stuns:")).1 in
  let '(name, port) := default (host, str "3478") (SplitHostPort host) in
  match LookupHost name with
  | None => inl NotResolved
  | Some addrs => first_IPv4 addrs port
  end.
End resolve.

(** What happens while the goroutine waits; times are in milliseconds. *)
Inductive turn : Type :=
  | Meanwhile (c : mesh_call)
  | Passes (dt : Z)
  | Cancel
  | WakesForAnswer
  | WakesForTimer
  | WakesForContext.

(** The timer of this attempt, what is left of the context's own three seconds, and
    whether the caller's context is over. *)
Record waiting : Type := mkWaiting { attempt : Z; timer : Z; deadline : Z; over : bool }.
#[export] Instance eta_waiting : Settable waiting := λ w, mkWaiting (attempt w) (timer w) (deadline w) (over w).

Definition attempts : Z := 3.
Definition wait_of (n : Z) : Z := (n + 1) * 400.
Definition patience : Z := 3000.

Section query.
Context {N : Noise} {E : Env} {R : Resolver}.

(** The select of one attempt and, when its timer fired, what follows it.  [None] is that
    the script ended and it still waits; the turns that were not needed are given back. *)
Fixpoint wait (req : Request) (to : AddrPort) (w : waiting) (s : list turn) : prog Mesh (option (query_error + AddrPort) * list turn) :=
  match s with
  | [] => mret (None, [])
  | Meanwhile c :: s => run_call c;; wait req to w s
  | Passes dt :: s => wait req to (w <| timer := timer w - Z.max 0 dt |> <| deadline := deadline w - Z.max 0 dt |>) s
  | Cancel :: s => wait req to (w <| over := true |>) s
  | WakesForAnswer :: s =>
      waiter ← gets (λ m, stunWaiters m !! ID req);
      match waiter with
      | Some (Some got) => modify (λ m, m <| stunWaiters := <[ID req := None]> (stunWaiters m) |>);; mret (Some (inr got), s)
      | _ => wait req to w s
      end
  | WakesForTimer :: s =>
      if 0 <? timer w then wait req to w s else
      let next := attempt w + 1 in
      if next <? attempts then
        sent ← WriteToUDPAddrPort (RequestPacket req) to;
        match sent with
        | inl _ => mret (Some (inl RequestNotSent), s)
        | inr _ => wait req to (w <| attempt := next |> <| timer := wait_of next |>) s
        end
      else mret (Some (inl NoReply), s)
  | WakesForContext :: s =>
      if over w || (deadline w <=? 0) then mret (Some (inl QueryCancelled), s) else wait req to w s
  end.

(** [drawn] is what [stun.NewRequest] draws. *)
Definition queryStun (server : gostring) (drawn : option (list Z)) (ended : bool) (s : list turn)
    : prog Mesh (option (query_error + AddrPort) * list turn) :=
  match resolveStun server with
  | inl e => mret (Some (inl e), s)
  | inr addr =>
      match drawn with
      | None => mret (Some (inl NoTransaction), s)
      | Some id =>
          let req := NewRequest id in
          await_stun (ID req);;
          sent ← WriteToUDPAddrPort (RequestPacket req) addr;
          r ← match sent with
              | inl _ => mret (Some (inl RequestNotSent), s)
              | inr _ => wait req addr (mkWaiting 0 (wait_of 0) patience ended) s
              end;
          match r.1 with
          | None => mret r
          | Some _ => stop_awaiting_stun (ID req);; mret r
          end
      end
  end.

(** Whether the caller's context was over by the time [rest] of [s] was left. *)
Definition ended_by (ended : bool) (s rest : list turn) : bool :=
  ended || existsb (λ t, match t with Cancel => true | _ => false end) (take (length s - length rest) s).

Fixpoint ask_servers (servers : list gostring) (drawn : list (option (list Z))) (last : option query_error) (ended : bool) (s : list turn)
    : prog Mesh (option (query_error + AddrPort) * list turn) :=
  match servers, drawn with
  | [], _ | _, [] => mret (Some (inl (default NoServers last)), s)
  | server :: servers, id :: drawn =>
      r ← queryStun server id ended s;
      match r with
      | (None, s') => mret (None, s')
      | (Some (inr addr), s') => logf (PublicEndpointIs addr server);; mret (Some (inr addr), s')
      | (Some (inl err), s') => logf (StunServerSilent server);; ask_servers servers drawn (Some err) (ended_by ended s s') s'
      end
  end.

(** A draw for each server there is. *)
Definition PublicEndpoint (servers : list gostring) (drawn : list (option (list Z))) (s : list turn)
    : prog Mesh (option (query_error + AddrPort) * list turn) := ask_servers servers drawn None false s.

(** The socket's loop: what each read gave, until one fails. *)
Inductive reading : Type := Datagram (packet : list Z) (from : AddrPort) | ReadFailed (stopped : bool).

Fixpoint Run (rs : list reading) : prog Mesh unit :=
  match rs with
  | [] => mret tt
  | ReadFailed stopped :: _ => when (negb stopped) (logf SocketReadFailed)
  | Datagram packet from :: rs => handle packet from;; Run rs
  end.
End query.

(** ** Who touches a waiter *)
Section waiters.
Context {N : Noise} {E : Env}.

Definition keeps (id : list Z) (m m' : Mesh) : Prop := stunWaiters m' !! id = stunWaiters m !! id.
#[local] Instance keeps_pre id : PreOrder (keeps id).
Proof. split; [done|]. intros m1 m2 m3 H1 H2. unfold keeps in *. congruence. Qed.

Lemma keeps_with_peer {A} id r (f : st Peer A) : frames (keeps id) (with_peer r f).
Proof. intros m a m'. unfold with_peer. case_match; [|done]. destruct (f _). by intros [= _ <-]. Qed.
Lemma keeps_tick id : frames (keeps id) next_tick.
Proof. by intros m a m' [= _ <-]. Qed.
Lemma keeps_alloc id p : frames (keeps id) (alloc p).
Proof. by intros m a m' [= _ <-]. Qed.
Lemma waiter_modify id f : (∀ m, stunWaiters (f m) = stunWaiters m) → frames (keeps id) (modify f).
Proof. intros Hf m a m' [= _ <-]. unfold keeps. by rewrite Hf. Qed.
#[local] Hint Resolve keeps_pre keeps_with_peer keeps_tick keeps_alloc : frame.
#[local] Hint Extern 1 (frames (keeps _) (modify _)) => apply waiter_modify; intros ?; cbv beta; try case_match; reflexivity : frame.
#[local] Hint Extern 1 (frames (keeps _) (logf _)) => apply waiter_modify; reflexivity : frame.
#[local] Hint Extern 1 (frames (keeps _) (emit _)) => apply waiter_modify; reflexivity : frame.
#[local] Hint Extern 1 (frames (keeps _) (drop_packet _)) => apply waiter_modify; reflexivity : frame.
#[local] Hint Extern 1 (frames (keeps _) (update_peer _ _)) => apply keeps_with_peer : frame.

#[local] Instance keeps_frame id : Frame (keeps id).
Proof. split; intros; auto with frame. Qed.
#[local] Hint Resolve keeps_frame frame_WriteTo frame_randomSender frame_randomToken frame_Peers frame_report frame_of_go frame_forward
  frame_sendData frame_Send frame_Broadcast frame_send frame_sendTo frame_punch frame_sendKeepalive frame_pick_relay
  frame_beginHandshake frame_handleProbe frame_replyTo frame_handleKeepalive frame_passOn : frame.

Lemma keeps_noteStranger id from : frames (keeps id) (noteStranger from).
Proof. unfold noteStranger. frame. Qed.
Lemma keeps_reindex id : frames (keeps id) reindex.
Proof. unfold reindex, index_peer. frame. Qed.
#[local] Hint Resolve keeps_noteStranger keeps_reindex : frame.
Lemma keeps_restart_link id r : frames (keeps id) (restart_link r).
Proof. unfold restart_link. frame. Qed.
Lemma keeps_tryRelay id r : frames (keeps id) (tryRelay r).
Proof. unfold tryRelay. frame. Qed.
#[local] Hint Resolve keeps_restart_link keeps_tryRelay : frame.
Lemma keeps_answer_by_relay id r src : frames (keeps id) (answer_by_relay r src).
Proof. unfold answer_by_relay. frame. Qed.
Lemma keeps_open_link id r s b : frames (keeps id) (open_link r s b).
Proof. unfold open_link. frame. Qed.
#[local] Hint Resolve keeps_answer_by_relay keeps_open_link : frame.
Lemma keeps_dispatch id h packet payload src : frames (keeps id) (dispatch h packet payload src).
Proof.
  unfold dispatch, handleHandshakeInit, follow_source, forgetStranger, handleHandshakeResponse, handleData, queue_inbound, handleClose. frame.
Qed.
#[local] Hint Resolve keeps_dispatch : frame.
Lemma keeps_handle id packet from : Looks packet = false → frames (keeps id) (handle packet from).
Proof. intros Hl. unfold handle, handleForward, deliverForwarded, peerAt. rewrite Hl. frame. Qed.

(** A call that is not a STUN packet's arrival, nor another query's on the same id. *)
Definition elsewhere (id : list Z) (c : mesh_call) : Prop :=
  match c with
  | CHandle packet _ => Looks packet = false
  | CAwaitStun i | CStopAwaitingStun i => i ≠ id
  | _ => True
  end.

Lemma keeps_run_call id c : elsewhere id c → frames (keeps id) (run_call c).
Proof.
  destruct c; cbn [elsewhere run_call]; intros Hc; unfold ignore, AddPeer, SetPeerEndpoint, RestartLinks, RetryPeer, RemovePeer,
    maintain_tick, maintain_peer, await_stun, stop_awaiting_stun, take_inbound; try (by frame).
  - by apply keeps_handle.
  - intros m a m' [= _ <-]. unfold keeps. cbn. by rewrite lookup_insert_ne.
  - intros m a m' [= _ <-]. unfold keeps. cbn. by rewrite lookup_delete_ne.
Qed.

(** What the arrival of a STUN packet does: the first answer to this request is kept. *)
Lemma handle_stun id packet from m m' : Looks packet = true → handle packet from m = Some (tt, m') →
  keeps id m m' ∨ stunWaiters m !! id = Some None ∧ ∃ addr, ParseResponse id packet = Ret addr ∧ stunWaiters m' !! id = Some (Some addr).
Proof.
  intros Hl. unfold handle. rewrite Hl. unfold handleStun. pose proof (Looks_length _ Hl). destruct (Nat.ltb_spec (length packet) 20); [lia|].
  rewrite slice_Ret by lia. set (i := take _ _). unfold mbind, prog_bind, gets. destruct (stunWaiters m !! i) as [w|] eqn:Ew; [|intros [= <-]; by left].
  destruct (ParseResponse i packet) as [addr|e|] eqn:Ep; [|intros [= <-]; by left|done]. destruct w as [a|]; [intros [= <-]; by left|].
  intros [= <-]. destruct (decide (i = id)) as [<-|Hn]; [right|left].
  - split; [done|]. exists addr. split; [done|]. cbn. by rewrite lookup_insert_eq.
  - unfold keeps. cbn. by rewrite lookup_insert_ne.
Qed.
End waiters.

(** ** What a query does *)
Section asking.
Context {N : Noise} {E : Env} {R : Resolver}.

Lemma bind_is {A B} (f : prog Mesh A) (g : A → prog Mesh B) m a m1 : f m = Some (a, m1) → (f ≫= g) m = g a m1.
Proof. intros Hf. unfold mbind, prog_bind. by rewrite Hf. Qed.
Lemma bind_was {A B} (f : prog Mesh A) (g : A → prog Mesh B) m r : (f ≫= g) m = Some r → ∃ a m1, f m = Some (a, m1) ∧ g a m1 = Some r.
Proof. unfold mbind, prog_bind. destruct (f m) as [[a m1]|]; [|done]. eauto. Qed.

(** The arrival of an answer to a request, as far as its text goes. *)
Definition heard (id : list Z) (s : list turn) (a : AddrPort) : Prop :=
  ∃ packet from, Meanwhile (CHandle packet from) ∈ s ∧ ParseResponse id packet = Ret a.

(** Nobody else queries with one of these ids. *)
Definition leaves (id : list Z) (t : turn) : Prop :=
  match t with Meanwhile (CAwaitStun i) | Meanwhile (CStopAwaitingStun i) => i ≠ id | _ => True end.

Lemma run_call_waiter id c m m' : leaves id (Meanwhile c) → run_call c m = Some (tt, m') →
  keeps id m m' ∨ stunWaiters m !! id = Some None ∧ ∃ packet from addr, c = CHandle packet from ∧ ParseResponse id packet = Ret addr
    ∧ stunWaiters m' !! id = Some (Some addr).
Proof.
  intros Hc Hrun. destruct c; try (left; by apply (keeps_run_call id) in Hrun). cbn in Hrun.
  destruct (Looks packet) eqn:El; [|left; by apply (keeps_handle id _ _ El) in Hrun].
  destruct (handle_stun id _ _ _ _ El Hrun) as [?|(H1 & a & H2 & H3)]; [by left|right]. split; [done|]. by exists packet, from, a.
Qed.

Lemma heard_cons id t s a : heard id s a → heard id (t :: s) a.
Proof. intros (p & f & H & Hp). exists p, f. split; [by constructor|done]. Qed.

Lemma WriteTo_keeps id packet to m r m' : WriteToUDPAddrPort packet to m = Some (r, m') → keeps id m m'.
Proof. unfold WriteToUDPAddrPort, next_tick, mbind, prog_bind. case_match; by intros [= _ <-]. Qed.

(** While it waits the waiter is there, and holds nothing but what was heard. *)
Lemma wait_hears req to w s m r rest m' : Forall (leaves (ID req)) s → is_Some (stunWaiters m !! ID req) →
  wait req to w s m = Some ((r, rest), m') →
  ∃ pre, s = pre ++ rest ∧ (∀ a, r = Some (inr a) → stunWaiters m !! ID req = Some (Some a) ∨ heard (ID req) pre a).
Proof.
  intros Hs. revert w m. induction Hs as [|t s Ht _ IH]; intros w m Hw; cbn [wait]; [intros [= <- <- _]; by exists []|].
  assert (∀ w m1, is_Some (stunWaiters m1 !! ID req) → keeps (ID req) m m1 → wait req to w s m1 = Some ((r, rest), m') →
    ∃ pre, t :: s = pre ++ rest ∧ (∀ a, r = Some (inr a) → stunWaiters m !! ID req = Some (Some a) ∨ heard (ID req) pre a)) as IH'.
  { intros w1 m1 Hw1 Hk Hrun. destruct (IH _ _ Hw1 Hrun) as (pre & -> & H2). exists (t :: pre). split; [done|].
    intros a Ha. destruct (H2 a Ha) as [H|H]; [left; by rewrite <-Hk|right; by apply heard_cons]. }
  assert (∀ x, rest = s → r = Some x → (∀ a, x = inr a → stunWaiters m !! ID req = Some (Some a)) →
    ∃ pre, t :: s = pre ++ rest ∧ (∀ a, r = Some (inr a) → stunWaiters m !! ID req = Some (Some a) ∨ heard (ID req) pre a)) as Hend.
  { intros x -> -> Hx. exists [t]. split; [done|]. intros a [= Ha]. left. by apply Hx. }
  destruct t as [c|dt| | | |].
  - intros ([] & m1 & Hc & Hrun)%bind_was. destruct (run_call_waiter _ _ _ _ Ht Hc) as [Hk|(Hn & p & f & a0 & -> & Hp & Ha0)].
    + apply (IH' w m1); [|done|done]. unfold keeps in Hk. by rewrite Hk.
    + destruct (IH w m1 ltac:(rewrite Ha0; by eexists) Hrun) as (pre & -> & H2). eexists (_ :: pre). split; [done|].
      intros a Ha. destruct (H2 a Ha) as [H|H]; right; [|by apply heard_cons]. exists p, f. split; [by constructor|congruence].
  - by apply IH'.
  - by apply IH'.
  - intros (o & m1 & [= <- <-] & Hrun)%bind_was. destruct (stunWaiters m !! ID req) as [[a0|]|] eqn:Ea; [|by apply (IH' w m); [rewrite Ea|..]|by destruct Hw].
    apply bind_was in Hrun as ([] & m2 & _ & [= <- <- _]). apply (Hend (inr a0)); [done|done|congruence].
  - destruct (0 <? timer w); [by apply IH'|]. cbv zeta. destruct (_ <? attempts); [|intros [= <- <- _]; by eapply Hend].
    intros (x & m1 & Hx & Hrun)%bind_was. destruct x as [e|[]]; [injection Hrun as <- <- _; by eapply Hend|].
    assert (keeps (ID req) m m1) as Hk.
    { by apply (WriteTo_keeps (ID req)) in Hx. }
    eapply IH'; [|done|done]. unfold keeps in Hk. by rewrite Hk.
  - destruct (_ || _); [intros [= <- <- _]; by eapply Hend|by apply IH'].
Qed.

Lemma queryStun_hears server drawn ended s m r rest m' : (∀ id, drawn = Some id → Forall (leaves id) s) →
  queryStun server drawn ended s m = Some ((r, rest), m') →
  ∃ pre, s = pre ++ rest ∧ ∀ a, r = Some (inr a) → ∃ id, drawn = Some id ∧ heard id pre a.
Proof.
  intros Hs. unfold queryStun. destruct (resolveStun server) as [e|to]; [intros [= <- <- _]; by exists []|].
  destruct drawn as [id|]; [|intros [= <- <- _]; by exists []]. specialize (Hs id eq_refl). cbv zeta. set (req := NewRequest id).
  intros ([] & m1 & [= <-] & H1)%bind_was. apply bind_was in H1 as (sent & m2 & Hsent & H2). apply bind_was in H2 as ([r1 rest1] & m3 & H3 & H4).
  assert (r1 = r ∧ rest1 = rest) as [-> ->].
  { cbn in H4. destruct r1; [|by injection H4]. apply bind_was in H4 as (? & ? & _ & H4). by injection H4. }
  destruct sent as [e|[]]; [injection H3 as <- <- _; by exists []|].
  apply (WriteTo_keeps id) in Hsent. unfold keeps in Hsent. cbn in Hsent. rewrite lookup_insert_eq in Hsent.
  apply wait_hears in H3 as (pre & -> & H6); [|done|by (cbn; rewrite Hsent)]. exists pre. split; [done|]. intros a Ha.
  destruct (H6 a Ha) as [H|H]; [cbn in H; rewrite Hsent in H; done|by exists id].
Qed.

Lemma heard_more id s1 s2 s3 a : heard id s2 a → heard id (s1 ++ s2 ++ s3) a.
Proof. intros (p & f & H & Hp). exists p, f. split; [|done]. rewrite !elem_of_app. auto. Qed.

Lemma leaves_app (drawn : list (option (list Z))) (pre s : list turn) :
  (∀ id, Some id ∈ drawn → Forall (leaves id) (pre ++ s)) → ∀ id, Some id ∈ drawn → Forall (leaves id) s.
Proof. intros H id Hid. by apply H, Forall_app in Hid as [_ Hid]. Qed.

Lemma ask_servers_hears servers drawn last ended s m r rest m' : (∀ id, Some id ∈ drawn → Forall (leaves id) s) →
  ask_servers servers drawn last ended s m = Some ((r, rest), m') →
  ∃ pre, s = pre ++ rest ∧ ∀ a, r = Some (inr a) → ∃ id, Some id ∈ drawn ∧ heard id pre a.
Proof.
  revert drawn last ended s m. induction servers as [|server servers IH]; intros drawn last ended s m Hs; cbn [ask_servers];
    [intros [= <- <- _]; by exists []|].
  destruct drawn as [|d drawn]; [intros [= <- <- _]; by exists []|]. intros ([r1 s1] & m1 & H1 & H2)%bind_was.
  apply queryStun_hears in H1 as (pre & -> & H1); [|intros id ->; apply Hs; by left].
  destruct r1 as [[err|addr]|]; [| |injection H2 as <- <- _; by exists pre].
  - apply bind_was in H2 as ([] & m2 & _ & H2). apply IH in H2 as (pre2 & -> & H2).
    + exists (pre ++ pre2). split; [by rewrite (assoc_L _)|]. intros a Ha. destruct (H2 a Ha) as (id & Hid & Hh).
      exists id. split; [by right|]. rewrite <-(app_nil_r pre2). by apply heard_more.
    + apply (leaves_app _ pre). intros id Hid. apply Hs. by right.
  - apply bind_was in H2 as ([] & m2 & _ & H2). injection H2 as <- <- _. exists pre. split; [done|].
    intros a [= <-]. destruct (H1 addr eq_refl) as (id & -> & Hh). exists id. split; [by left|done].
Qed.

(** A waiter that is not there stays away, and one's own is taken away at the end. *)
Lemma wait_keeps_none id req to w s m x m' : ID req ≠ id → Forall (leaves id) s → stunWaiters m !! id = None →
  wait req to w s m = Some (x, m') → stunWaiters m' !! id = None.
Proof.
  intros Hid Hs. revert w m. induction Hs as [|t s Ht _ IH]; intros w m Hn; cbn [wait]; [by intros [= _ <-]|].
  destruct t as [c|dt| | | |].
  - intros ([] & m1 & Hc & Hrun)%bind_was. apply (IH w m1); [|done].
    destruct (run_call_waiter _ _ _ _ Ht Hc) as [Hk|[H _]]; [by rewrite Hk|congruence].
  - by apply IH.
  - by apply IH.
  - intros (o & m1 & [= <- <-] & Hrun)%bind_was. destruct (stunWaiters m !! ID req) as [[a0|]|]; [|by eapply IH..].
    apply bind_was in Hrun as ([] & m2 & [= <-] & [= _ <-]). cbn. by rewrite lookup_insert_ne.
  - destruct (0 <? timer w); [by apply IH|]. cbv zeta. destruct (_ <? attempts); [|by intros [= _ <-]].
    intros (r & m1 & Hx & Hrun)%bind_was. apply (WriteTo_keeps id) in Hx.
    destruct r as [e|[]]; [injection Hrun as _ <-; by rewrite Hx|]. eapply IH; [|done]. by rewrite Hx.
  - destruct (_ || _); [by intros [= _ <-]|by apply IH].
Qed.

Lemma queryStun_leaves_none id server drawn ended s m r rest m' : Forall (leaves id) s → stunWaiters m !! id = None →
  queryStun server drawn ended s m = Some ((Some r, rest), m') → stunWaiters m' !! id = None.
Proof.
  intros Hs Hn. unfold queryStun. destruct (resolveStun server) as [e|to]; [by intros [= _ _ <-]|].
  destruct drawn as [i|]; [|by intros [= _ _ <-]]. cbv zeta. set (req := NewRequest i).
  intros ([] & m1 & [= <-] & H1)%bind_was. apply bind_was in H1 as (sent & m2 & Hsent & H2). apply bind_was in H2 as ([r1 rest1] & m3 & H3 & H4).
  cbn in H4. destruct r1 as [r1|]; [|by injection H4]. apply bind_was in H4 as (? & m4 & [= _ <-] & [= <- <- <-]). cbn.
  destruct (decide (i = id)) as [->|Hne]; [apply lookup_delete_eq|]. rewrite lookup_delete_ne by done.
  apply (WriteTo_keeps id) in Hsent. unfold keeps in Hsent. cbn in Hsent. rewrite lookup_insert_ne in Hsent by done.
  destruct sent as [e|[]]; [injection H3 as _ _ <-; congruence|]. eapply wait_keeps_none; [exact (Hne : ID req ≠ id)|exact Hs| |exact H3]. congruence.
Qed.

Lemma ask_servers_leaves_none id servers drawn last ended s m r rest m' :
  (∀ i, Some i ∈ drawn → Forall (leaves i) s) → Forall (leaves id) s → stunWaiters m !! id = None →
  ask_servers servers drawn last ended s m = Some ((Some r, rest), m') → stunWaiters m' !! id = None.
Proof.
  revert drawn last ended s m. induction servers as [|server servers IH]; intros drawn last ended s m Hi Hs Hn; cbn [ask_servers];
    [by intros [= _ _ <-]|].
  destruct drawn as [|d drawn]; [by intros [= _ _ <-]|]. intros ([r1 s1] & m1 & H1 & H2)%bind_was.
  pose proof H1 as H0. apply queryStun_hears in H0 as (pre & -> & _); [|intros i ->; apply Hi; by left].
  destruct r1 as [[err|addr]|]; [| |by injection H2].
  - apply queryStun_leaves_none with (id := id) in H1; [|done..]. apply bind_was in H2 as ([] & m2 & Hlog & H2).
    assert (stunWaiters m2 !! id = None) as H3 by (by injection Hlog as <-). eapply IH; [| |exact H3|exact H2].
    + apply (leaves_app _ pre). intros i Hin. apply Hi. by right.
    + by apply Forall_app in Hs as [_ Hs].
  - apply queryStun_leaves_none with (id := id) in H1; [|done..]. apply bind_was in H2 as ([] & m2 & [= <-] & H2).
    by injection H2 as _ _ <-.
Qed.
(** An answer that arrives while the waiter is empty is kept for it. *)
Lemma answer_kept id packet from a m m' : ParseResponse id packet = Ret a → stunWaiters m !! id = Some None →
  handle packet from m = Some (tt, m') → stunWaiters m' !! id = Some (Some a).
Proof.
  intros Hp Hw Hrun. unfold handle in Hrun. unfold ParseResponse in Hp. destruct (Looks packet) eqn:El; [|done].
  pose proof (Looks_length _ El) as Hlen. cbn [negb] in Hp. rewrite (slice_Ret packet 0 2), (slice_Ret packet 8 20) in Hp by lia. cbn [mbind go_bind] in Hp.
  destruct (negb (_ =? bindingSuccess)) eqn:E1; [done|]. destruct (negb (bool_decide _)) eqn:E2 in Hp; [done|].
  apply negb_false_iff, bool_decide_eq_true in E2. revert Hrun. unfold handleStun.
  destruct (Nat.ltb_spec (length packet) 20); [lia|]. rewrite slice_Ret by lia. rewrite E2. unfold mbind at 1, prog_bind at 1, gets at 1. rewrite Hw.
  unfold ParseResponse. rewrite El. cbn [negb]. rewrite (slice_Ret packet 0 2), (slice_Ret packet 8 20) by lia. cbn [mbind go_bind].
  rewrite E1, E2, bool_decide_eq_true_2 by done. cbn [negb]. rewrite Hp. intros [= <-]. cbn. apply lookup_insert_eq.
Qed.

(** What becomes of a waiter that is not emptied: the first answer stays. *)
Definition filled (id : list Z) (s : list turn) (m m' : Mesh) : Prop :=
  match stunWaiters m !! id with
  | Some (Some a) => stunWaiters m' !! id = Some (Some a)
  | Some None => stunWaiters m' !! id = Some None ∨ ∃ a, heard id s a ∧ stunWaiters m' !! id = Some (Some a)
  | None => True
  end.
Lemma filled_cons id t s m m1 m' : filled id [t] m m1 → filled id s m1 m' → filled id (t :: s) m m'.
Proof.
  unfold filled. destruct (stunWaiters m !! id) as [[a|]|]; [by intros ->| |done].
  intros [->|(a & Ha & ->)]; [|intros ->; right; exists a; split; [|done]; exact (heard_more id [] [t] s a Ha)].
  intros [H|(a & Ha & H)]; [by left|right; exists a; split; [by apply heard_cons|done]].
Qed.
Lemma filled_same id s m m' : keeps id m m' → filled id s m m'.
Proof. unfold keeps, filled. intros ->. by destruct (stunWaiters m !! id) as [[]|]; [..|left|]. Qed.

(** A query that still waits at the end of a script was waiting all along, and takes up a
    longer one where it is. *)
Lemma wait_split req to s2 m2 s1 : Forall (leaves (ID req)) s1 → ∀ w m, wait req to w (s1 ++ s2) m = Some ((None, []), m2) →
  ∃ w' m', wait req to w' s2 m' = Some ((None, []), m2) ∧ filled (ID req) s1 m m' ∧ ∀ rest, wait req to w (s1 ++ rest) m = wait req to w' rest m'.
Proof.
  induction 1 as [|t s1 Ht _ IH]; intros w m; cbn [app]; [intros H; exists w, m; split; [done|]; split; [by apply filled_same|done]|].
  assert (∀ w1 m1, wait req to w1 (s1 ++ s2) m1 = Some ((None, []), m2) → filled (ID req) [t] m m1 →
    (∀ rest, wait req to w (t :: s1 ++ rest) m = wait req to w1 (s1 ++ rest) m1) →
    ∃ w' m', wait req to w' s2 m' = Some ((None, []), m2) ∧ filled (ID req) (t :: s1) m m'
      ∧ ∀ rest, wait req to w (t :: s1 ++ rest) m = wait req to w' rest m') as Hgo.
  { intros w1 m1 Hrun Hf Hsame. destruct (IH w1 m1 Hrun) as (w' & m' & H1 & H2 & H3). exists w', m'. split; [done|].
    split; [by eapply filled_cons|]. intros rest. by rewrite Hsame, H3. }
  assert (filled (ID req) [t] m m) as Hm by by apply filled_same.
  destruct t as [c|dt| | | |].
  - intros ([] & m1 & Hc & Hrun)%bind_was. apply (Hgo w m1); [done| |intros rest; exact (bind_is _ _ _ _ _ Hc)].
    destruct (run_call_waiter _ _ _ _ Ht Hc) as [Hk|(Hn & p & f & a & -> & Hp & Ha)]; [by apply filled_same|].
    unfold filled. rewrite Hn. right. exists a. split; [|done]. exists p, f. split; [by left|done].
  - intros Hrun. by eapply Hgo.
  - intros Hrun. by eapply Hgo.
  - assert (∀ rest, wait req to w (WakesForAnswer :: rest) m
      = match stunWaiters m !! ID req with
        | Some (Some got) => Some ((Some (inr got), rest), m <| stunWaiters := <[ID req := None]> (stunWaiters m) |>)
        | _ => wait req to w rest m
        end) as Heq by (intros rest; cbn [wait]; unfold mbind, prog_bind, gets; by destruct (stunWaiters m !! ID req) as [[]|]).
    rewrite Heq. destruct (stunWaiters m !! ID req) as [[a|]|] eqn:Ew; [done|..]; intros Hrun; eapply Hgo; try done; intros rest; by rewrite Heq.
  - cbn [wait] in *. destruct (0 <? timer w); [intros Hrun; by eapply Hgo|]. cbv zeta in *. destruct (attempt w + 1 <? attempts); [|done].
    intros ([e|[]] & m1 & Hc & Hrun)%bind_was; [done|]. eapply Hgo; [exact Hrun|by apply filled_same, (WriteTo_keeps _ _ _ _ _ _ Hc)|].
    intros rest. by rewrite (bind_is _ _ _ _ _ Hc).
  - cbn [wait] in *. destruct (over w || _); [done|]. intros Hrun. by eapply Hgo.
Qed.
End asking.

(** C32: a public endpoint is what a server answered.  Whatever the rest of the daemon does
    meanwhile and whatever arrives from anybody, an address [PublicEndpoint] returns was
    read out of a packet that arrived while it waited, in answer to a request it drew; and
    when it returns, with an address or an error, it has taken its waiters away. *)
Theorem a_public_endpoint_was_answered {N : Noise} {E : Env} {R : Resolver} servers drawn s m r rest m' :
  (∀ id, Some id ∈ drawn → Forall (leaves id) s ∧ stunWaiters m !! id = None) →
  PublicEndpoint servers drawn s m = Some ((Some r, rest), m') →
  (∃ asked, s = asked ++ rest ∧ ∀ a, r = inr a → ∃ id, Some id ∈ drawn ∧ heard id asked a)
  ∧ (∀ id, Some id ∈ drawn → stunWaiters m' !! id = None).
Proof.
  intros Hs Hrun. split.
  - apply ask_servers_hears in Hrun as (pre & Hpre & H); [|intros id Hid; apply Hs, Hid]. exists pre. split; [done|]. intros a ->. by apply H.
  - intros id Hid. destruct (Hs id Hid). eapply ask_servers_leaves_none; [intros i Hi; apply Hs, Hi|done|done|exact Hrun].
Qed.

(** Three firings of the timer for each server, after its longest wait each. *)
Fixpoint rounds (k : nat) : list turn := match k with O => [] | S k => Passes (wait_of (attempts - 1)) :: WakesForTimer :: rounds k end.

(** What the socket reads is bytes. *)
Definition turn_wf (t : turn) : Prop := match t with Meanwhile c => call_wf c | _ => True end.

Section ends.
Context {N : Noise} {E : Env} {R : Resolver} {L : NoiseLaws N} {EL : EnvLaws E}.

Lemma steady_did {A} (f : prog Mesh A) m : steady f m → ∃ a m', f m = Some (a, m') ∧ mesh_wf m' ∧ indexed m'.
Proof. unfold steady, wp. destruct (f m) as [[a m']|]; [|done]. intros (? & ? & _). by exists a, m'. Qed.

Lemma WriteTo_did packet to m : mesh_wf m → indexed m → ∃ r m', WriteToUDPAddrPort packet to m = Some (r, m') ∧ mesh_wf m' ∧ indexed m'.
Proof. intros Hm Hi. by apply steady_did, steady_safe, safe_WriteTo. Qed.

(** A query that is still in one of its attempts. *)
Record patient (w : waiting) : Prop := mkPatient { pt_attempt : 0 ≤ attempt w < attempts; pt_timer : timer w ≤ wait_of (attempts - 1) }.

(** How a query ends: with [k] rounds to come it leaves all but what its attempts need. *)
Definition ended_well (n : Z) (s : list turn) (k : nat) (res : option ((option (query_error + AddrPort) * list turn) * Mesh)) : Prop :=
  ∃ r s' j m', res = Some ((Some r, s' ++ rounds j), m') ∧ Z.of_nat k ≤ Z.of_nat j + n ∧ s' `suffix_of` s ∧ mesh_wf m' ∧ indexed m'.

Lemma ended_here n s k r m' : 0 ≤ n → mesh_wf m' → indexed m' → ended_well n s k (Some ((Some r, s ++ rounds k), m')).
Proof. intros Hn Hm Hi. exists r, s, k, m'. split_and!; [done|lia|done..]. Qed.
Lemma ended_later n n' t s k res : n' ≤ n → ended_well n' s k res → ended_well n (t :: s) k res.
Proof. intros Hn (r & s' & j & m' & -> & Hj & Hs & Hm & Hi). exists r, s', j, m'. split_and!; [done|lia|by apply suffix_cons_r|done..]. Qed.

(** The timer fires: the next attempt, or the end. *)
Lemma fires req to w rest m (Q : option ((option (query_error + AddrPort) * list turn) * Mesh) → Prop) :
  mesh_wf m → indexed m → patient w → timer w ≤ 0 →
  (∀ r m', mesh_wf m' → indexed m' → Q (Some ((Some r, rest), m'))) →
  (∀ w' m', mesh_wf m' → indexed m' → patient w' → attempt w' = attempt w + 1 → Q (wait req to w' rest m')) →
  Q (wait req to w (WakesForTimer :: rest) m).
Proof.
  intros Hm Hi [Ha Ht] H0 Hend Hnext. cbn [wait]. destruct (Z.ltb_spec 0 (timer w)); [lia|]. cbv zeta.
  destruct (Z.ltb_spec (attempt w + 1) attempts); [|by apply Hend].
  destruct (WriteTo_did (RequestPacket req) to m Hm Hi) as ([e|[]] & m1 & Hw & Hm1 & Hi1); rewrite (bind_is _ _ _ _ _ Hw); [by apply Hend|].
  apply Hnext; [done..| |done]. unfold attempts in *. split; cbn; unfold wait_of, attempts; lia.
Qed.

Lemma wait_rounds req to w m k : mesh_wf m → indexed m → patient w → attempts - attempt w ≤ Z.of_nat k →
  ended_well (attempts - attempt w) [] k (wait req to w (rounds k) m).
Proof.
  revert w m. induction k as [|k IH]; intros w m Hm Hi [Ha Ht] Hk; [lia|]. change (rounds (S k)) with (Passes (wait_of (attempts - 1)) :: WakesForTimer :: rounds k).
  change (ended_well (attempts - attempt w) [] (S k) (wait req to (w <| timer := timer w - Z.max 0 (wait_of (attempts - 1)) |>
    <| deadline := deadline w - Z.max 0 (wait_of (attempts - 1)) |>) (WakesForTimer :: rounds k) m)).
  assert (0 ≤ wait_of (attempts - 1)) by done. apply fires; [done..|split; cbn; lia|cbn; lia| |].
  - intros r m' Hm' Hi'. exists r, [], k, m'. split_and!; [done|lia|done..].
  - intros w' m' Hm' Hi' Hp' Ha'. cbn in Ha'.
    destruct (IH w' m' Hm' Hi' Hp' ltac:(lia)) as (r & s' & j & m2 & -> & Hj & Hs & Hm2 & Hi2). exists r, s', j, m2. split_and!; [done|lia|done..].
Qed.

Lemma wait_ends req to s : Forall turn_wf s → ∀ w m k, mesh_wf m → indexed m → patient w → attempts - attempt w ≤ Z.of_nat k →
  ended_well (attempts - attempt w) s k (wait req to w (s ++ rounds k) m).
Proof.
  induction 1 as [|t s Ht _ IH]; intros w m k Hm Hi Hp Hk; [by apply wait_rounds|]. pose proof Hp as [Ha Htm].
  assert (0 ≤ attempts - attempt w) as Hpos by lia.
  assert (∀ w' m', mesh_wf m' → indexed m' → attempt w' = attempt w → timer w' ≤ timer w →
    ended_well (attempts - attempt w) (t :: s) k (wait req to w' (s ++ rounds k) m')) as Hgo.
  { intros w' m' Hm' Hi' Ea Ht'. apply (ended_later _ (attempts - attempt w')); [lia|]. apply IH; [done..|split; lia|lia]. }
  destruct t as [c|dt| | | |]; cbn [app].
  - destruct (steady_did _ _ (steady_run_call c m Hm Hi Ht)) as ([] & m1 & Hc & Hm1 & Hi1).
    cbn [wait]. rewrite (bind_is _ _ _ _ _ Hc). by apply Hgo.
  - cbn [wait]. apply Hgo; cbn; (done || lia).
  - cbn [wait]. by apply Hgo.
  - cbn [wait]. destruct (stunWaiters m !! ID req) as [[a|]|] eqn:Ew.
    + assert (∃ m', modify (λ m, m <| stunWaiters := <[ID req := None]> (stunWaiters m) |>) m = Some (tt, m') ∧ mesh_wf m' ∧ indexed m') as (m' & Hmod & Hm' & Hi').
      { destruct (steady_did _ _ (steady_run_call (CAwaitStun (ID req)) m Hm Hi I)) as ([] & m' & H & ?). by exists m'. }
      unfold mbind at 1, prog_bind at 1, gets at 1. rewrite Ew, (bind_is _ _ _ _ _ Hmod).
      apply (ended_later _ (attempts - attempt w)); [done|]. by apply ended_here.
    + unfold mbind at 1, prog_bind at 1, gets at 1. rewrite Ew. by apply Hgo.
    + unfold mbind at 1, prog_bind at 1, gets at 1. rewrite Ew. by apply Hgo.
  - destruct (Z.ltb_spec 0 (timer w)) as [H0|H0].
    + cbn [wait]. rewrite (proj2 (Z.ltb_lt _ _) H0). by apply Hgo.
    + apply fires; [done..| |].
      * intros r m' Hm' Hi'. apply (ended_later _ (attempts - attempt w)); [done|]. by apply ended_here.
      * intros w' m' Hm' Hi' Hp' Ha'. apply (ended_later _ (attempts - attempt w')); [lia|]. apply IH; [done..|lia].
  - cbn [wait]. destruct (_ || _); [|by apply Hgo]. apply (ended_later _ (attempts - attempt w)); [done|]. by apply ended_here.
Qed.

Lemma await_did id m : mesh_wf m → indexed m →
  ∃ m', await_stun id m = Some (tt, m') ∧ mesh_wf m' ∧ indexed m' ∧ stunWaiters m' = <[id := None]> (stunWaiters m).
Proof.
  intros Hm Hi. destruct (steady_did _ _ (steady_run_call (CAwaitStun id) m Hm Hi I)) as ([] & m' & [= <-] & Hm' & Hi').
  eexists. by split_and!.
Qed.
Lemma stop_awaiting_did id m : mesh_wf m → indexed m →
  ∃ o m', stop_awaiting_stun id m = Some (o, m') ∧ mesh_wf m' ∧ indexed m' ∧ stunWaiters m' !! id = None.
Proof.
  intros Hm Hi. destruct (steady_did _ _ (steady_run_call (CStopAwaitingStun id) m Hm Hi I)) as ([] & m' & [= <-] & Hm' & Hi').
  do 2 eexists. split_and!; [done..|]. apply lookup_delete_eq.
Qed.

Lemma queryStun_ends server drawn ended s m k : mesh_wf m → indexed m → Forall turn_wf s → attempts ≤ Z.of_nat k →
  ended_well attempts s k (queryStun server drawn ended (s ++ rounds k) m).
Proof.
  intros Hm Hi Hs Hk. unfold queryStun. destruct (resolveStun server) as [e|to]; [by apply ended_here|].
  destruct drawn as [id|]; [|by apply ended_here]. cbv zeta. set (req := NewRequest id).
  destruct (await_did (ID req) m Hm Hi) as (m1 & H1 & Hm1 & Hi1 & _). rewrite (bind_is _ _ _ _ _ H1).
  destruct (WriteTo_did (RequestPacket req) to m1 Hm1 Hi1) as (sent & m2 & H2 & Hm2 & Hi2). rewrite (bind_is _ _ _ _ _ H2).
  assert (ended_well attempts s k ((match sent with inl _ => mret (Some (inl RequestNotSent), s ++ rounds k)
    | inr _ => wait req to (mkWaiting 0 (wait_of 0) patience ended) (s ++ rounds k) end) m2)) as (r & s' & j & m3 & H3 & Hj & Hsuf & Hm3 & Hi3).
  { destruct sent as [e|[]]; [by apply ended_here|]. by apply (wait_ends req to s Hs (mkWaiting 0 (wait_of 0) patience ended)). }
  rewrite (bind_is _ _ _ _ _ H3). cbn [fst]. destruct (stop_awaiting_did (ID req) m3 Hm3 Hi3) as (o & m4 & H4 & Hm4 & Hi4 & _).
  rewrite (bind_is _ _ _ _ _ H4). by exists r, s', j, m4.
Qed.

Lemma logf_did l m : mesh_wf m → indexed m → ∃ m', logf l m = Some (tt, m') ∧ mesh_wf m' ∧ indexed m'.
Proof. intros Hm Hi. destruct (steady_did (logf l) m) as ([] & m' & ?); [by apply steady_safe, safe_logf|by exists m']. Qed.

Lemma ask_servers_ends servers drawn last ended s m k : mesh_wf m → indexed m → Forall turn_wf s →
  attempts * Z.of_nat (length servers) ≤ Z.of_nat k →
  ended_well (attempts * Z.of_nat (length servers)) s k (ask_servers servers drawn last ended (s ++ rounds k) m).
Proof.
  revert drawn last ended s m k. induction servers as [|server servers IH]; intros drawn last ended s m k Hm Hi Hs Hk; cbn [ask_servers]; [by apply ended_here|].
  assert (0 ≤ attempts * Z.of_nat (length (server :: servers))) by (unfold attempts; lia).
  destruct drawn as [|d drawn]; [by apply ended_here|]. cbn [length] in *. unfold attempts in Hk.
  destruct (queryStun_ends server d ended s m k Hm Hi Hs ltac:(unfold attempts; lia)) as (r & s1 & j & m1 & H1 & Hj & Hsuf & Hm1 & Hi1).
  unfold attempts in Hj. rewrite (bind_is _ _ _ _ _ H1). destruct r as [err|addr].
  - destruct (logf_did (StunServerSilent server) m1 Hm1 Hi1) as (m2 & H2 & Hm2 & Hi2). rewrite (bind_is _ _ _ _ _ H2).
    assert (Forall turn_wf s1) as Hs1 by (destruct Hsuf as [pre ->]; by apply Forall_app in Hs as [_ Hs]).
    destruct (IH drawn (Some err) (ended_by ended (s ++ rounds k) (s1 ++ rounds j)) s1 m2 j Hm2 Hi2 Hs1 ltac:(unfold attempts; lia))
      as (r & s2 & j2 & m3 & H3 & Hj2 & Hsuf2 & Hm3 & Hi3). unfold attempts in Hj2.
    exists r, s2, j2, m3. split_and!; [done|unfold attempts; lia|by etransitivity|done..].
  - destruct (logf_did (PublicEndpointIs addr server) m1 Hm1 Hi1) as (m2 & H2 & Hm2 & Hi2). rewrite (bind_is _ _ _ _ _ H2).
    exists (inr addr), s1, j, m2. split_and!; [done|unfold attempts; lia|done..].
Qed.

End ends.

(** Asking for the endpoint comes to an end.  Whatever happens meanwhile, a daemon
    whose servers say nothing has its answer, an address or an error, once the timer has
    fired three times for each of them; and the mesh is as well as it was. *)
Theorem asking_for_the_endpoint_ends {N : Noise} {E : Env} {R : Resolver} {L : NoiseLaws N} {EL : EnvLaws E} servers drawn s m k :
  mesh_wf m → indexed m → Forall turn_wf s → (3 * length servers ≤ k)%nat →
  ∃ r rest m', PublicEndpoint servers drawn (s ++ rounds k) m = Some ((Some r, rest), m') ∧ mesh_wf m' ∧ indexed m'.
Proof.
  intros Hm Hi Hs Hk. destruct (ask_servers_ends servers drawn None false s m k Hm Hi Hs ltac:(unfold attempts; lia))
    as (r & s' & j & m' & H & _ & _ & Hm' & Hi'). by exists r, (s' ++ rounds j), m'.
Qed.

(** C31: a server's answer reaches the asker.  A query for which a STUN server's answer has
    arrived, naming the address the server saw, in whichever attempt and whatever else was
    done, passed, fired or came in before and since, and which still waits, returns an
    address the next time it looks whether one has come: that one, or the one in an answer
    to the same request that arrived before it; and its waiter is taken away. *)
Theorem an_answer_reaches_the_asker {N : Noise} {E : Env} {R : Resolver} server id ap ended before from between m m1 :
  length id = 12%nat → ap_IsValid ap = true → addr_wf (ap_addr ap) → has_zone (ap_addr ap) = false → is_u16 (ap_port ap) →
  Forall (leaves id) (before ++ between) →
  queryStun server (Some id) ended (before ++ Meanwhile (CHandle (server_response id ap) from) :: between) m = Some ((None, []), m1) →
  ∃ a m', (a = ap ∨ heard id before a) ∧ stunWaiters m' !! id = None ∧ ∀ rest,
    queryStun server (Some id) ended (before ++ Meanwhile (CHandle (server_response id ap) from) :: between ++ WakesForAnswer :: rest) m
      = Some ((Some (inr a), rest), m').
Proof.
  intros Hid Hv Hwf Hz Hport [Hbefore Hbetween]%Forall_app. unfold queryStun. destruct (resolveStun server) as [e|to]; [done|].
  cbv zeta. set (req := NewRequest id). intros ([] & m2 & H2 & Hrun)%bind_was. apply bind_was in Hrun as (sent & m3 & H3 & Hrun).
  apply bind_was in Hrun as ([r1 rest1] & m4 & Hwait & Hrun). destruct r1 as [r1|].
  { apply bind_was in Hrun as (? & ? & _ & Hrun). by injection Hrun. }
  injection Hrun as -> ->. destruct sent as [e|[]]; [by injection Hwait|].
  assert (stunWaiters m3 !! id = Some None) as Hw3.
  { rewrite (WriteTo_keeps id _ _ _ _ _ H3). injection H2 as <-. apply lookup_insert_eq. }
  destruct (wait_split req to _ _ before Hbefore _ _ Hwait) as (w5 & m5 & Hwait5 & Hf5 & Hgo5).
  cbn [wait] in Hwait5. apply bind_was in Hwait5 as ([] & m6 & Hc & Hwait6).
  assert (∃ a, (a = ap ∨ heard id before a) ∧ stunWaiters m6 !! id = Some (Some a)) as (a & Ha & Hw6).
  { unfold filled in Hf5. cbn [ID req NewRequest] in Hf5. rewrite Hw3 in Hf5. destruct Hf5 as [Hw5|(a & Hh & Hw5)].
    - exists ap. split; [by left|]. eapply answer_kept; [by apply ParseResponse_server_response|exact Hw5|exact Hc].
    - exists a. split; [by right|]. by destruct (run_call_waiter id _ _ _ (I : leaves id (Meanwhile (CHandle _ from))) Hc) as [->|[Hn _]]; [|rewrite Hw5 in Hn]. }
  rewrite <-(app_nil_r between) in Hwait6.
  destruct (wait_split req to [] _ between Hbetween _ _ Hwait6) as (w7 & m7 & Hwait7 & Hf7 & Hgo7).
  unfold filled in Hf7. cbn [ID req NewRequest] in Hf7. rewrite Hw6 in Hf7.
  set (m8 := m7 <| stunWaiters := <[ID req := None]> (stunWaiters m7) |>).
  exists a, (m8 <| stunWaiters := delete (ID req) (stunWaiters m8) |>). split; [done|]. split; [apply lookup_delete_eq|]. intros rest.
  rewrite (bind_is _ _ _ _ _ H2), (bind_is _ _ _ _ _ H3).
  assert (wait req to (mkWaiting 0 (wait_of 0) patience ended)
    (before ++ Meanwhile (CHandle (server_response id ap) from) :: between ++ WakesForAnswer :: rest) m3 = Some ((Some (inr a), rest), m8)) as Hw8.
  { rewrite Hgo5. cbn [wait]. rewrite (bind_is _ _ _ _ _ Hc), Hgo7. cbn [wait]. unfold mbind, prog_bind, gets.
    cbn [ID req NewRequest] in *. by rewrite Hf7. }
  by rewrite (bind_is _ _ _ _ _ Hw8).
Qed.

(** ** Witnesses: a resolver that knows one name *)
Module Asked.
#[local] Instance resolver : Resolver := {|
  LookupHost name := if bool_decide (name = str "stun.test") then Some [str "2001:db8::1"; str "203.0.113.9"] else None;
  LookupPort := atoi_digits;
|}.
Definition id : list Z := replicate 12 9.
Definition seen : AddrPort := AddrPortFrom (Addr4 0xCB007105) 51820.
Definition mesh : @Mesh Plain.noise := plain_mesh [65] (Addr4 1) (replicate 32 1).
Definition addr : AddrPort := AddrPortFrom (Addr4 0xCB007109) 3479.
(** Another machine's packet, an answer to somebody else and then the answer, and the end. *)
Definition busy : list turn :=
  [Passes 100; Meanwhile (CHandle [1; 2; 3] addr); Meanwhile (CHandle (server_response (replicate 12 8) seen) addr)].
Definition script : list turn := busy ++ Meanwhile (CHandle (server_response id seen) addr) :: [Passes 1000] ++ [WakesForAnswer].

Lemma resolved : resolveStun (str "stun:stun.test:3479") = inr addr.
Proof. vm_compute. reflexivity. Qed.
Lemma well : mesh_wf mesh ∧ indexed mesh.
Proof. by apply New_wf. Qed.
End Asked.

Lemma a_public_endpoint_was_answered_witness :
  ∃ m' : @Mesh Plain.noise, @PublicEndpoint _ _ Asked.resolver [str "nobody"; str "stun:stun.test:3479"] [Some (replicate 12 7); Some Asked.id] Asked.script Asked.mesh
    = Some ((Some (inr Asked.seen), []), m')
  ∧ (∃ asked, Asked.script = asked ++ [] ∧ ∀ a, inr Asked.seen = inr (A := query_error) a →
      ∃ id, Some id ∈ [Some (replicate 12 7); Some Asked.id] ∧ heard id asked a)
  ∧ (∀ id, Some id ∈ [Some (replicate 12 7); Some Asked.id] → stunWaiters m' !! id = None).
Proof.
  destruct (@PublicEndpoint _ _ Asked.resolver [str "nobody"; str "stun:stun.test:3479"] [Some (replicate 12 7); Some Asked.id] Asked.script Asked.mesh)
    as [[[r rest] m']|] eqn:E.
  - assert (match @PublicEndpoint _ _ Asked.resolver [str "nobody"; str "stun:stun.test:3479"] [Some (replicate 12 7); Some Asked.id] Asked.script Asked.mesh with
      | Some ((Some (inr a), []), _) => bool_decide (a = Asked.seen) | _ => false end = true) as Hc by (vm_compute; reflexivity).
    rewrite E in Hc. destruct r as [[e|a]|]; try discriminate Hc. destruct rest; [|discriminate Hc]. apply bool_decide_eq_true in Hc. subst a.
    exists m'. split; [reflexivity|].
    refine (@a_public_endpoint_was_answered _ _ Asked.resolver _ _ _ _ _ _ _ _ E). intros id _. split; [repeat constructor|reflexivity].
  - exfalso. assert (bool_decide (is_Some (@PublicEndpoint _ _ Asked.resolver [str "nobody"; str "stun:stun.test:3479"] [Some (replicate 12 7); Some Asked.id] Asked.script Asked.mesh)) = true)
      as Hc by (vm_compute; reflexivity). rewrite E in Hc. discriminate Hc.
Defined.

Lemma asking_for_the_endpoint_ends_witness :
  ∃ r rest m', @PublicEndpoint _ _ Asked.resolver [str "nobody"; str "stun:stun.test"] [Some (replicate 12 7); Some Asked.id] (Asked.busy ++ rounds 6) Asked.mesh
    = Some ((Some r, rest), m') ∧ mesh_wf m' ∧ indexed m'.
Proof.
  apply (asking_for_the_endpoint_ends (R := Asked.resolver)); [apply Asked.well|apply Asked.well| |reflexivity].
  repeat (constructor; [first [exact I|apply (bool_decide_unpack _); vm_compute; exact I]|]). constructor.
Defined.

(** In its second attempt, after an answer to somebody else, and the same answer twice. *)
Lemma an_answer_reaches_the_asker_witness :
  let before := Asked.busy ++ [Passes 400; WakesForTimer; WakesForAnswer] in
  let arrives := Meanwhile (CHandle (server_response Asked.id Asked.seen) Asked.addr) in
  ∃ a m', (a = Asked.seen ∨ heard Asked.id before a) ∧ stunWaiters m' !! Asked.id = None ∧ ∀ rest,
    @queryStun _ _ Asked.resolver (str "stun:stun.test:3479") (Some Asked.id) false
      (before ++ arrives :: [Passes 10; arrives; Cancel] ++ WakesForAnswer :: rest) Asked.mesh
    = Some ((Some (inr a), rest), m').
Proof.
  cbv zeta. set (arrives := Meanwhile (CHandle (server_response Asked.id Asked.seen) Asked.addr)).
  set (before := Asked.busy ++ [Passes 400; WakesForTimer; WakesForAnswer]).
  destruct (@queryStun _ _ Asked.resolver (str "stun:stun.test:3479") (Some Asked.id) false
    (before ++ arrives :: [Passes 10; arrives; Cancel]) Asked.mesh) as [[[[r|] rest] m1]|] eqn:E;
    [exfalso|destruct rest|exfalso].
  2: eapply (an_answer_reaches_the_asker (R := Asked.resolver)) with (7 := E); try reflexivity;
      try (apply (bool_decide_unpack _); vm_compute; exact I); repeat constructor.
  all: apply (f_equal (λ x, match x with Some ((None, []), _) => true | _ => false end)) in E; vm_compute in E; discriminate E.
Defined.
